(* ===== verification/_CoqProject ===== *)
-Q . S2P
Prelude.v
Regex.v
Floats.v
PiiPatterns.v
Fingerprint.v
Sentinel.v
SkillLifecycle.v
SessionTrace.v
Distill.v
Forge.v
AuditChain.v
AuditQueue.v
Documents.v
Promoter.v
Inbox.v
SkillStore.v
Interleaving.v
Idempotency.v
Retry.v
Enrichment.v
Slots.v
Contradictions.v
EmitTriple.v
WriteCalls.v
WritePipeline.v
WriteGovernance.v
Auth.v
Agents.v
AgentRoutes.v
AgentSystem.v
Chunking.v
Trace.v
Ingest.v
Evolve.v
Settings.v
