(* ===== verification/Prelude.v ===== *)
(** * MemClaw verification library

    MemClaw is a shared memory for fleets of agents: an API service
    (core-api), a storage service over PostgreSQL (core-storage-api), a worker
    and a library they share (common), all in Python on asyncio.  Handlers of
    the API call the storage service over HTTP; background tasks distil
    skills, detect contradictions and flush audit events.  This library models
    the parts whose correctness does not follow from a framework or from one
    SQL statement, and proves what they promise.

    ** Parts, files and sources

    Shared ground.
    - [Prelude] (this file): results and effects ([res], [io], and the program
      logic [io_spec]), Python values and dictionaries in insertion order
      ([pyval], [pydict]), strings as UTF-8 bytes, sorting and grouping, the
      tactics and hints.
    - [Regex]: the fragment of [re] the sources use, parser, backtracking
      matcher and its meaning.  [Floats]: binary64 by [SpecFloat].
    - [Interleaving]: handlers as programs of HTTP calls whose servers run
      transactions of atomic SQL statements, any number at once; clocks,
      abandoned calls, an environment; a logic [wp] with its soundness
      theorem [run_ok].

    The Skill Factory, which turns traces of agents into skill documents.
    - [SessionTrace] (services/outcome_inference, services/session_trace.py):
      evidence extractors and the trace builder.
    - [Fingerprint], [Distill], [Forge] (services/forge/fingerprint.py,
      distill_prompt.py, forge_service.py): clustering, canonical hash, prompt
      and parser, and the run that writes candidates.
    - [Sentinel] (services/forge/sentinel_scan.py): the scanner of skills.
    - [SkillLifecycle] (services/skill_lifecycle.py): the pre-write validator
      and the auto-gates.
    - [Documents] (document and fingerprint methods of postgres_service.py,
      services/forge/poison.py): the store, as a client sees it among others.
    - [Promoter], [Inbox] (services/skill_promoter.py,
      routes/skills_inbox.py): its two kinds of client.
    - [SkillStore] (services/forge/cron_handler.py): Forge, promoter and Inbox
      together.

    Audit.
    - [AuditQueue] (services/audit_queue.py): the bounded queue and flusher.
    - [AuditChain] (core_storage_api/services/audit_chain.py and
      postgres_service.py): the hash chain per tenant and its verifier.

    Requests and their storage calls.
    - [Idempotency] (middleware/idempotency.py, its router, client and SQL,
      and the routes that use it): claim, poll, replay, record.
    - [Retry] (common/http_retry.py, common/llm/retry.py, the verbs of both
      storage clients): retry policies and provider fallback.
    - [Slots] (both per_tenant_concurrency.py): semaphores per tenant, on a
      model of [asyncio.Semaphore].

    Memories.
    - [PiiPatterns] (common/governance, common PII patterns): findings of the
      detectors, overlaps, masking.  [Enrichment] (common/enrichment): the
      record made of a model's answer, well typed whatever the answer.
      [EmitTriple] (common/enrichment, the triple rules): subject, predicate
      and object of a memory.
    - [WriteCalls], [WritePipeline], [WriteGovernance]
      (core_api/pipeline, services/governance_guard.py and the write half of
      services/memory_service.py): the calls a write makes, its steps in fast,
      strong and auto-chunked modes, and what the governance of content
      promises of them.
    - [Contradictions] (services/contradiction_detector.py,
      services/subject_preflight.py, the status routes and queries of the
      storage service): which memory supersedes which.

    Documents.
    - [Chunking] (services/ingest_chunking.py): Markdown and plain text cut
      into sections.  [Ingest] (services/ingest_service.py and its routes):
      fetching a page, a preview of its facts and their commit.

    Requests as programs over their calls.
    - [Trace]: programs whose calls may answer anything, and a logic of the
      traces they leave; [Ingest], [Evolve] and [Settings] are written in it.
    - [Evolve] (services/evolve_service.py, utils/sanitize.py, the evolve
      routes and passes of both services): an outcome reported for memories,
      their weights moved, a rule made of it.
    - [Settings] (services/organization_settings.py,
      common/organization_settings_merge.py and the settings transaction of
      postgres_service.py): schema, validation, merge, audited update, and
      the values resolved from what is stored.

    Callers.
    - [Auth] (auth.py, suppression.py, the middleware of mcp_server.py): the
      context of a request and its gates, the cache of suppressed tenants, the
      identity tools run under.
    - [Agents] (services/agent_service.py, trust_service.py,
      caller_identity.py, the agent methods and routes of the storage
      service): the table of agents, owners, fleets, trust.
    - [AgentRoutes] (routes/memories.py, agents.py, fleet.py, evolve.py,
      mcp_server.py): the routes and tools that act for an agent, up to the
      work behind their gates.  [AgentSystem]: any number of them at once.

    State is a record per component with the names of the source's attributes
    or columns; an operation is a definition with the source's name; a SQL
    statement is one function of the table, a transaction a [tx] or one step
    of a world.  Exceptions are values.  What another task can do between two
    awaits is what the environment of a step relation may do.

    ** What the theorems show

    - Invariants of whole systems, in every interleaving: an active skill was
      vetted ([skills_stay_vetted]); every audit chain verifies
      ([audit_chain_verifies]); links between memories are acyclic
      ([supersession_acyclic]); accepted audit events are conserved
      ([audit_queue_conserves]); installs keep apart unless they read a row
      without owner ([installs_keep_apart]); trust above the default was given
      by an administrator or a tenant ([trust_is_given_out]); stored settings
      would be accepted as an update ([settings_stay_valid]).
    - Safety of single operations against any others: approvals, promotions,
      rejections, exclusive runs under one idempotency key, tamper evidence,
      slots within their caps, access to a memory by id
      ([access_by_id_is_checked]), content that reaches the store governed
      ([gate_governs_writes], [decision_binds_row]), one row for a write at
      most, suppression within thirty seconds ([suppression_locks_out]), pages
      fetched from public hosts only ([fetch_guarded]), weights moved in the
      scope of the caller only ([evolve_within_scope]).
    - Functional specifications on every branch: the scanner's verdict, the
      validator, gates, labels, attribution of contradictions, the report of
      an outcome ([outcome_recorded]), errors and their status codes.
    - Termination and bounds: runs return, the queue drains, calls are retried
      a bounded number of times with bounded sleeps, the fallback chain
      answers.
    - Agreement of parts: Forge's candidates pass the gates of the lifecycle
      unless quarantined ([distill_cluster_passes_gates]); a fast write is
      remediated as a strong one is decided ([remediation_follows_decision]);
      tools and REST derive one identity ([mcp_agrees_with_rest]); sections
      are the one greedy cut of the blocks ([chunk_blocks_cut]), blocks those
      of the Markdown tree ([read_all_tree]); a settings update writes what
      the merge says and its audit row says the same ([update_applies]).

    ** Parameters, bounds and fuel

    Outside code is an argument: [sha256], JSON parsing and printing,
    [isoformat] and [fromisoformat], the Unicode tables of [str.lower] and of
    character classes ([PyText], lawful on ASCII), vector search, the answers
    of models.  Laws are stated where a theorem needs them (injectivity and
    length of the hash, that queries answer with rows of the table) and each
    such theorem has a witness.  Environments are as free as the sources
    allow; what they may not do (another writer setting a pointer or a date,
    two processes sharing one flusher) is stated where they are defined.

    Fuel is used where a recursion is not structural: a repetition in a
    regular expression takes the length of the text that is left, which
    [star_run_sem] shows to be enough; the pattern parser takes a
    multiple of the length of the pattern, and every pattern is shown to
    compile; slicing a queue takes the number of its events, enough by
    [chunks_of_spec].  Retry and poll loops carry the attempts left, the
    loop's own bound.  Integers of Python are [Z], times are microseconds,
    floats keep their width.

    ** Not modelled, and why

    Model prompts and answers, vector ranking and embedding: their content is
    not the program's.  Framework glue (FastAPI, MCP, Pub/Sub, slowapi),
    logging, configuration, migrations, scripts, the TypeScript plugin and the
    client libraries.  Of the write path, the bulk and the deprecated path
    behind their gates, an update behind its gates, and what the background
    tasks of a write do.  Of the rest, recall and its ranking, insights,
    entities, crystals, reports, keystones, and the expiry of cached
    settings. *)

From Stdlib Require Export Ascii String.
From stdpp Require Export base list strings sorting gmap pretty.
From Stdlib Require Export ZArith Lia QArith.QArith_base.
(* QArith opens no scope by itself; the text below works in Z and nat. *)

#[global] Open Scope Z_scope.
#[global] Open Scope list_scope.

(** ** Results: calls that return a value or raise

    [res E A] is the outcome of a Python call: [Ok a] when it returns [a],
    [Err e] when it raises [e].  stdpp's monad notation ([x ← m; k]) sequences
    such calls and stops at the first exception. *)
Inductive res (E A : Type) : Type :=
| Ok (a : A)
| Err (e : E).
Arguments Ok {E A} a.
Arguments Err {E A} e.

#[global] Instance res_ret E : MRet (res E) := fun A a => Ok a.
#[global] Instance res_bind E : MBind (res E) :=
  fun A B f m => match m with Ok a => f a | Err e => Err e end.
#[global] Instance res_fmap E : FMap (res E) :=
  fun A B f m => match m with Ok a => Ok (f a) | Err e => Err e end.

Declare Scope memclaw_scope.
#[global] Open Scope memclaw_scope.

(** [raise_if b with e ;; k] is Python's [if b: raise e] followed by [k]. *)
Notation "'raise_if' b 'with' e ;; k" := (if b then Err e else k)
  (at level 10, b at level 99, e at level 99, k at level 200,
   format "'raise_if'  b  'with'  e ;; '//' k") : memclaw_scope.

(** The exceptions of the language the sources can let escape. *)
Inductive pyexn : Type :=
| TypeError
| AttributeError
| ValueError
| KeyError
| RuntimeError
| OtherExc (name : string).
#[global] Instance pyexn_eq_dec : EqDecision pyexn.
Proof. solve_decision. Defined.

Section ResLemmas.
Context {E A B : Type}.

Lemma res_bind_Ok (m : res E A) (f : A → res E B) b :
  m ≫= f = Ok b ↔ ∃ a, m = Ok a ∧ f a = Ok b.
Proof. destruct m; cbn; naive_solver. Qed.

Lemma res_bind_Err (m : res E A) (f : A → res E B) e :
  m ≫= f = Err e ↔ m = Err e ∨ ∃ a, m = Ok a ∧ f a = Err e.
Proof. destruct m; cbn; naive_solver. Qed.

Lemma raise_if_Ok (b : bool) (e : E) (k : res E A) a :
  (if b then Err e else k) = Ok a ↔ b = false ∧ k = Ok a.
Proof. destruct b; naive_solver. Qed.
End ResLemmas.

Definition is_ok {E A} (r : res E A) : bool :=
  match r with Ok _ => true | Err _ => false end.

Lemma is_ok_spec {E A} (r : res E A) : is_ok r = true ↔ ∃ a, r = Ok a.
Proof. destruct r; cbn; naive_solver. Qed.

Lemma is_ok_bind {E A B} (r : res E A) (f : A → res E B) :
  is_ok (r ≫= f) = true ↔ is_ok r = true ∧ ∀ a, r = Ok a → is_ok (f a) = true.
Proof. destruct r; cbn; naive_solver. Qed.

(** [for x in l: out.append(...)] where building an entry may raise, and an
    entry may be skipped. *)
Fixpoint collect {E A B} (f : A → res E (option B)) (l : list A) : res E (list B) :=
  match l with
  | [] => Ok []
  | x :: l =>
      o ← f x;
      rest ← collect f l;
      Ok (match o with Some b => b :: rest | None => rest end)
  end.

(** The same loop when no entry is skipped. *)
Definition collect_all {E A B} (f : A → res E B) : list A → res E (list B) :=
  collect (λ x, y ← f x; Ok (Some y)).

Lemma collect_Ok {E A B} (f : A → res E (option B)) l out :
  collect f l = Ok out ↔ ∃ os, Forall2 (λ x o, f x = Ok o) l os ∧ out = omap id os.
Proof.
  revert out. induction l as [|x l IH]; intros out; cbn.
  - split; [intros [= <-]; by exists []|]. by intros (os & ->%Forall2_nil_inv_l & ->).
  - rewrite res_bind_Ok. setoid_rewrite res_bind_Ok. setoid_rewrite IH. split.
    + intros (o & Hx & rest & (os & Hos & ->) & [= <-]). exists (o :: os).
      split; [by constructor|]. by destruct o.
    + intros (os & Hos & ->). inversion Hos as [|? o ? os' Hx Hos']; subst.
      exists o. split; [done|]. exists (omap id os'). split; [by exists os'|]. by destruct o.
Qed.

Lemma collect_elem {E A B} (f : A → res E (option B)) l out y :
  collect f l = Ok out → y ∈ out ↔ ∃ x, x ∈ l ∧ f x = Ok (Some y).
Proof.
  intros (os & Hos & ->)%collect_Ok. rewrite list_elem_of_omap. split.
  - intros (o & Ho & Hy). apply list_elem_of_lookup in Ho as [i Hi].
    destruct (Forall2_lookup_r _ _ _ _ _ Hos Hi) as (x & Hx & Hfx). exists x.
    split; [by eapply list_elem_of_lookup_2|]. cbn in Hy. by subst.
  - intros (x & Hx & Hfx). apply list_elem_of_lookup in Hx as [i Hi].
    destruct (Forall2_lookup_l _ _ _ _ _ Hos Hi) as (o & Ho & Hfo). exists o.
    split; [by eapply list_elem_of_lookup_2|]. cbn. congruence.
Qed.

Lemma collect_is_ok {E A B} (f : A → res E (option B)) l :
  (∀ x, x ∈ l → is_ok (f x) = true) → is_ok (collect f l) = true.
Proof.
  induction l as [|x l IH]; [done|]. intros Hf. cbn. rewrite is_ok_bind.
  split; [apply Hf; by left|]. intros o _. rewrite is_ok_bind.
  split; [|done]. apply IH. intros y Hy. apply Hf. by right.
Qed.

Lemma collect_all_Ok {E A B} (f : A → res E B) l out :
  collect_all f l = Ok out ↔ Forall2 (λ x y, f x = Ok y) l out.
Proof.
  unfold collect_all. revert out. induction l as [|x l IH]; intros out; cbn.
  - split; [intros [= <-]; constructor|]. by intros ->%Forall2_nil_inv_l.
  - rewrite res_bind_Ok. setoid_rewrite res_bind_Ok. setoid_rewrite IH. split.
    + intros (o & (y & Hy & [= <-]) & rest & Hr & [= <-]). by constructor.
    + intros Hos. inversion Hos as [|? y ? ys Hx Hos']; subst.
      exists (Some y). split; [by exists y|]. by exists ys.
Qed.

(** *** Calls with effects

    [io W E A]: a call that reads and changes a world of type [W], the part of
    the system outside the function, and then returns or raises. *)
Definition io (W E A : Type) : Type := W → res E A * W.
#[global] Instance io_ret W E : MRet (io W E) := λ A a w, (Ok a, w).
#[global] Instance io_bind W E : MBind (io W E) := λ A B f m w,
  match m w with (Ok a, w') => f a w' | (Err e, w') => (Err e, w') end.
Definition io_lift {W E A} (r : res E A) : io W E A := λ w, (r, w).
Definition io_raise {W E A} (e : E) : io W E A := λ w, (Err e, w).
Definition io_read {W E A} (f : W → A) : io W E A := λ w, (Ok (f w), w).

(** [raise] under a new exception type. *)
Definition map_err {E F A} (f : E → F) (r : res E A) : res F A :=
  match r with Ok a => Ok a | Err e => Err (f e) end.

Lemma io_bind_Ok {W E A B} (m : io W E A) (f : A → io W E B) w b w' :
  (m ≫= f) w = (Ok b, w') ↔ ∃ a w1, m w = (Ok a, w1) ∧ f a w1 = (Ok b, w').
Proof.
  unfold mbind, io_bind. destruct (m w) as [[a|e] w1]; split.
  - intros Hf. by exists a, w1.
  - by intros (? & ? & [= <- <-] & ?).
  - done.
  - by intros (? & ? & ? & ?).
Qed.

(** What a call keeps of the world, whatever it returns. *)
Definition io_keeps {W E A} (R : W → W → Prop) (m : io W E A) : Prop :=
  ∀ w, R w (m w).2.

Section IoKeeps.
Context {W E : Type} (R : W → W → Prop) `{!PreOrder R}.

Lemma io_keeps_bind {A B} (m : io W E A) (f : A → io W E B) :
  io_keeps R m → (∀ a, io_keeps R (f a)) → io_keeps R (m ≫= f).
Proof.
  intros Hm Hf w. unfold mbind, io_bind. specialize (Hm w).
  destruct (m w) as [[a|e] w1]; cbn in *; [|done]. etrans; [exact Hm|apply Hf].
Qed.
Lemma io_keeps_ret {A} (a : A) : io_keeps (E:=E) R (mret a).
Proof. by intros w. Qed.
Lemma io_keeps_lift {A} (r : res E A) : io_keeps R (io_lift r).
Proof. by intros w. Qed.
Lemma io_keeps_raise {A} (e : E) : io_keeps (A:=A) R (io_raise e).
Proof. by intros w. Qed.
Lemma io_keeps_read {A} (f : W → A) : io_keeps (E:=E) R (io_read f).
Proof. by intros w. Qed.
End IoKeeps.

(** [try: m except E: handle]: the exception is looked at, never the world. *)
Definition io_try {W E A B} (m : io W E A) (ok : A → io W E B) (handle : E → io W E B) : io W E B :=
  λ w, match m w with (Ok a, w') => ok a w' | (Err e, w') => handle e w' end.

(** A call keeps the invariant [P] of the world, whatever it returns, and
    what it returns satisfies [Q]. *)
Definition io_spec {W E A} (P : W → Prop) (m : io W E A) (Q : A → Prop) : Prop :=
  ∀ w, P w → P (m w).2 ∧ ∀ a, (m w).1 = Ok a → Q a.

Section IoSpec.
Context {W E : Type} (P : W → Prop).

Lemma io_spec_bind {A B} (m : io W E A) (f : A → io W E B) Q R :
  io_spec P m Q → (∀ a, Q a → io_spec P (f a) R) → io_spec P (m ≫= f) R.
Proof.
  intros Hm Hf w Hw. unfold mbind, io_bind. destruct (Hm w Hw) as [Hp Hq].
  destruct (m w) as [[a|e] w1]; cbn in *; [|done]. by apply (Hf a); [apply Hq|].
Qed.
Lemma io_spec_try {A B} (m : io W E A) (ok : A → io W E B) handle Q R :
  io_spec P m Q → (∀ a, Q a → io_spec P (ok a) R) → (∀ e, io_spec P (handle e) R) →
  io_spec P (io_try m ok handle) R.
Proof.
  intros Hm Hok Hh w Hw. unfold io_try. destruct (Hm w Hw) as [Hp Hq].
  destruct (m w) as [[a|e] w1]; cbn in *; [|by apply Hh]. by apply (Hok a); [apply Hq|].
Qed.
Lemma io_spec_ret {A} (a : A) (Q : A → Prop) : Q a → io_spec (E:=E) P (mret a) Q.
Proof. intros Ha w Hw. split; [done|]. by intros b [= <-]. Qed.
Lemma io_spec_lift {A} (r : res E A) (Q : A → Prop) :
  (∀ a, r = Ok a → Q a) → io_spec P (io_lift r) Q.
Proof. intros Hr w Hw. by split. Qed.
Lemma io_spec_raise {A} (e : E) (Q : A → Prop) : io_spec P (io_raise e) Q.
Proof. intros w Hw. by split. Qed.
Lemma io_spec_read {A} (f : W → A) (Q : A → Prop) :
  (∀ w, P w → Q (f w)) → io_spec (E:=E) P (io_read f) Q.
Proof. intros Hf w Hw. split; [done|]. intros a [= <-]. by apply Hf. Qed.
Lemma io_spec_impl {A} (m : io W E A) (Q R : A → Prop) :
  io_spec P m Q → (∀ a, Q a → R a) → io_spec P m R.
Proof. intros Hm Hq w Hw. destruct (Hm w Hw). split; [done|]. auto. Qed.
End IoSpec.

Lemma List_filter_sublist {A} (f : A → bool) l : List.filter f l `sublist_of` l.
Proof. induction l as [|x l IH]; cbn; [done|]. destruct (f x); by constructor. Qed.

(** ** Python values

    The values of JSON documents and of the dictionaries the services pass
    around.  [str] values are their UTF-8 encodings, so that equality,
    concatenation, code point order and byte length are those of Rocq's
    [string].  A finite float is its exact rational value.  A [datetime] is
    the microseconds of its wall-clock reading and its UTC offset, [None] for
    a naive one.  A [dict] keeps its insertion order. *)
Record datetime : Type := DateTime { dt_wall : Z; dt_offset : option Z }.

Inductive pyval : Type :=
| PNone
| PBool (b : bool)
| PInt (z : Z)
| PFloat (q : Q)
| PStr (s : string)
| PTime (t : datetime)
| PList (l : list pyval)
| PDict (d : list (string * pyval)).

(** Induction through the lists and dictionaries of a value. *)
Section PyvalInd.
Context (P : pyval → Prop).
Context (Hnone : P PNone) (Hbool : ∀ b, P (PBool b)) (Hint : ∀ z, P (PInt z))
  (Hfloat : ∀ q, P (PFloat q)) (Hstr : ∀ s, P (PStr s)) (Htime : ∀ t, P (PTime t))
  (Hlist : ∀ l, Forall P l → P (PList l))
  (Hdict : ∀ d, Forall (λ kv, P kv.2) d → P (PDict d)).

Fixpoint pyval_ind' (v : pyval) : P v :=
  match v with
  | PNone => Hnone
  | PBool b => Hbool b
  | PInt z => Hint z
  | PFloat q => Hfloat q
  | PStr s => Hstr s
  | PTime t => Htime t
  | PList l =>
      Hlist l ((fix go l : Forall P l :=
                  match l with
                  | [] => Forall_nil_2 _
                  | x :: l => Forall_cons_2 _ _ _ (pyval_ind' x) (go l)
                  end) l)
  | PDict d =>
      Hdict d ((fix go d : Forall (λ kv, P kv.2) d :=
                  match d with
                  | [] => Forall_nil_2 _
                  | kv :: d => Forall_cons_2 _ _ _ (pyval_ind' kv.2) (go d)
                  end) d)
  end.
End PyvalInd.

Abbreviation pydict := (list (string * pyval)).

(** Python's [v or w] and [if v]: the truth value of an object. *)
Definition truthy (v : pyval) : bool :=
  match v with
  | PNone => false
  | PBool b => b
  | PInt z => negb (z =? 0)
  | PFloat q => negb (Qnum q =? 0)
  | PStr s => negb (String.eqb s "")
  | PTime _ => true
  | PList l => match l with [] => false | _ => true end
  | PDict d => match d with [] => false | _ => true end
  end.

(** Values [x in frozenset] can hash; the others raise [TypeError]. *)
Definition hashable (v : pyval) : bool :=
  match v with PList _ | PDict _ => false | _ => true end.

Definition as_str (v : pyval) : option string :=
  match v with PStr s => Some s | _ => None end.
(** [isinstance(v, int)]: [bool] is a subclass of [int]. *)
Definition as_int (v : pyval) : option Z :=
  match v with PInt z => Some z | PBool b => Some (Z.b2z b) | _ => None end.
Definition as_dict (v : pyval) : option pydict :=
  match v with PDict d => Some d | _ => None end.
Definition as_list (v : pyval) : option (list pyval) :=
  match v with PList l => Some l | _ => None end.

(** *** Dictionaries: [d.get(k)], [d[k] = v], [k in d] *)
Section Dict.
Context {V : Type}.
Implicit Types d : list (string * V).

Fixpoint dget d (k : string) : option V :=
  match d with
  | [] => None
  | (k', v) :: d' => if String.eqb k k' then Some v else dget d' k
  end.

Fixpoint dset d (k : string) (v : V) : list (string * V) :=
  match d with
  | [] => [(k, v)]
  | (k', v') :: d' =>
      if String.eqb k k' then (k', v) :: d' else (k', v') :: dset d' k v
  end.

Definition dhas d (k : string) : bool :=
  match dget d k with Some _ => true | None => false end.

Definition dkeys d : list string := d.*1.

Lemma dget_dset d k v : dget (dset d k v) k = Some v.
Proof.
  induction d as [|[k' v'] d IH]; cbn; [by rewrite String.eqb_refl|].
  destruct (String.eqb_spec k k') as [->|Hne]; cbn.
  - by rewrite String.eqb_refl.
  - by destruct (String.eqb_spec k k').
Qed.

Lemma dget_dset_ne d k k' v : k ≠ k' → dget (dset d k v) k' = dget d k'.
Proof.
  intros Hne. induction d as [|[k0 v0] d IH]; cbn.
  - by destruct (String.eqb_spec k' k) as [->|].
  - destruct (String.eqb_spec k k0) as [->|]; cbn.
    + by destruct (String.eqb_spec k' k0) as [->|].
    + destruct (String.eqb_spec k' k0); [done|]. exact IH.
Qed.

Lemma dhas_dset d k k' v : dhas (dset d k v) k' = String.eqb k k' || dhas d k'.
Proof.
  unfold dhas. destruct (String.eqb_spec k k') as [->|Hne].
  - by rewrite dget_dset.
  - by rewrite dget_dset_ne.
Qed.

(** [d.pop(k, None)] *)
Definition dpop d (k : string) : list (string * V) :=
  List.filter (λ kv, negb (String.eqb kv.1 k)) d.
Lemma dget_dpop d k : dget (dpop d k) k = None.
Proof.
  induction d as [|[k' v] d IH]; [done|]. cbn. destruct (String.eqb_spec k' k) as [->|Hne]; cbn; [done|].
  destruct (String.eqb_spec k k'); [congruence|done].
Qed.
Lemma dget_dpop_ne d k k' : k ≠ k' → dget (dpop d k) k' = dget d k'.
Proof.
  intros Hne. induction d as [|[k0 v] d IH]; [done|]. cbn.
  destruct (String.eqb_spec k0 k) as [->|]; cbn.
  - by destruct (String.eqb_spec k' k); [congruence|].
  - by destruct (String.eqb_spec k' k0).
Qed.

Lemma dget_None d k : dget d k = None ↔ k ∉ dkeys d.
Proof.
  unfold dkeys. induction d as [|[k' v'] d IH]; cbn.
  - split; [intros _; apply not_elem_of_nil|done].
  - rewrite not_elem_of_cons. destruct (String.eqb_spec k k'); naive_solver.
Qed.

Lemma dget_Some d k v : dget d k = Some v → (k, v) ∈ d.
Proof.
  induction d as [|[k' v'] d IH]; cbn; [done|].
  destruct (String.eqb_spec k k') as [->|]; [intros [= ->]; by left|]. intros Hd. right. auto.
Qed.

Lemma dget_elem d k v : NoDup (dkeys d) → (k, v) ∈ d → dget d k = Some v.
Proof.
  unfold dkeys. induction d as [|[k' v'] d IH]; cbn; [by intros _ Hin%not_elem_of_nil|].
  intros [Hni Hnd]%NoDup_cons [[= -> ->]|Hin]%elem_of_cons; [by rewrite String.eqb_refl|].
  destruct (String.eqb_spec k k') as [->|]; [|auto]. destruct Hni.
  apply list_elem_of_fmap. by exists (k', v).
Qed.

Lemma dget_Permutation d d' k : NoDup (dkeys d) → d ≡ₚ d' → dget d k = dget d' k.
Proof.
  intros Hnd Hp. assert (Hnd' : NoDup (dkeys d')) by (unfold dkeys in *; by rewrite <- Hp).
  destruct (dget d k) as [v|] eqn:Hd.
  - symmetry. apply dget_elem; [done|]. rewrite <- Hp. by apply dget_Some.
  - symmetry. apply dget_None. apply dget_None in Hd. unfold dkeys in *. by rewrite <- Hp.
Qed.

Lemma dpop_id d k : k ∉ dkeys d → dpop d k = d.
Proof.
  unfold dkeys. induction d as [|[k' v] d IH]; [done|]. cbn. rewrite not_elem_of_cons. intros [Hne Hn].
  destruct (String.eqb_spec k' k); [congruence|]. cbn. f_equal. by apply IH.
Qed.
Lemma dpop_Permutation d k v : NoDup (dkeys d) → dget d k = Some v → (k, v) :: dpop d k ≡ₚ d.
Proof.
  unfold dkeys. induction d as [|[k' v'] d IH]; [done|]. cbn. rewrite NoDup_cons. intros [Hn Hnd].
  destruct (String.eqb_spec k k') as [<-|Hne].
  - intros [= ->]. rewrite String.eqb_refl. cbn. pose proof (dpop_id d k Hn) as E. unfold dpop in E.
    by rewrite E.
  - intros Hg. destruct (String.eqb_spec k' k); [congruence|]. cbn.
    rewrite Permutation_swap. f_equiv. by apply IH.
Qed.
Lemma dkeys_dset_NoDup d k v : NoDup (dkeys d) → NoDup (dkeys (dset d k v)).
Proof.
  unfold dkeys. induction d as [|[k' v'] d IH]; cbn; intros Hnd.
  - apply NoDup_singleton.
  - apply NoDup_cons in Hnd as [Hni Hnd].
    destruct (String.eqb_spec k k') as [->|Hne]; cbn.
    + by apply NoDup_cons.
    + apply NoDup_cons. split; [|by apply IH].
      rewrite <- (dget_None _ k').
      fold (dkeys d) in Hni. rewrite <- dget_None in Hni.
      by rewrite dget_dset_ne.
Qed.
End Dict.

(** [dget] through an optional dictionary, as [(d or {}).get(k)]. *)
Definition dgetv (d : pydict) (k : string) : pyval := default PNone (dget d k).

(** The numeric value shared by [bool], [int] and [float]. *)
Definition py_num (v : pyval) : option Q :=
  match v with
  | PBool b => Some (inject_Z (Z.b2z b))
  | PInt z => Some (inject_Z z)
  | PFloat q => Some q
  | _ => None
  end.

(** Python's [==] on these values: numbers by value across their types, lists
    elementwise, dictionaries regardless of order.  Naive and aware datetimes
    are never equal; aware ones compare by instant. *)
Fixpoint py_eqb (a b : pyval) {struct a} : bool :=
  match py_num a, py_num b with
  | Some x, Some y => Qeq_bool x y
  | _, _ =>
      match a, b with
      | PNone, PNone => true
      | PStr s, PStr t => String.eqb s t
      | PTime t, PTime u =>
          match dt_offset t, dt_offset u with
          | None, None => dt_wall t =? dt_wall u
          | Some o, Some p => dt_wall t - o =? dt_wall u - p
          | _, _ => false
          end
      | PList l, PList m =>
          (fix go l m := match l, m with
                         | [], [] => true
                         | x :: l', y :: m' => py_eqb x y && go l' m'
                         | _, _ => false
                         end) l m
      | PDict d, PDict e =>
          Nat.eqb (length d) (length e) &&
          (fix go d := match d with
                       | [] => true
                       | (k, v) :: d' =>
                           match dget e k with
                           | Some w => py_eqb v w && go d'
                           | None => false
                           end
                       end) d
      | _, _ => false
      end
  end.

Lemma py_eqb_str s t : py_eqb (PStr s) (PStr t) = String.eqb s t.
Proof. done. Qed.

Lemma py_eqb_str_l s v : py_eqb (PStr s) v = true ↔ v = PStr s.
Proof.
  destruct v; cbn; try naive_solver.
  rewrite String.eqb_eq. naive_solver.
Qed.

(** [None] and the empty string are falsy; [a or b] of optional texts. *)
Definition given (o : option string) : option string :=
  match o with Some EmptyString => None | o => o end.
Definition is_given (o : option string) : bool := match given o with Some _ => true | None => false end.
Definition str_or (o : option string) (dflt : string) : string := default dflt (given o).
Lemma given_Some o s : given o = Some s ↔ o = Some s ∧ s ≠ ""%string.
Proof. destruct o as [[|c s']|]; cbn; naive_solver. Qed.

(** [v in S] for a set of strings. *)
Definition str_mem (s : string) (l : list string) : bool := existsb (String.eqb s) l.

Lemma str_mem_spec s l : str_mem s l = true ↔ s ∈ l.
Proof.
  unfold str_mem. rewrite existsb_exists. setoid_rewrite String.eqb_eq.
  rewrite list_elem_of_In. naive_solver.
Qed.

Lemma str_mem_false s l : str_mem s l = false ↔ s ∉ l.
Proof. rewrite <- str_mem_spec. by destruct (str_mem s l). Qed.

(** Membership in lists of literals. *)
Ltac literal_cases H tac :=
  repeat (apply elem_of_cons in H as [->|H]; [tac|]); by apply not_elem_of_nil in H.
Ltac literals :=
  solve
    [ apply str_mem_spec; reflexivity
    | apply str_mem_false; reflexivity
    | match goal with
      | H : ?k ∈ _ |- ?k ∉ _ => literal_cases H ltac:(apply str_mem_false; reflexivity)
      | H : ?k ∈ _ |- ?k ∈ _ => literal_cases H ltac:(apply str_mem_spec; reflexivity)
      | H : ?k ∈ _ |- ?k ≠ _ => literal_cases H ltac:(discriminate)
      | H : ?k ∉ _ |- ?k ∉ _ =>
          let H' := fresh in intros H'; apply H;
          literal_cases H' ltac:(apply str_mem_spec; reflexivity)
      | H : ?k ∉ _ |- ?k ≠ _ => intros ->; apply H; apply str_mem_spec; reflexivity
      end ].

(** ** Text *)
Fixpoint join (sep : string) (l : list string) : string :=
  match l with
  | [] => ""
  | [s] => s
  | s :: l' => (s ++ sep ++ join sep l')%string
  end.

Definition starts_with (p s : string) : bool := String.prefix p s.

(** UTF-8 length: what [len(s.encode("utf-8"))] returns. *)
Definition bytes_len (s : string) : Z := Z.of_nat (String.length s).

Lemma bytes_len_nonneg s : 0 ≤ bytes_len s.
Proof. unfold bytes_len. lia. Qed.

(** *** [str.strip], [str.lower] and the text primitives *)

Definition str_of_bytes (l : list nat) : string :=
  string_of_list_ascii (map ascii_of_nat l).

(** The UTF-8 encodings of the characters [str.strip()] removes: the code
    points CPython calls white space. *)
Definition ws_encodings : list string :=
  map (λ n, str_of_bytes [n]) [9; 10; 11; 12; 13; 28; 29; 30; 31; 32]%nat ++
  map str_of_bytes
    ([[194; 133]; [194; 160]; [225; 154; 128]] ++
     map (λ n, [226; 128; n]) (seq 128 11) ++
     [[226; 128; 168]; [226; 128; 169]; [226; 128; 175]; [226; 129; 159];
      [227; 128; 128]])%nat.

Definition drop_str (n : nat) (s : string) : string :=
  String.substring n (String.length s - n) s.

(** Remove leading members of [encs] from [s]; [fuel] bounds the number of
    removals, and the length of [s] is always enough. *)
Fixpoint lstrip_with (encs : list string) (fuel : nat) (s : string) : string :=
  match fuel with
  | O => s
  | S fuel =>
      match find (λ e, String.prefix e s) encs with
      | Some e => lstrip_with encs fuel (drop_str (String.length e) s)
      | None => s
      end
  end.

Definition str_lstrip (s : string) : string :=
  lstrip_with ws_encodings (String.length s) s.
Definition str_rstrip (s : string) : string :=
  String.rev (lstrip_with (map String.rev ws_encodings) (String.length s) (String.rev s)).
Definition str_strip (s : string) : string := str_rstrip (str_lstrip s).

Definition ascii_lower_char (c : ascii) : ascii :=
  let n := nat_of_ascii c in
  if (Nat.leb 65 n && Nat.leb n 90)%bool then ascii_of_nat (n + 32) else c.
Fixpoint ascii_lower (s : string) : string :=
  match s with
  | EmptyString => EmptyString
  | String c s' => String (ascii_lower_char c) (ascii_lower s')
  end.
Fixpoint is_ascii (s : string) : bool :=
  match s with
  | EmptyString => true
  | String c s' => (Nat.ltb (nat_of_ascii c) 128 && is_ascii s')%bool
  end.

(** [str.lower()] follows the Unicode tables built into the interpreter; the
    development takes it as an operation that agrees with the ASCII one on
    ASCII text. *)
Class PyText := {
  str_lower : string → string;
  str_lower_ascii : ∀ s, is_ascii s = true → str_lower s = ascii_lower s;
  (** The characters of [\w] and [\d] beyond ASCII, by code point. *)
  uni_word : N → bool;
  uni_digit : N → bool;
}.

(** The instance the witnesses compute with. *)
Definition AsciiText : PyText :=
  {| str_lower := ascii_lower; str_lower_ascii := λ _ _, eq_refl;
     uni_word := λ _, false; uni_digit := λ _, false |}.

Definition ends_with (suf s : string) : bool :=
  String.prefix (String.rev suf) (String.rev s).
(** [s[:-n]] on ASCII text. *)
Definition drop_last (n : nat) (s : string) : string :=
  String.substring 0 (String.length s - n) s.

(** *** Concatenation *)
Lemma str_app_nil_l (s : string) : ("" ++ s = s)%string.
Proof. done. Qed.
Lemma str_app_cons c (s t : string) : (String c s ++ t = String c (s ++ t))%string.
Proof. done. Qed.
Lemma str_app_assoc (a b c : string) : (a ++ (b ++ c) = (a ++ b) ++ c)%string.
Proof. induction a as [|x a IH]; [done|]. exact (f_equal (String x) IH). Qed.
Lemma str_app_nil_r (s : string) : (s ++ "" = s)%string.
Proof. induction s as [|x s IH]; [done|]. exact (f_equal (String x) IH). Qed.

(** *** Characters of a UTF-8 text

    A byte between 128 and 191 continues the character before it. *)
Definition continues (s : string) : bool :=
  match s with
  | String c _ => let n := nat_of_ascii c in Nat.leb 128 n && Nat.ltb n 192
  | EmptyString => false
  end.
Fixpoint chars (s : string) : list string :=
  match s with
  | EmptyString => []
  | String c s' =>
      match chars s' with
      | h :: t => if continues s' then String c h :: t else String c "" :: h :: t
      | [] => [String c ""]
      end
  end.
Fixpoint unchars (l : list string) : string :=
  match l with [] => "" | x :: l => (x ++ unchars l)%string end.

(** [len(s)] and [s[:n]] for [n >= 0]. *)
Definition char_len (s : string) : Z := Z.of_nat (length (chars s)).
Definition char_take (n : Z) (s : string) : string := unchars (take (Z.to_nat n) (chars s)).

Lemma unchars_chars s : unchars (chars s) = s.
Proof.
  induction s as [|c s IH]; [done|]. simpl.
  destruct (chars s) as [|h t] eqn:Hc; [by rewrite <- IH|].
  destruct (continues s); simpl; rewrite <- IH; done.
Qed.

Lemma char_take_all n s : char_len s ≤ n → char_take n s = s.
Proof.
  unfold char_len, char_take. intros Hn. rewrite take_ge by lia. apply unchars_chars.
Qed.

Lemma continues_take s n : continues (unchars (take (S n) (chars s))) = continues s.
Proof.
  destruct s as [|c s]; [done|]. simpl. destruct (chars s) as [|h t]; [done|].
  by destruct (continues s).
Qed.

Lemma chars_take s n : chars (unchars (take n (chars s))) = take n (chars s).
Proof.
  revert n. induction s as [|c s IH]; intros n; [by destruct n|].
  destruct n as [|n]; [done|]. pose proof (IH (S n)) as IHS. pose proof (continues_take s n) as Hc.
  simpl. destruct (chars s) as [|h t] eqn:Hs; [by destruct n|].
  destruct (continues s) eqn:Hcs; simpl in *.
  - by rewrite IHS, Hc.
  - destruct n as [|n]; [done|].
    specialize (IH (S n)). pose proof (continues_take s n) as Hc'. rewrite Hs in Hc'.
    simpl in *. by rewrite !str_app_nil_l, IH, Hc', Hcs.
Qed.

Lemma char_len_take n s : char_len (char_take n s) = Z.min (Z.max n 0) (char_len s).
Proof. unfold char_len, char_take. rewrite chars_take, length_take. lia. Qed.

(** [s.split()]: the maximal runs of characters that are not white space. *)
Fixpoint split_chars (cs : list string) (word : string) : list string :=
  match cs with
  | [] => if String.eqb word "" then [] else [word]
  | c :: cs =>
      if str_mem c ws_encodings
      then (if String.eqb word "" then split_chars cs "" else word :: split_chars cs "")
      else split_chars cs (word ++ c)%string
  end.
Definition str_split (s : string) : list string := split_chars (chars s) "".

(** [sub in s] *)
Fixpoint str_contains (sub s : string) : bool :=
  String.prefix sub s || match s with String _ s' => str_contains sub s' | EmptyString => false end.

(** [s.strip(c)] and [s.rstrip(cs)] for ASCII characters. *)
Fixpoint lstrip_chars (cs : string) (s : string) : string :=
  match s with
  | String d s' => if str_contains (String d "") cs then lstrip_chars cs s' else s
  | EmptyString => s
  end.
Definition rstrip_chars (cs : string) (s : string) : string := String.rev (lstrip_chars cs (String.rev s)).
Definition strip_chars (cs : string) (s : string) : string := rstrip_chars cs (lstrip_chars cs s).

(** [str(n)] *)
Definition str_of_Z (n : Z) : string := pretty n.

(** *** Characters of a string *)
Fixpoint str_all (P : ascii → bool) (s : string) : bool :=
  match s with
  | EmptyString => true
  | String c s' => (P c && str_all P s')%bool
  end.
Definition str_free (c : ascii) (s : string) : bool :=
  str_all (λ c', negb (Ascii.eqb c c')) s.

Lemma str_all_app P s t : str_all P (s ++ t) = (str_all P s && str_all P t)%bool.
Proof. induction s as [|c s IH]; simpl; [done|]. by rewrite IH, andb_assoc. Qed.

Lemma str_all_impl (P Q : ascii → bool) s :
  (∀ c, P c = true → Q c = true) → str_all P s = true → str_all Q s = true.
Proof.
  intros HPQ. induction s as [|c s IH]; simpl; [done|].
  rewrite !andb_true_iff. naive_solver.
Qed.

Lemma str_all_substring P n m s : str_all P s = true → str_all P (String.substring n m s) = true.
Proof.
  revert n m. induction s as [|c s IH]; intros n m; simpl; [by destruct n, m|].
  rewrite andb_true_iff. intros [Hc Hs].
  destruct n, m; simpl; rewrite ?Hc; simpl; auto.
Qed.

Lemma str_all_rev_app P s t : str_all P (String.rev_app s t) = (str_all P s && str_all P t)%bool.
Proof.
  revert t. induction s as [|c s IH]; intros t; simpl; [done|].
  rewrite IH. simpl. rewrite andb_assoc. f_equal. apply andb_comm.
Qed.

Lemma str_all_rev P s : str_all P (String.rev s) = str_all P s.
Proof. unfold String.rev. rewrite str_all_rev_app. simpl. apply andb_true_r. Qed.

Lemma str_all_lstrip P encs fuel s :
  str_all P s = true → str_all P (lstrip_with encs fuel s) = true.
Proof.
  revert s. induction fuel as [|fuel IH]; intros s Hs; simpl; [done|].
  case_match; [|done]. by apply IH, str_all_substring.
Qed.

Lemma str_all_strip P s : str_all P s = true → str_all P (str_strip s) = true.
Proof.
  intros Hs. unfold str_strip, str_rstrip, str_lstrip. rewrite str_all_rev.
  apply str_all_lstrip. rewrite str_all_rev. by apply str_all_lstrip.
Qed.

Lemma is_ascii_all s : is_ascii s = str_all (λ c, Nat.ltb (nat_of_ascii c) 128) s.
Proof. induction s as [|c s IH]; simpl; congruence. Qed.

Lemma is_ascii_strip s : is_ascii s = true → is_ascii (str_strip s) = true.
Proof. rewrite !is_ascii_all. apply str_all_strip. Qed.

Lemma str_length_app (s t : string) :
  String.length (s ++ t) = (String.length s + String.length t)%nat.
Proof. induction s as [|c s IH]; [done|]. simpl. by rewrite IH. Qed.

(** Equal concatenations with suffixes of one length. *)
Lemma str_app_cancel (x y p q : string) :
  (x ++ p = y ++ q)%string → String.length p = String.length q → x = y ∧ p = q.
Proof.
  revert y. induction x as [|c x IH]; intros [|d y] Heq Hlen.
  - by rewrite !str_app_nil_l in Heq.
  - exfalso. apply (f_equal String.length) in Heq. rewrite !str_length_app in Heq. simpl in Heq. lia.
  - exfalso. apply (f_equal String.length) in Heq. rewrite !str_length_app in Heq. simpl in Heq. lia.
  - rewrite !str_app_cons in Heq. injection Heq as -> Heq. by destruct (IH y Heq Hlen) as [-> ->].
Qed.

(** A separator character cuts a text in one way only. *)
Lemma cut_unique c s s' r r' :
  str_free c s = true → str_free c s' = true →
  (s ++ String c r = s' ++ String c r')%string → s = s' ∧ r = r'.
Proof.
  unfold str_free. revert s'.
  induction s as [|a s IH]; intros [|a' s']; simpl; intros Hs Hs' Heq.
  - naive_solver.
  - injection Heq as -> ->. by rewrite Ascii.eqb_refl in Hs'.
  - injection Heq as -> <-. by rewrite Ascii.eqb_refl in Hs.
  - injection Heq as -> Heq. apply andb_true_iff in Hs as [_ Hs].
    apply andb_true_iff in Hs' as [_ Hs'].
    destruct (IH s' Hs Hs' Heq) as [-> ->]. done.
Qed.

Lemma no_cut c s s' r : str_free c s = true → s ≠ (s' ++ String c r)%string.
Proof.
  intros Hs ->. unfold str_free in Hs. rewrite str_all_app in Hs. simpl in Hs.
  rewrite Ascii.eqb_refl in Hs. by rewrite andb_false_r in Hs.
Qed.

Lemma join_cons2 sep x y l : join sep (x :: y :: l) = (x ++ sep ++ join sep (y :: l))%string.
Proof. done. Qed.

(** [sep.join] on nonempty lists of separator-free parts is injective. *)
Lemma join_inj c l1 l2 :
  l1 ≠ [] → l2 ≠ [] →
  Forall (λ s, str_free c s = true) l1 → Forall (λ s, str_free c s = true) l2 →
  join (String c "") l1 = join (String c "") l2 → l1 = l2.
Proof.
  intros Hn1 Hn2 H1. revert l2 Hn2.
  induction H1 as [|x l1 Hx H1 IH]; intros l2 Hn2 H2 Heq; [done|].
  destruct l2 as [|y l2]; [done|]. apply Forall_cons in H2 as [Hy H2].
  destruct l1 as [|x' l1], l2 as [|y' l2].
  - naive_solver.
  - rewrite join_cons2 in Heq. by apply no_cut in Heq.
  - rewrite join_cons2 in Heq. symmetry in Heq. by apply no_cut in Heq.
  - rewrite !join_cons2 in Heq. apply cut_unique in Heq as [-> Heq]; [|done..].
    f_equal. by apply IH.
Qed.

(** The same for possibly empty lists of nonempty parts. *)
Lemma join_inj_nonempty c l1 l2 :
  Forall (λ s, s ≠ "" ∧ str_free c s = true) l1 →
  Forall (λ s, s ≠ "" ∧ str_free c s = true) l2 →
  join (String c "") l1 = join (String c "") l2 → l1 = l2.
Proof.
  assert (Hne : ∀ x l, x ≠ ""%string → join (String c "") (x :: l) ≠ ""%string).
  { intros [|a x] [|y l] Hx; [done..|discriminate|discriminate]. }
  intros H1 H2 Heq. destruct l1 as [|x l1], l2 as [|y l2]; [done|..].
  - apply Forall_cons in H2 as [[Hy _] _]. by apply (Hne y l2) in Hy.
  - apply Forall_cons in H1 as [[Hx _] _]. by apply (Hne x l1) in Hx.
  - apply (join_inj c); [done..| | |done].
    + eapply Forall_impl; [exact H1|]. naive_solver.
    + eapply Forall_impl; [exact H2|]. naive_solver.
Qed.

Lemma str_all_join P sep l :
  str_all P sep = true → Forall (λ s, str_all P s = true) l → str_all P (join sep l) = true.
Proof.
  intros Hsep. induction 1 as [|x [|y l] Hx Hl IH]; [done..|].
  rewrite join_cons2, !str_all_app, Hx, Hsep. done.
Qed.

(** ** Sorting and sets of strings: [sorted(set(l))] *)
Definition sort_strings (l : list string) : list string := merge_sort String.le l.
Definition sorted_set (l : list string) : list string := sort_strings (remove_dups l).

Lemma sort_strings_Permutation l1 l2 :
  l1 ≡ₚ l2 → sort_strings l1 = sort_strings l2.
Proof.
  intros Hp. unfold sort_strings. apply (Sorted_unique String.le).
  - apply Sorted_merge_sort, _.
  - apply Sorted_merge_sort, _.
  - by rewrite !merge_sort_Permutation.
Qed.

Lemma elem_of_sort_strings s l : s ∈ sort_strings l ↔ s ∈ l.
Proof. unfold sort_strings. by rewrite merge_sort_Permutation. Qed.

Lemma sort_strings_sorted l : Sorted String.le (sort_strings l).
Proof. apply Sorted_merge_sort, _. Qed.

Lemma sort_strings_id l : Sorted String.le l → sort_strings l = l.
Proof.
  intros Hs. unfold sort_strings. apply (Sorted_unique String.le); [|done|].
  - apply Sorted_merge_sort, _.
  - by rewrite merge_sort_Permutation.
Qed.

Lemma elem_of_sorted_set s l : s ∈ sorted_set l ↔ s ∈ l.
Proof. unfold sorted_set. by rewrite elem_of_sort_strings, elem_of_remove_dups. Qed.

Lemma NoDup_sorted_set l : NoDup (sorted_set l).
Proof.
  unfold sorted_set, sort_strings. rewrite merge_sort_Permutation.
  apply NoDup_remove_dups.
Qed.

(** Two lists with the same elements have the same [sorted(set(_))]. *)
Lemma sorted_set_ext l1 l2 :
  (∀ s, s ∈ l1 ↔ s ∈ l2) → sorted_set l1 = sorted_set l2.
Proof.
  intros Heq. apply sort_strings_Permutation.
  apply NoDup_Permutation; try apply NoDup_remove_dups.
  intros s. rewrite !elem_of_remove_dups. apply Heq.
Qed.

Lemma sorted_set_not_nil l : l ≠ [] → sorted_set l ≠ [].
Proof.
  destruct l as [|x l]; [done|]. intros _ Hn.
  assert (Hx : x ∈ sorted_set (x :: l)) by (apply elem_of_sorted_set; set_solver).
  rewrite Hn in Hx. by apply not_elem_of_nil in Hx.
Qed.

Lemma fmap_not_nil {A B} (f : A → B) (l : list A) : l ≠ [] → f <$> l ≠ [].
Proof. by destruct l. Qed.

Lemma sorted_take (l : list string) n : Sorted String.le l → Sorted String.le (take n l).
Proof.
  revert n. induction l as [|x l IH]; intros n Hs; [by rewrite take_nil|].
  destruct n as [|n]; [constructor|]. cbn. inversion Hs as [|? ? Hs' Hhd]; subst.
  constructor; [by apply IH|].
  destruct l, n; cbn; constructor. by inversion Hhd.
Qed.

(** *** Sorting by any total order *)
Section MergeSort.
Context {A : Type} (R : relation A) `{!RelDecision R}.
Context `{!Transitive R} `{!AntiSymm (=) R} `{!Total R}.

Lemma merge_sort_ext (l1 l2 : list A) : l1 ≡ₚ l2 → merge_sort R l1 = merge_sort R l2.
Proof.
  intros Hp. apply (Sorted_unique R).
  - apply Sorted_merge_sort, _.
  - apply Sorted_merge_sort, _.
  - by rewrite !merge_sort_Permutation.
Qed.

(** An element ranked after the first [k] does not move them. *)
Lemma merge_sort_take_cons (l : list A) x (k : nat) :
  (k ≤ length l)%nat →
  (∀ y, y ∈ take k (merge_sort R l) → R y x) →
  take k (merge_sort R (x :: l)) = take k (merge_sort R l).
Proof.
  intros Hk Hx. set (L := merge_sort R l) in *.
  assert (Hlen : length (take k L) = k).
  { rewrite length_take_le; [done|]. unfold L. by rewrite merge_sort_Permutation. }
  assert (HsL : StronglySorted R (take k L ++ drop k L)).
  { rewrite take_drop. apply StronglySorted_merge_sort; apply _. }
  assert (Heq : merge_sort R (x :: l) = take k L ++ merge_sort R (x :: drop k L)).
  { apply (StronglySorted_unique R).
    - apply StronglySorted_merge_sort; apply _.
    - apply StronglySorted_app_2.
      + intros a b Ha Hb. rewrite merge_sort_Permutation, elem_of_cons in Hb.
        destruct Hb as [->|Hb]; [by apply Hx|].
        by eapply (StronglySorted_app_1_elem_of R (take k L) (drop k L)).
      + by eapply StronglySorted_app_1_l.
      + apply StronglySorted_merge_sort; apply _.
    - rewrite !merge_sort_Permutation, <- Permutation_middle, take_drop.
      unfold L. by rewrite merge_sort_Permutation. }
  rewrite Heq, take_app_le by lia. by rewrite take_ge by lia.
Qed.
End MergeSort.

(** Sorting by an integer key does not move a list whose keys increase. *)
Section KeySort.
Context {A : Type} (key : A → Z).
Definition key_le (a b : A) : Prop := key a ≤ key b.

Lemma key_sorted_unique (l1 l2 : list A) :
  l1 ≡ₚ l2 → StronglySorted (λ a b, key a < key b) l1 → StronglySorted key_le l2 → l1 = l2.
Proof.
  intros Hp H1. revert l2 Hp. induction H1 as [|x l1 H1 IH Hx]; intros l2 Hp H2.
  - by apply Permutation_nil_l in Hp.
  - destruct l2 as [|y l2]; [by apply Permutation_nil_r in Hp|].
    inversion H2 as [|? ? H2' Hy]; subst.
    assert (x = y) as <-.
    { assert (Hxin : x ∈ y :: l2) by (rewrite <- Hp; by left).
      assert (Hyin : y ∈ x :: l1) by (rewrite Hp; by left).
      apply elem_of_cons in Hxin as [|Hxin]; [done|]. apply elem_of_cons in Hyin as [|Hyin]; [done|].
      rewrite Forall_forall in Hx, Hy. specialize (Hx _ Hyin). specialize (Hy _ Hxin).
      unfold key_le in Hy. lia. }
    f_equal. apply IH; [|done]. by eapply Permutation_cons_inv.
Qed.

Lemma key_sort_id `{!RelDecision key_le} l :
  StronglySorted (λ a b, key a < key b) l → merge_sort key_le l = l.
Proof.
  intros Hl. symmetry. apply key_sorted_unique; [by rewrite merge_sort_Permutation|done|].
  apply StronglySorted_merge_sort.
  - intros a b c Hab Hbc. unfold key_le in *. lia.
  - intros a b. unfold key_le. lia.
Qed.
End KeySort.

(** *** Python's [sorted]: stable, by a total preorder *)
Section StableSort.
Context {A : Type} (le : A → A → bool).

Fixpoint sort_insert (x : A) (l : list A) : list A :=
  match l with
  | [] => [x]
  | y :: l' => if le x y then x :: l else y :: sort_insert x l'
  end.
Definition stable_sort (l : list A) : list A := foldr sort_insert [] l.

Lemma sort_insert_Permutation x l : sort_insert x l ≡ₚ x :: l.
Proof.
  induction l as [|y l IH]; [done|]. cbn. destruct (le x y); [done|]. by rewrite IH, Permutation_swap.
Qed.
Lemma stable_sort_Permutation l : stable_sort l ≡ₚ l.
Proof.
  induction l as [|x l IH]; [done|]. cbn. rewrite sort_insert_Permutation. by apply perm_skip.
Qed.

(** A list in order stays as it is; equal elements keep their order. *)
Lemma stable_sort_id l : StronglySorted (λ a b, le a b = true) l → stable_sort l = l.
Proof.
  induction 1 as [|x l _ IH Hx]; [done|]. change (sort_insert x (stable_sort l) = x :: l). rewrite IH.
  destruct l as [|y l]; [done|].
  cbn. by rewrite (Forall_inv Hx).
Qed.

Context (le_trans : ∀ a b c, le a b = true → le b c = true → le a c = true).
Context (le_total : ∀ a b, le a b = true ∨ le b a = true).

Lemma stable_sort_sorted l : StronglySorted (λ a b, le a b = true) (stable_sort l).
Proof.
  assert (Hins : ∀ x l, StronglySorted (λ a b, le a b = true) l →
                        StronglySorted (λ a b, le a b = true) (sort_insert x l)).
  { intros x l'. induction 1 as [|y l' Hl IH Hy]; cbn; [repeat constructor|].
    destruct (le x y) eqn:Hxy; constructor; try done.
    - by constructor.
    - constructor; [done|]. eapply Forall_impl; [exact Hy|]. cbn. intros z Hz. eauto.
    - rewrite sort_insert_Permutation. constructor; [|done].
      destruct (le_total x y); congruence. }
  induction l as [|x l IH]; cbn; [constructor|auto].
Qed.
End StableSort.

(** ** Grouping: a [defaultdict(list)] filled in one pass

    The groups come in the order their keys first appear, as in Python. *)
Section Group.
Context {K V : Type} `{!EqDecision K}.
Implicit Types (l : list (K * V)) (m : list (K * list V)).

Fixpoint push (k : K) (v : V) m : list (K * list V) :=
  match m with
  | [] => [(k, [v])]
  | (k', vs) :: m' => if decide (k = k') then (k', vs ++ [v]) :: m' else (k', vs) :: push k v m'
  end.
Definition group l : list (K * list V) := foldl (λ m kv, push kv.1 kv.2 m) [] l.

(** [m.get(k, [])] *)
Fixpoint group_get m (k : K) : list V :=
  match m with
  | [] => []
  | (k', vs) :: m' => if decide (k = k') then vs else group_get m' k
  end.

(** The values of [l] under key [k], in order. *)
Definition values_of l (k : K) : list V := (filter (λ kv, kv.1 = k) l).*2.

Lemma group_get_push m k v k' :
  group_get (push k v m) k' = group_get m k' ++ (if decide (k' = k) then [v] else []).
Proof.
  induction m as [|[k0 vs] m IH]; cbn; [by case_decide|].
  destruct (decide (k = k0)) as [->|Hne]; cbn.
  - destruct (decide (k' = k0)) as [->|]; [done|]. by rewrite app_nil_r.
  - destruct (decide (k' = k0)) as [->|]; [|done]. rewrite decide_False by done. by rewrite app_nil_r.
Qed.

Lemma push_keys m k v k' : k' ∈ (push k v m).*1 ↔ k' = k ∨ k' ∈ m.*1.
Proof.
  induction m as [|[k0 vs] m IH]; cbn; [set_solver|].
  case_decide; subst; cbn; rewrite !elem_of_cons; [naive_solver|]. rewrite IH. naive_solver.
Qed.

Lemma push_NoDup m k v : NoDup m.*1 → NoDup (push k v m).*1.
Proof.
  induction m as [|[k0 vs] m IH]; cbn; intros Hnd; [apply NoDup_singleton|].
  apply NoDup_cons in Hnd as [Hni Hnd]. case_decide; subst; cbn; apply NoDup_cons; [done|].
  split; [|by apply IH]. rewrite push_keys. naive_solver.
Qed.

Lemma push_concat m k v : concat (push k v m).*2 ≡ₚ concat m.*2 ++ [v].
Proof.
  induction m as [|[k0 vs] m IH]; cbn; [done|]. case_decide; cbn.
  - rewrite <- !app_assoc. f_equiv. apply Permutation_app_comm.
  - by rewrite IH, app_assoc.
Qed.

Lemma group_snoc l kv : group (l ++ [kv]) = push kv.1 kv.2 (group l).
Proof. unfold group. by rewrite foldl_app. Qed.

Lemma group_get_group l k : group_get (group l) k = values_of l k.
Proof.
  induction l as [|[k0 v] l IH] using rev_ind; [done|].
  rewrite group_snoc, group_get_push, IH. unfold values_of.
  rewrite filter_app, fmap_app, filter_cons, filter_nil. cbn.
  destruct (decide (k = k0)) as [->|]; [by rewrite decide_True|]. by rewrite decide_False.
Qed.

Lemma group_keys l k : k ∈ (group l).*1 ↔ k ∈ l.*1.
Proof.
  induction l as [|[k0 v] l IH] using rev_ind; [done|].
  rewrite group_snoc, push_keys, IH, fmap_app, elem_of_app. cbn. rewrite list_elem_of_singleton. tauto.
Qed.

Lemma group_NoDup l : NoDup (group l).*1.
Proof.
  induction l as [|[k0 v] l IH] using rev_ind; [constructor|].
  rewrite group_snoc. by apply push_NoDup.
Qed.

Lemma group_concat l : concat (group l).*2 ≡ₚ l.*2.
Proof.
  induction l as [|[k0 v] l IH] using rev_ind; [done|].
  rewrite group_snoc, push_concat, IH, fmap_app. done.
Qed.

Lemma group_get_elem m k vs : NoDup m.*1 → (k, vs) ∈ m → group_get m k = vs.
Proof.
  induction m as [|[k0 vs0] m IH]; cbn; intros Hnd Hin; [by apply not_elem_of_nil in Hin|].
  apply NoDup_cons in Hnd as [Hni Hnd]. apply elem_of_cons in Hin as [[= -> ->]|Hin].
  - by rewrite decide_True.
  - rewrite decide_False; [by apply IH|]. intros ->. apply Hni.
    apply list_elem_of_fmap. by exists (k0, vs).
Qed.

(** A group holds the values of its key, and is not empty. *)
Lemma group_elem l k vs : (k, vs) ∈ group l → vs = values_of l k ∧ vs ≠ [].
Proof.
  intros Hin. assert (Heq : vs = values_of l k).
  { rewrite <- group_get_group. symmetry. by apply group_get_elem, Hin; apply group_NoDup. }
  split; [done|]. assert (Hk : k ∈ l.*1).
  { rewrite <- group_keys. apply list_elem_of_fmap. by exists (k, vs). }
  apply list_elem_of_fmap in Hk as ([k' v] & -> & Hv). intros Hnil.
  assert (Hv' : v ∈ values_of l k').
  { apply list_elem_of_fmap. exists (k', v). split; [done|]. by apply list_elem_of_filter. }
  cbn in Heq. rewrite <- Heq, Hnil in Hv'. by apply not_elem_of_nil in Hv'.
Qed.
End Group.

(** ** Tactics and hints *)

(** Decompose a successful monadic run into its steps. *)
Ltac res_inv :=
  repeat match goal with
  | H : _ ≫= _ = Ok _ |- _ => apply res_bind_Ok in H as (? & ? & H)
  | H : (if ?b then Err _ else _) = Ok _ |- _ => apply raise_if_Ok in H as [? H]
  | H : Ok _ = Ok _ |- _ => injection H as H
  | H : Err _ = Ok _ |- _ => discriminate H
  | H : Ok _ = Err _ |- _ => discriminate H
  end.

(** Case on every [match] and [if] of the goal. *)
Ltac split_matches := repeat (case_match; simplify_eq; try done).

Create HintDb memclaw.
Create Rewrite HintDb memclaw.
#[export] Hint Rewrite @dget_dset @dhas_dset : memclaw.
#[export] Hint Resolve bytes_len_nonneg NoDup_sorted_set sort_strings_sorted : memclaw.
