(* ===== verification/Regex.v ===== *)
(** * Regular expressions of Python's [re] module

    The fragment the sources use: literals, classes, [.], anchors, [\b],
    groups, alternation, greedy and lazy repetition, lookahead, lookbehind of
    fixed length, and the [IGNORECASE] and [MULTILINE] flags.  Patterns are written as in the sources and parsed by [re_parse]; [rx_run] is a backtracking matcher that
    returns the ends of all matches in the order Python tries them, so its
    head is Python's match; [rx_sem] is the language-theoretic meaning the
    matcher is proved against. *)

From S2P Require Import Prelude.

Module Regex.

(** ** Code points of a UTF-8 text *)

Definition byte_of (c : ascii) : N := N_of_ascii c.
Definition cont (c : ascii) : N := (byte_of c mod 64)%N.

(** UTF-8 decoding; a byte that starts no sequence stands for itself. *)
Fixpoint codepoints (s : string) : list N :=
  match s with
  | EmptyString => []
  | String a s1 =>
      let b := byte_of a in
      if (b <? 192)%N then b :: codepoints s1
      else match s1 with
           | EmptyString => [b]
           | String a1 s2 =>
               if (b <? 224)%N then ((b mod 32) * 64 + cont a1)%N :: codepoints s2
               else match s2 with
                    | EmptyString => [b; byte_of a1]
                    | String a2 s3 =>
                        if (b <? 240)%N
                        then ((b mod 16) * 4096 + cont a1 * 64 + cont a2)%N :: codepoints s3
                        else match s3 with
                             | EmptyString => [b; byte_of a1; byte_of a2]
                             | String a3 s4 =>
                                 ((b mod 8) * 262144 + cont a1 * 4096 + cont a2 * 64 + cont a3)%N
                                 :: codepoints s4
                             end
                    end
           end
  end.

(** ** Syntax *)

Inductive citem : Type :=
| CChar (c : N)
| CRange (lo hi : N)
| CSpace | CNotSpace
| CDigit | CNotDigit
| CWord | CNotWord.

Inductive rx : Type :=
| REps
| RFail
| RSet (neg : bool) (items : list citem)
| RSeq (r1 r2 : rx)
| RAlt (r1 r2 : rx)
| RStar (greedy : bool) (r : rx)
| RBegin
| RStart
| REnd
| RBound
| RNegLook (r : rx)
| RLook (r : rx)
(** after characters of these sets; if [neg], not so *)
| RBehind (neg : bool) (sets : list (bool * list citem)).

Record flags : Type := { icase : bool; multiline : bool }.
Definition no_flags : flags := {| icase := false; multiline := false |}.
Definition IGNORECASE : flags := {| icase := true; multiline := false |}.
Definition MULTILINE : flags := {| icase := false; multiline := true |}.
Definition IGNORECASE_MULTILINE : flags := {| icase := true; multiline := true |}.

Definition ropt (greedy : bool) (r : rx) : rx :=
  if greedy then RAlt r REps else RAlt REps r.
Fixpoint rtimes (n : nat) (r : rx) : rx :=
  match n with O => REps | S n => RSeq r (rtimes n r) end.
(** [r{0,n}] *)
Fixpoint rupto (greedy : bool) (n : nat) (r : rx) : rx :=
  match n with O => REps | S n => ropt greedy (RSeq r (rupto greedy n r)) end.
Definition rrep (greedy : bool) (lo : nat) (hi : option nat) (r : rx) : rx :=
  match hi with
  | None => RSeq (rtimes lo r) (RStar greedy r)
  | Some hi => RSeq (rtimes lo r) (rupto greedy (hi - lo) r)
  end.

(** The sets of a pattern that consumes one character per set. *)
Fixpoint fixed_sets (r : rx) : option (list (bool * list citem)) :=
  match r with
  | REps => Some []
  | RSet neg items => Some [(neg, items)]
  | RSeq r1 r2 => l1 ← fixed_sets r1; l2 ← fixed_sets r2; Some (l1 ++ l2)
  | _ => None
  end.

(** ** Parser *)

Definition is_digit_char (c : ascii) : bool :=
  (Nat.leb 48 (nat_of_ascii c) && Nat.leb (nat_of_ascii c) 57)%bool.

Fixpoint parse_nat (acc : nat) (s : string) : nat * string :=
  match s with
  | String c s' =>
      if is_digit_char c then parse_nat (10 * acc + (nat_of_ascii c - 48)) s' else (acc, s)
  | EmptyString => (acc, s)
  end.

(** [\s], [\d], [\w], their complements, the control escapes, or the escaped
    character itself. *)
Definition escape_item (c : ascii) : citem :=
  if Ascii.eqb c "s" then CSpace else if Ascii.eqb c "S" then CNotSpace
  else if Ascii.eqb c "d" then CDigit else if Ascii.eqb c "D" then CNotDigit
  else if Ascii.eqb c "w" then CWord else if Ascii.eqb c "W" then CNotWord
  else if Ascii.eqb c "n" then CChar 10 else if Ascii.eqb c "t" then CChar 9
  else if Ascii.eqb c "r" then CChar 13
  else CChar (byte_of c).

(** The items of a class, up to the closing bracket. *)
Fixpoint parse_class (fuel : nat) (s : string) : option (list citem * string) :=
  match fuel with
  | O => None
  | S fuel =>
      let range_or (c : ascii) (s1 : string) :=
        match s1 with
        | String d (String hi s2) =>
            if (Ascii.eqb d "-" && negb (Ascii.eqb hi "]"))%bool
            then '(items, rest) ← parse_class fuel s2;
                 Some (CRange (byte_of c) (byte_of hi) :: items, rest)
            else '(items, rest) ← parse_class fuel s1; Some (CChar (byte_of c) :: items, rest)
        | _ => '(items, rest) ← parse_class fuel s1; Some (CChar (byte_of c) :: items, rest)
        end in
      match s with
      | EmptyString => None
      | String c s1 =>
          if Ascii.eqb c "]" then Some ([], s1)
          else if Ascii.eqb c "\" then
            match s1 with
            | EmptyString => None
            | String e s2 =>
                match escape_item e with
                | CChar _ => range_or e s2
                | item => '(items, rest) ← parse_class fuel s2; Some (item :: items, rest)
                end
            end
          else range_or c s1
      end
  end.

Definition lazy_mark (s : string) : bool * string :=
  match s with
  | String c s' => if Ascii.eqb c "?" then (false, s') else (true, s)
  | EmptyString => (true, s)
  end.

(** A quantifier after an atom: [*], [+], [?], [{m}], [{m,}], [{m,n}]. *)
Definition parse_quant (r : rx) (s : string) : option (rx * string) :=
  match s with
  | EmptyString => Some (r, s)
  | String c s1 =>
      if Ascii.eqb c "*" then let '(g, s2) := lazy_mark s1 in Some (RStar g r, s2)
      else if Ascii.eqb c "+" then
        let '(g, s2) := lazy_mark s1 in Some (RSeq r (RStar g r), s2)
      else if Ascii.eqb c "?" then let '(g, s2) := lazy_mark s1 in Some (ropt g r, s2)
      else if Ascii.eqb c "{" then
        match s1 with
        | String d _ =>
            if is_digit_char d then
              let '(lo, s2) := parse_nat 0 s1 in
              match s2 with
              | String e s3 =>
                  if Ascii.eqb e "}" then
                    let '(g, s4) := lazy_mark s3 in Some (rrep g lo (Some lo) r, s4)
                  else if Ascii.eqb e "," then
                    match s3 with
                    | String f s4 =>
                        if Ascii.eqb f "}" then
                          let '(g, s5) := lazy_mark s4 in Some (rrep g lo None r, s5)
                        else
                          let '(hi, s5) := parse_nat 0 s3 in
                          match s5 with
                          | String h s6 =>
                              if Ascii.eqb h "}" then
                                let '(g, s7) := lazy_mark s6 in Some (rrep g lo (Some hi) r, s7)
                              else None
                          | EmptyString => None
                          end
                    | EmptyString => None
                    end
                  else None
              | EmptyString => None
              end
            else Some (r, s)
        | EmptyString => Some (r, s)
        end
      else Some (r, s)
  end.

Definition lit (c : ascii) : rx := RSet false [CChar (byte_of c)].

(** Alternatives of sequences of quantified atoms; [parse_alt] stops at a
    closing parenthesis or the end. *)
Fixpoint parse_alt (fuel : nat) (s : string) : option (rx * string) :=
  match fuel with
  | O => None
  | S fuel =>
      '(r, rest) ← parse_seq fuel s;
      match rest with
      | String c rest' =>
          if Ascii.eqb c "|" then '(r2, rest2) ← parse_alt fuel rest'; Some (RAlt r r2, rest2)
          else Some (r, rest)
      | EmptyString => Some (r, rest)
      end
  end
with parse_seq (fuel : nat) (s : string) : option (rx * string) :=
  match fuel with
  | O => None
  | S fuel =>
      match s with
      | EmptyString => Some (REps, s)
      | String c _ =>
          if (Ascii.eqb c "|" || Ascii.eqb c ")")%bool then Some (REps, s)
          else
            '(a, s1) ← parse_atom fuel s;
            '(q, s2) ← parse_quant a s1;
            '(r, rest) ← parse_seq fuel s2;
            Some (RSeq q r, rest)
      end
  end
with parse_atom (fuel : nat) (s : string) : option (rx * string) :=
  match fuel with
  | O => None
  | S fuel =>
      let group (wrap : rx → rx) (s1 : string) :=
        '(r, rest) ← parse_alt fuel s1;
        match rest with
        | String c rest' => if Ascii.eqb c ")" then Some (wrap r, rest') else None
        | EmptyString => None
        end in
      let behind (neg : bool) (s1 : string) :=
        '(r, rest) ← parse_alt fuel s1;
        sets ← fixed_sets r;
        match rest with
        | String c rest' => if Ascii.eqb c ")" then Some (RBehind neg sets, rest') else None
        | EmptyString => None
        end in
      match s with
      | EmptyString => None
      | String c s1 =>
          if Ascii.eqb c "(" then
            if String.prefix "?:" s1 then group (λ r, r) (drop_str 2 s1)
            else if String.prefix "?!" s1 then group RNegLook (drop_str 2 s1)
            else if String.prefix "?=" s1 then group RLook (drop_str 2 s1)
            else if String.prefix "?<!" s1 then behind true (drop_str 3 s1)
            else if String.prefix "?<=" s1 then behind false (drop_str 3 s1)
            else if String.prefix "?" s1 then None
            else group (λ r, r) s1
          else if Ascii.eqb c "[" then
            match s1 with
            | String d s2 =>
                if Ascii.eqb d "^"
                then '(items, rest) ← parse_class fuel s2; Some (RSet true items, rest)
                else '(items, rest) ← parse_class fuel s1; Some (RSet false items, rest)
            | EmptyString => None
            end
          else if Ascii.eqb c "." then Some (RSet true [CChar 10], s1)
          else if Ascii.eqb c "^" then Some (RBegin, s1)
          else if Ascii.eqb c "$" then Some (REnd, s1)
          else if Ascii.eqb c "\" then
            match s1 with
            | EmptyString => None
            | String e s2 =>
                if Ascii.eqb e "b" then Some (RBound, s2)
                else if Ascii.eqb e "A" then Some (RStart, s2)
                else if Ascii.eqb e "Z" then Some (RNegLook (RSet true []), s2)
                else Some (RSet false [escape_item e], s2)
            end
          else if (Ascii.eqb c "*" || Ascii.eqb c "+" || Ascii.eqb c "?" || Ascii.eqb c ")")%bool
          then None
          else Some (lit c, s1)
      end
  end.

Definition re_parse (pat : string) : option rx :=
  match parse_alt (3 * String.length pat + 3) pat with
  | Some (r, EmptyString) => Some r
  | _ => None
  end.

Record compiled : Type := { c_rx : rx; c_flags : flags }.

(** [re.compile(pat, flags)]; [compiles] is shown of every pattern below. *)
Definition re_compile (fl : flags) (pat : string) : compiled :=
  {| c_rx := default RFail (re_parse pat); c_flags := fl |}.
Definition compiles (c : compiled) : bool := match c_rx c with RFail => false | _ => true end.

(** ** Characters *)

(** White space of [\s]: the characters [str.isspace] accepts. *)
Definition is_space (x : N) : bool :=
  existsb (N.eqb x)
    [9; 10; 11; 12; 13; 28; 29; 30; 31; 32; 133; 160; 5760; 8192; 8193; 8194; 8195; 8196; 8197;
     8198; 8199; 8200; 8201; 8202; 8232; 8233; 8239; 8287; 12288]%N.

(** Lower case as [IGNORECASE] sees it against an ASCII pattern: besides the
    ASCII letters, the four characters whose case variants are ASCII. *)
Definition fold_case (x : N) : N :=
  if ((65 <=? x) && (x <=? 90))%N then (x + 32)%N
  else if ((x =? 304) || (x =? 305))%N then 105%N
  else if (x =? 383)%N then 115%N
  else if (x =? 8490)%N then 107%N
  else x.
Definition upper_case (x : N) : N :=
  let y := fold_case x in if ((97 <=? y) && (y <=? 122))%N then (y - 32)%N else y.

Section Matcher.
Context `{PyText}.

Definition is_digit (x : N) : bool :=
  if (x <? 128)%N then ((48 <=? x) && (x <=? 57))%N else uni_digit x.
Definition is_word (x : N) : bool :=
  if (x <? 128)%N
  then (((48 <=? x) && (x <=? 57)) || ((65 <=? x) && (x <=? 90)) ||
        ((97 <=? x) && (x <=? 122)) || (x =? 95))%N
  else uni_word x.

Definition item_matches (fl : flags) (it : citem) (x : N) : bool :=
  match it with
  | CChar c => if icase fl then (fold_case x =? fold_case c)%N else (x =? c)%N
  | CRange lo hi =>
      let inr y := ((lo <=? y) && (y <=? hi))%N in
      if icase fl then inr x || inr (fold_case x) || inr (upper_case x) else inr x
  | CSpace => is_space x
  | CNotSpace => negb (is_space x)
  | CDigit => is_digit x
  | CNotDigit => negb (is_digit x)
  | CWord => is_word x
  | CNotWord => negb (is_word x)
  end.

Definition set_matches (fl : flags) (neg : bool) (items : list citem) (x : N) : bool :=
  xorb neg (existsb (λ it, item_matches fl it x) items).

(** ** Matcher *)

(** A position in the text: its index, the text before it backwards and the
    text from it on. *)
Record mstate : Type := MState { ms_pos : nat; ms_before : list N; ms_rest : list N }.
Definition ms_prev (s : mstate) : option N := head (ms_before s).

Definition advance (s : mstate) (x : N) (rest : list N) : mstate :=
  MState (S (ms_pos s)) (x :: ms_before s) rest.

Definition at_begin (fl : flags) (s : mstate) : bool :=
  match ms_prev s with
  | None => true
  | Some c => multiline fl && (c =? 10)%N
  end.
Definition at_end (fl : flags) (s : mstate) : bool :=
  match ms_rest s with
  | [] => true
  | c :: rest => (c =? 10)%N && (multiline fl || match rest with [] => true | _ => false end)
  end.
Definition word_at (o : option N) : bool := match o with Some c => is_word c | None => false end.
Definition at_bound (s : mstate) : bool :=
  xorb (word_at (ms_prev s)) (word_at (head (ms_rest s))).

(** The text before the position, backwards, begins with characters of these
    sets. *)
Fixpoint after_sets (fl : flags) (sets : list (bool * list citem)) (before : list N) : bool :=
  match sets, before with
  | [], _ => true
  | (neg, items) :: sets, c :: before => set_matches fl neg items c && after_sets fl sets before
  | _ :: _, [] => false
  end.
Definition behind (fl : flags) (sets : list (bool * list citem)) (s : mstate) : bool :=
  after_sets fl (reverse sets) (ms_before s).

(** The ends of the iterations of [step] from [s]; an iteration that consumes
    nothing is not repeated.  Each iteration consumes a character, so the
    length of the text bounds their number. *)
Fixpoint star_run (greedy : bool) (step : mstate → list mstate) (fuel : nat) (s : mstate) :
    list mstate :=
  match fuel with
  | O => [s]
  | S fuel =>
      let more :=
        flat_map (star_run greedy step fuel)
          (List.filter (λ s', Nat.ltb (length (ms_rest s')) (length (ms_rest s))) (step s)) in
      if greedy then more ++ [s] else s :: more
  end.

Fixpoint rx_run (fl : flags) (r : rx) (s : mstate) : list mstate :=
  match r with
  | REps => [s]
  | RFail => []
  | RSet neg items =>
      match ms_rest s with
      | x :: rest => if set_matches fl neg items x then [advance s x rest] else []
      | [] => []
      end
  | RSeq r1 r2 => flat_map (rx_run fl r2) (rx_run fl r1 s)
  | RAlt r1 r2 => rx_run fl r1 s ++ rx_run fl r2 s
  | RStar greedy r1 => star_run greedy (rx_run fl r1) (length (ms_rest s)) s
  | RBegin => if at_begin fl s then [s] else []
  | RStart => match ms_before s with [] => [s] | _ => [] end
  | REnd => if at_end fl s then [s] else []
  | RBound => if at_bound s then [s] else []
  | RNegLook r1 => match rx_run fl r1 s with [] => [s] | _ => [] end
  | RLook r1 => match rx_run fl r1 s with [] => [] | _ => [s] end
  | RBehind neg sets => if xorb neg (behind fl sets s) then [s] else []
  end.

(** ** Entry points: [pat.search], [pat.match], [pat.fullmatch] *)

(** The span of a match, and the text it covers. *)
Record re_match : Type := { m_start : nat; m_end : nat; m_text : list N }.

Definition mk_match (s e : mstate) : re_match :=
  {| m_start := ms_pos s; m_end := ms_pos e;
     m_text := take (ms_pos e - ms_pos s) (ms_rest s) |}.

Definition start_of (text : list N) : mstate := MState 0 [] text.

Fixpoint search_from (c : compiled) (pos : nat) (before : list N) (text : list N) :
    option re_match :=
  let s := MState pos before text in
  match rx_run (c_flags c) (c_rx c) s with
  | e :: _ => Some (mk_match s e)
  | [] => match text with
          | [] => None
          | x :: rest => search_from c (S pos) (x :: before) rest
          end
  end.

Definition re_search (c : compiled) (text : string) : option re_match :=
  search_from c 0 [] (codepoints text).
Definition re_match_start (c : compiled) (text : string) : option re_match :=
  let s := start_of (codepoints text) in
  mk_match s <$> head (rx_run (c_flags c) (c_rx c) s).
Definition re_fullmatch (c : compiled) (text : string) : bool :=
  existsb (λ e, match ms_rest e with [] => true | _ => false end)
    (rx_run (c_flags c) (c_rx c) (start_of (codepoints text))).

Definition found (c : compiled) (text : string) : bool :=
  match re_search c text with Some _ => true | None => false end.

(** ** [pat.sub(repl, text)] *)

(** The UTF-8 encoding of a code point. *)
Definition byte_char (n : N) : ascii := ascii_of_N n.
Definition encode_char (x : N) : string :=
  let low n := byte_char (128 + (x / n) mod 64)%N in
  if (x <? 128)%N then String (byte_char x) ""
  else if (x <? 2048)%N then String (byte_char (192 + x / 64)%N) (String (low 1%N) "")
  else if (x <? 65536)%N then
    String (byte_char (224 + x / 4096)%N) (String (low 64%N) (String (low 1%N) ""))
  else
    String (byte_char (240 + x / 262144)%N)
      (String (low 4096%N) (String (low 64%N) (String (low 1%N) ""))).
Fixpoint encode_text (l : list N) : string :=
  match l with [] => "" | x :: l => (encode_char x ++ encode_text l)%string end.

(** The text with each match replaced, leftmost match first.  Each step
    consumes a character, so one more than the length of the text is enough
    fuel. *)
Fixpoint sub_from (c : compiled) (repl : list N) (fuel : nat) (s : mstate) : list N :=
  match fuel with
  | O => ms_rest s
  | S fuel =>
      let keep_one :=
        match ms_rest s with
        | [] => []
        | x :: rest => x :: sub_from c repl fuel (advance s x rest)
        end in
      match rx_run (c_flags c) (c_rx c) s with
      | e :: _ => repl ++ if Nat.eqb (ms_pos e) (ms_pos s) then keep_one else sub_from c repl fuel e
      | [] => keep_one
      end
  end.
Definition re_sub (c : compiled) (repl text : string) : string :=
  let l := codepoints text in
  encode_text (sub_from c (codepoints repl) (S (length l)) (start_of l)).
Definition re_sub_delete (c : compiled) (text : string) : string := re_sub c "" text.

(** ** [pat.finditer(text)]

    A pattern with a group of interest is cut at that group, which stands at
    the top level of the pattern: what comes before it, the group, and what
    comes after.  The group of a pattern without one is the whole match. *)
Record grouped : Type := { g_before : compiled; g_group : compiled; g_after : compiled }.
Definition empty_pattern : compiled := re_compile no_flags "".
Definition group0 (c : compiled) : grouped :=
  {| g_before := empty_pattern; g_group := c; g_after := empty_pattern |}.

(** A match: where it and its group begin and end. *)
Record gmatch : Type :=
  GMatch { gm_from : mstate; gm_start : mstate; gm_end : mstate; gm_to : mstate }.
(** [m.group(i)] *)
Definition gm_text (m : gmatch) : list N :=
  take (ms_pos (gm_end m) - ms_pos (gm_start m)) (ms_rest (gm_start m)).

Definition c_run (c : compiled) : mstate → list mstate := rx_run (c_flags c) (c_rx c).
Definition grouped_run (g : grouped) (s : mstate) : list gmatch :=
  flat_map (λ a, flat_map (λ b, map (GMatch s a b) (c_run (g_after g) b)) (c_run (g_group g) a))
    (c_run (g_before g) s).

(** The search resumes at the end of a match, one character further if the
    match is empty.  Each step consumes a character, so one more than the
    length of the text is enough fuel. *)
Fixpoint finditer_from (g : grouped) (fuel : nat) (s : mstate) : list gmatch :=
  match fuel with
  | O => []
  | S fuel =>
      let next :=
        match ms_rest s with
        | [] => []
        | x :: rest => finditer_from g fuel (advance s x rest)
        end in
      match grouped_run g s with
      | m :: _ =>
          m :: if Nat.eqb (ms_pos (gm_to m)) (ms_pos s) then next
               else finditer_from g fuel (gm_to m)
      | [] => next
      end
  end.
Definition finditer (g : grouped) (text : list N) : list gmatch :=
  finditer_from g (S (length text)) (start_of text).

(** ** Meaning *)

(** One more iteration of a star that makes progress. *)
Definition progress (R : mstate → mstate → Prop) (s s' : mstate) : Prop :=
  R s s' ∧ (length (ms_rest s') < length (ms_rest s))%nat.

(** [rx_sem fl r s e]: [r] matches the text between [s] and [e]. *)
Fixpoint rx_sem (fl : flags) (r : rx) (s e : mstate) : Prop :=
  match r with
  | REps => s = e
  | RFail => False
  | RSet neg items =>
      ∃ x rest, ms_rest s = x :: rest ∧ set_matches fl neg items x = true ∧ e = advance s x rest
  | RSeq r1 r2 => ∃ m, rx_sem fl r1 s m ∧ rx_sem fl r2 m e
  | RAlt r1 r2 => rx_sem fl r1 s e ∨ rx_sem fl r2 s e
  | RStar _ r1 => rtc (progress (rx_sem fl r1)) s e
  | RBegin => at_begin fl s = true ∧ s = e
  | RStart => ms_before s = [] ∧ s = e
  | REnd => at_end fl s = true ∧ s = e
  | RBound => at_bound s = true ∧ s = e
  | RNegLook r1 => s = e ∧ ∀ e', ¬ rx_sem fl r1 s e'
  | RLook r1 => s = e ∧ ∃ e', rx_sem fl r1 s e'
  | RBehind neg sets => xorb neg (behind fl sets s) = true ∧ s = e
  end.

Lemma star_run_sem greedy step fuel s e :
  (length (ms_rest s) ≤ fuel)%nat →
  e ∈ star_run greedy step fuel s ↔ rtc (progress (λ a b, b ∈ step a)) s e.
Proof.
  revert s. induction fuel as [|fuel IH]; intros s Hfuel; cbn [star_run].
  - rewrite list_elem_of_singleton. split; [intros ->; constructor|].
    intros Hr. inversion Hr as [|? s' ? [_ Hlt]]; [done|lia].
  - set (more := flat_map _ _).
    assert (Hmore : e ∈ more ↔
      ∃ s', progress (λ a b, b ∈ step a) s s' ∧ rtc (progress (λ a b, b ∈ step a)) s' e).
    { unfold more. rewrite list_elem_of_In, in_flat_map. unfold progress.
      split.
      - intros (s' & Hs' & He). apply filter_In in Hs' as [Hs' Hlt%Nat.ltb_lt].
        exists s'. rewrite <- list_elem_of_In in Hs', He. apply IH in He; [done|lia].
      - intros (s' & [Hs' Hlt] & He). exists s'. rewrite filter_In, Nat.ltb_lt, <- !list_elem_of_In.
        split; [done|]. apply IH; [lia|done]. }
    assert (Hall : e ∈ (if greedy then more ++ [s] else s :: more) ↔ e = s ∨ e ∈ more).
    { destruct greedy; rewrite ?elem_of_app, ?list_elem_of_singleton, ?elem_of_cons; tauto. }
    rewrite Hall, Hmore. split.
    + intros [->|(s' & Hp & He)]; [constructor|]. by econstructor.
    + intros Hr. inversion Hr; [by left|right; eauto].
Qed.

(** The matcher returns the end of every match and of nothing else. *)
Lemma rx_run_sem fl r s e : e ∈ rx_run fl r s ↔ rx_sem fl r s e.
Proof.
  revert s e. induction r as [| |neg items|r1 IH1 r2 IH2|r1 IH1 r2 IH2|g r IH| | | | |r IH|r IH|neg sets];
    intros s e; cbn [rx_run rx_sem].
  - rewrite list_elem_of_singleton. naive_solver.
  - by rewrite elem_of_nil.
  - destruct (ms_rest s) as [|x rest] eqn:Hrest.
    + rewrite elem_of_nil. naive_solver.
    + destruct (set_matches fl neg items x) eqn:Hm.
      * rewrite list_elem_of_singleton. split; [intros ->; eauto|].
        by intros (? & ? & [= <- <-] & _ & ->).
      * rewrite elem_of_nil. split; [done|].
        intros (? & ? & [= <- <-] & Hm' & _). congruence.
  - rewrite list_elem_of_In, in_flat_map. setoid_rewrite <- list_elem_of_In.
    by setoid_rewrite IH1; setoid_rewrite IH2.
  - by rewrite elem_of_app, IH1, IH2.
  - rewrite star_run_sem by lia. unfold progress.
    split; intros Hr; (eapply rtc_subrel; [|exact Hr]); cbn; intros a b; by rewrite IH.
  - destruct (at_begin fl s); rewrite ?list_elem_of_singleton, ?elem_of_nil; naive_solver.
  - destruct (ms_before s); rewrite ?list_elem_of_singleton, ?elem_of_nil; naive_solver.
  - destruct (at_end fl s); rewrite ?list_elem_of_singleton, ?elem_of_nil; naive_solver.
  - destruct (at_bound s); rewrite ?list_elem_of_singleton, ?elem_of_nil; naive_solver.
  - destruct (rx_run fl r s) as [|e0 l] eqn:Hr.
    + rewrite list_elem_of_singleton. split.
      * intros ->. split; [done|]. intros e' He'%IH. rewrite Hr in He'. by apply not_elem_of_nil in He'.
      * by intros [-> _].
    + rewrite elem_of_nil. split; [done|]. intros [_ Hno]. destruct (Hno e0).
      apply IH. rewrite Hr. by left.
  - destruct (rx_run fl r s) as [|e0 l] eqn:Hr.
    + rewrite elem_of_nil. split; [done|]. intros [_ [e' He'%IH]]. rewrite Hr in He'.
      by apply not_elem_of_nil in He'.
    + rewrite list_elem_of_singleton. split; [|by intros [-> _]]. intros ->. split; [done|].
      exists e0. apply IH. rewrite Hr. by left.
  - destruct (xorb neg _); rewrite ?list_elem_of_singleton, ?elem_of_nil; naive_solver.
Qed.

(** A pattern all of whose sets stay within [P] consumes characters of [P]
    only. *)
Fixpoint rx_over (fl : flags) (P : N → Prop) (r : rx) : Prop :=
  match r with
  | RSet neg items => ∀ x, set_matches fl neg items x = true → P x
  | RSeq r1 r2 | RAlt r1 r2 => rx_over fl P r1 ∧ rx_over fl P r2
  | RStar _ r1 => rx_over fl P r1
  | _ => True
  end.

Lemma rx_sem_over fl P r s e :
  rx_over fl P r → rx_sem fl r s e → ∃ l, ms_rest s = l ++ ms_rest e ∧ Forall P l.
Proof.
  revert s e. induction r as [| |neg items|r1 IH1 r2 IH2|r1 IH1 r2 IH2|g r IH| | | | |r IH|r IH|neg sets];
    intros s e; cbn [rx_over rx_sem].
  - intros _ ->. by exists [].
  - done.
  - intros HP (x & rest & Hs & Hm & ->). exists [x]. split; [by rewrite Hs|]. constructor; auto.
  - intros [H1 H2] (m & Hm1 & Hm2). destruct (IH1 _ _ H1 Hm1) as (l1 & Hl1 & HP1).
    destruct (IH2 _ _ H2 Hm2) as (l2 & Hl2 & HP2). exists (l1 ++ l2).
    rewrite Hl1, Hl2, app_assoc. split; [done|]. by apply Forall_app.
  - intros [H1 H2] [Hm|Hm]; eauto.
  - intros HP Hr. induction Hr as [s|s m e [Hm _] _ (l2 & Hl2 & HP2)]; [by exists []|].
    destruct (IH _ _ HP Hm) as (l1 & Hl1 & HP1). exists (l1 ++ l2).
    rewrite Hl1, Hl2, app_assoc. split; [done|]. by apply Forall_app.
  - intros _ [_ ->]. by exists [].
  - intros _ [_ ->]. by exists [].
  - intros _ [_ ->]. by exists [].
  - intros _ [_ ->]. by exists [].
  - intros _ [-> _]. by exists [].
  - intros _ [-> _]. by exists [].
  - intros _ [_ ->]. by exists [].
Qed.

(** The same condition on the items of the sets, which evaluates. *)
Fixpoint rx_items_ok (ok : citem → bool) (r : rx) : bool :=
  match r with
  | RSet neg items => negb neg && forallb ok items
  | RSeq r1 r2 | RAlt r1 r2 => rx_items_ok ok r1 && rx_items_ok ok r2
  | RStar _ r1 => rx_items_ok ok r1
  | _ => true
  end.

Lemma rx_items_over fl ok (P : N → Prop) r :
  (∀ it x, ok it = true → item_matches fl it x = true → P x) →
  rx_items_ok ok r = true → rx_over fl P r.
Proof.
  intros HP. induction r as [| |neg items| | | | | | | | | |]; cbn; rewrite ?andb_true_iff; try tauto.
  intros [Hneg Hok] x. unfold set_matches. destruct neg; [done|]. cbn.
  intros (it & Hit & Hm)%existsb_exists. rewrite forallb_forall in Hok. eauto.
Qed.

(** A text such a pattern matches in full is made of characters of [P]. *)
Lemma re_fullmatch_over c P text :
  rx_over (c_flags c) P (c_rx c) → re_fullmatch c text = true → Forall P (codepoints text).
Proof.
  intros HP. unfold re_fullmatch. intros (e & He & Hrest)%existsb_exists.
  apply list_elem_of_In, rx_run_sem in He. destruct (rx_sem_over _ _ _ _ _ HP He) as (l & Hl & HPl).
  destruct (ms_rest e); [|done]. cbn in Hl. by rewrite Hl, app_nil_r.
Qed.

(** [search] succeeds exactly when the pattern matches somewhere. *)
Fixpoint suffixes (pos : nat) (before : list N) (text : list N) : list mstate :=
  MState pos before text ::
  match text with [] => [] | x :: rest => suffixes (S pos) (x :: before) rest end.

Lemma search_from_spec c pos before text :
  is_Some (search_from c pos before text) ↔
  ∃ s e, s ∈ suffixes pos before text ∧ rx_sem (c_flags c) (c_rx c) s e.
Proof.
  revert pos before. induction text as [|x text IH]; intros pos before; cbn [search_from suffixes].
  - setoid_rewrite list_elem_of_singleton. setoid_rewrite <- rx_run_sem.
    destruct (rx_run _ _ _) as [|e l] eqn:Hr.
    + split; [by intros []|]. intros (s & e & -> & He). rewrite Hr in He.
      by apply not_elem_of_nil in He.
    + split; [|by eauto]. intros _. eexists _, e. split; [done|]. rewrite Hr. by left.
  - setoid_rewrite elem_of_cons. destruct (rx_run _ _ _) as [|e l] eqn:Hr.
    + rewrite IH. split; [naive_solver|]. intros (s & e & [->|Hs] & He); [|by eauto].
      apply rx_run_sem in He. rewrite Hr in He. by apply not_elem_of_nil in He.
    + split; [|by eauto]. intros _. eexists _, e. split; [by left|].
      apply rx_run_sem. rewrite Hr. by left.
Qed.

Lemma found_spec c text :
  found c text = true ↔
  ∃ s e, s ∈ suffixes 0 [] (codepoints text) ∧ rx_sem (c_flags c) (c_rx c) s e.
Proof.
  rewrite <- search_from_spec. unfold found, re_search.
  destruct (search_from _ _ _ _); split; try done; by intros [].
Qed.

(** *** Positions of a text, and where a match may end *)

Definition at_pos (text : list N) (i : nat) : mstate :=
  MState i (reverse (take i text)) (drop i text).

Lemma at_pos_0 text : at_pos text 0 = start_of text.
Proof. done. Qed.

Lemma advance_at_pos text i x rest :
  ms_rest (at_pos text i) = x :: rest →
  (i < length text)%nat ∧ advance (at_pos text i) x rest = at_pos text (S i).
Proof.
  cbn. intros Hd. assert (Hi : text !! i = Some x).
  { rewrite <- (Nat.add_0_r i), <- lookup_drop. by rewrite Hd. }
  split; [by eapply lookup_lt_Some|]. unfold advance, at_pos. cbn. f_equal.
  - by rewrite (take_S_r _ _ _ Hi), reverse_snoc.
  - rewrite (drop_S _ _ _ Hi) in Hd. by injection Hd.
Qed.

(** The least number of characters a pattern consumes. *)
Fixpoint min_len (r : rx) : nat :=
  match r with
  | RSet _ _ => 1
  | RSeq r1 r2 => min_len r1 + min_len r2
  | RAlt r1 r2 => Nat.min (min_len r1) (min_len r2)
  | _ => 0
  end.

Lemma rx_sem_at_pos fl r text i e :
  (i ≤ length text)%nat → rx_sem fl r (at_pos text i) e →
  ∃ j, (i + min_len r ≤ j ≤ length text)%nat ∧ e = at_pos text j.
Proof.
  revert i e. induction r as [| |neg items|r1 IH1 r2 IH2|r1 IH1 r2 IH2|g r IH| | | | |r IH|r IH|neg sets];
    intros i e Hi; cbn [rx_sem min_len].
  - intros <-. exists i. split; [lia|done].
  - done.
  - intros (x & rest & Hs & _ & ->). apply advance_at_pos in Hs as [Hlt ->].
    exists (S i). split; [lia|done].
  - intros (m & Hm1 & Hm2). destruct (IH1 _ _ Hi Hm1) as (j & Hj & ->).
    destruct (IH2 j e) as (k & Hk & ->); [lia|done|]. exists k. split; [lia|done].
  - intros [Hm|Hm]; [destruct (IH1 _ _ Hi Hm) as (j & Hj & ->)
                    |destruct (IH2 _ _ Hi Hm) as (j & Hj & ->)]; exists j; (split; [lia|done]).
  - intros Hr. remember (at_pos text i) as s eqn:Hs. revert i Hi Hs.
    induction Hr as [s|s m e [Hm _] _ IHr]; intros i Hi ->; [by exists i; split; [lia|]|].
    destruct (IH _ _ Hi Hm) as (j & Hj & ->). destruct (IHr j) as (k & Hk & ->); [lia|done|].
    exists k. split; [lia|done].
  - intros [_ <-]. exists i. split; [lia|done].
  - intros [_ <-]. exists i. split; [lia|done].
  - intros [_ <-]. exists i. split; [lia|done].
  - intros [_ <-]. exists i. split; [lia|done].
  - intros [<- _]. exists i. split; [lia|done].
  - intros [<- _]. exists i. split; [lia|done].
  - intros [_ <-]. exists i. split; [lia|done].
Qed.

Definition c_sem (c : compiled) : mstate → mstate → Prop := rx_sem (c_flags c) (c_rx c).

Lemma c_sem_over c P text j k :
  (k ≤ length text)%nat → rx_over (c_flags c) P (c_rx c) → c_sem c (at_pos text j) (at_pos text k) →
  Forall P (take (k - j) (drop j text)).
Proof.
  intros Hk HP Hm. destruct (rx_sem_over _ _ _ _ _ HP Hm) as (l & Hl & HPl). cbn in Hl.
  assert (Hlen : length l = (k - j)%nat).
  { apply (f_equal length) in Hl. rewrite length_app, !length_drop in Hl. lia. }
  by rewrite Hl, <- Hlen, take_app_length.
Qed.

(** A match of a grouped pattern in [text], by positions: the match from [i]
    to [l], its group from [j] to [k]. *)
Definition gmatches (g : grouped) (text : list N) (i j k l : nat) : Prop :=
  c_sem (g_before g) (at_pos text i) (at_pos text j) ∧
  c_sem (g_group g) (at_pos text j) (at_pos text k) ∧
  c_sem (g_after g) (at_pos text k) (at_pos text l).
Definition gm_at (text : list N) (i j k l : nat) : gmatch :=
  GMatch (at_pos text i) (at_pos text j) (at_pos text k) (at_pos text l).

Lemma gmatches_bounds g text i j k l :
  (i ≤ length text)%nat → gmatches g text i j k l → (i ≤ j ≤ k ∧ k ≤ l ≤ length text)%nat.
Proof.
  intros Hi (Hb & Hg & Ha).
  destruct (rx_sem_at_pos _ _ _ _ _ Hi Hb) as (j' & Hj & [= <- _ _]).
  destruct (rx_sem_at_pos _ _ _ _ _ (proj2 Hj) Hg) as (k' & Hk & [= <- _ _]).
  destruct (rx_sem_at_pos _ _ _ _ _ (proj2 Hk) Ha) as (l' & Hl & [= <- _ _]). lia.
Qed.

Lemma grouped_run_sem g text i m :
  (i ≤ length text)%nat →
  m ∈ grouped_run g (at_pos text i) ↔ ∃ j k l, gmatches g text i j k l ∧ m = gm_at text i j k l.
Proof.
  intros Hi. unfold grouped_run, c_run. rewrite list_elem_of_In, in_flat_map. split.
  - intros (a & Ha & Hm). apply in_flat_map in Hm as (b & Hb & Hm).
    apply in_map_iff in Hm as (e & <- & He).
    apply list_elem_of_In, rx_run_sem in Ha, Hb, He.
    destruct (rx_sem_at_pos _ _ _ _ _ Hi Ha) as (j & Hj & ->).
    destruct (rx_sem_at_pos _ _ _ _ _ (proj2 Hj) Hb) as (k & Hk & ->).
    destruct (rx_sem_at_pos _ _ _ _ _ (proj2 Hk) He) as (l & Hl & ->).
    by exists j, k, l.
  - intros (j & k & l & (Ha & Hb & He) & ->).
    exists (at_pos text j). rewrite <- list_elem_of_In, rx_run_sem. split; [done|].
    apply in_flat_map. exists (at_pos text k). rewrite <- list_elem_of_In, rx_run_sem.
    split; [done|]. apply in_map_iff. exists (at_pos text l).
    by rewrite <- list_elem_of_In, rx_run_sem.
Qed.

(** What [finditer] finds from position [i] on: matches only, and one
    around every position at which the pattern matches. *)
Lemma finditer_from_sound g text fuel i m :
  (i ≤ length text)%nat → m ∈ finditer_from g fuel (at_pos text i) →
  ∃ i' j k l, (i ≤ i' ≤ length text)%nat ∧ gmatches g text i' j k l ∧ m = gm_at text i' j k l.
Proof.
  revert i. induction fuel as [|fuel IH]; intros i Hi; cbn [finditer_from];
    [by intros ?%not_elem_of_nil|].
  set (next := match ms_rest _ with [] => _ | _ :: _ => _ end).
  assert (Hnext : m ∈ next → ∃ i' j k l,
    (i ≤ i' ≤ length text)%nat ∧ gmatches g text i' j k l ∧ m = gm_at text i' j k l).
  { unfold next. destruct (ms_rest (at_pos text i)) as [|x rest] eqn:Hr; [by intros ?%not_elem_of_nil|].
    apply advance_at_pos in Hr as [Hlt ->]. intros Hm.
    destruct (IH (S i) ltac:(lia) Hm) as (i' & j & k & l & Hi' & Hg). exists i', j, k, l. split; [lia|done]. }
  destruct (grouped_run g (at_pos text i)) as [|m0 ms] eqn:Hrun; [done|].
  destruct (proj1 (grouped_run_sem g text i m0 Hi)) as (j & k & l & Hg & ->); [rewrite Hrun; by left|].
  pose proof (gmatches_bounds _ _ _ _ _ _ Hi Hg) as Hb.
  intros [->|Hm]%elem_of_cons; [by exists i, j, k, l; split; [lia|]|].
  destruct (Nat.eqb _ _); [by apply Hnext|].
  destruct (IH l ltac:(lia) Hm) as (i' & j' & k' & l' & Hi' & Hg'). exists i', j', k', l'. split; [lia|done].
Qed.

Lemma finditer_from_complete g text fuel i p j k l :
  (i ≤ p ≤ length text)%nat → (length text - i < fuel)%nat → gmatches g text p j k l →
  ∃ i' j' k' l', gm_at text i' j' k' l' ∈ finditer_from g fuel (at_pos text i) ∧
    (i ≤ i' ≤ p)%nat ∧ (p < l' ∨ p = i')%nat.
Proof.
  intros Hp Hfuel Hg. revert i Hp Hfuel. induction fuel as [|fuel IH]; intros i Hp Hfuel; [lia|].
  cbn [finditer_from]. set (next := match ms_rest _ with [] => _ | _ :: _ => _ end).
  assert (Hnext : i ≠ p → ∃ i' j' k' l', gm_at text i' j' k' l' ∈ next ∧
    (i ≤ i' ≤ p)%nat ∧ (p < l' ∨ p = i')%nat).
  { intros Hne. unfold next. destruct (ms_rest (at_pos text i)) as [|x rest] eqn:Hr.
    - cbn in Hr. apply (f_equal length) in Hr. rewrite length_drop in Hr. cbn in Hr. lia.
    - apply advance_at_pos in Hr as [Hlt ->].
      destruct (IH (S i) ltac:(lia) ltac:(lia)) as (i' & j' & k' & l' & Hm & Hi' & Hl').
      exists i', j', k', l'. split; [done|]. lia. }
  assert (Hi : (i ≤ length text)%nat) by lia.
  destruct (grouped_run g (at_pos text i)) as [|m0 ms] eqn:Hrun.
  - apply Hnext. intros ->. assert (Hm : gm_at text p j k l ∈ grouped_run g (at_pos text p)).
    { apply grouped_run_sem; [done|]. by exists j, k, l. }
    rewrite Hrun in Hm. by apply not_elem_of_nil in Hm.
  - destruct (proj1 (grouped_run_sem g text i m0 Hi)) as (j0 & k0 & l0 & Hg0 & ->); [rewrite Hrun; by left|].
    pose proof (gmatches_bounds _ _ _ _ _ _ Hi Hg0) as Hb.
    destruct (decide (p = i)) as [->|Hne].
    { exists i, j0, k0, l0. split; [by left|]. lia. }
    destruct (decide (p < l0)%nat) as [Hlt|Hge].
    { exists i, j0, k0, l0. split; [by left|]. lia. }
    cbn [gm_to gm_at at_pos ms_pos]. destruct (Nat.eqb_spec l0 i) as [->|Hl0].
    + destruct (Hnext ltac:(done)) as (i' & j' & k' & l' & Hm & Hx). exists i', j', k', l'.
      split; [by right|done].
    + destruct (IH l0 ltac:(lia) ltac:(lia)) as (i' & j' & k' & l' & Hm & Hi' & Hl').
      exists i', j', k', l'. split; [by right|]. lia.
Qed.

Lemma finditer_sound g text m :
  m ∈ finditer g text →
  ∃ i j k l, (i ≤ length text)%nat ∧ gmatches g text i j k l ∧ m = gm_at text i j k l.
Proof.
  unfold finditer. rewrite <- at_pos_0. intros Hm.
  destruct (finditer_from_sound _ _ _ 0 _ (Nat.le_0_l _) Hm) as (i & j & k & l & Hi & Hg).
  exists i, j, k, l. split; [lia|done].
Qed.

Lemma finditer_complete g text p j k l :
  (p ≤ length text)%nat → gmatches g text p j k l →
  ∃ i' j' k' l', gm_at text i' j' k' l' ∈ finditer g text ∧ (i' ≤ p)%nat ∧ (p < l' ∨ p = i')%nat.
Proof.
  unfold finditer. rewrite <- at_pos_0. intros Hp Hg.
  destruct (finditer_from_complete g text (S (length text)) 0 p j k l) as (i' & j' & k' & l' & Hm & Hx);
    [lia..|done|]. exists i', j', k', l'. split; [done|]. lia.
Qed.

End Matcher.
(** ** Decoding ASCII text, and the positions of a text *)

Lemma codepoints_ascii_app s t :
  is_ascii s = true → codepoints (s ++ t) = codepoints s ++ codepoints t.
Proof.
  induction s as [|c s IH]; [done|]. cbn [is_ascii]. intros [Hc Hs]%andb_true_iff.
  apply Nat.ltb_lt in Hc.
  assert (Hb : (byte_of c <? 192)%N = true).
  { apply N.ltb_lt. unfold byte_of, nat_of_ascii in *. lia. }
  simpl. rewrite Hb, IH by done. done.
Qed.

Lemma codepoints_ascii_cons c t :
  Nat.ltb (nat_of_ascii c) 128 = true → codepoints (String c t) = byte_of c :: codepoints t.
Proof.
  intros Hc. change (String c t) with (String c "" ++ t)%string.
  rewrite codepoints_ascii_app; simpl; rewrite ?Hc; [|done].
  assert (Hb : (byte_of c <? 192)%N = true).
  { apply Nat.ltb_lt in Hc. apply N.ltb_lt. unfold byte_of, nat_of_ascii in *. lia. }
  by rewrite Hb.
Qed.

Lemma suffixes_app pos before pre rest :
  MState (pos + length pre) (reverse pre ++ before) rest ∈ suffixes pos before (pre ++ rest).
Proof.
  revert pos before. induction pre as [|x pre IH]; intros pos before; cbn [length app suffixes].
  - rewrite Nat.add_0_r. destruct rest; by left.
  - rewrite Nat.add_succ_r, reverse_cons, <- app_assoc. right. apply (IH (S pos) (x :: before)).
Qed.

Lemma start_in_suffixes text : start_of text ∈ suffixes 0 [] text.
Proof. destruct text; by left. Qed.

End Regex.
