(* ===== verification/Floats.v ===== *)
(** * Binary64 arithmetic

    The sources' [float] operations, as the Standard Library specifies them
    ([SpecFloat] at 53 bits of precision and a largest exponent of 1024),
    computed on integers.  A decimal literal [n / d] whose parts are exactly
    representable is the correctly rounded quotient. *)

From Stdlib Require Export Floats.SpecFloat.
From S2P Require Import Prelude.

Module Floats.

Definition float : Type := spec_float.
Definition fprec : Z := 53.
Definition femax : Z := 1024.

Definition of_Z (z : Z) : float := binary_normalize fprec femax z 0 false.
Definition fadd (x y : float) : float := SFadd fprec femax x y.
Definition fsub (x y : float) : float := SFsub fprec femax x y.
Definition fmul (x y : float) : float := SFmul fprec femax x y.
Definition fdiv (x y : float) : float := SFdiv fprec femax x y.
Definition flt (x y : float) : bool := SFltb x y.
Definition fle (x y : float) : bool := SFleb x y.

(** The literal [n / d]. *)
Definition lit (n d : Z) : float := fdiv (of_Z n) (of_Z d).
Definition f0 : float := of_Z 0.

(** The exact value of a finite float. *)
Definition to_Q (x : float) : Q :=
  match x with
  | S754_finite s m e =>
      let z := if s then Z.neg m else Z.pos m in
      if 0 <=? e then inject_Z (z * 2 ^ e) else Qmake z (Z.to_pos (2 ^ (- e)))
  | _ => inject_Z 0
  end.

(** The float of an exact value: the denominator is a power of two. *)
Definition of_Q (q : Q) : float :=
  binary_normalize fprec femax (Qnum q) (- Z.log2 (Zpos (Qden q))) false.

(** The nearest integer to [n / d], ties to even. *)
Definition round_half_even (n : Z) (d : positive) : Z :=
  let q := n / Zpos d in
  let r := n mod Zpos d in
  match Z.compare (2 * r) (Zpos d) with
  | Lt => q
  | Gt => q + 1
  | Eq => if Z.even q then q else q + 1
  end.

(** [round(x, 6)]: the float nearest to the decimal of six places nearest to
    [x]. *)
Definition round6 (x : float) : float :=
  match x with
  | S754_finite _ _ _ =>
      let q := to_Q x in
      lit (round_half_even (Qnum q * 1000000) (Qden q)) 1000000
  | _ => x
  end.

(** [sum(...)] of floats as the interpreter computes it from 3.12 on: the
    first item is added to the integer 0, the others with Neumaier's
    compensation, which joins the result at the end. *)
Definition is_finite (x : float) : bool :=
  match x with S754_zero _ | S754_finite _ _ _ => true | _ => false end.
Definition sum_step (acc : float * float) (x : float) : float * float :=
  let '(r, c) := acc in
  let t := fadd r x in
  let e := if fle (SFabs x) (SFabs r) then fadd (fsub r t) x else fadd (fsub x t) r in
  (t, fadd c e).
Definition py_sum (l : list float) : float :=
  match l with
  | [] => f0
  | x :: l =>
      let '(r, c) := foldl sum_step (fadd f0 x, f0) l in
      if negb (SFeqb c f0) && is_finite c then fadd r c else r
  end.

Lemma fadd_comm x y : fadd x y = fadd y x.
Proof.
  unfold fadd, SFadd. destruct x as [s|s| |s m e], y as [s'|s'| |s' m' e']; try done.
  - by destruct s, s'.
  - by destruct s, s'.
  - by rewrite Z.add_comm, Z.min_comm.
Qed.

Lemma SFcompare_antisym x y :
  SFcompare y x = match SFcompare x y with Some c => Some (CompOpp c) | None => None end.
Proof.
  destruct x as [s|s| |s m e], y as [s'|s'| |s' m' e']; try done; cbn; try by destruct s, s'.
  destruct s, s'; try done; rewrite (Z.compare_antisym e e'); destruct (Z.compare e e'); cbn;
    try done; rewrite Pos.compare_cont_antisym; cbn; try done;
    by rewrite ?CompOpp_involutive.
Qed.

Lemma flt_asym x y : flt x y = true → flt y x = false.
Proof.
  unfold flt, SFltb. rewrite (SFcompare_antisym x y). by destruct (SFcompare x y) as [[]|].
Qed.

Lemma flt_irrefl x : flt x x = false.
Proof. destruct (flt x x) eqn:E; [|done]. by rewrite (flt_asym _ _ E) in E. Qed.

Lemma round6_zero : round6 f0 = f0.
Proof. reflexivity. Qed.

#[export] Hint Resolve flt_irrefl flt_asym : memclaw.
End Floats.
