(* ===== verification/Fingerprint.v ===== *)
(** * Cluster fingerprints (core_api/services/forge/fingerprint.py)

    The canonical form of a skill cluster and its hash.  [sha256_hex] stands
    for [hashlib.sha256(_).hexdigest()]. *)

From Stdlib Require Import QArith Lqa.
From S2P Require Import Prelude.

Module Fingerprint.

Definition FINGERPRINT_FORMULA_VERSION : string := "v1".
Definition ENTITY_TOP_K : nat := 5.
Definition GOAL_PHRASE_TOP_K : nat := 6.
Definition STEP_WORDS_CAP : nat := 4.

Definition _STOPWORDS : list string :=
  ["the"; "a"; "an"; "is"; "are"; "was"; "were"; "be"; "been"; "being";
   "in"; "on"; "at"; "by"; "for"; "to"; "of"; "with"; "into"; "this";
   "that"; "these"; "those"; "and"; "or"; "but"; "it"; "its"; "do";
   "did"; "does"; "as"]%string.

(** [goal_phrase], [domain], [entity_ids], [step_skeleton] and the optional
    centrality scores of a cluster. *)
Record ClusterFingerprintInputs : Type := {
  goal_phrase : string;
  domain : string;
  entity_ids : list string;
  step_skeleton : list string;
  entity_centralities : option (list (string * Q));
}.

Record FingerprintRec : Type := { fp : string; canonical_form : string }.

(** ** Internals: tokenizer and plural stripping *)

(** The character class [[a-z0-9]]. *)
Definition is_alnum (c : ascii) : bool :=
  let n := nat_of_ascii c in
  ((Nat.leb 97 n && Nat.leb n 122) || (Nat.leb 48 n && Nat.leb n 57))%bool.

Definition emit (cur : string) : list string :=
  if String.eqb cur "" then [] else [cur].

(** [[t for t in _NON_ALPHANUM.split(s) if t]]: the maximal runs of [is_alnum]
    characters.  A byte of a multi-byte UTF-8 sequence is never one. *)
Fixpoint alnum_runs (cur s : string) : list string :=
  match s with
  | EmptyString => emit cur
  | String c s' =>
      if is_alnum c then alnum_runs (cur ++ String c "") s'
      else emit cur ++ alnum_runs "" s'
  end.

Definition _strip_simple_plural (token : string) : string :=
  if Nat.leb (String.length token) 4 then token
  else if ends_with "ss" token || ends_with "us" token then token
  else if ends_with "ies" token then (drop_last 3 token ++ "y")%string
  else if ends_with "s" token then drop_last 1 token
  else token.

(** ** Ranking by centrality *)

(** [centralities.get(eid, 0.0)] *)
Definition centrality (cs : list (string * Q)) (eid : string) : Q :=
  default 0%Q (dget cs eid).

(** The order of the sort key [(-centrality, eid)]. *)
Definition rank_leb (cs : list (string * Q)) (a b : string) : bool :=
  match Qcompare (centrality cs b) (centrality cs a) with
  | Lt => true
  | Eq => String.leb a b
  | Gt => false
  end.
Definition rank_le (cs : list (string * Q)) (a b : string) : Prop := rank_leb cs a b = true.
#[global] Instance rank_le_dec cs a b : Decision (rank_le cs a b).
Proof. unfold rank_le. apply _. Defined.

Definition canonical_entities (entity_ids : list string)
    (centralities : option (list (string * Q))) : list string :=
  match entity_ids with
  | [] => []
  | _ :: _ =>
      let top :=
        match centralities with
        | Some ((_ :: _) as cs) =>
            take ENTITY_TOP_K (merge_sort (rank_le cs) (remove_dups entity_ids))
        | _ => take ENTITY_TOP_K (sorted_set entity_ids)
        end in
      sort_strings top
  end.

Section WithText.
Context `{PyText}.

Definition _tokenize (text : string) : list string :=
  if String.eqb text "" then [] else alnum_runs "" (str_lower text).

Definition not_stopword (t : string) : Prop := t ∉ _STOPWORDS.
#[global] Instance not_stopword_dec t : Decision (not_stopword t).
Proof. unfold not_stopword. apply _. Defined.

(** [[_strip_simple_plural(t) for t in _tokenize(text) if t not in _STOPWORDS]] *)
Definition content_words (text : string) : list string :=
  _strip_simple_plural <$> filter not_stopword (_tokenize text).

Definition canonical_goal_phrase (text : string) : string :=
  if String.eqb text "" then ""
  else join " " (take GOAL_PHRASE_TOP_K (sorted_set (content_words text))).

Definition canonical_domain (domain : string) : string := str_lower (str_strip domain).

Definition canonical_step_skeleton (steps : list string) : list string :=
  (λ raw, join " " (take STEP_WORDS_CAP (content_words raw))) <$> steps.

(** The line break of the f-string. *)
Definition nl_char : ascii := ascii_of_nat 10.
Definition newline : string := str_of_bytes [10%nat].

Definition render_parts (goal domain : string) (entities steps : list string) : string :=
  ("goal=" ++ goal ++ newline ++ "domain=" ++ domain ++ newline ++
   "entities=" ++ join "," entities ++ newline ++ "steps=" ++ join "|" steps)%string.

Definition render_canonical_form (inputs : ClusterFingerprintInputs) : string :=
  render_parts (canonical_goal_phrase (goal_phrase inputs))
    (canonical_domain (domain inputs))
    (canonical_entities (entity_ids inputs) (entity_centralities inputs))
    (canonical_step_skeleton (step_skeleton inputs)).

Definition compute_fingerprint (sha256_hex : string → string)
    (inputs : ClusterFingerprintInputs) : FingerprintRec :=
  let canonical := render_canonical_form inputs in
  {| fp := ("fp:" ++ FINGERPRINT_FORMULA_VERSION ++ ":" ++ sha256_hex canonical)%string;
     canonical_form := canonical |}.

(** Two clusters a Forge run should identify: the same non-stopword goal
    tokens as a set, the same domain up to outer blanks and ASCII case, the
    same entities as a set under the same scores, and step by step the same
    content words. *)
Record cluster_equiv (i1 i2 : ClusterFingerprintInputs) : Prop := {
  ce_goal : ∀ w, w ∉ _STOPWORDS →
    (w ∈ _tokenize (goal_phrase i1) ↔ w ∈ _tokenize (goal_phrase i2));
  ce_domain : domain i1 = domain i2 ∨
    (is_ascii (domain i1) = true ∧ is_ascii (domain i2) = true ∧
     ascii_lower (str_strip (domain i1)) = ascii_lower (str_strip (domain i2)));
  ce_entities : ∀ e, e ∈ entity_ids i1 ↔ e ∈ entity_ids i2;
  ce_centralities : entity_centralities i1 = entity_centralities i2;
  ce_steps : Forall2 (λ s1 s2, content_words s1 = content_words s2)
    (step_skeleton i1) (step_skeleton i2);
}.

(** Inputs whose parts do not contain the separators of the rendered form. *)
Record separable (i : ClusterFingerprintInputs) : Prop := {
  sep_domain : str_free nl_char (canonical_domain (domain i)) = true;
  sep_entities : Forall (λ e, e ≠ "" ∧ str_free nl_char e = true ∧ str_free "," e = true)
    (entity_ids i);
  sep_steps : step_skeleton i ≠ [];
}.

End WithText.

(** ** The ranking order is total *)

Lemma rank_le_spec cs a b :
  rank_le cs a b ↔
  (centrality cs b < centrality cs a)%Q ∨
  ((centrality cs b == centrality cs a)%Q ∧ String.le a b).
Proof.
  unfold rank_le, rank_leb, String.le.
  destruct (Qcompare_spec (centrality cs b) (centrality cs a)) as [He|Hl|Hg].
  - rewrite Is_true_true. split; [naive_solver|]. intros [Hl|[_ ?]]; [lra|done].
  - naive_solver.
  - split; [done|]. intros [Hl|[He _]]; lra.
Qed.
#[global] Instance rank_le_total cs : Total (rank_le cs).
Proof.
  intros a b. rewrite !rank_le_spec.
  destruct (Qcompare_spec (centrality cs b) (centrality cs a)) as [He|Hl|Hg];
    [|by left; left|by right; left].
  destruct (total String.le a b); [left|right]; right; split; by auto with qarith.
Qed.
#[global] Instance rank_le_trans cs : Transitive (rank_le cs).
Proof.
  intros a b c. rewrite !rank_le_spec.
  intros [H1|[H1 H1']] [H2|[H2 H2']]; [left; lra..|].
  right. split; [lra|by etrans].
Qed.
#[global] Instance rank_le_antisymm cs : AntiSymm (=) (rank_le cs).
Proof.
  intros a b. rewrite !rank_le_spec.
  intros [H1|[H1 H1']] [H2|[H2 H2']]; [lra..|]. by apply (anti_symm String.le).
Qed.

Lemma canonical_entities_ext ids1 ids2 cs :
  (∀ e, e ∈ ids1 ↔ e ∈ ids2) → canonical_entities ids1 cs = canonical_entities ids2 cs.
Proof.
  intros Heq. unfold canonical_entities.
  destruct ids1 as [|x ids1], ids2 as [|y ids2]; [done|exfalso..|].
  - apply (not_elem_of_nil y), Heq. by left.
  - apply (not_elem_of_nil x), Heq. by left.
  - case_match; [|by rewrite (sorted_set_ext _ (y :: ids2))].
    case_match; [by rewrite (sorted_set_ext _ (y :: ids2))|].
    do 2 f_equal. apply merge_sort_ext; [apply _..|].
    apply NoDup_Permutation; [apply NoDup_remove_dups..|].
    intros e. by rewrite !elem_of_remove_dups.
Qed.
Lemma canonical_entities_elem e ids cs : e ∈ canonical_entities ids cs → e ∈ ids.
Proof.
  unfold canonical_entities. destruct ids as [|i ids]; [done|].
  rewrite elem_of_sort_strings. intros He.
  enough (e ∈ remove_dups (i :: ids)) by by apply elem_of_remove_dups.
  case_match; [case_match|]; apply elem_of_take in He as (n & He & _);
    apply list_elem_of_lookup_2 in He;
    rewrite ?elem_of_sorted_set, ?elem_of_remove_dups, ?merge_sort_Permutation in *;
    try done; by rewrite elem_of_remove_dups in He.
Qed.

(** ** Tokens, words and the rendered form *)
Section TextLemmas.
Context `{PyText}.

Lemma canonical_goal_phrase_words text :
  canonical_goal_phrase text = join " " (take GOAL_PHRASE_TOP_K (sorted_set (content_words text))).
Proof.
  unfold canonical_goal_phrase. destruct (String.eqb_spec text "") as [->|]; done.
Qed.
Lemma content_words_set t1 t2 :
  (∀ w, w ∉ _STOPWORDS → (w ∈ _tokenize t1 ↔ w ∈ _tokenize t2)) →
  ∀ w, w ∈ content_words t1 ↔ w ∈ content_words t2.
Proof.
  intros Hw w. unfold content_words. rewrite !list_elem_of_fmap.
  setoid_rewrite list_elem_of_filter. unfold not_stopword. naive_solver.
Qed.
Lemma alnum_runs_alnum cur s :
  str_all is_alnum cur = true →
  Forall (λ w, str_all is_alnum w = true) (alnum_runs cur s).
Proof.
  assert (He : ∀ c, str_all is_alnum c = true → Forall (λ w, str_all is_alnum w = true) (emit c)).
  { intros c Hc. unfold emit. destruct (String.eqb c ""); by repeat constructor. }
  revert cur. induction s as [|c s IH]; intros cur Hcur; simpl; [by apply He|].
  destruct (is_alnum c) eqn:Hc.
  - apply IH. rewrite str_all_app, Hcur. simpl. by rewrite Hc.
  - apply Forall_app. split; [by apply He|by apply IH].
Qed.
Lemma strip_simple_plural_alnum w :
  str_all is_alnum w = true → str_all is_alnum (_strip_simple_plural w) = true.
Proof.
  intros Hw. unfold _strip_simple_plural, drop_last.
  repeat case_match; try done; rewrite ?str_all_app;
    by rewrite ?str_all_substring.
Qed.
Lemma content_words_alnum text :
  Forall (λ w, str_all is_alnum w = true) (content_words text).
Proof.
  unfold content_words, _tokenize. apply Forall_fmap.
  apply (Forall_impl (λ w, str_all is_alnum w = true));
    [|intros; by apply strip_simple_plural_alnum].
  rewrite Forall_forall. intros w [_ Hw]%list_elem_of_filter. revert w Hw.
  apply Forall_forall. case_match; [constructor|]. by apply alnum_runs_alnum.
Qed.

(** A text of [is_alnum] characters and blanks has no separator in it. *)
Lemma join_words_free c l :
  is_alnum c = false → Ascii.eqb c " " = false →
  Forall (λ w, str_all is_alnum w = true) l → str_free c (join " " l) = true.
Proof.
  intros Hc Hsp Hl. unfold str_free. apply str_all_join.
  - simpl. by rewrite Hsp.
  - eapply Forall_impl; [exact Hl|]. intros w Hw. eapply str_all_impl; [|exact Hw].
    intros a Ha. destruct (Ascii.eqb_spec c a) as [->|]; [congruence|done].
Qed.

Lemma goal_free text : str_free nl_char (canonical_goal_phrase text) = true.
Proof.
  rewrite canonical_goal_phrase_words. apply join_words_free; [done..|].
  apply Forall_take. rewrite Forall_forall. intros w.
  rewrite elem_of_sorted_set. revert w. apply Forall_forall, content_words_alnum.
Qed.

Lemma steps_free steps :
  Forall (λ s, str_free "|" s = true) (canonical_step_skeleton steps).
Proof.
  apply Forall_fmap, Forall_forall. intros raw _.
  apply join_words_free; [done..|]. apply Forall_take, content_words_alnum.
Qed.

Lemma render_parts_inj g1 g2 d1 d2 e1 e2 s1 s2 :
  str_free nl_char g1 = true → str_free nl_char g2 = true →
  str_free nl_char d1 = true → str_free nl_char d2 = true →
  Forall (λ e, e ≠ "" ∧ str_free nl_char e = true ∧ str_free "," e = true) e1 →
  Forall (λ e, e ≠ "" ∧ str_free nl_char e = true ∧ str_free "," e = true) e2 →
  s1 ≠ [] → s2 ≠ [] →
  Forall (λ s, str_free "|" s = true) s1 → Forall (λ s, str_free "|" s = true) s2 →
  render_parts g1 d1 e1 s1 = render_parts g2 d2 e2 s2 →
  g1 = g2 ∧ d1 = d2 ∧ e1 = e2 ∧ s1 = s2.
Proof.
  intros Hg1 Hg2 Hd1 Hd2 He1 He2 Hn1 Hn2 Hs1 Hs2 Heq.
  unfold render_parts in Heq. apply (inj (String.append "goal=")) in Heq.
  apply (cut_unique nl_char) in Heq as [-> Heq]; [|done..].
  apply (inj (String.append "domain=")) in Heq.
  apply (cut_unique nl_char) in Heq as [-> Heq]; [|done..].
  apply (inj (String.append "entities=")) in Heq.
  apply (cut_unique nl_char) in Heq as [Hent Heq].
  2, 3: unfold str_free; apply str_all_join; [done|];
    eapply Forall_impl; [eassumption|]; naive_solver.
  apply (inj (String.append "steps=")), join_inj in Heq; [|done..].
  split_and!; [done..| |done]. apply join_inj_nonempty in Hent; [done|..];
    eapply Forall_impl; try eassumption; naive_solver.
Qed.

Lemma canonical_domain_fold d1 d2 :
  is_ascii d1 = true → is_ascii d2 = true →
  ascii_lower (str_strip d1) = ascii_lower (str_strip d2) →
  canonical_domain d1 = canonical_domain d2.
Proof.
  intros H1 H2 Heq. unfold canonical_domain.
  by rewrite !str_lower_ascii by by apply is_ascii_strip.
Qed.

Lemma canonical_step_skeleton_ext s1 s2 :
  Forall2 (λ a b, content_words a = content_words b) s1 s2 →
  canonical_step_skeleton s1 = canonical_step_skeleton s2.
Proof.
  induction 1 as [|a b s1 s2 Hab Hs IH]; [done|].
  unfold canonical_step_skeleton in *. rewrite !fmap_cons, Hab. by f_equal.
Qed.

#[global] Instance cluster_equiv_equivalence : Equivalence cluster_equiv.
Proof.
  split.
  - intros i. split; auto. by apply Forall_Forall2_diag, Forall_true.
  - intros i1 i2 []. split; [naive_solver..| |done|].
    + naive_solver.
    + apply Forall2_flip. eapply Forall2_impl; [eassumption|]. by cbn.
  - intros i1 i2 i3 [] []. split; [naive_solver| |naive_solver|congruence|].
    + intuition congruence.
    + eapply Forall2_trans; [|eassumption..]. cbn. congruence.
Qed.

#[global] Instance render_canonical_form_proper :
  Proper (cluster_equiv ==> eq) render_canonical_form.
Proof.
  intros i1 i2 [Hg Hd He Hc Hs]. unfold render_canonical_form. f_equal.
  - rewrite !canonical_goal_phrase_words.
    by rewrite (sorted_set_ext _ _ (content_words_set _ _ Hg)).
  - destruct Hd as [->|(? & ? & ?)]; [done|]. by apply canonical_domain_fold.
  - rewrite Hc. by apply canonical_entities_ext.
  - by apply canonical_step_skeleton_ext.
Qed.

(** ** Properties *)

(** Clusters that differ only in word order, stopwords, repeated words,
    domain case and outer blanks, or entity order and repetition have the
    same fingerprint and the same canonical form. *)
Theorem compute_fingerprint_invariant sha i1 i2 :
  cluster_equiv i1 i2 → compute_fingerprint sha i1 = compute_fingerprint sha i2.
Proof. intros Heq. unfold compute_fingerprint. by rewrite Heq. Qed.


End TextLemmas.

(** With centralities, an entity scored below each of the five chosen
    ones leaves the chosen entities as they are, wherever it is inserted. *)
Theorem canonical_entities_top_k_stable ids ids' e c0 cs :
  (ENTITY_TOP_K ≤ length (remove_dups ids))%nat →
  e ∉ ids → (∀ x, x ∈ ids' ↔ x = e ∨ x ∈ ids) →
  (∀ x, x ∈ canonical_entities ids (Some (c0 :: cs)) →
        (centrality (c0 :: cs) e < centrality (c0 :: cs) x)%Q) →
  canonical_entities ids' (Some (c0 :: cs)) = canonical_entities ids (Some (c0 :: cs)).
Proof.
  intros Hlen He Hids' Hlow.
  rewrite (canonical_entities_ext ids' (e :: ids)) by (intros x; rewrite Hids'; set_solver).
  destruct ids as [|i ids]; [cbn in Hlen; unfold ENTITY_TOP_K in Hlen; lia|].
  unfold canonical_entities in *. f_equal.
  replace (remove_dups (e :: i :: ids)) with (e :: remove_dups (i :: ids)).
  - apply merge_sort_take_cons; [apply _..|done|].
    intros y Hy. apply rank_le_spec. left. apply Hlow. by apply elem_of_sort_strings.
  - remember (i :: ids) as l. cbn. by destruct (decide_rel _ e l).
Qed.

(** ** Witnesses *)
#[local] Existing Instance AsciiText.

Definition ex_inputs1 : ClusterFingerprintInputs := {|
  goal_phrase := "Deploy hangs in eu-west"; domain := " DevOps ";
  entity_ids := ["e2"; "e1"; "e2"]; step_skeleton := ["check the logs"; "restart pods"];
  entity_centralities := None |}%string.
Definition ex_inputs2 : ClusterFingerprintInputs := {|
  goal_phrase := "the EU-West hangs: deploy"; domain := "devops";
  entity_ids := ["e1"; "e2"]; step_skeleton := ["Check logs"; "restart the pods!"];
  entity_centralities := None |}%string.

Lemma ex_inputs_equiv : @cluster_equiv AsciiText ex_inputs1 ex_inputs2.
Proof.
  split; [|by right; split_and!|set_solver|done|by repeat constructor].
  intros w Hw. unfold _STOPWORDS in Hw.
  replace (@_tokenize AsciiText (goal_phrase ex_inputs1))
    with ["deploy"; "hangs"; "in"; "eu"; "west"]%string by reflexivity.
  replace (@_tokenize AsciiText (goal_phrase ex_inputs2))
    with ["the"; "eu"; "west"; "hangs"; "deploy"]%string by reflexivity.
  set_solver.
Qed.

Lemma compute_fingerprint_invariant_witness :
  cluster_equiv ex_inputs1 ex_inputs2 ∧
  compute_fingerprint (λ s, s) ex_inputs1 = compute_fingerprint (λ s, s) ex_inputs2.
Proof.
  split; [apply ex_inputs_equiv|].
  apply (@compute_fingerprint_invariant AsciiText), ex_inputs_equiv.
Defined.

Lemma ex_separable : @separable AsciiText ex_inputs1 ∧ @separable AsciiText ex_inputs2.
Proof. split; (split; [done|by repeat constructor|done]). Qed.


Definition ex_scores : list (string * Q) :=
  [("a", 1%Q); ("b", (9#10)%Q); ("c", (8#10)%Q); ("d", (7#10)%Q); ("e", (6#10)%Q);
   ("f", (1#10)%Q)]%string.

Lemma canonical_entities_top_k_stable_witness :
  canonical_entities ["a"; "b"; "f"; "c"; "d"; "e"]%string (Some ex_scores) =
  canonical_entities ["a"; "b"; "c"; "d"; "e"]%string (Some ex_scores).
Proof.
  apply (canonical_entities_top_k_stable ["a"; "b"; "c"; "d"; "e"]%string _ "f"%string
           ("a"%string, 1%Q) (tail ex_scores)).
  - by vm_compute; lia.
  - set_solver.
  - set_solver.
  - replace (canonical_entities _ _) with ["a"; "b"; "c"; "d"; "e"]%string by reflexivity.
    intros x Hx. repeat (apply elem_of_cons in Hx as [->|Hx]; [reflexivity|]).
    by apply not_elem_of_nil in Hx.
Defined.

End Fingerprint.
