(* ===== verification/SkillLifecycle.v ===== *)
(** * Skill lifecycle: the pre-write validator and the auto-promotion gates
    (core_api/services/skill_lifecycle.py)

    [validate_and_normalize_skill_write] is split at the source's "Adjustment"
    comments, one definition each, composed in the source's order.  The clock,
    the hash and the caller's context are arguments. *)

From S2P Require Import Prelude Regex Sentinel.
Import Regex.

Module SkillLifecycle.

Definition ALLOWED_SOURCES : list string := ["forge"; "agent"; "manual"; "imported"]%string.
Definition ALLOWED_KINDS : list string := ["create"; "update"]%string.
Definition ALLOWED_STATUSES : list string :=
  ["candidate"; "staged"; "active"; "rejected"; "quarantined"; "stale"; "deprecated"]%string.
Definition ADMIN_ONLY_SOURCES : list string := ["manual"]%string.
Definition INTERNAL_ONLY_SOURCES : list string := ["forge"]%string.
Definition ADMIN_ONLY_STATUSES : list string := ["active"]%string.
Definition INTERNAL_ONLY_STATUSES : list string := ["candidate"]%string.
Definition SYSTEM_ONLY_STATUSES : list string :=
  ["quarantined"; "rejected"; "stale"; "deprecated"]%string.
Definition REQUIRED_TOP_LEVEL_KEYS : list string :=
  ["name"; "slug"; "description"; "domain"; "kind"; "source"]%string.
Definition _SLUG_RE : compiled := re_compile no_flags "^[a-z0-9][a-z0-9._-]{0,99}$".
Example slug_pattern_compiles : compiles _SLUG_RE = true.
Proof. vm_compute. reflexivity. Qed.

Record SkillWriteContext : Type := {
  caller_agent_id : option string;
  is_admin : bool;
  is_internal_forge : bool;
  description_max_bytes : Z;
  body_max_bytes : Z;
  is_inbox_edit : bool;
}.

(** Why a write is refused: one constructor per [_raise] of the source. *)
Inductive reject_reason : Type :=
| BodyNotObject
| MissingKeys (ks : list string)
| NotAString (k : string)
| BadSlug (slug : string)
| BadKind
| BadSource
| BadTags
| SourceReservedForForge
| SourceNeedsAdmin
| BadStatus
| StatusReservedForForge
| StatusNeedsAdmin
| StatusSystemManaged
| DescriptionTooLong (size cap : Z)
| ContentNotAString
| ContentTooLong (size cap : Z)
| ContentRequired
| UpdateNeedsTargetHash
| UpdateNoLiveSkill
| UpdateNoLiveHash
| UpdateHashMismatch
| ScanFatal (code : string).

(** [HTTPException(status, detail)], or another exception that escapes. *)
Inductive write_error : Type :=
| Http (status : Z) (why : reject_reason)
| Raised (e : pyexn).

(** [v not in SET] for a set of strings, [TypeError] on an unhashable [v]. *)
Definition member (v : pyval) (s : list string) : res write_error bool :=
  if hashable v
  then Ok (match v with PStr x => str_mem x s | _ => false end)
  else Err (Raised TypeError).

(** ** Adjustment 1: required keys and their types *)
Definition missing_keys (out : pydict) : list string :=
  List.filter (λ k, negb (dhas out k)) REQUIRED_TOP_LEVEL_KEYS.

Definition require_str (out : pydict) (k : string) : res write_error string :=
  match dgetv out k with PStr s => Ok s | _ => Err (Http 422 (NotAString k)) end.

Definition tags_ok (v : pyval) : bool :=
  match v with
  | PList l => forallb (λ t, match t with PStr _ => true | _ => false end) l
  | _ => false
  end.

(** The checked fields the later adjustments use. *)
Record checked : Type := { ck_description : string; ck_kind : string; ck_source : string }.

(** A value known to be a member of a set of strings is a string. *)
Definition str_of (v : pyval) : string := default "" (as_str v).

Section Validate.
Context `{PyText}.
Context (sha256_hex : string → string).
Context (render : Sentinel.finding_msg → string).

Definition adjust_schema (out : pydict) : res write_error checked :=
  let missing := missing_keys out in
  raise_if negb (bool_decide (missing = [])) with Http 422 (MissingKeys missing);;
  name ← require_str out "name";
  slug ← require_str out "slug";
  desc ← require_str out "description";
  domain ← require_str out "domain";
  raise_if negb (re_fullmatch _SLUG_RE slug) with Http 422 (BadSlug slug);;
  kind_ok ← member (dgetv out "kind") ALLOWED_KINDS;
  raise_if negb kind_ok with Http 422 BadKind;;
  source_ok ← member (dgetv out "source") ALLOWED_SOURCES;
  raise_if negb source_ok with Http 422 BadSource;;
  raise_if (dhas out "tags" && negb (tags_ok (dgetv out "tags"))) with Http 422 BadTags;;
  Ok {| ck_description := desc; ck_kind := str_of (dgetv out "kind");
        ck_source := str_of (dgetv out "source") |}.

(** ** Adjustment 4: who may mint which source *)
Definition adjust_source (ctx : SkillWriteContext) (src : string) : res write_error unit :=
  if is_inbox_edit ctx then Ok tt
  else
    raise_if (str_mem src INTERNAL_ONLY_SOURCES && negb (is_internal_forge ctx))
      with Http 403 SourceReservedForForge;;
    raise_if (str_mem src ADMIN_ONLY_SOURCES && negb (is_admin ctx))
      with Http 403 SourceNeedsAdmin;;
    Ok tt.

(** ** Adjustment 5: default status, and who may set which *)
Definition adjust_status (ctx : SkillWriteContext) (out : pydict) : res write_error pydict :=
  let out := if dhas out "status" then out
             else dset out "status" (PStr (if is_internal_forge ctx then "candidate" else "staged")) in
  status_ok ← member (dgetv out "status") ALLOWED_STATUSES;
  raise_if negb status_ok with Http 422 BadStatus;;
  let status := str_of (dgetv out "status") in
  raise_if (str_mem status INTERNAL_ONLY_STATUSES && negb (is_internal_forge ctx))
    with Http 403 StatusReservedForForge;;
  raise_if (str_mem status ADMIN_ONLY_STATUSES && negb (is_admin ctx))
    with Http 403 StatusNeedsAdmin;;
  raise_if str_mem status SYSTEM_ONLY_STATUSES with Http 403 StatusSystemManaged;;
  Ok out.

(** ** Adjustments 2 and 3: size caps.  Returns the content when there is one. *)
Definition adjust_description (ctx : SkillWriteContext) (desc : string) : res write_error unit :=
  raise_if (description_max_bytes ctx <? bytes_len desc)
    with Http 422 (DescriptionTooLong (bytes_len desc) (description_max_bytes ctx));;
  Ok tt.

Definition adjust_body (ctx : SkillWriteContext) (src : string) (out : pydict) :
    res write_error (option string) :=
  match dgetv out "content" with
  | PNone =>
      raise_if negb (String.eqb src "imported") with Http 422 ContentRequired;;
      Ok None
  | PStr content =>
      raise_if (body_max_bytes ctx <? bytes_len content)
        with Http 422 (ContentTooLong (bytes_len content) (body_max_bytes ctx));;
      Ok (Some content)
  | _ => Err (Http 422 ContentNotAString)
  end.

Definition _sha256 (text : string) : string := ("sha256:" ++ sha256_hex text)%string.

(** ** Adjustment 6: server-controlled fields *)

(** The bytes of the first character of a UTF-8 text. *)
Definition char_width (a : ascii) : nat :=
  let b := byte_of a in
  if (b <? 192)%N then 1 else if (b <? 224)%N then 2 else if (b <? 240)%N then 3 else 4.

(** [dict(v)] for a truthy [v]: an object is copied; a list must hold pairs;
    anything else raises.  Objects here have string keys, so a pair with
    another key leaves the model, which reports it as an exception. *)
Definition pair_of (v : pyval) : res pyexn (string * pyval) :=
  match v with
  | PList [PStr k; w] => Ok (k, w)
  | PList [k; _] => if hashable k then Err (OtherExc "non-string key") else Err TypeError
  | PList _ => Err ValueError
  | PStr s =>
      match codepoints s, s with
      | [_; _], String a _ =>
          Ok (String.substring 0 (char_width a) s, PStr (drop_str (char_width a) s))
      | _, _ => Err ValueError
      end
  | PDict [(k1, _); (k2, _)] => Ok (k1, PStr k2)
  | PDict _ => Err ValueError
  | _ => Err TypeError
  end.
Fixpoint dict_of_pairs (acc : pydict) (l : list pyval) : res pyexn pydict :=
  match l with
  | [] => Ok acc
  | v :: l => kw ← pair_of v; dict_of_pairs (dset acc kw.1 kw.2) l
  end.
Definition dict_of (v : pyval) : res pyexn pydict :=
  match v with
  | PDict d => Ok d
  | PList l => dict_of_pairs [] l
  | PStr _ => Err ValueError
  | _ => Err TypeError
  end.

(** [dict(out.get("origin") or {})] *)
Definition origin_copy (out : pydict) : res write_error pydict :=
  let v := dgetv out "origin" in
  if truthy v then match dict_of v with Ok d => Ok d | Err e => Err (Raised e) end else Ok [].

(** [ctx.caller_agent_id or "unknown"] *)
Definition stamped_agent (ctx : SkillWriteContext) : string :=
  match caller_agent_id ctx with
  | Some a => if String.eqb a "" then "unknown" else a
  | None => "unknown"
  end.

Definition adjust_autofill (ctx : SkillWriteContext) (now : string) (content : option string)
    (out : pydict) : res write_error pydict :=
  let out := if dhas out "created_at" then out else dset out "created_at" (PStr now) in
  let out := dset out "updated_at" (PStr now) in
  let out := match content with
             | Some c => dset out "content_hash" (PStr (_sha256 c))
             | None => out
             end in
  origin ← origin_copy out;
  Ok (dset out "origin" (PDict (dset origin "agent_id" (PStr (stamped_agent ctx))))).

(** ** Adjustment 7a: an update is bound to the live skill's hash *)
Definition live_hash_of (live : pyval) : res write_error pyval :=
  let live_data := match live with PDict d => dgetv d "data" | _ => PNone end in
  if truthy live_data
  then match live_data with
       | PDict d => Ok (dgetv d "content_hash")
       | _ => Err (Raised AttributeError)
       end
  else Ok PNone.

Definition adjust_update (kind : string) (live : pyval) (out : pydict) : res write_error unit :=
  if String.eqb kind "update" then
    match dgetv out "target" with
    | PDict target =>
        match dget target "target_content_hash" with
        | None => Err (Http 422 UpdateNeedsTargetHash)
        | Some th =>
            match live with
            | PNone => Err (Http 404 UpdateNoLiveSkill)
            | _ =>
                live_hash ← live_hash_of live;
                match live_hash with
                | PNone => Err (Http 409 UpdateNoLiveHash)
                | _ =>
                    raise_if negb (py_eqb th live_hash) with Http 409 UpdateHashMismatch;;
                    Ok tt
                end
            end
        end
    | _ => Err (Http 422 UpdateNeedsTargetHash)
    end
  else Ok tt.

(** ** Adjustment 7b: Sentinel *)
Definition adjust_scan (ctx : SkillWriteContext) (now : string) (out : pydict) :
    res write_error (pydict * Sentinel.ScanResult) :=
  match Sentinel.scan_skill_doc (PDict out) now (body_max_bytes ctx) (description_max_bytes ctx) with
  | Err e => Err (Raised e)
  | Ok scan =>
      match List.filter Sentinel.fatal (Sentinel.findings scan) with
      | f :: _ => Err (Http 422 (ScanFatal (Sentinel.code f)))
      | [] =>
          let out := if bool_decide (Sentinel.state scan = Sentinel.Quarantined)
                     then dset (dset out "status" (PStr "quarantined")) "quarantined_at" (PStr now)
                     else out in
          Ok (dset out "scan" (PDict (Sentinel.as_doc_field render scan)), scan)
      end
  end.

(** ** The validator *)
Definition validate_and_normalize_skill_write (data : pyval) (ctx : SkillWriteContext)
    (live : pyval) (now : string) : res write_error (pydict * Sentinel.ScanResult) :=
  match data with
  | PDict d =>
      ck ← adjust_schema d;
      _ ← adjust_source ctx (ck_source ck);
      out ← adjust_status ctx d;
      _ ← adjust_description ctx (ck_description ck);
      content ← adjust_body ctx (ck_source ck) out;
      out ← adjust_autofill ctx now content out;
      _ ← adjust_update (ck_kind ck) live out;
      adjust_scan ctx now out
  | _ => Err (Http 422 BodyNotObject)
  end.

End Validate.

(** ** Auto-gates: candidate to staged *)

(** Why a gate failed. *)
Inductive gate_reason : Type :=
| NoReason
| NotApplicable
| MissingField (k : string)
| BelowFloor (got floor : Z)
| TooOld (age_us : Z)
| CheckerMissing
| CheckerRaised (exc : string)
| Poisoned (fp : string)
| ScanStateIs (v : pyval)
| HashesDiffer (target live : pyval).

Record GateOutcome : Type := { g_name : string; g_passed : bool; g_reason : gate_reason }.
Definition pass (n : string) : GateOutcome :=
  {| g_name := n; g_passed := true; g_reason := NoReason |}.
Definition gate_fail (n : string) (r : gate_reason) : GateOutcome :=
  {| g_name := n; g_passed := false; g_reason := r |}.

Record AutoGateResult : Type := { promote : bool; gates : list GateOutcome }.
Definition fail_reasons (r : AutoGateResult) : list (string * gate_reason) :=
  (λ g, (g_name g, g_reason g)) <$> filter (λ g, g_passed g = false) (gates r).

(** [(d.get(k) or {})] followed by a [.get]: a truthy value that is not an
    object has no such method. *)
Definition get_object (d : pydict) (k : string) : res pyexn pydict :=
  let v := dgetv d k in
  if truthy v then match v with PDict o => Ok o | _ => Err AttributeError end else Ok [].

(** G1 and G2: an integer of [origin] against its floor. *)
Definition floor_gate (name field : string) (floor : Z) (origin : pydict) : GateOutcome :=
  match as_int (dgetv origin field) with
  | None => gate_fail name (MissingField field)
  | Some n => if n <? floor then gate_fail name (BelowFloor n floor) else pass name
  end.

Section Gates.
(** [datetime.fromisoformat], [None] for [ValueError]. *)
Context (fromisoformat : string → option datetime).

(** [s.replace("Z", "+00:00")] *)
Fixpoint replace_Z (s : string) : string :=
  match s with
  | EmptyString => EmptyString
  | String c s' =>
      if Ascii.eqb c "Z" then ("+00:00" ++ replace_Z s')%string else String c (replace_Z s')
  end.

Definition window_end_of (origin : pydict) : option datetime :=
  match dgetv origin "window_end" with
  | PStr s => fromisoformat (replace_Z s)
  | PTime t => Some t
  | _ => None
  end.

(** The instant of a datetime, a naive one read as UTC, in microseconds. *)
Definition instant (t : datetime) : Z := dt_wall t - default 0 (dt_offset t).

Definition day_us : Z := 86400 * 1000000.

(** G3.  [age_days > window] on the exact age. *)
Definition freshness_gate (now : datetime) (freshness_window_days : Z) (origin : pydict) :
    GateOutcome :=
  match window_end_of origin with
  | None => gate_fail "freshness" (MissingField "window_end")
  | Some w =>
      let age := instant now - instant w in
      if freshness_window_days * day_us <? age
      then gate_fail "freshness" (TooOld age) else pass "freshness"
  end.

(** G4.  The injected checker answers, or raises an exception named [exc]. *)
Definition poison_gate (poison_checker : option (string → res string bool)) (doc : pydict) :
    GateOutcome :=
  match dgetv doc "cluster_fingerprint" with
  | PStr fp =>
      if String.eqb fp "" then gate_fail "poison" (MissingField "cluster_fingerprint")
      else match poison_checker with
           | None => gate_fail "poison" CheckerMissing
           | Some check =>
               match check fp with
               | Err exc => gate_fail "poison" (CheckerRaised exc)
               | Ok true => gate_fail "poison" (Poisoned fp)
               | Ok false => pass "poison"
               end
           end
  | _ => gate_fail "poison" (MissingField "cluster_fingerprint")
  end.

(** G5 *)
Definition scan_gate (doc : pydict) : res pyexn GateOutcome :=
  scan ← get_object doc "scan";
  let st := dgetv scan "state" in
  Ok (if py_eqb (PStr "clean") st then pass "scan" else gate_fail "scan" (ScanStateIs st)).

(** G6 *)
Definition hash_gate (live_data_fetcher : option (string → res string pyval)) (doc : pydict) :
    GateOutcome :=
  if negb (py_eqb (PStr "update") (default (PStr "create") (dget doc "kind")))
  then {| g_name := "hash_binding"; g_passed := true; g_reason := NotApplicable |}
  else
    let target := dgetv doc "target" in
    let target_hash :=
      match target with PDict t => dgetv t "target_content_hash" | _ => PNone end in
    match target_hash, dgetv doc "slug" with
    | PStr th, PStr slug =>
        match live_data_fetcher with
        | None => gate_fail "hash_binding" CheckerMissing
        | Some fetch =>
            match fetch slug with
            | Err exc => gate_fail "hash_binding" (CheckerRaised exc)
            | Ok live =>
                let live_hash := match live with PDict d => dgetv d "content_hash" | _ => PNone end in
                if py_eqb (PStr th) live_hash then pass "hash_binding"
                else gate_fail "hash_binding" (HashesDiffer (PStr th) live_hash)
            end
        end
    | _, _ => gate_fail "hash_binding" (MissingField "target_content_hash or slug")
    end.

Definition evaluate_auto_gates (doc : pydict) (now : datetime)
    (poison_checker : option (string → res string bool))
    (live_data_fetcher : option (string → res string pyval))
    (min_cluster_size min_distinct_agents freshness_window_days : Z) :
    res pyexn AutoGateResult :=
  origin ← get_object doc "origin";
  let g1 := floor_gate "volume" "cluster_size" min_cluster_size origin in
  let g2 := floor_gate "diversity" "distinct_agents" min_distinct_agents origin in
  let g3 := freshness_gate now freshness_window_days origin in
  let g4 := poison_gate poison_checker doc in
  g5 ← scan_gate doc;
  let g6 := hash_gate live_data_fetcher doc in
  let gs := [g1; g2; g3; g4; g5; g6] in
  Ok {| promote := forallb g_passed gs; gates := gs |}.

End Gates.

(** ** What a successful write went through *)
Section Theorems.
Context `{PyText}.
Context (sha256_hex : string → string).
Context (render : Sentinel.finding_msg → string).
Notation validate := (validate_and_normalize_skill_write sha256_hex render).

(** The keys the validator may write. *)
Definition server_keys : list string :=
  ["status"; "created_at"; "updated_at"; "content_hash"; "origin"; "scan"; "quarantined_at"]%string.

Lemma member_Ok v s : member v s = Ok true → ∃ x, v = PStr x ∧ x ∈ s.
Proof.
  unfold member. destruct v; cbn; try discriminate. intros [= Hx%str_mem_spec]. naive_solver.
Qed.

Lemma require_str_Ok out k s : require_str out k = Ok s → dgetv out k = PStr s.
Proof. unfold require_str. by destruct (dgetv out k); naive_solver. Qed.

Lemma adjust_schema_Ok d ck :
  adjust_schema d = Ok ck →
  missing_keys d = [] ∧ dgetv d "description" = PStr (ck_description ck) ∧
  dgetv d "kind" = PStr (ck_kind ck) ∧ dgetv d "source" = PStr (ck_source ck) ∧
  ck_source ck ∈ ALLOWED_SOURCES ∧
  ∃ slug, dgetv d "slug" = PStr slug ∧ re_fullmatch _SLUG_RE slug = true.
Proof.
  unfold adjust_schema. intros Hs. res_inv. subst ck. cbn [ck_description ck_kind ck_source].
  repeat match goal with
  | Hx : require_str _ _ = Ok _ |- _ => apply require_str_Ok in Hx
  | Hx : negb _ = false |- _ => apply negb_false_iff in Hx; subst
  | Hx : member _ _ = Ok true |- _ => apply member_Ok in Hx as (? & ? & ?)
  | Hx : bool_decide _ = true |- _ => apply bool_decide_eq_true in Hx
  end.
  repeat match goal with Hx : dgetv d _ = _ |- _ => rewrite Hx end. naive_solver.
Qed.

Lemma adjust_source_Ok ctx src :
  adjust_source ctx src = Ok tt →
  is_inbox_edit ctx = true ∨
  (src = "forge" → is_internal_forge ctx = true) ∧ (src = "manual" → is_admin ctx = true).
Proof.
  unfold adjust_source. destruct (is_inbox_edit ctx); [naive_solver|].
  intros Hs. res_inv. right.
  destruct (is_internal_forge ctx), (is_admin ctx); split; intros ->; done.
Qed.

Definition status_allowed (ctx : SkillWriteContext) (st : string) : Prop :=
  st = "staged" ∨ st = "active" ∧ is_admin ctx = true ∨
  st = "candidate" ∧ is_internal_forge ctx = true.

Lemma adjust_status_Ok ctx d out :
  adjust_status ctx d = Ok out →
  (∃ st, dgetv out "status" = PStr st ∧ status_allowed ctx st) ∧
  (∀ k, k ≠ "status"%string → dget out k = dget d k).
Proof.
  unfold adjust_status.
  set (out0 := if dhas d "status" then d else _).
  assert (Hframe : ∀ k, k ≠ "status"%string → dget out0 k = dget d k).
  { intros k Hk. unfold out0. case_match; [done|]. by rewrite dget_dset_ne. }
  clearbody out0. intros Hs. res_inv. subst out0. split; [|exact Hframe].
  repeat match goal with
  | Hx : negb _ = false |- _ => apply negb_false_iff in Hx; subst
  | Hx : member _ _ = Ok true |- _ => apply member_Ok in Hx as (st & Hst & Hin)
  end.
  exists st. split; [done|]. rewrite Hst in *. cbn in *.
  repeat (apply elem_of_cons in Hin as [->|Hin]; [unfold status_allowed;
    destruct (is_admin ctx), (is_internal_forge ctx); naive_solver|]).
  by apply not_elem_of_nil in Hin.
Qed.

Lemma adjust_description_Ok ctx desc :
  adjust_description ctx desc = Ok tt → bytes_len desc ≤ description_max_bytes ctx.
Proof. unfold adjust_description. intros Hs. res_inv. lia. Qed.

Lemma adjust_body_Ok ctx src out c :
  adjust_body ctx src out = Ok c →
  match c with
  | Some b => dgetv out "content" = PStr b ∧ bytes_len b ≤ body_max_bytes ctx
  | None => dgetv out "content" = PNone ∧ src = "imported"%string
  end.
Proof.
  unfold adjust_body. destruct (dgetv out "content"); intros Hs; res_inv; try done; subst.
  - split; [done|]. by apply negb_false_iff, String.eqb_eq in H0.
  - split; [done|]. lia.
Qed.

Lemma dget_dset_other (d : pydict) k k' v : String.eqb k k' = false → dget (dset d k v) k' = dget d k'.
Proof. intros Hk. apply dget_dset_ne. by apply String.eqb_neq. Qed.

(** The fields the server stamps. *)
Definition stamped (ctx : SkillWriteContext) (now : string) (content : option string)
    (before after : pydict) : Prop :=
  dget after "updated_at" = Some (PStr now) ∧
  (dhas before "created_at" = false → dget after "created_at" = Some (PStr now)) ∧
  (∀ c, content = Some c → dget after "content_hash" = Some (PStr (_sha256 sha256_hex c))) ∧
  ∃ origin0 origin,
    origin_copy before = Ok origin0 ∧ dget after "origin" = Some (PDict origin) ∧
    dget origin "agent_id" = Some (PStr (stamped_agent ctx)) ∧
    (∀ k, k ≠ "agent_id"%string → dget origin k = dget origin0 k).

Lemma origin_copy_ext d d' :
  dget d' "origin" = dget d "origin" → origin_copy d' = origin_copy d.
Proof. intros Heq. unfold origin_copy, dgetv. by rewrite Heq. Qed.

(** Evaluate a lookup through the updates above it. *)
Ltac dict_lookup :=
  repeat first [rewrite dget_dset | rewrite dget_dset_other by reflexivity].

Lemma adjust_autofill_Ok ctx now content out out' :
  adjust_autofill sha256_hex ctx now content out = Ok out' →
  stamped ctx now content out out' ∧
  (∀ k, k ∉ ["created_at"; "updated_at"; "content_hash"; "origin"]%string →
        dget out' k = dget out k) ∧
  (dhas out "created_at" = true → dget out' "created_at" = dget out "created_at") ∧
  (content = None → dget out' "content_hash" = dget out "content_hash").
Proof.
  unfold adjust_autofill. set (o1 := if dhas out "created_at" then out else _).
  set (o2 := match content with Some _ => _ | None => _ end). intros Hs. res_inv.
  rename H0 into Horig. subst out'.
  assert (Ho2 : ∀ k, k ≠ "content_hash"%string → dget o2 k = dget (dset o1 "updated_at" (PStr now)) k).
  { intros k Hk. unfold o2. destruct content; [|done]. by rewrite dget_dset_ne. }
  assert (Ho1 : ∀ k, k ≠ "created_at"%string → dget o1 k = dget out k).
  { intros k Hk. unfold o1. case_match; [done|]. by rewrite dget_dset_ne. }
  rewrite (origin_copy_ext out) in Horig
    by (rewrite Ho2 by done; dict_lookup; by rewrite Ho1 by done).
  unfold stamped. split_and!.
  - dict_lookup. rewrite Ho2 by done. by dict_lookup.
  - intros Hc. dict_lookup. rewrite Ho2 by done. dict_lookup. unfold o1. rewrite Hc. by dict_lookup.
  - intros c ->. dict_lookup. unfold o2. by dict_lookup.
  - eexists _, _. split_and!; [exact Horig|by dict_lookup|by dict_lookup|].
    intros k Hk. by rewrite dget_dset_ne.
  - intros k Hk. rewrite !not_elem_of_cons in Hk. destruct Hk as (Hk1 & Hk2 & Hk3 & Hk4 & _).
    rewrite dget_dset_ne, Ho2, dget_dset_ne, Ho1 by done. done.
  - intros Hc. dict_lookup. rewrite Ho2 by done. dict_lookup. unfold o1. by rewrite Hc.
  - intros ->. dict_lookup. unfold o2. dict_lookup. by rewrite Ho1.
Qed.

(** The live skill an update is bound to. *)
Definition bound_to_live (live : pyval) (out : pydict) : Prop :=
  ∃ target th lv ld h,
    dgetv out "target" = PDict target ∧ dget target "target_content_hash" = Some th ∧
    live = PDict lv ∧ dgetv lv "data" = PDict ld ∧ dgetv ld "content_hash" = h ∧
    h ≠ PNone ∧ py_eqb th h = true.

Lemma adjust_update_Ok kind live out :
  adjust_update kind live out = Ok tt → kind = "update"%string → bound_to_live live out.
Proof.
  unfold adjust_update. intros Hs ->. rewrite String.eqb_refl in Hs.
  destruct (dgetv out "target") as [| | | | | | |target] eqn:Ht; try done.
  destruct (dget target "target_content_hash") as [th|] eqn:Hth; [|done].
  assert (Hl : ∃ h, live_hash_of live = Ok h ∧ h ≠ PNone ∧ py_eqb th h = true).
  { destruct live; try done; res_inv; destruct x; try done; res_inv;
      eexists; (split; [eassumption|]); (split; [done|]); by apply negb_false_iff. }
  destruct Hl as (h & Hlh & Hn & Heq). unfold live_hash_of in Hlh.
  destruct live as [| | | | | | |lv]; cbn in Hlh; try congruence.
  destruct (truthy (dgetv lv "data")) eqn:Htr; [|congruence].
  destruct (dgetv lv "data") as [| | | | | | |ld] eqn:Hld; try done.
  injection Hlh as Hlh. exists target, th, lv, ld, h. done.
Qed.

Lemma adjust_scan_Ok ctx now out res r :
  adjust_scan render ctx now out = Ok (res, r) →
  Sentinel.scan_skill_doc (PDict out) now (body_max_bytes ctx) (description_max_bytes ctx) = Ok r ∧
  Sentinel.any_fatal r = false ∧
  dget res "scan" = Some (PDict (Sentinel.as_doc_field render r)) ∧
  (Sentinel.state r = Sentinel.Quarantined →
   dget res "status" = Some (PStr "quarantined") ∧ dget res "quarantined_at" = Some (PStr now)) ∧
  (Sentinel.state r ≠ Sentinel.Quarantined →
   dget res "status" = dget out "status" ∧ dget res "quarantined_at" = dget out "quarantined_at") ∧
  (∀ k, k ∉ ["status"; "quarantined_at"; "scan"]%string → dget res k = dget out k).
Proof.
  unfold adjust_scan. destruct (Sentinel.scan_skill_doc _ _ _ _) as [scan|]; [|done].
  destruct (List.filter _ _) as [|f fs] eqn:Hf; [|done]. intros [= <- <-].
  assert (Hnf : Sentinel.any_fatal scan = false).
  { apply not_true_is_false. unfold Sentinel.any_fatal. intros (x & Hx & Hxf)%existsb_exists.
    assert (Hin : In x (List.filter Sentinel.fatal (Sentinel.findings scan)))
      by by apply filter_In.
    by rewrite Hf in Hin. }
  case_bool_decide; split_and!; try done; try (by dict_lookup);
    try (intros; split; by dict_lookup);
    intros k Hk; rewrite !not_elem_of_cons in Hk; destruct Hk as (? & ? & ? & _);
    by rewrite !dget_dset_ne by done.
Qed.

(** The steps of an accepted write. *)
Lemma validate_steps data ctx live now out r :
  validate data ctx live now = Ok (out, r) →
  ∃ d ck d1 content d2,
    data = PDict d ∧ adjust_schema d = Ok ck ∧ adjust_source ctx (ck_source ck) = Ok tt ∧
    adjust_status ctx d = Ok d1 ∧ adjust_description ctx (ck_description ck) = Ok tt ∧
    adjust_body ctx (ck_source ck) d1 = Ok content ∧
    adjust_autofill sha256_hex ctx now content d1 = Ok d2 ∧
    adjust_update (ck_kind ck) live d2 = Ok tt ∧
    adjust_scan render ctx now d2 = Ok (out, r).
Proof.
  unfold validate_and_normalize_skill_write. destruct data as [| | | | | | |d]; try done.
  intros Hs. res_inv.
  repeat match goal with u : unit |- _ => destruct u end.
  by eexists d, _, _, _, _.
Qed.

(** The values of an accepted write at the keys no adjustment owns, and at
    the keys of the schema. *)
Lemma validate_frame data ctx live now out r :
  validate data ctx live now = Ok (out, r) →
  ∃ d, data = PDict d ∧ ∀ k, k ∉ server_keys → dget out k = dget d k.
Proof.
  intros (d & ck & d1 & content & d2 & -> & Hck & _ & Hst & _ & _ & Ha & _ & Hsc)%validate_steps.
  exists d. split; [done|]. intros k Hk. unfold server_keys in Hk.
  rewrite !not_elem_of_cons in Hk. destruct Hk as (? & ? & ? & ? & ? & ? & ? & _).
  apply adjust_status_Ok in Hst as [_ Hst]. apply adjust_autofill_Ok in Ha as (_ & Ha & _).
  apply adjust_scan_Ok in Hsc as (_ & _ & _ & _ & _ & Hsc).
  rewrite Hsc, Ha, Hst; [done|done|..]; rewrite !not_elem_of_cons; by split_and!; try apply not_elem_of_nil.
Qed.

(** C31. Who may write what.  In an accepted write a forge source comes from
    the internal forge worker and a manual source from an admin, unless the
    write is an inbox edit; the status is staged, active for an admin only,
    candidate for the forge worker only, or quarantined, which only the
    scanner sets and always when its verdict is quarantined. *)
Theorem validate_rbac data ctx live now out r :
  validate data ctx live now = Ok (out, r) →
  ∃ src st,
    dgetv out "source" = PStr src ∧ src ∈ ALLOWED_SOURCES ∧
    (is_inbox_edit ctx = true ∨
     (src = "forge" → is_internal_forge ctx = true) ∧ (src = "manual" → is_admin ctx = true)) ∧
    dgetv out "status" = PStr st ∧
    ((Sentinel.state r = Sentinel.Quarantined ∧ st = "quarantined"%string) ∨
     (Sentinel.state r ≠ Sentinel.Quarantined ∧ status_allowed ctx st)).
Proof.
  intros Hv. destruct (validate_frame _ _ _ _ _ _ Hv) as (d & -> & Hfr).
  apply validate_steps in Hv
    as (d' & ck & d1 & content & d2 & [= <-] & Hck & Hsrc & Hst & _ & _ & Ha & _ & Hsc).
  apply adjust_schema_Ok in Hck as (_ & _ & _ & Hs & Hall & _).
  apply adjust_status_Ok in Hst as [(st & Hst & Hok) _].
  apply adjust_autofill_Ok in Ha as (_ & Ha & _).
  apply adjust_scan_Ok in Hsc as (_ & _ & _ & Hq & Hnq & _).
  assert (Hfs : dgetv out "source" = PStr (ck_source ck)).
  { unfold dgetv. rewrite Hfr by (by vm_compute; set_solver). exact Hs. }
  destruct (decide (Sentinel.state r = Sentinel.Quarantined)) as [Heq|Hne].
  - exists (ck_source ck), "quarantined"%string. destruct (Hq Heq) as [Hqs _].
    split_and!; [done|done|by apply adjust_source_Ok| |by left]. unfold dgetv. by rewrite Hqs.
  - exists (ck_source ck), st. destruct (Hnq Hne) as [Hqs _].
    split_and!; [done|done|by apply adjust_source_Ok| |by right].
    unfold dgetv. rewrite Hqs, Ha; [exact Hst|by set_solver].
Qed.

(** What the server controls in an accepted write: the description and
    the body are within the caps and a missing body means an imported skill;
    [updated_at] is the time of the write, [created_at] too when absent, the
    content hash is that of the body sent, [origin.agent_id] is the
    authenticated caller's and the rest of [origin] is untouched; the scan
    field holds the scanner's result, none of whose findings is fatal; all
    other keys are the caller's. *)
Theorem validate_server_fields d ctx live now out r :
  validate (PDict d) ctx live now = Ok (out, r) →
  (∃ desc, dgetv d "description" = PStr desc ∧ bytes_len desc ≤ description_max_bytes ctx) ∧
  ((∃ b, dgetv d "content" = PStr b ∧ bytes_len b ≤ body_max_bytes ctx ∧
         dget out "content_hash" = Some (PStr (_sha256 sha256_hex b))) ∨
   (dgetv d "content" = PNone ∧ dgetv d "source" = PStr "imported" ∧
    dget out "content_hash" = dget d "content_hash")) ∧
  dget out "updated_at" = Some (PStr now) ∧
  dget out "created_at" = (if dhas d "created_at" then dget d "created_at" else Some (PStr now)) ∧
  (∃ origin0 origin, origin_copy d = Ok origin0 ∧ dget out "origin" = Some (PDict origin) ∧
     dget origin "agent_id" = Some (PStr (stamped_agent ctx)) ∧
     (∀ k, k ≠ "agent_id"%string → dget origin k = dget origin0 k)) ∧
  dget out "scan" = Some (PDict (Sentinel.as_doc_field render r)) ∧
  Sentinel.any_fatal r = false ∧
  (∀ k, k ∉ server_keys → dget out k = dget d k).
Proof.
  intros Hv. destruct (validate_frame _ _ _ _ _ _ Hv) as (d' & [= <-] & Hfr).
  apply validate_steps in Hv
    as (d' & ck & d1 & content & d2 & [= <-] & Hck & _ & Hst & Hd & Hb & Ha & _ & Hsc).
  apply adjust_schema_Ok in Hck as (_ & Hdesc & _ & Hs & _).
  apply adjust_status_Ok in Hst as [_ Hst]. apply adjust_description_Ok in Hd.
  apply adjust_body_Ok in Hb.
  apply adjust_autofill_Ok in Ha as ((Hup & Hcr & Hch & og0 & og & Hor & Hor' & Hag & Hrest) & _ & Hcr' & Hch').
  apply adjust_scan_Ok in Hsc as (_ & Hnf & Hscan & _ & _ & Hsc).
  assert (Hkeep : ∀ k, k ∈ ["created_at"; "updated_at"; "content_hash"; "origin"]%string →
                       dget out k = dget d2 k).
  { intros k Hk. apply Hsc. intros Hk'. set_solver. }
  assert (Hc : dgetv d1 "content" = dgetv d "content").
  { unfold dgetv. by rewrite Hst. }
  assert (Hdc : dhas d1 "created_at" = dhas d "created_at") by (unfold dhas; by rewrite Hst).
  rewrite (Hkeep "created_at"%string), (Hkeep "updated_at"%string),
    (Hkeep "content_hash"%string), (Hkeep "origin"%string) by set_solver.
  rewrite (origin_copy_ext d) in Hor by by rewrite Hst.
  split_and!; try done.
  - by eexists.
  - destruct content as [b|]; rewrite Hc in Hb; [left|right].
    + destruct Hb. exists b. split_and!; [done..|]. by apply Hch.
    + destruct Hb as [Hb Hi]. split_and!; [done|by rewrite Hs, Hi|]. by rewrite Hch', Hst.
  - rewrite <- Hdc. destruct (dhas d1 "created_at") eqn:Hh; [|by apply Hcr].
    rewrite Hcr', Hst by done. done.
  - by eexists _, _.
Qed.

(** An accepted update is bound to the live skill it was written against:
    the live document exists, carries a content hash, and that hash is the
    one the caller saw. *)
Theorem validate_update_bound d ctx live now out r :
  validate (PDict d) ctx live now = Ok (out, r) →
  dgetv d "kind" = PStr "update" →
  bound_to_live live d.
Proof.
  intros (d' & ck & d1 & content & d2 & [= <-] & Hck & _ & Hst & _ & _ & Ha & Hup & _)%validate_steps Hk.
  apply adjust_schema_Ok in Hck as (_ & _ & Hkind & _).
  apply adjust_status_Ok in Hst as [_ Hst]. apply adjust_autofill_Ok in Ha as (_ & Ha & _).
  rewrite Hk in Hkind. injection Hkind as Hkind.
  apply adjust_update_Ok in Hup; [|done].
  destruct Hup as (t & th & lv & ld & h & Ht & Hrest). exists t, th, lv, ld, h.
  split; [|exact Hrest]. unfold dgetv in *. rewrite Ha, Hst in Ht; [done|done|]. by set_solver.
Qed.

(** ** Refusals *)

(** Documents whose fields have the shapes the code assumes without testing:
    hashable enum values, an object (or nothing) as origin. *)
Definition well_shaped (d : pydict) : bool :=
  hashable (dgetv d "kind") && hashable (dgetv d "source") && hashable (dgetv d "status") &&
  (negb (truthy (dgetv d "origin")) ||
   match dgetv d "origin" with PDict _ => true | _ => false end).

Definition live_shaped (live : pyval) : bool :=
  match live with
  | PDict d => negb (truthy (dgetv d "data")) ||
               match dgetv d "data" with PDict _ => true | _ => false end
  | _ => true
  end.

(** An outcome that is a value or an HTTP refusal with one of four codes. *)
Definition http_only {A} (m : res write_error A) : Prop :=
  match m with
  | Ok _ => True
  | Err (Http st _) => st ∈ [403; 404; 409; 422]
  | Err (Raised _) => False
  end.

Lemma http_only_bind {A B} (m : res write_error A) (f : A → res write_error B) :
  http_only m → (∀ a, m = Ok a → http_only (f a)) → http_only (m ≫= f).
Proof. destruct m as [a|[]]; cbn; naive_solver. Qed.

Lemma http_only_raise_if {A} (b : bool) st why (k : res write_error A) :
  st ∈ [403; 404; 409; 422] → http_only k → http_only (if b then Err (Http st why) else k).
Proof. by destruct b. Qed.

Lemma http_only_member v s : hashable v = true → http_only (member v s).
Proof. unfold member. by intros ->. Qed.

Lemma http_only_require_str d k : http_only (require_str d k).
Proof. unfold require_str. destruct (dgetv d k); cbn; try done; set_solver. Qed.

Ltac http_step :=
  match goal with
  | |- http_only (_ ≫= _) => apply http_only_bind; [|intros ??]
  | |- http_only (if _ then Err (Http _ _) else _) => apply http_only_raise_if; [set_solver|]
  | |- http_only (require_str _ _) => apply http_only_require_str
  | |- http_only (member _ _) => apply http_only_member
  | |- http_only (Ok _) => exact I
  | |- http_only (Err (Http _ _)) => cbn; set_solver
  end.

Lemma adjust_schema_http d :
  hashable (dgetv d "kind") = true → hashable (dgetv d "source") = true →
  http_only (adjust_schema d).
Proof. intros. unfold adjust_schema. cbv zeta. repeat http_step; done. Qed.

Lemma adjust_source_http ctx src : http_only (adjust_source ctx src).
Proof. unfold adjust_source. destruct (is_inbox_edit ctx); repeat http_step. Qed.

Lemma adjust_status_http ctx d :
  hashable (dgetv d "status") = true → http_only (adjust_status ctx d).
Proof.
  intros Hh. unfold adjust_status. cbv zeta. repeat http_step.
  destruct (dhas d "status"); [done|]. unfold dgetv. by rewrite dget_dset.
Qed.

Lemma adjust_body_http ctx src d : http_only (adjust_body ctx src d).
Proof. unfold adjust_body. destruct (dgetv d "content"); repeat http_step. Qed.

Lemma adjust_autofill_http ctx now c d :
  (truthy (dgetv d "origin") = false ∨ ∃ o, dgetv d "origin" = PDict o) →
  http_only (adjust_autofill sha256_hex ctx now c d).
Proof.
  intros Hor. unfold adjust_autofill. cbv zeta. repeat http_step.
  rewrite (origin_copy_ext d) by (destruct c; dict_lookup; destruct (dhas d "created_at"); by dict_lookup).
  unfold origin_copy. destruct Hor as [->|[o ->]]; [done|]. by destruct (truthy _).
Qed.

Lemma adjust_update_http kind live d :
  live_shaped live = true → http_only (adjust_update kind live d).
Proof.
  intros Hl. unfold adjust_update. destruct (String.eqb kind "update"); [|repeat http_step].
  destruct (dgetv d "target") as [| | | | | | |t]; repeat http_step.
  destruct (dget t "target_content_hash"); repeat http_step.
  assert (Hh : http_only (live_hash_of live)).
  { unfold live_hash_of. destruct live as [| | | | | | |lv]; try done. cbn in Hl |- *.
    destruct (truthy (dgetv lv "data")); [|done]. by destruct (dgetv lv "data"). }
  destruct live; repeat http_step; try done; destruct a; repeat http_step.
Qed.

(** On a document whose enum fields are hashable, whose origin is an
    object or empty, and whose text fields are those the scanner can read,
    the validator always answers: it accepts, or refuses with an HTTP error
    of code 403, 404, 409 or 422. *)
Theorem validate_answers d ctx live now :
  well_shaped d = true → live_shaped live = true → Sentinel.scannable d = true →
  http_only (validate (PDict d) ctx live now).
Proof.
  unfold well_shaped. rewrite !andb_true_iff, orb_true_iff, negb_true_iff.
  intros [[[Hk Hs] Hst] Hor] Hl Hsc.
  assert (Hor' : truthy (dgetv d "origin") = false ∨ ∃ o, dgetv d "origin" = PDict o).
  { destruct Hor; [by left|]. right. destruct (dgetv d "origin"); try done. by eexists. }
  unfold validate_and_normalize_skill_write.
  apply http_only_bind; [by apply adjust_schema_http|intros ck Hck].
  apply http_only_bind; [apply adjust_source_http|intros _ _].
  apply http_only_bind; [by apply adjust_status_http|intros d1 [_ Hd1]%adjust_status_Ok].
  apply http_only_bind; [unfold adjust_description; repeat http_step|intros _ _].
  apply http_only_bind; [apply adjust_body_http|intros c Hc].
  apply http_only_bind.
  { apply adjust_autofill_http. unfold dgetv in *. by rewrite Hd1. }
  intros d2 (_ & Hd2 & _)%adjust_autofill_Ok.
  apply http_only_bind; [by apply adjust_update_http|intros _ _].
  assert (Hsc2 : Sentinel.scannable d2 = true).
  { rewrite <- Hsc. unfold Sentinel.scannable, dgetv. cbn. 
    rewrite !Hd2, !Hd1 by (done || set_solver). done. }
  unfold adjust_scan, Sentinel.scan_skill_doc.
  rewrite <- (Sentinel.collect_findings_is_ok d2 (body_max_bytes ctx) (description_max_bytes ctx)) in Hsc2.
  destruct (Sentinel.collect_findings _ _ _); [|done]. cbn.
  destruct (List.filter _ _); repeat http_step.
Qed.
End Theorems.

(** ** The gates *)
Section GateTheorems.
Context (fromisoformat : string → option datetime).

(** The six conditions under which a candidate is promoted. *)
Record promotable (doc origin scan : pydict) (now : datetime)
    (poison : option (string → res string bool)) (fetch : option (string → res string pyval))
    (min_size min_agents window : Z) : Prop := {
  big_enough : ∃ n, as_int (dgetv origin "cluster_size") = Some n ∧ min_size ≤ n;
  diverse : ∃ n, as_int (dgetv origin "distinct_agents") = Some n ∧ min_agents ≤ n;
  fresh : ∃ w, window_end_of fromisoformat origin = Some w ∧
               instant now - instant w ≤ window * day_us;
  not_poisoned : ∃ fp check, dgetv doc "cluster_fingerprint" = PStr fp ∧ fp ≠ ""%string ∧
                             poison = Some check ∧ check fp = Ok false;
  scanned_clean : dgetv scan "state" = PStr "clean";
  still_bound : default (PStr "create") (dget doc "kind") = PStr "update" →
    ∃ th slug tgt get live,
      dgetv doc "target" = PDict tgt ∧ dgetv tgt "target_content_hash" = PStr th ∧
      dgetv doc "slug" = PStr slug ∧ fetch = Some get ∧ get slug = Ok (PDict live) ∧
      dgetv live "content_hash" = PStr th;
}.

Lemma floor_gate_passed n k m origin :
  g_passed (floor_gate n k m origin) = true ↔ ∃ z, as_int (dgetv origin k) = Some z ∧ m ≤ z.
Proof.
  unfold floor_gate. destruct (as_int (dgetv origin k)) as [z|]; [|naive_solver].
  destruct (Z.ltb_spec z m); cbn; split.
  - done.
  - intros (? & [= <-] & ?). lia.
  - intros _. by exists z.
  - done.
Qed.

Lemma freshness_gate_passed now w origin :
  g_passed (freshness_gate fromisoformat now w origin) = true ↔
  ∃ t, window_end_of fromisoformat origin = Some t ∧ instant now - instant t ≤ w * day_us.
Proof.
  unfold freshness_gate. destruct (window_end_of _ _) as [t|]; [|naive_solver].
  cbv zeta. destruct (Z.ltb_spec (w * day_us) (instant now - instant t)); cbn; split.
  - done.
  - intros (? & [= <-] & ?). lia.
  - intros _. by exists t.
  - done.
Qed.

Lemma poison_gate_passed chk doc :
  g_passed (poison_gate chk doc) = true ↔
  ∃ fp check, dgetv doc "cluster_fingerprint" = PStr fp ∧ fp ≠ ""%string ∧
              chk = Some check ∧ check fp = Ok false.
Proof.
  unfold poison_gate. destruct (dgetv doc "cluster_fingerprint") as [| | | |fp| | |]; cbn;
    try by (split; [|intros (? & ? & ? & ?)]).
  destruct (String.eqb_spec fp ""); [split; [done|intros (? & ? & ? & ? & ? & ?); congruence]|].
  destruct chk as [check|]; [|by split; [|intros (? & ? & ? & ? & ? & ?)]].
  destruct (check fp) as [[]|] eqn:Hc; cbn;
    (split; [try done|]); try (intros (? & ? & ? & ? & ? & ?); congruence).
  intros _. by exists fp, check.
Qed.

Ltac refuse Hfails Hk :=
  apply Hfails; [reflexivity|];
  let Hx := fresh in
  intros Hx; destruct (Hx Hk) as (? & ? & ? & ? & ? & ? & ? & ? & ? & ? & ?); congruence.

Lemma hash_gate_passed fetch doc :
  g_passed (hash_gate fetch doc) = true ↔
  (default (PStr "create") (dget doc "kind") = PStr "update" →
   ∃ th slug tgt get live,
     dgetv doc "target" = PDict tgt ∧ dgetv tgt "target_content_hash" = PStr th ∧
     dgetv doc "slug" = PStr slug ∧ fetch = Some get ∧ get slug = Ok (PDict live) ∧
     dgetv live "content_hash" = PStr th).
Proof.
  unfold hash_gate. destruct (py_eqb (PStr "update") _) eqn:Hk; cbn [negb].
  2: { split; [|done]. intros _ Hx. rewrite Hx in Hk. by vm_compute in Hk. }
  apply py_eqb_str_l in Hk. cbv zeta.
  assert (Hfails : ∀ g : GateOutcome, g_passed g = false → ∀ P : Prop,
    ((default (PStr "create") (dget doc "kind") = PStr "update" → P) → False) →
    (g_passed g = true ↔ (default (PStr "create") (dget doc "kind") = PStr "update" → P))).
  { intros g Hg P HP. rewrite Hg. split; [done|]. intros HP'. by destruct (HP HP'). }
  destruct (dgetv doc "target") as [| | | | | | |tgt] eqn:Ht; try refuse Hfails Hk.
  destruct (dgetv tgt "target_content_hash") as [| | | |th| | |] eqn:Hth; try refuse Hfails Hk.
  destruct (dgetv doc "slug") as [| | | |slug| | |] eqn:Hs; try refuse Hfails Hk.
  destruct fetch as [get|]; [|refuse Hfails Hk].
  destruct (get slug) as [live|] eqn:Hg; [|refuse Hfails Hk].
  destruct (py_eqb (PStr th) _) eqn:He; cbn.
  - apply py_eqb_str_l in He. split; [|done]. intros _ _.
    destruct live as [| | | | | | |ld]; try done. by exists th, slug, tgt, get, ld.
  - split; [done|]. intros Hx.
    destruct (Hx Hk) as (th' & slug' & tgt' & get' & ld & Hx1 & Hx2 & Hx3 & Hx4 & Hx5 & Hx6).
    assert (live = PDict ld ∧ th' = th) as [-> ->].
    { injection Hx4 as <-. injection Hx1 as <-. split; congruence. }
    by rewrite Hx6, py_eqb_str, String.eqb_refl in He.
Qed.

Lemma scan_gate_passed doc scan :
  get_object doc "scan" = Ok scan →
  ∃ g, scan_gate doc = Ok g ∧ g_name g = "scan"%string ∧
       (g_passed g = true ↔ dgetv scan "state" = PStr "clean").
Proof.
  intros Hs. unfold scan_gate. rewrite Hs.
  exists (if py_eqb (PStr "clean") (dgetv scan "state") then pass "scan"
          else gate_fail "scan" (ScanStateIs (dgetv scan "state"))).
  rewrite <- py_eqb_str_l. split; [reflexivity|].
  destruct (py_eqb (PStr "clean") (dgetv scan "state")); split; reflexivity.
Qed.

Lemma fail_reasons_nil r : fail_reasons r = [] ↔ forallb g_passed (gates r) = true.
Proof.
  unfold fail_reasons. induction (gates r) as [|g gs IH]; [done|].
  rewrite filter_cons. cbn [forallb]. destruct (g_passed g) eqn:Hg; cbn.
  - rewrite decide_False by congruence. exact IH.
  - rewrite decide_True by done. by split.
Qed.

(** Auto-promotion fails closed.  On a document whose origin and scan are
    objects or empty, the evaluator answers; it reports the six gates in a
    fixed order, promotes exactly when the six conditions hold, and promotes
    exactly when no gate gives a reason against. *)
Theorem auto_gates_promote_iff doc origin scan now poison fetch ms ma w :
  get_object doc "origin" = Ok origin → get_object doc "scan" = Ok scan →
  ∃ r, evaluate_auto_gates fromisoformat doc now poison fetch ms ma w = Ok r ∧
       (promote r = true ↔ promotable doc origin scan now poison fetch ms ma w) ∧
       (promote r = true ↔ fail_reasons r = []) ∧
       g_name <$> gates r = ["volume"; "diversity"; "freshness"; "poison"; "scan"; "hash_binding"]%string.
Proof.
  intros Ho (g5 & Hg5 & Hn5 & Hp5)%scan_gate_passed.
  unfold evaluate_auto_gates. rewrite Ho. cbn [mbind res_bind]. rewrite Hg5.
  eexists. split; [done|]. split_and!.
  - cbn [promote forallb]. rewrite !andb_true_iff, !floor_gate_passed, freshness_gate_passed,
      poison_gate_passed, Hp5, hash_gate_passed.
    split; [intros (? & ? & ? & ? & ? & ? & _); by constructor|by intros []].
  - by rewrite fail_reasons_nil.
  - cbn. rewrite Hn5. unfold floor_gate, freshness_gate, poison_gate, hash_gate.
    repeat f_equal; repeat case_match; done.
Qed.
End GateTheorems.

(** ** Concrete runs *)
Section Witnesses.
#[local] Existing Instance AsciiText.

(** A stand-in digest, so that the examples compute. *)
Definition ex_digest (s : string) : string := String.substring 0 4 s.
Definition ex_render (m : Sentinel.finding_msg) : string := "".
Definition ex_agent : SkillWriteContext :=
  {| caller_agent_id := Some "a1"%string; is_admin := false; is_internal_forge := false;
     description_max_bytes := 160; body_max_bytes := 40000; is_inbox_edit := false |}.
Definition ex_doc : pydict :=
  [("name", PStr "Deploy"); ("slug", PStr "deploy-it"); ("description", PStr "how to deploy");
   ("domain", PStr "ops"); ("kind", PStr "update"); ("source", PStr "agent");
   ("content", PStr "run the tests, then ship"); ("tags", PList [PStr "ops"]);
   ("origin", PDict [("agent_id", PStr "forged"); ("run_id", PInt 7)]);
   ("target", PDict [("target_content_hash", PStr "sha256:abcd")])]%string.
Definition ex_live : pyval :=
  PDict [("data", PDict [("content_hash", PStr "sha256:abcd")])]%string.
Definition ex_run : res write_error (pydict * Sentinel.ScanResult) :=
  validate_and_normalize_skill_write ex_digest ex_render (PDict ex_doc) ex_agent ex_live "now".
Definition ex_out : pydict * Sentinel.ScanResult :=
  Eval vm_compute in
  match ex_run with Ok p => p | Err _ => ([], Sentinel.malformed_result "now") end.

Lemma ex_run_ok :
  validate_and_normalize_skill_write ex_digest ex_render (PDict ex_doc) ex_agent ex_live "now" =
  Ok (ex_out.1, ex_out.2).
Proof. vm_compute. reflexivity. Qed.

(** The enum tests hash the value they look up: a list raises [TypeError]. *)
Lemma unhashable_kind_raises :
  validate_and_normalize_skill_write ex_digest ex_render
    (PDict (dset ex_doc "kind" (PList []))) ex_agent ex_live "now" = Err (Raised TypeError).
Proof. vm_compute. reflexivity. Qed.

Lemma validate_rbac_witness : status_allowed ex_agent "staged" ∧ dgetv ex_out.1 "source" = PStr "agent".
Proof.
  destruct (validate_rbac ex_digest ex_render _ _ _ _ _ _ ex_run_ok)
    as (src & st & Hs & _ & _ & Hst & [[Hq _]|[_ Hok]]).
  - vm_compute in Hq. discriminate Hq.
  - vm_compute in Hs, Hst. injection Hst as <-. split; [exact Hok|vm_compute; reflexivity].
Defined.

Lemma validate_server_fields_witness :
  dget ex_out.1 "updated_at" = Some (PStr "now") ∧
  dget ex_out.1 "content_hash" = Some (PStr "sha256:run ").
Proof.
  destruct (validate_server_fields ex_digest ex_render _ _ _ _ _ _ ex_run_ok)
    as (_ & [(b & Hb & _ & Hh)|(Hn & _)] & Hup & _).
  - vm_compute in Hb. injection Hb as <-. split; [exact Hup|exact Hh].
  - vm_compute in Hn. discriminate Hn.
Defined.

Lemma validate_update_bound_witness : bound_to_live ex_live ex_doc.
Proof.
  apply (validate_update_bound ex_digest ex_render _ _ _ _ _ _ ex_run_ok).
  vm_compute. reflexivity.
Defined.

Lemma validate_answers_witness :
  http_only (validate_and_normalize_skill_write ex_digest ex_render
    (PDict (dset ex_doc "status" (PStr "rejected"))) ex_agent ex_live "now").
Proof. apply validate_answers; vm_compute; reflexivity. Defined.

Definition ex_candidate : pydict :=
  [("origin", PDict [("cluster_size", PInt 3); ("distinct_agents", PInt 3);
                     ("window_end", PStr "2026-01-01T00:00:00Z")]);
   ("cluster_fingerprint", PStr "fp"); ("scan", PDict [("state", PStr "clean")])]%string.
Definition ex_iso (s : string) : option datetime := Some (DateTime 0 (Some 0)).

Lemma auto_gates_promote_iff_witness :
  ∃ r, evaluate_auto_gates ex_iso ex_candidate (DateTime (14 * day_us) None)
         (Some (λ _, Ok false)) None 3 3 14 = Ok r ∧ promote r = true.
Proof.
  destruct (auto_gates_promote_iff ex_iso ex_candidate
    [("cluster_size", PInt 3); ("distinct_agents", PInt 3);
     ("window_end", PStr "2026-01-01T00:00:00Z")]%string [("state", PStr "clean")]%string
    (DateTime (14 * day_us) None) (Some (λ _, Ok false)) None 3 3 14)
    as (r & Hr & Hp & _); [reflexivity..|].
  exists r. split; [exact Hr|]. apply Hp. constructor.
  - exists 3. split; [reflexivity|lia].
  - exists 3. split; [reflexivity|lia].
  - eexists. split; [reflexivity|]. vm_compute. discriminate.
  - eexists _, _. split_and!; [reflexivity|discriminate|reflexivity|reflexivity].
  - reflexivity.
  - intros Hx. vm_compute in Hx. discriminate Hx.
Defined.
End Witnesses.
End SkillLifecycle.
