(* ===== verification/SessionTrace.v ===== *)
(** * Outcome signals and session traces
    (core_api/services/outcome_inference, core_api/services/session_trace.py)

    The extractors turn the rows the storage service returns into evidence;
    the builder folds the evidence of each (run, agent) pair into a trace.
    Storage calls are arguments: the rows they return, or the exception they
    raise.  [datetime.fromisoformat] and [isoformat] are parameters. *)

From S2P Require Import Prelude Regex Floats.
Import Regex Floats.

Module SessionTrace.

(** ** Evidence (outcome_inference/__init__.py) *)
Inductive SignalKind : Type :=
| CONTRADICTION | SUPERSESSION | REPEAT_RECALL | TERMINAL_MEMORY | CROSS_AGENT_REUSE | EXTERNAL_HOOK.
#[global] Instance SignalKind_eq_dec : EqDecision SignalKind.
Proof. solve_decision. Defined.
Definition kind_value (k : SignalKind) : string :=
  match k with
  | CONTRADICTION => "contradiction" | SUPERSESSION => "supersession"
  | REPEAT_RECALL => "repeat_recall" | TERMINAL_MEMORY => "terminal_memory"
  | CROSS_AGENT_REUSE => "cross_agent_reuse" | EXTERNAL_HOOK => "external_hook"
  end.

Inductive Polarity : Type := SUCCESS | FAILURE | NEUTRAL.
#[global] Instance Polarity_eq_dec : EqDecision Polarity.
Proof. solve_decision. Defined.
Definition polarity_value (p : Polarity) : string :=
  match p with SUCCESS => "success" | FAILURE => "failure" | NEUTRAL => "neutral" end.

Record SignalEvidence : Type := {
  kind : SignalKind;
  polarity : Polarity;
  weight : float;
  ev_memory_ids : list string;
  details : pydict;
  observed_at : option datetime;
}.

Definition DEFAULT_SIGNAL_WEIGHTS (k : SignalKind) : float :=
  match k with
  | TERMINAL_MEMORY => lit 9 10
  | EXTERNAL_HOOK => lit 85 100
  | CONTRADICTION => lit 7 10
  | SUPERSESSION => lit 7 10
  | REPEAT_RECALL => lit 4 10
  | CROSS_AGENT_REUSE => lit 3 10
  end.

Section Extractors.
Context `{PyText}.
(** [datetime.fromisoformat], [None] for [ValueError]. *)
Context (fromisoformat : string → option datetime).
Context (isoformat : datetime → string).

Definition parse_observed_at (value : option string) : res pyexn (option datetime) :=
  match value with
  | None => Ok None
  | Some s => match fromisoformat s with Some t => Ok (Some t) | None => Err ValueError end
  end.

Definition as_jsonb (ev : SignalEvidence) : pydict :=
  [("polarity", PStr (polarity_value (polarity ev)));
   ("weight", PFloat (to_Q (weight ev)));
   ("memory_ids", PList (PStr <$> ev_memory_ids ev));
   ("details", PDict (details ev));
   ("observed_at", match observed_at ev with Some t => PStr (isoformat t) | None => PNone end)]%string.

(** *** The rows the storage service returns, one record for all signals *)
Record SignalRow : Type := {
  sr_memory_id : string;
  sr_by_id : string;
  sr_run_id : string;
  sr_agent_id : string;
  sr_status : string;
  sr_content : option string;
  sr_recall_count : Z;
  sr_observed_at : option string;
}.

(** *** Contradictions *)
Definition CONTRADICTED_STATUSES : list string := ["outdated"; "conflicted"]%string.
Definition contradictions_extract (rows : list SignalRow) : res pyexn (list SignalEvidence) :=
  collect (λ row,
    at_ ← parse_observed_at (sr_observed_at row);
    Ok (Some {| kind := CONTRADICTION; polarity := FAILURE;
                weight := DEFAULT_SIGNAL_WEIGHTS CONTRADICTION;
                ev_memory_ids := [sr_memory_id row];
                details := [("memory_id", PStr (sr_memory_id row)); ("status", PStr (sr_status row));
                            ("run_id", PStr (sr_run_id row)); ("agent_id", PStr (sr_agent_id row))]%string;
                observed_at := at_ |})) rows.

(** *** Supersessions *)
Definition supersessions_extract (rows : list SignalRow) : res pyexn (list SignalEvidence) :=
  collect (λ row,
    at_ ← parse_observed_at (sr_observed_at row);
    Ok (Some {| kind := SUPERSESSION; polarity := FAILURE;
                weight := DEFAULT_SIGNAL_WEIGHTS SUPERSESSION;
                ev_memory_ids := [sr_memory_id row];
                details := [("superseded_memory_id", PStr (sr_memory_id row));
                            ("superseded_by_memory_id", PStr (sr_by_id row));
                            ("run_id", PStr (sr_run_id row)); ("agent_id", PStr (sr_agent_id row))]%string;
                observed_at := at_ |})) rows.

(** *** Cross-agent reuse *)
Definition DEFAULT_RECALL_COUNT_THRESHOLD : Z := 5.
Definition cross_agent_reuse_extract (rows : list SignalRow) : res pyexn (list SignalEvidence) :=
  collect (λ row,
    at_ ← parse_observed_at (sr_observed_at row);
    Ok (Some {| kind := CROSS_AGENT_REUSE; polarity := NEUTRAL;
                weight := DEFAULT_SIGNAL_WEIGHTS CROSS_AGENT_REUSE;
                ev_memory_ids := [sr_memory_id row];
                details := [("memory_id", PStr (sr_memory_id row));
                            ("run_id", PStr (sr_run_id row)); ("agent_id", PStr (sr_agent_id row));
                            ("recall_count", PInt (sr_recall_count row));
                            ("threshold", PInt DEFAULT_RECALL_COUNT_THRESHOLD);
                            ("approximation",
                             PStr "total-recalls (Phase 1 v1) — see module docstring")]%string;
                observed_at := at_ |})) rows.

(** *** Recalls and external hooks have no source yet *)
Definition repeat_recall_extract (rows : list SignalRow) : res pyexn (list SignalEvidence) := Ok [].
Definition external_hooks_extract (rows : list SignalRow) : res pyexn (list SignalEvidence) := Ok [].

(** *** Terminal memory *)
Definition CLASSIFIER_VERSION : string := "v1-regex".
Definition _SUCCESS_TERMS : list string :=
  ["shipped"; "deployed"; "merged"; "fixed"; "resolved"; "closed"; "completed"; "done"; "landed";
   "passing"; "verified"; "approved"; "signed off"]%string.
Definition _FAILURE_TERMS : list string :=
  ["blocked"; "abandoned"; "abandoning"; "stuck"; "rolled back"; "reverted"; "giving up"; "gave up";
   "can't"; "could not"; "failed to"; "unable to"; "timeout"; "crashed"]%string.
Definition terms_re (terms : list string) : compiled :=
  re_compile IGNORECASE ("\b(?:" ++ join "|" terms ++ ")\b")%string.
Definition _SUCCESS_RE : compiled := terms_re _SUCCESS_TERMS.
Definition _FAILURE_RE : compiled := terms_re _FAILURE_TERMS.
Example term_patterns_compile : forallb compiles [_SUCCESS_RE; _FAILURE_RE] = true.
Proof. vm_compute. reflexivity. Qed.

Definition _classify (content : option string) : option Polarity :=
  match content with
  | None => None
  | Some text =>
      if String.eqb text "" then None
      else
        let has_fail := found _FAILURE_RE text in
        let has_succ := found _SUCCESS_RE text in
        if has_fail then Some FAILURE else if has_succ then Some SUCCESS else None
  end.

Definition terminal_memory_extract (rows : list SignalRow) : res pyexn (list SignalEvidence) :=
  collect (λ row,
    match _classify (sr_content row) with
    | None => Ok None
    | Some verdict =>
        at_ ← parse_observed_at (sr_observed_at row);
        Ok (Some {| kind := TERMINAL_MEMORY; polarity := verdict;
                    weight := DEFAULT_SIGNAL_WEIGHTS TERMINAL_MEMORY;
                    ev_memory_ids := [sr_memory_id row];
                    details := [("memory_id", PStr (sr_memory_id row));
                                ("run_id", PStr (sr_run_id row)); ("agent_id", PStr (sr_agent_id row));
                                ("classifier_version", PStr CLASSIFIER_VERSION);
                                ("verdict", PStr (polarity_value verdict))]%string;
                    observed_at := at_ |})
    end) rows.

(** ** Folding evidence into a label *)
Inductive outcome : Type := Success | Failure | Unknown.
#[global] Instance outcome_eq_dec : EqDecision outcome.
Proof. solve_decision. Defined.
Definition label_value (o : outcome) : string :=
  match o with Success => "success" | Failure => "failure" | Unknown => "unknown" end.

Definition MIN_TOTAL_WEIGHT_FOR_LABEL : float := lit 5 10.

(** The two running sums of the loop, success first. *)
Definition add_weight (acc : float * float) (ev : SignalEvidence) : float * float :=
  match polarity ev with
  | SUCCESS => (fadd acc.1 (weight ev), acc.2)
  | FAILURE => (acc.1, fadd acc.2 (weight ev))
  | NEUTRAL => acc
  end.
Definition tally (evidence : list SignalEvidence) : float * float :=
  foldl add_weight (f0, f0) evidence.

Definition fold_outcome_label (evidence : list SignalEvidence) (min_total_weight : float) : outcome :=
  match evidence with
  | [] => Unknown
  | _ =>
      let '(success_w, failure_w) := tally evidence in
      if flt (fadd success_w failure_w) min_total_weight then Unknown
      else if flt success_w failure_w then Failure
      else if flt failure_w success_w then Success
      else Unknown
  end.

(** ** The per-kind summary *)
Record Slot : Type := {
  firings : list pydict;
  total_weight : float;
  polarity_counts : list (string * Z);
}.
Definition empty_slot : Slot := {| firings := []; total_weight := f0; polarity_counts := [] |}.
Definition fire (s : Slot) (ev : SignalEvidence) : Slot :=
  let p := polarity_value (polarity ev) in
  {| firings := firings s ++ [as_jsonb ev];
     total_weight := round6 (fadd (total_weight s) (weight ev));
     polarity_counts := dset (polarity_counts s) p (default 0 (dget (polarity_counts s) p) + 1) |}.
Definition summarize_evidence (evidence : list SignalEvidence) : list (string * Slot) :=
  foldl (λ grouped ev,
    let k := kind_value (kind ev) in
    dset grouped k (fire (default empty_slot (dget grouped k)) ev)) [] evidence.

(** ** Building traces *)
Record SessionTraceRow : Type := {
  tenant_id : string;
  fleet_id : option string;
  run_id : string;
  agent_id : string;
  outcome_label : outcome;
  memory_ids : list string;
  entity_ids : list string;
  signals_summary : list (string * Slot);
  started_at : option datetime;
  ended_at : option datetime;
  goal_phrase : option string;
}.

Record _MemoryRow : Type := {
  m_memory_id : string;
  m_run_id : string;
  m_agent_id : string;
  m_fleet_id : option string;
  m_created_at : option datetime;
}.

(** A row of the window scan, as it comes over the wire. *)
Record WindowRow : Type := {
  w_memory_id : string;
  w_run_id : string;
  w_agent_id : string;
  w_fleet_id : option string;
  w_created_at : option string;
}.

Definition trace_key (m : _MemoryRow) : string * string := (m_run_id m, m_agent_id m).

Definition memory_row (row : WindowRow) : res pyexn _MemoryRow :=
  at_ ← parse_observed_at (w_created_at row);
  Ok {| m_memory_id := w_memory_id row; m_run_id := w_run_id row; m_agent_id := w_agent_id row;
        m_fleet_id := w_fleet_id row; m_created_at := at_ |}.

Definition memory_rows (rows : list WindowRow) : res pyexn (list _MemoryRow) :=
  collect_all memory_row rows.

Definition _query_memories_in_window (rows : list WindowRow) :
    res pyexn (list ((string * string) * list _MemoryRow)) :=
  ms ← memory_rows rows;
  Ok (group ((λ m, (trace_key m, m)) <$> ms)).

(** [(memory_id, entity_id)] links to the sorted set of entities of each. *)
Definition _query_entity_ids_for_memories (memory_ids : list string)
    (links : list string → res pyexn (list (string * string))) :
    res pyexn (list (string * list string)) :=
  match memory_ids with
  | [] => Ok []
  | _ => rows ← links memory_ids; Ok (prod_map id sorted_set <$> group rows)
  end.

(** [datetime] comparison: [TypeError] across naive and aware, or on [None]. *)
Definition dt_lt (a b : option datetime) : res pyexn bool :=
  match a, b with
  | Some t, Some u =>
      match dt_offset t, dt_offset u with
      | None, None => Ok (dt_wall t <? dt_wall u)
      | Some o, Some p => Ok (dt_wall t - o <? dt_wall u - p)
      | _, _ => Err TypeError
      end
  | _, _ => Err TypeError
  end.

(** [min] and [max]: the first extreme element. *)
Fixpoint extreme (better : option datetime → option datetime → res pyexn bool)
    (best : option datetime) (l : list (option datetime)) : res pyexn (option datetime) :=
  match l with
  | [] => Ok best
  | t :: l => b ← better t best; extreme better (if b : bool then t else best) l
  end.
Definition dt_min (t : option datetime) l := extreme dt_lt t l.
Definition dt_max (t : option datetime) l := extreme (λ a b, dt_lt b a) t l.

(** A failed extractor is skipped. *)
Definition gathered (results : list (res pyexn (list SignalEvidence))) : list SignalEvidence :=
  concat ((λ r, match r with Ok evs => evs | Err _ => [] end) <$> results).

(** The trace an evidence belongs to.  Evidence without both ids is dropped;
    an unhashable id raises; any other id equals no trace's, whose ids are
    strings. *)
Definition evidence_key (ev : SignalEvidence) : res pyexn (option (string * string)) :=
  let r := dgetv (details ev) "run_id" in
  let a := dgetv (details ev) "agent_id" in
  if truthy r && truthy a then
    match r, a with
    | PStr r, PStr a => Ok (Some (r, a))
    | _, _ => if hashable r && hashable a then Ok None else Err TypeError
    end
  else Ok None.
Definition keyed_evidence (evs : list SignalEvidence) :
    res pyexn (list ((string * string) * SignalEvidence)) :=
  collect (λ ev,
    k ← evidence_key ev;
    Ok (match k with Some k => Some (k, ev) | None => None end)) evs.

Definition build_trace (tenant : string) (fleet : option string)
    (by_trace : list ((string * string) * list SignalEvidence))
    (entities_by_memory : list (string * list string))
    (kv : (string * string) * list _MemoryRow) : res pyexn SessionTraceRow :=
  let '((run, agent), members) := kv in
  let evidence := group_get by_trace (run, agent) in
  match m_created_at <$> members with
  | [] => Err ValueError
  | t0 :: ts =>
      start ← dt_min t0 ts;
      stop ← dt_max t0 ts;
      Ok {| tenant_id := tenant; fleet_id := fleet; run_id := run; agent_id := agent;
            outcome_label := fold_outcome_label evidence MIN_TOTAL_WEIGHT_FOR_LABEL;
            memory_ids := m_memory_id <$> members;
            entity_ids := sorted_set (m ← members; group_get entities_by_memory (m_memory_id m));
            signals_summary := summarize_evidence evidence;
            started_at := start; ended_at := stop; goal_phrase := None |}
  end.

(** The traces, and the batch handed to the storage service, if any. *)
Definition build_session_traces (tenant : string) (fleet : option string)
    (results : list (res pyexn (list SignalEvidence)))
    (window : list WindowRow)
    (links : list string → res pyexn (list (string * string)))
    (persist : bool) : res pyexn (list SessionTraceRow * option (list SessionTraceRow)) :=
  evs ← keyed_evidence (gathered results);
  memories_by_trace ← _query_memories_in_window window;
  let all_memory_ids :=
    sorted_set (kv ← memories_by_trace; m_memory_id <$> kv.2) in
  entities_by_memory ← _query_entity_ids_for_memories all_memory_ids links;
  out ← collect_all (build_trace tenant fleet (group evs) entities_by_memory)
          memories_by_trace;
  Ok (out, if persist && negb (bool_decide (length out = 0%nat)) then Some out else None).

End Extractors.

(** ** Labels *)
Definition flip_polarity (p : Polarity) : Polarity :=
  match p with SUCCESS => FAILURE | FAILURE => SUCCESS | NEUTRAL => NEUTRAL end.
Definition flip_evidence (ev : SignalEvidence) : SignalEvidence :=
  {| kind := kind ev; polarity := flip_polarity (polarity ev); weight := weight ev;
     ev_memory_ids := ev_memory_ids ev; details := details ev; observed_at := observed_at ev |}.
Definition flip_label (o : outcome) : outcome :=
  match o with Success => Failure | Failure => Success | Unknown => Unknown end.

(** The label as a function of the two sums. *)
Definition label_of (w : float * float) (min_total_weight : float) : outcome :=
  if flt (fadd w.1 w.2) min_total_weight then Unknown
  else if flt w.1 w.2 then Failure else if flt w.2 w.1 then Success else Unknown.

Lemma fold_label_of evs m : fold_outcome_label evs m = label_of (tally evs) m.
Proof.
  destruct evs as [|ev evs].
  - unfold label_of. cbn [tally foldl fst snd]. rewrite flt_irrefl. by destruct (flt _ _).
  - unfold fold_outcome_label. by destruct (tally (ev :: evs)).
Qed.

Lemma tally_neutral evs acc :
  foldl add_weight acc evs = foldl add_weight acc (filter (λ ev, polarity ev ≠ NEUTRAL) evs).
Proof.
  revert acc. induction evs as [|ev evs IH]; intros acc; [done|]. rewrite filter_cons.
  case_decide as Hp; cbn [foldl]; [apply IH|].
  assert (Hn : polarity ev = NEUTRAL) by by destruct (polarity ev).
  unfold add_weight at 2. rewrite Hn. apply IH.
Qed.

Lemma tally_flip evs acc :
  foldl add_weight (prod_swap acc) (flip_evidence <$> evs) = prod_swap (foldl add_weight acc evs).
Proof.
  revert acc. induction evs as [|ev evs IH]; intros [s f]; [done|].
  cbn [fmap list_fmap foldl]. rewrite <- IH. f_equal.
  unfold add_weight. cbn. by destruct (polarity ev).
Qed.

Lemma label_of_flip w m : label_of (prod_swap w) m = flip_label (label_of w m).
Proof.
  destruct w as [s f]. unfold label_of. cbn. rewrite (fadd_comm f s).
  destruct (flt (fadd s f) m); [done|].
  destruct (flt s f) eqn:H1, (flt f s) eqn:H2; try done. by rewrite (flt_asym _ _ H1) in H2.
Qed.

Lemma label_of_spec w m :
  (label_of w m = Success ↔ flt w.2 w.1 = true ∧ flt (fadd w.1 w.2) m = false) ∧
  (label_of w m = Failure ↔ flt w.1 w.2 = true ∧ flt (fadd w.1 w.2) m = false).
Proof.
  unfold label_of.
  destruct (flt (fadd _ _) m), (flt w.1 w.2) eqn:H1, (flt w.2 w.1) eqn:H2;
    rewrite ?(flt_asym _ _ H1) in H2; try done;
    split; split; try done; by intros [? ?].
Qed.

(** How evidence votes.  Neutral evidence never changes a label;
    exchanging success and failure everywhere exchanges the labels, so neither
    side is favoured; and a committed label needs a strictly larger sum on its
    side and at least the minimum total weight. *)
Theorem fold_outcome_label_votes evs m :
  fold_outcome_label evs m = fold_outcome_label (filter (λ ev, polarity ev ≠ NEUTRAL) evs) m ∧
  fold_outcome_label (flip_evidence <$> evs) m = flip_label (fold_outcome_label evs m) ∧
  (fold_outcome_label evs m = Success ↔
     flt (tally evs).2 (tally evs).1 = true ∧ flt (fadd (tally evs).1 (tally evs).2) m = false) ∧
  (fold_outcome_label evs m = Failure ↔
     flt (tally evs).1 (tally evs).2 = true ∧ flt (fadd (tally evs).1 (tally evs).2) m = false).
Proof.
  rewrite !fold_label_of. split_and!.
  - unfold tally. by rewrite <- tally_neutral.
  - unfold tally. change (f0, f0) with (prod_swap (f0, f0)) at 1. by rewrite tally_flip, label_of_flip.
  - apply label_of_spec.
  - apply label_of_spec.
Qed.

(** The terminal memory decides.  Among evidence that is otherwise
    neutral, one classified terminal memory labels the trace with its verdict,
    wherever it comes in the order; neutral evidence alone labels nothing. *)
Theorem terminal_memory_decides `{PyText} fromisoformat row verdict ev pre post :
  _classify (sr_content row) = Some verdict →
  terminal_memory_extract fromisoformat [row] = Ok [ev] →
  Forall (λ e, polarity e = NEUTRAL) pre → Forall (λ e, polarity e = NEUTRAL) post →
  fold_outcome_label (pre ++ post) MIN_TOTAL_WEIGHT_FOR_LABEL = Unknown ∧
  fold_outcome_label (pre ++ ev :: post) MIN_TOTAL_WEIGHT_FOR_LABEL =
    match verdict with SUCCESS => Success | FAILURE => Failure | NEUTRAL => Unknown end.
Proof.
  intros Hc Hex Hpre Hpost.
  assert (Hev : polarity ev = verdict ∧ weight ev = lit 9 10).
  { unfold terminal_memory_extract in Hex. cbn in Hex. rewrite Hc in Hex. res_inv.
    subst. by injection Hex as <-. }
  assert (Hn : ∀ l acc, Forall (λ e, polarity e = NEUTRAL) l → foldl add_weight acc l = acc).
  { intros l acc Hl. revert acc. induction Hl as [|e l He Hl IH]; intros acc; [done|].
    cbn. rewrite IH. unfold add_weight. by rewrite He. }
  rewrite !fold_label_of. unfold tally. rewrite !foldl_app, (Hn pre) by done. cbn [foldl].
  rewrite !Hn by done. destruct Hev as [Hp Hwt]. unfold add_weight. rewrite Hp, Hwt.
  split; [vm_compute; reflexivity|]. destruct verdict; vm_compute; reflexivity.
Qed.

Section TraceTheorems.
Context `{PyText}.
Context (fromisoformat : string → option datetime).
Context (isoformat : datetime → string).

(** ** Ordering of timestamps *)
Definition dt_le (a b : option datetime) : Prop := dt_lt b a = Ok false.

Lemma dt_lt_le a b : dt_lt a b = Ok true → dt_le a b.
Proof.
  unfold dt_le. destruct a as [[w [o|]]|], b as [[w' [o'|]]|]; cbn; try done;
    intros [= Hlt]; f_equal; lia.
Qed.
Lemma dt_le_trans a b c : dt_le a b → dt_le b c → dt_le a c.
Proof.
  unfold dt_le. destruct a as [[w [o|]]|], b as [[w' [o'|]]|], c as [[w'' [o''|]]|]; cbn; try done;
    intros [= H1] [= H2]; f_equal; lia.
Qed.

(** [better] is a strict order whose failure is a transitive relation. *)
Lemma extreme_spec better (le : option datetime → option datetime → Prop) :
  (∀ a b, better a b = Ok true → le a b) → (∀ a b, better a b = Ok false → le b a) →
  (∀ a b c, le a b → le b c → le a c) →
  ∀ l t r, extreme better t l = Ok r →
    r ∈ t :: l ∧ ∀ x, x ∈ t :: l → x = r ∨ le r x.
Proof.
  intros Ht Hf Htr. induction l as [|u l IH]; intros t r; cbn.
  - intros [= <-]. split; [set_solver|]. intros x Hx. left. by apply list_elem_of_singleton in Hx.
  - intros Hr. apply res_bind_Ok in Hr as (b & Hb & Hr). apply IH in Hr as [Hin Hall].
    split; [destruct b; set_solver|]. intros x Hx.
    assert (Hcase : x ∈ (if b then u else t) :: l ∨ (le (if b then u else t) x)).
    { rewrite !elem_of_cons in Hx. destruct b; naive_solver set_solver. }
    destruct Hcase as [Hc|Hc]; [by apply Hall|]. right.
    destruct (Hall (if b then u else t)) as [Heq|Hle]; [set_solver|by rewrite <- Heq|by eapply Htr].
Qed.

Lemma dt_min_spec l t r : dt_min t l = Ok r → r ∈ t :: l ∧ ∀ x, x ∈ t :: l → x = r ∨ dt_le r x.
Proof.
  apply (extreme_spec dt_lt dt_le); [apply dt_lt_le|done|apply dt_le_trans].
Qed.
Lemma dt_max_spec l t r : dt_max t l = Ok r → r ∈ t :: l ∧ ∀ x, x ∈ t :: l → x = r ∨ dt_le x r.
Proof.
  apply (extreme_spec (λ a b, dt_lt b a) (λ a b, dt_le b a)).
  - intros a b. apply dt_lt_le.
  - done.
  - intros a b c Hab Hbc. by eapply dt_le_trans.
Qed.

(** ** Building *)
Lemma memory_row_fields row m :
  memory_row fromisoformat row = Ok m →
  m_memory_id m = w_memory_id row ∧ trace_key m = (w_run_id row, w_agent_id row).
Proof. unfold memory_row. intros Hm. res_inv. by subst m. Qed.

Lemma memory_rows_ids window ms :
  memory_rows fromisoformat window = Ok ms → m_memory_id <$> ms = w_memory_id <$> window.
Proof.
  intros Hms%collect_all_Ok. induction Hms as [|row m ? ? Hm _ IH]; [done|].
  cbn. apply memory_row_fields in Hm as [-> _]. by f_equal.
Qed.

(** What one trace of the result says about the rows and the evidence. *)
Record trace_of (tenant : string) (fleet : option string) (ms : list _MemoryRow)
    (evs : list ((string * string) * SignalEvidence)) (links : list (string * string))
    (t : SessionTraceRow) : Prop := {
  tr_scope : tenant_id t = tenant ∧ fleet_id t = fleet;
  tr_members : memory_ids t = m_memory_id <$> filter (λ m, trace_key m = (run_id t, agent_id t)) ms;
  tr_label : outcome_label t =
    fold_outcome_label (values_of evs (run_id t, agent_id t)) MIN_TOTAL_WEIGHT_FOR_LABEL;
  tr_entities : ∀ e, e ∈ entity_ids t ↔ ∃ m, m ∈ memory_ids t ∧ (m, e) ∈ links;
  tr_entities_sorted : Sorted String.le (entity_ids t) ∧ NoDup (entity_ids t);
  tr_bounds : ∀ m, m ∈ ms → trace_key m = (run_id t, agent_id t) →
    (m_created_at m = started_at t ∨ dt_le (started_at t) (m_created_at m)) ∧
    (m_created_at m = ended_at t ∨ dt_le (m_created_at m) (ended_at t));
}.

Lemma values_of_keyed (ms : list _MemoryRow) k :
  values_of ((λ m, (trace_key m, m)) <$> ms) k = filter (λ m, trace_key m = k) ms.
Proof.
  unfold values_of. induction ms as [|m ms IH]; [done|]. cbn [fmap list_fmap].
  rewrite !filter_cons. cbn. case_decide; cbn; by rewrite IH.
Qed.

Lemma entities_of (links : list (string * string)) m e :
  e ∈ group_get (prod_map id sorted_set <$> group links) m ↔ (m, e) ∈ links.
Proof.
  assert (Hg : ∀ g : list (string * list string),
    group_get (prod_map id sorted_set <$> g) m = sorted_set (group_get g m)).
  { induction g as [|[k vs] g IH]; [done|]. cbn. by case_decide. }
  rewrite Hg, elem_of_sorted_set, group_get_group. unfold values_of.
  rewrite list_elem_of_fmap. setoid_rewrite list_elem_of_filter. split.
  - intros ([m' e'] & -> & Hk & ?). cbn in Hk. by subst m'.
  - intros ?. by exists (m, e).
Qed.

Lemma query_entities ids links g :
  _query_entity_ids_for_memories ids links = Ok g →
  ∃ rows, (ids ≠ [] → links ids = Ok rows) ∧ g = prod_map id sorted_set <$> group rows.
Proof.
  destruct ids as [|i ids]; cbn.
  - intros [= <-]. by exists [].
  - intros Hr. res_inv. subst g. by exists x.
Qed.

Lemma build_trace_of tenant fleet evs rows ms kv t :
  kv ∈ group ((λ m, (trace_key m, m)) <$> ms) →
  build_trace isoformat tenant fleet (group evs) (prod_map id sorted_set <$> group rows) kv = Ok t →
  trace_of tenant fleet ms evs rows t ∧ (run_id t, agent_id t) = kv.1.
Proof.
  destruct kv as [[run agent] members]. intros [Hmem Hne]%group_elem Hb.
  rewrite values_of_keyed in Hmem. unfold build_trace in Hb.
  destruct (m_created_at <$> members) as [|t0 ts] eqn:Hts; [done|].
  apply res_bind_Ok in Hb as (s & Hs & Hb). apply res_bind_Ok in Hb as (f & Hf & [= <-]).
  split; [|done]. apply dt_min_spec in Hs as [_ Hs]. apply dt_max_spec in Hf as [_ Hf].
  constructor; cbn.
  - done.
  - by rewrite Hmem.
  - by rewrite group_get_group.
  - intros e. rewrite elem_of_sorted_set, list_elem_of_bind. split.
    + intros (m & He & Hm). exists (m_memory_id m). rewrite <- entities_of.
      split; [|done]. apply list_elem_of_fmap. by exists m.
    + intros (i & (m & -> & Hm)%list_elem_of_fmap & He). exists m. by rewrite entities_of.
  - split; [apply sort_strings_sorted|apply NoDup_sorted_set].
  - intros m Hm Hk. assert (Hin : m_created_at m ∈ t0 :: ts).
    { rewrite <- Hts. apply list_elem_of_fmap. exists m. split; [done|].
      rewrite Hmem. by apply list_elem_of_filter. }
    split; [by apply Hs|by apply Hf].
Qed.

Lemma group_members_ids (l : list ((string * string) * _MemoryRow)) :
  (m_memory_id <$> concat (group l).*2) ≡ₚ m_memory_id <$> l.*2.
Proof. by rewrite group_concat. Qed.

Lemma bind_members (g : list ((string * string) * list _MemoryRow)) :
  (kv ← g; m_memory_id <$> kv.2) = m_memory_id <$> concat g.*2.
Proof. induction g as [|[k ms] g IH]; [done|]. cbn. by rewrite IH, fmap_app. Qed.

Lemma built_ids tenant fleet evs rows (g : list ((string * string) * list _MemoryRow)) out :
  Forall2 (λ kv t, build_trace isoformat tenant fleet evs rows kv = Ok t) g out →
  (λ t, (run_id t, agent_id t)) <$> out = g.*1 ∧
  concat (memory_ids <$> out) = m_memory_id <$> concat g.*2.
Proof.
  induction 1 as [|[[run agent] ms] t g out Hb _ [IH1 IH2]]; [done|]. cbn.
  unfold build_trace in Hb. destruct (m_created_at <$> ms); [done|]. res_inv. subst t. cbn.
  by rewrite IH1, IH2, fmap_app.
Qed.

(** The builder partitions the window.  When it returns, there is one
    trace per (run, agent) pair; the memory ids of the traces are those of the
    rows scanned, each exactly once; a trace's members, label, entities and
    time bounds are those of its own pair alone; and the batch to store is the
    list returned, unless it is empty or persistence is off. *)
Theorem build_session_traces_partition tenant fleet results window links persist out batch :
  build_session_traces fromisoformat isoformat tenant fleet results window links persist =
    Ok (out, batch) →
  ∃ ms evs rows,
    memory_rows fromisoformat window = Ok ms ∧ keyed_evidence (gathered results) = Ok evs ∧
    (window ≠ [] → links (sorted_set (w_memory_id <$> window)) = Ok rows) ∧
    Forall (trace_of tenant fleet ms evs rows) out ∧
    NoDup ((λ t, (run_id t, agent_id t)) <$> out) ∧
    concat (memory_ids <$> out) ≡ₚ w_memory_id <$> window ∧
    batch = (if persist && negb (bool_decide (out = [])) then Some out else None).
Proof.
  unfold build_session_traces, _query_memories_in_window. intros Hb.
  apply res_bind_Ok in Hb as (evs & Hevs & Hb). apply res_bind_Ok in Hb as (g & Hg & Hb).
  apply res_bind_Ok in Hg as (ms & Hms & [= <-]).
  apply res_bind_Ok in Hb as (ents & Hents & Hb). apply res_bind_Ok in Hb as (o & Hout & Hb).
  injection Hb as <- <-. apply query_entities in Hents as (rows & Hrows & ->).
  apply collect_all_Ok in Hout. destruct (built_ids _ _ _ _ _ _ Hout) as [Hk Hm].
  rewrite bind_members in Hrows.
  assert (Hperm : m_memory_id <$> concat (group ((λ m, (trace_key m, m)) <$> ms)).*2 ≡ₚ
                  w_memory_id <$> window).
  { rewrite group_members_ids, <- (memory_rows_ids _ _ Hms). by rewrite <- !list_fmap_compose. }
  assert (Hset : sorted_set (w_memory_id <$> window) =
    sorted_set (m_memory_id <$> concat (group ((λ m, (trace_key m, m)) <$> ms)).*2)).
  { apply sorted_set_ext. intros s. by rewrite Hperm. }
  exists ms, evs, rows. split_and!; try done.
  - intros Hw. rewrite Hset. apply Hrows. rewrite <- Hset. by apply sorted_set_not_nil, fmap_not_nil.
  - apply Forall_forall. intros t [j Hj]%list_elem_of_lookup.
    destruct (Forall2_lookup_r _ _ _ _ _ Hout Hj) as (kv & Hkv & Hbt).
    eapply build_trace_of; [|exact Hbt]. by eapply list_elem_of_lookup_2.
  - rewrite Hk. apply group_NoDup.
  - by rewrite Hm.
  - by destruct o.
Qed.

(** ** The builder answers *)
Definition aware (t : option datetime) : Prop :=
  match t with Some d => is_Some (dt_offset d) | None => False end.

Lemma dt_lt_aware a b : aware a → aware b → ∃ r, dt_lt a b = Ok r.
Proof.
  destruct a as [[w [o|]]|], b as [[w' [o'|]]|]; cbn; intros Ha Hb; try done;
    try (by destruct Ha); try (by destruct Hb). by eexists.
Qed.

Lemma extreme_total better l t :
  (∀ a b, aware a → aware b → ∃ r, better a b = Ok r) →
  aware t → Forall aware l → ∃ r, extreme better t l = Ok r.
Proof.
  intros Hb Ht Hl. revert t Ht. induction Hl as [|u l Hu Hl IH]; intros t Ht; cbn; [by exists t|].
  destruct (Hb u t Hu Ht) as [r ->]. cbn. apply IH. by destruct r.
Qed.

Lemma collect_total {E A B} (f : A → res E (option B)) l :
  (∀ x, x ∈ l → ∃ o, f x = Ok o) → ∃ out, collect f l = Ok out.
Proof.
  induction l as [|x l IH]; intros Hf; cbn; [by eexists|].
  destruct (Hf x) as [o ->]; [set_solver|]. cbn.
  destruct IH as [out ->]; [intros y Hy; apply Hf; set_solver|]. by eexists.
Qed.

Lemma collect_all_total {E A B} (f : A → res E B) l :
  (∀ x, x ∈ l → ∃ y, f x = Ok y) → ∃ out, collect_all f l = Ok out.
Proof.
  intros Hf. apply collect_total. intros x Hx. destruct (Hf x Hx) as [y ->]. by eexists.
Qed.

(** The evidence every extractor of the program stamps: string ids. *)
Definition stamped_evidence (ev : SignalEvidence) : Prop :=
  ∃ r a, dgetv (details ev) "run_id" = PStr r ∧ dgetv (details ev) "agent_id" = PStr a.

Lemma keyed_evidence_total evs : Forall stamped_evidence evs → ∃ out, keyed_evidence evs = Ok out.
Proof.
  intros Hevs. apply collect_total. intros ev Hev.
  destruct (proj1 (Forall_forall _ _) Hevs ev Hev) as (r & a & Hr & Ha).
  unfold evidence_key. rewrite Hr, Ha. by destruct (truthy _ && truthy _); eexists.
Qed.

Lemma build_trace_total tenant fleet evs rows (ms : list _MemoryRow) kv :
  Forall (λ m, aware (m_created_at m)) ms →
  kv ∈ group ((λ m, (trace_key m, m)) <$> ms) →
  ∃ t, build_trace isoformat tenant fleet evs rows kv = Ok t.
Proof.
  destruct kv as [[run agent] members]. intros Hms [Hmem Hne]%group_elem.
  rewrite values_of_keyed in Hmem.
  assert (Haw : Forall aware (m_created_at <$> members)).
  { apply Forall_fmap. rewrite Hmem. apply Forall_forall. intros m [_ Hm]%list_elem_of_filter.
    by eapply (proj1 (Forall_forall _ _) Hms). }
  unfold build_trace. destruct members as [|m members]; [done|]. cbn in Haw |- *.
  apply Forall_cons in Haw as [Hm Hl]. unfold dt_min, dt_max.
  destruct (extreme_total dt_lt (m_created_at <$> members) (m_created_at m)) as [s ->];
    [apply dt_lt_aware|done|done|].
  destruct (extreme_total (λ a b, dt_lt b a) (m_created_at <$> members) (m_created_at m)) as [f ->];
    [intros a b Ha Hb; by apply dt_lt_aware|done|done|].
  by eexists.
Qed.

End TraceTheorems.

(** ** Concrete runs *)
Section Witnesses.
#[local] Existing Instance AsciiText.

(** Timestamps of the examples are a number of characters. *)
Definition ex_iso (s : string) : option datetime :=
  Some (DateTime (Z.of_nat (String.length s)) (Some 0)).
Definition ex_print (t : datetime) : string := "t".
Definition ex_row (content : string) : SignalRow :=
  {| sr_memory_id := "m1"; sr_by_id := ""; sr_run_id := "r1"; sr_agent_id := "a1"; sr_status := "";
     sr_content := Some content; sr_recall_count := 9; sr_observed_at := Some "x"%string |}.
Definition ex_window : list WindowRow :=
  [ {| w_memory_id := "m2"; w_run_id := "r1"; w_agent_id := "a1"; w_fleet_id := None;
       w_created_at := Some "22"%string |};
    {| w_memory_id := "m3"; w_run_id := "r2"; w_agent_id := "a1"; w_fleet_id := None;
       w_created_at := Some "1"%string |};
    {| w_memory_id := "m1"; w_run_id := "r1"; w_agent_id := "a1"; w_fleet_id := None;
       w_created_at := Some "1"%string |} ].
Definition ex_results : list (res pyexn (list SignalEvidence)) :=
  [Err RuntimeError; terminal_memory_extract ex_iso [ex_row "Shipped it"]].
Definition ex_links (ids : list string) : res pyexn (list (string * string)) :=
  Ok [("m2", "e2"); ("m1", "e1"); ("m2", "e1")]%string.
Definition ex_build : res pyexn (list SessionTraceRow * option (list SessionTraceRow)) :=
  Eval vm_compute in
  build_session_traces ex_iso ex_print "t" None ex_results ex_window ex_links true.
Definition ex_traces : list SessionTraceRow :=
  Eval vm_compute in match ex_build with Ok (out, _) => out | Err _ => [] end.

Example ex_labels :
  (λ t, (run_id t, outcome_label t, entity_ids t)) <$> ex_traces =
  [("r1", Success, ["e1"; "e2"]); ("r2", Unknown, [])]%string.
Proof. reflexivity. Qed.

Lemma terminal_memory_decides_witness :
  _classify (Some "Shipped, then rolled back"%string) = Some FAILURE ∧
  ∃ ev, terminal_memory_extract ex_iso [ex_row "Shipped it"] = Ok [ev] ∧
        fold_outcome_label [ev] MIN_TOTAL_WEIGHT_FOR_LABEL = Success.
Proof.
  split; [vm_compute; reflexivity|]. eexists. split; [vm_compute; reflexivity|].
  eapply (terminal_memory_decides ex_iso (ex_row "Shipped it") SUCCESS _ [] []);
    [vm_compute; reflexivity|vm_compute; reflexivity|constructor|constructor].
Defined.

Lemma build_session_traces_partition_witness :
  concat (memory_ids <$> ex_traces) ≡ₚ ["m2"; "m3"; "m1"]%string.
Proof.
  assert (Hb : build_session_traces ex_iso ex_print "t" None ex_results ex_window ex_links true =
               Ok (ex_traces, Some ex_traces)) by (vm_compute; reflexivity).
  destruct (build_session_traces_partition _ _ _ _ _ _ _ _ _ _ Hb)
    as (ms & evs & rows & _ & _ & _ & _ & _ & Hp & _).
  exact Hp.
Defined.

End Witnesses.
End SessionTrace.
