(* ===== verification/Distill.v ===== *)
(** * The distillation prompt and its parser
    (core_api/services/forge/distill_prompt.py)

    [json.loads] and [JSONDecoder.raw_decode] are parameters: the value of the
    text, or [None] when they raise [JSONDecodeError]. *)

From S2P Require Import Prelude Regex.
Import Regex.

Module Distill.

Definition DISTILL_SCHEMA_VERSION : string := "v1".
Definition MAX_TRACE_CONTENT_CHARS : Z := 1200.
Definition _SLUG_RE : compiled := re_compile no_flags "^[a-z0-9][a-z0-9._-]{0,99}$".
Definition REQUIRED_OUTPUT_KEYS : list string :=
  ["goal_phrase"; "domain"; "step_skeleton"; "name"; "slug"; "description"; "summary"; "content";
   "tags"; "evidence"; "goal"]%string.

(** ** The prompt *)
Record TraceSnapshot : Type := {
  run_id : string;
  agent_id : string;
  outcome_label : string;
  memory_excerpts : list string;
  entity_ids : list string;
  started_at_iso : string;
  ended_at_iso : string;
}.
Record ClusterPromptInputs : Type := {
  tenant_id : string;
  fleet_id : option string;
  traces : list TraceSnapshot;
  top_entity_ids : list string;
  hint_domain : option string;
}.

Definition nl : string := str_of_bytes [10%nat].
Definition dq : string := str_of_bytes [34%nat].

(** The preamble, with the schema version filled in. *)
Definition _SYSTEM_PREAMBLE_FILLED : string := (join nl [
  "You are Forge, an autonomous resident inside MemClaw's " ++ dq ++ "live memory" ++ dq ++ ".";
  "Your job: turn a cluster of agent session-traces — all of which";
  "followed approximately the same procedure to the same outcome —";
  "into a single reusable SKILL candidate.";
  "";
  "Constraints:";
  "  * Output strict JSON only. No prose outside the JSON. No code fence.";
  "  * The fingerprint fields (goal_phrase, domain, step_skeleton) drive";
  "    cluster identity. Be precise; do not vary surface wording across";
  "    re-runs of the same cluster.";
  "  * The trigger fields (name, description, summary) drive when an";
  "    agent later USES this skill. Write them as if a stranger has";
  "    to decide whether to fire this skill from a one-line query.";
  "  * The description MUST be <= 160 BYTES (UTF-8). Short, focused, " ++ dq ++ "use";
  "    when ..." ++ dq ++ " style.";
  "  * slug: lowercase-kebab-case only. Regex: [a-z0-9][a-z0-9._-]{0,99}.";
  "    The slug becomes part of the doc_id (forge/<slug>) and a";
  "    filesystem path on plugin nodes — uppercase letters, spaces, or";
  "    leading punctuation will be rejected by the route validator.";
  "  * Output `schema_version` exactly: " ++ dq ++ DISTILL_SCHEMA_VERSION ++ dq ++ ".";
  "  * Output `kind`: " ++ dq ++ "create" ++ dq ++ ".";
  "  * step_skeleton: 3-7 items. Each item: 2-4 words. Verb-then-object.";
  "";
  "If the cluster's procedure cannot be cleanly distilled (mixed";
  "outcomes, divergent step orders, too few traces), still produce a";
  "valid candidate but set goal_phrase=" ++ dq ++ dq ++ " and step_skeleton=[]. The";
  "auto-gates downstream will reject those.";
  ""])%string.

(** The excerpts of one trace, within the character budget. *)
Fixpoint excerpt_snippets (budget : Z) (excerpts : list string) : list string :=
  match excerpts with
  | [] => []
  | e :: es =>
      if budget <=? 0 then []
      else let snippet := char_take budget e in
           snippet :: excerpt_snippets (budget - char_len snippet) es
  end.

Definition trace_lines (total : nat) (i : nat) (t : TraceSnapshot) : list string :=
  (["--- Trace " ++ str_of_Z (Z.of_nat i + 1) ++ "/" ++ str_of_Z (Z.of_nat total) ++ " ---";
    "agent: " ++ agent_id t;
    "run_id: " ++ run_id t;
    "window: " ++ started_at_iso t ++ " → " ++ ended_at_iso t;
    "outcome: " ++ outcome_label t]%string ++
   (match entity_ids t with
    | [] => []
    | _ => ["entities: " ++ join ", " (sort_strings (entity_ids t))]%string
    end) ++
   (match memory_excerpts t with
    | [] => []
    | es => "memories:"%string ::
            ((λ s, "  - " ++ s)%string <$> excerpt_snippets MAX_TRACE_CONTENT_CHARS es)
    end) ++
   [""%string])%list.

(** [x or default] on an optional text. *)
Definition or_else (o : option string) (d : string) : string :=
  match o with Some s => if String.eqb s "" then d else s | None => d end.

(** [str(l)] of a list of strings without quotes or escapes. *)
Definition repr_list (l : list string) : string :=
  ("[" ++ join ", " ((λ s, "'" ++ s ++ "'") <$> l) ++ "]")%string.

Definition build_distill_prompt (inputs : ClusterPromptInputs) : string :=
  join nl
    ([_SYSTEM_PREAMBLE_FILLED; ""%string] ++
     (match hint_domain inputs with
      | Some d => if String.eqb d "" then []
                  else ["Suggested domain (confirm or correct): " ++ d]%string
      | None => []
      end) ++
     (match top_entity_ids inputs with
      | [] => []
      | ids => ["Top entity IDs (UUIDs) across the cluster: " ++ join ", " (sorted_set ids)]%string
      end) ++
     [""%string;
      "Cluster: " ++ str_of_Z (Z.of_nat (length (traces inputs))) ++ " trace(s) from tenant=" ++
        tenant_id inputs ++ " fleet=" ++ or_else (fleet_id inputs) "<none>" ++ "."%string;
      ""%string]%string ++
     concat (imap (trace_lines (length (traces inputs))) (traces inputs)) ++
     ["Respond with one JSON object matching schema_version='" ++ DISTILL_SCHEMA_VERSION ++
        "'. Required keys: " ++ repr_list (sort_strings REQUIRED_OUTPUT_KEYS) ++
        " + 'schema_version' + 'kind'."]%string).

(** ** The parser *)

(** [DistillParseError]: one constructor per [raise]. *)
Inductive parse_error : Type :=
| EmptyResponse
| NotJson
| NotObject
| BadSchemaVersion (v : pyval)
| MissingKeys (ks : list string)
| NotString (k : string)
| NotStringList (k : string)
| SlugFormat (slug : string)
| KindInvalid (v : pyval)
| KindNotCreate (v : pyval).

Definition _CODE_FENCE_RE : compiled :=
  re_compile IGNORECASE "^```(?:json)?\s*|\s*```$".
Example distill_patterns_compile : forallb compiles [_SLUG_RE; _CODE_FENCE_RE] = true.
Proof. vm_compute. reflexivity. Qed.

Definition STRING_KEYS : list string :=
  ["goal_phrase"; "domain"; "name"; "slug"; "description"; "summary"; "content"; "evidence";
   "goal"]%string.
Definition LIST_KEYS : list string := ["step_skeleton"; "tags"]%string.

Definition is_str (v : pyval) : bool := match v with PStr _ => true | _ => false end.
Definition is_str_list (v : pyval) : bool :=
  match v with PList l => forallb is_str l | _ => false end.

(** The suffix of [s] from its first [c]. *)
Fixpoint from_char (c : ascii) (s : string) : option string :=
  match s with
  | EmptyString => None
  | String c' s' => if Ascii.eqb c c' then Some s else from_char c s'
  end.

(** The first element of [l] that fails the test. *)
Fixpoint first_bad (ok : string → bool) (l : list string) : option string :=
  match l with
  | [] => None
  | k :: l => if ok k then first_bad ok l else Some k
  end.

Section Parse.
Context `{PyText}.
Context (json_loads : string → option pyval).
Context (raw_decode : string → option pyval).

(** Another attempt, when the ones before left [None]. *)
Definition attempt (parsed : pyval) (next : option pyval) : pyval :=
  match parsed with PNone => default PNone next | v => v end.

Definition decode_response (candidate : string) : pyval :=
  let parsed := attempt PNone (json_loads candidate) in
  let parsed := attempt parsed (json_loads (str_strip (re_sub_delete _CODE_FENCE_RE candidate))) in
  attempt parsed (s ← from_char "{" candidate; raw_decode s).

Definition check_response (parsed : pydict) : res parse_error pydict :=
  raise_if negb (py_eqb (PStr DISTILL_SCHEMA_VERSION) (dgetv parsed "schema_version"))
    with BadSchemaVersion (dgetv parsed "schema_version");;
  let missing := sort_strings (List.filter (λ k, negb (dhas parsed k)) REQUIRED_OUTPUT_KEYS) in
  raise_if negb (bool_decide (missing = [])) with MissingKeys missing;;
  match first_bad (λ k, is_str (dgetv parsed k)) STRING_KEYS with
  | Some k => Err (NotString k)
  | None =>
      match first_bad (λ k, is_str_list (dgetv parsed k)) LIST_KEYS with
      | Some k => Err (NotStringList k)
      | None =>
          let slug := default "" (as_str (dgetv parsed "slug")) in
          raise_if negb (re_fullmatch _SLUG_RE slug) with SlugFormat slug;;
          let kind := default (PStr "create") (dget parsed "kind") in
          raise_if negb (py_eqb (PStr "create") kind || py_eqb (PStr "update") kind)
            with KindInvalid kind;;
          Ok (dset parsed "kind" kind)
      end
  end.

Definition parse_distill_response (raw : string) : res parse_error pydict :=
  raise_if (String.eqb raw "" || String.eqb (str_strip raw) "") with EmptyResponse;;
  match decode_response (str_strip raw) with
  | PNone => Err NotJson
  | PDict d => check_response d
  | _ => Err NotObject
  end.
End Parse.

(** ** What an accepted response holds *)
Section Theorems.
Context `{PyText}.
Context (json_loads raw_decode : string → option pyval).

Lemma first_bad_None ok l : first_bad ok l = None ↔ ∀ k, k ∈ l → ok k = true.
Proof.
  induction l as [|k l IH]; cbn.
  - split; [by intros _ k Hk%not_elem_of_nil|done].
  - destruct (ok k) eqn:Hk.
    + rewrite IH. setoid_rewrite elem_of_cons. naive_solver.
    + split; [done|]. intros Hall. rewrite Hall in Hk; [done|]. by left.
Qed.

(** The characters a slug may hold. *)
Definition slug_char (x : N) : Prop :=
  (97 ≤ x ≤ 122)%N ∨ (48 ≤ x ≤ 57)%N ∨ x = 46%N ∨ x = 95%N ∨ x = 45%N.

Lemma slug_rx_over : rx_over (c_flags _SLUG_RE) slug_char (c_rx _SLUG_RE).
Proof.
  assert (H5 : ∀ x, set_matches no_flags false
    [CRange 97 122; CRange 48 57; CChar 46; CChar 95; CChar 45] x = true → slug_char x).
  { intros x. unfold slug_char. cbn. rewrite !orb_true_iff, !andb_true_iff, !N.leb_le, !N.eqb_eq. lia. }
  assert (H2 : ∀ x, set_matches no_flags false [CRange 97 122; CRange 48 57] x = true → slug_char x).
  { intros x. unfold slug_char. cbn. rewrite !orb_true_iff, !andb_true_iff, !N.leb_le. lia. }
  let r := eval vm_compute in _SLUG_RE in change _SLUG_RE with r.
  cbn [c_rx c_flags rx_over]. change {| icase := false; multiline := false |} with no_flags.
  repeat first [exact I | exact H5 | exact H2 | split].
Qed.

Lemma check_response_Ok d p :
  check_response d = Ok p →
  (∀ k, k ∈ STRING_KEYS → ∃ s, dgetv p k = PStr s) ∧
  (∀ k, k ∈ LIST_KEYS → ∃ l, dgetv p k = PList l ∧ forallb is_str l = true) ∧
  dgetv p "schema_version" = PStr DISTILL_SCHEMA_VERSION ∧
  (∃ s, dgetv p "slug" = PStr s ∧ re_fullmatch _SLUG_RE s = true) ∧
  (dgetv p "kind" = PStr "create" ∨ dgetv p "kind" = PStr "update") ∧
  (∀ k, k ≠ "kind"%string → dget p k = dget d k).
Proof.
  unfold check_response. intros Hc. apply raise_if_Ok in Hc as [Hv%negb_false_iff Hc].
  apply raise_if_Ok in Hc as [_ Hc].
  destruct (first_bad _ STRING_KEYS) eqn:Hs; [done|].
  destruct (first_bad _ LIST_KEYS) eqn:Hl; [done|].
  apply raise_if_Ok in Hc as [Hslug%negb_false_iff Hc].
  apply raise_if_Ok in Hc as [Hk%negb_false_iff Hc]. injection Hc as <-.
  set (kind := default (PStr "create") (dget d "kind")) in *.
  assert (Hother : ∀ k, k ≠ "kind"%string → dget (dset d "kind" kind) k = dget d k).
  { intros k Hne. by apply dget_dset_ne. }
  assert (Hstr : ∀ k, k ∈ STRING_KEYS → ∃ s, dgetv d k = PStr s).
  { intros k Hin. pose proof (proj1 (first_bad_None _ _) Hs k Hin) as Hb.
    cbn in Hb. destruct (dgetv d k); try done. by eexists. }
  split_and!.
  - intros k Hin. unfold dgetv. rewrite Hother; [by apply Hstr|]. intros ->. by unfold STRING_KEYS in Hin; set_solver.
  - intros k Hin. pose proof (proj1 (first_bad_None _ _) Hl k Hin) as Hb. cbn in Hb. unfold dgetv in *.
    rewrite Hother; [|intros ->; by unfold LIST_KEYS in Hin; set_solver]. destruct (default PNone (dget d k)); try done. by eexists.
  - unfold dgetv. rewrite Hother by done. by apply py_eqb_str_l in Hv.
  - destruct (Hstr "slug"%string) as [s Hsl]; [unfold STRING_KEYS; set_solver|]. exists s.
    rewrite Hsl in Hslug. unfold dgetv in *. by rewrite Hother.
  - unfold dgetv. rewrite dget_dset. cbn. apply orb_true_iff in Hk as [Hk|Hk];
      apply py_eqb_str_l in Hk; [by left|by right].
  - done.
Qed.

(** Whatever the model answered, a response the parser accepts is a
    complete one: the nine text fields are text, the two list fields lists of
    text, the schema version is the expected one, the kind is create or
    update, and the slug holds lower-case letters, digits, dots, underscores
    and hyphens only, so that [forge/<slug>] has no further path separator. *)
Theorem parse_distill_response_shape raw p :
  parse_distill_response json_loads raw_decode raw = Ok p →
  (∀ k, k ∈ STRING_KEYS → ∃ s, dgetv p k = PStr s) ∧
  (∀ k, k ∈ LIST_KEYS → ∃ l, dgetv p k = PList l ∧ forallb is_str l = true) ∧
  dgetv p "schema_version" = PStr DISTILL_SCHEMA_VERSION ∧
  (dgetv p "kind" = PStr "create" ∨ dgetv p "kind" = PStr "update") ∧
  ∃ s, dgetv p "slug" = PStr s ∧ Forall slug_char (codepoints s).
Proof.
  unfold parse_distill_response. intros Hp. apply raise_if_Ok in Hp as [_ Hp].
  destruct (decode_response _ _ _) as [| | | | | | |d]; try done.
  apply check_response_Ok in Hp as (Hs & Hl & Hv & (s & Hsl & Hm) & Hk & _).
  split_and!; [done..|]. exists s. split; [done|].
  eapply re_fullmatch_over; [apply slug_rx_over|exact Hm].
Qed.

(** ** The prompt *)

(** Two snapshots of one trace whose entity lists are reordered. *)
Definition same_trace (t u : TraceSnapshot) : Prop :=
  run_id t = run_id u ∧ agent_id t = agent_id u ∧ outcome_label t = outcome_label u ∧
  memory_excerpts t = memory_excerpts u ∧ started_at_iso t = started_at_iso u ∧
  ended_at_iso t = ended_at_iso u ∧ entity_ids t ≡ₚ entity_ids u.

Lemma trace_lines_stable n i t u : same_trace t u → trace_lines n i t = trace_lines n i u.
Proof.
  intros (Hr & Ha & Ho & Hm & Hs & He & Hp). unfold trace_lines.
  rewrite Hr, Ha, Ho, Hm, Hs, He, (sort_strings_Permutation _ _ Hp).
  do 2 f_equal. destruct (entity_ids t) as [|x l], (entity_ids u) as [|y l']; try done.
  - by apply Permutation_nil_l in Hp.
  - by apply Permutation_nil_r in Hp.
Qed.

Lemma imap_stable n l l' (off : nat) :
  Forall2 same_trace l l' →
  imap (λ i, trace_lines n (off + i)%nat) l = imap (λ i, trace_lines n (off + i)%nat) l'.
Proof.
  intros Hl. revert off. induction Hl as [|t u l l' Ht _ IH]; intros off; [done|].
  rewrite !imap_cons. rewrite (trace_lines_stable _ _ _ _ Ht). f_equal.
  assert (Hext : ∀ l0, imap ((λ i, trace_lines n (off + i)%nat) ∘ S) l0 =
                       imap (λ i, trace_lines n (S off + i)%nat) l0).
  { intros l0. apply imap_ext. intros i x _. cbn. by rewrite Nat.add_succ_r. }
  by rewrite !Hext.
Qed.

Lemma excerpt_snippets_budget budget es :
  Forall2 (λ s e, ∃ n, s = char_take n e)
    (excerpt_snippets budget es) (take (length (excerpt_snippets budget es)) es) ∧
  foldr (λ s n, char_len s + n) 0 (excerpt_snippets budget es) ≤ Z.max budget 0.
Proof.
  revert budget. induction es as [|e es IH]; intros budget; cbn [excerpt_snippets].
  - cbn. split; [constructor|lia].
  - destruct (Z.leb_spec budget 0); cbn [length take foldr]; [split; [constructor|cbn; lia]|].
    destruct (IH (budget - char_len (char_take budget e))) as [IH1 IH2]. split.
    + constructor; [by exists budget|exact IH1].
    + pose proof (char_len_take budget e) as Hl. cbn beta in *. lia.
Qed.

(** The prompt is stable and bounded.  Reordering the entities of a trace
    or of the cluster, or repeating entities of the cluster, gives the same
    text; and the excerpts quoted for a trace are prefixes of its first
    excerpts, of [MAX_TRACE_CONTENT_CHARS] characters in total at most. *)
Theorem build_distill_prompt_stable i j es :
  (tenant_id i = tenant_id j → fleet_id i = fleet_id j → hint_domain i = hint_domain j →
   Forall2 same_trace (traces i) (traces j) →
   (∀ e, e ∈ top_entity_ids i ↔ e ∈ top_entity_ids j) →
   build_distill_prompt i = build_distill_prompt j) ∧
  Forall2 (λ s e, ∃ n, s = char_take n e)
    (excerpt_snippets MAX_TRACE_CONTENT_CHARS es)
    (take (length (excerpt_snippets MAX_TRACE_CONTENT_CHARS es)) es) ∧
  foldr (λ s n, char_len s + n) 0 (excerpt_snippets MAX_TRACE_CONTENT_CHARS es) ≤ 1200.
Proof.
  split; [|exact (excerpt_snippets_budget MAX_TRACE_CONTENT_CHARS es)].
  intros Ht Hf Hh Htr Hent. unfold build_distill_prompt.
  rewrite Ht, Hf, Hh.
  assert (Hlen : length (traces i) = length (traces j)) by by eapply Forall2_length.
  rewrite Hlen. pose proof (imap_stable (length (traces j)) _ _ 0 Htr) as Him. cbn in Him.
  change (imap (trace_lines (length (traces j))) (traces i) =
          imap (trace_lines (length (traces j))) (traces j)) in Him. rewrite Him. clear Him.
  destruct (top_entity_ids i) as [|x l], (top_entity_ids j) as [|y l']; try done.
  - exfalso. eapply not_elem_of_nil, Hent. by left.
  - exfalso. eapply not_elem_of_nil, Hent. by left.
  - by rewrite (sorted_set_ext _ _ Hent).
Qed.
End Theorems.

(** ** Concrete runs *)
Section Witnesses.
#[local] Existing Instance AsciiText.

Definition ex_answer : pydict :=
  [("schema_version", PStr "v1"); ("goal_phrase", PStr "deploy service"); ("domain", PStr "ops");
   ("step_skeleton", PList [PStr "run tests"]); ("name", PStr "Deploy"); ("slug", PStr "deploy-svc");
   ("description", PStr "d"); ("summary", PStr "s"); ("content", PStr "c"); ("tags", PList []);
   ("evidence", PStr "e"); ("goal", PStr "g")]%string.
(** A stand-in decoder that knows one text. *)
Definition ex_loads (s : string) : option pyval :=
  if String.eqb s "{answer}" then Some (PDict ex_answer) else None.
Definition ex_fenced : string := ("```json" ++ nl ++ "{answer}" ++ nl ++ "```")%string.

Example ex_fence_stripped : str_strip (re_sub_delete _CODE_FENCE_RE ex_fenced) = "{answer}"%string.
Proof. vm_compute. reflexivity. Qed.

Lemma parse_distill_response_shape_witness :
  ∃ p s, parse_distill_response ex_loads ex_loads ex_fenced = Ok p ∧
         dgetv p "slug" = PStr s ∧ Forall slug_char (codepoints s).
Proof.
  exists (dset ex_answer "kind" (PStr "create")).
  assert (Hp : parse_distill_response ex_loads ex_loads ex_fenced =
               Ok (dset ex_answer "kind" (PStr "create"))) by (vm_compute; reflexivity).
  destruct (parse_distill_response_shape _ _ _ _ Hp) as (_ & _ & _ & _ & s & Hs & Hc).
  exists s. split; [exact Hp|]. split; [exact Hs|exact Hc].
Defined.

Definition ex_snap (ents : list string) : TraceSnapshot :=
  {| run_id := "r"; agent_id := "a"; outcome_label := "success"; memory_excerpts := ["m"%string];
     entity_ids := ents; started_at_iso := "t0"; ended_at_iso := "t1" |}.
Definition ex_inputs (ents top : list string) : ClusterPromptInputs :=
  {| tenant_id := "t"; fleet_id := None; traces := [ex_snap ents]; top_entity_ids := top;
     hint_domain := None |}.

Lemma build_distill_prompt_stable_witness :
  build_distill_prompt (ex_inputs ["e2"; "e1"] ["e1"; "e2"; "e1"])%string =
  build_distill_prompt (ex_inputs ["e1"; "e2"] ["e2"; "e1"])%string.
Proof.
  apply (proj1 (build_distill_prompt_stable _ _ [])); try reflexivity.
  - constructor; [|constructor]. split_and!; try reflexivity. apply perm_swap.
  - intros e. cbn. set_solver.
Defined.
End Witnesses.
End Distill.
