(* ===== verification/Forge.v ===== *)
(** * The Forge run (core_api/services/forge/forge_service.py)

    Clustering of labeled traces, the volume and diversity floors, the
    distillation of one cluster into a candidate document, and the run loop
    with its counters.  The injected callables and the clock are effects on a
    world [W]; [sha256] and [isoformat] are parameters. *)

From S2P Require Import Prelude Regex Floats Fingerprint Sentinel SkillLifecycle SessionTrace Distill.
Import Floats.

Module Forge.

Record ForgeConfig : Type := {
  min_cluster_size : Z;
  min_distinct_agents : Z;
  freshness_window_days : Z;
  max_writes_per_run : Z;
  cluster_entity_jaccard_threshold : float;
  memory_excerpt_char_cap : Z;
  body_max_bytes : Z;
  description_max_bytes : Z;
}.
Definition default_config : ForgeConfig :=
  {| min_cluster_size := 3; min_distinct_agents := 3; freshness_window_days := 14;
     max_writes_per_run := 20; cluster_entity_jaccard_threshold := lit 4 10;
     memory_excerpt_char_cap := 600; body_max_bytes := 40000; description_max_bytes := 160 |}.

Abbreviation trace := SessionTrace.SessionTraceRow.

(** ** Clustering *)
Definition ents (t : trace) : gset string := list_to_set (SessionTrace.entity_ids t).

(** [inter / union >= threshold], with [union] not zero. *)
Definition overlaps (threshold : float) (a b : gset string) : bool :=
  let inter := Z.of_nat (size (a ∩ b)) in
  let union := Z.of_nat (size (a ∪ b)) in
  negb (union =? 0) && fle threshold (fdiv (of_Z inter) (of_Z union)).

(** A cluster under construction: its traces and the union of their entities. *)
Definition cluster : Type := list trace * gset string.

(** The inner loop: into the first cluster that overlaps, if any. *)
Fixpoint place (threshold : float) (t : trace) (cs : list cluster) : option (list cluster) :=
  match cs with
  | [] => None
  | (members, es) :: cs' =>
      if overlaps threshold (ents t) es
      then Some ((members ++ [t], es ∪ ents t) :: cs')
      else match place threshold t cs' with
           | Some cs'' => Some ((members, es) :: cs'')
           | None => None
           end
  end.

Definition cluster_step (threshold : float) (cs : list cluster) (t : trace) : list cluster :=
  if decide (ents t = ∅) then cs
  else match place threshold t cs with
       | Some cs' => cs'
       | None => cs ++ [([t], ents t)]
       end.

Definition _cluster_by_entity_overlap (threshold : float) (traces : list trace) : list (list trace) :=
  (foldl (cluster_step threshold) [] traces).*1.

(** ** Floors *)
Definition distinct_agents (c : list trace) : Z :=
  Z.of_nat (length (remove_dups (SessionTrace.agent_id <$> c))).

Definition _gate_clusters (min_size min_agents : Z) (cs : list (list trace)) : list (list trace) :=
  List.filter (λ c, negb (Z.of_nat (length c) <? min_size) && negb (distinct_agents c <? min_agents)) cs.

(** ** Distilling a cluster *)

(** How the distillation of a cluster, or an injected callable, fails. *)
Inductive forge_exn : Type :=
| PoisonedClusterSkip
| SentinelFatalSkip
| DistillParseError (why : Distill.parse_error)
| Unexpected (e : pyexn).

(** The injected callables. *)
Record Callables (W : Type) : Type := {
  llm_fn : string → io W forge_exn string;
  memory_fetcher : list string → io W forge_exn (list (string * string));
  poison_checker : string → io W forge_exn bool;
  candidate_writer : pydict → io W forge_exn unit;
  (** (tenant, collection, doc_id) to the existing status. *)
  status_checker : option (string → string → string → io W forge_exn pyval);
}.
Arguments llm_fn {W}.
Arguments memory_fetcher {W}.
Arguments poison_checker {W}.
Arguments candidate_writer {W}.
Arguments status_checker {W}.

(** The excerpts of one trace within [budget] characters. *)
Fixpoint trace_excerpts (contents : list (string * string)) (budget : Z) (mids : list string) :
    list string :=
  match mids with
  | [] => []
  | mid :: mids =>
      if budget <=? 0 then []
      else
        let snippet := char_take budget (default "" (dget contents mid)) in
        if String.eqb snippet "" then trace_excerpts contents budget mids
        else snippet :: trace_excerpts contents (budget - char_len snippet) mids
  end.

Section Run.
Context `{PyText}.
Context {W : Type}.
Context (sha256_hex : string → string).
Context (isoformat : datetime → string).
Context (render : Sentinel.finding_msg → string).
Context (json_loads raw_decode : string → option pyval).
(** [datetime.now(UTC)] as text, and as a datetime. *)
Context (now_iso : W → string) (clock : W → datetime).
Context (fns : Callables W).

(** [t.isoformat()], [AttributeError] on [None]. *)
Definition iso (t : option datetime) : res forge_exn string :=
  match t with Some t => Ok (isoformat t) | None => Err (Unexpected AttributeError) end.

Definition snapshot (contents : list (string * string)) (excerpt_cap : Z) (t : trace) :
    res forge_exn Distill.TraceSnapshot :=
  start ← iso (SessionTrace.started_at t);
  stop ← iso (SessionTrace.ended_at t);
  Ok {| Distill.run_id := SessionTrace.run_id t; Distill.agent_id := SessionTrace.agent_id t;
        Distill.outcome_label := SessionTrace.label_value (SessionTrace.outcome_label t);
        Distill.memory_excerpts := trace_excerpts contents excerpt_cap (SessionTrace.memory_ids t);
        Distill.entity_ids := SessionTrace.entity_ids t;
        Distill.started_at_iso := start; Distill.ended_at_iso := stop |}.

(** The strings the parser left in a response. *)
Definition text_at (parsed : pydict) (k : string) : string := default "" (as_str (dgetv parsed k)).
Definition texts_at (parsed : pydict) (k : string) : list string :=
  omap as_str (default [] (as_list (dgetv parsed k))).

Definition optional_text (o : option string) : pyval :=
  match o with Some s => PStr s | None => PNone end.

Definition candidate_data (cluster_traces : list trace) (all_memory_ids : list string)
    (run_label : string) (window_end : datetime) (parsed : pydict) (fp : string) (now : string) :
    pydict :=
  [("name", dgetv parsed "name"); ("slug", dgetv parsed "slug"); ("version", PStr "v1");
   ("kind", dgetv parsed "kind"); ("source", PStr "forge"); ("status", PStr "candidate");
   ("description", dgetv parsed "description"); ("summary", dgetv parsed "summary");
   ("domain", dgetv parsed "domain"); ("tags", dgetv parsed "tags");
   ("content", dgetv parsed "content");
   ("content_hash", PStr ("sha256:" ++ sha256_hex (text_at parsed "content")));
   ("cites", PList (PStr <$> all_memory_ids)); ("goal", dgetv parsed "goal");
   ("evidence", dgetv parsed "evidence"); ("cluster_fingerprint", PStr fp);
   ("origin", PDict
     [("agent_id", PStr "forge"); ("session_key", PNone); ("run_id", PStr run_label);
      ("message_id", PNone); ("cluster_size", PInt (Z.of_nat (length cluster_traces)));
      ("distinct_agents", PInt (distinct_agents cluster_traces));
      ("window_end", PStr (isoformat window_end))]);
   ("created_at", PStr now); ("updated_at", PStr now);
   ("telemetry", PDict
     [("fires_total", PInt 0); ("fires_success", PInt 0); ("fires_failure", PInt 0);
      ("last_fired_at", PNone); ("utilization_30d", PNone)])]%string.

(** The pre-write scan of the finished data. *)
Definition scanned_data (cfg : ForgeConfig) (now : string) (data : pydict) : res forge_exn pydict :=
  match Sentinel.scan_skill_doc (PDict data) now (body_max_bytes cfg) (description_max_bytes cfg) with
  | Err e => Err (Unexpected e)
  | Ok scan =>
      raise_if Sentinel.any_fatal scan with SentinelFatalSkip;;
      let data := dset data "scan" (PDict (Sentinel.as_doc_field render scan)) in
      Ok (if bool_decide (Sentinel.state scan = Sentinel.Quarantined)
          then dset (dset data "status" (PStr "quarantined")) "quarantined_at" (PStr now)
          else data)
  end.

Definition memory_ids_of (c : list trace) : list string :=
  sorted_set (t ← c; SessionTrace.memory_ids t).
Definition entities_of (c : list trace) : list string :=
  take Fingerprint.ENTITY_TOP_K (sorted_set (t ← c; SessionTrace.entity_ids t)).

Definition fingerprint_of (parsed : pydict) (entity_ids : list string) : Fingerprint.FingerprintRec :=
  Fingerprint.compute_fingerprint sha256_hex
    {| Fingerprint.goal_phrase := text_at parsed "goal_phrase";
       Fingerprint.domain := text_at parsed "domain";
       Fingerprint.entity_ids := entity_ids;
       Fingerprint.step_skeleton := texts_at parsed "step_skeleton";
       Fingerprint.entity_centralities := None |}.

Definition _distill_cluster (cfg : ForgeConfig) (tenant : string) (fleet : option string)
    (run_label : string) (window_end : datetime) (cluster_traces : list trace) :
    io W forge_exn pydict :=
  let all_memory_ids := memory_ids_of cluster_traces in
  contents ← memory_fetcher fns all_memory_ids;
  snapshots ← io_lift (collect_all (snapshot contents (memory_excerpt_char_cap cfg)) cluster_traces);
  let top_entity_ids := entities_of cluster_traces in
  let prompt := Distill.build_distill_prompt
    {| Distill.tenant_id := tenant; Distill.fleet_id := fleet; Distill.traces := snapshots;
       Distill.top_entity_ids := top_entity_ids; Distill.hint_domain := None |} in
  raw_response ← llm_fn fns prompt;
  parsed ← io_lift (map_err DistillParseError
    (Distill.parse_distill_response json_loads raw_decode raw_response));
  _ ← io_lift (raise_if negb (py_eqb (PStr "create") (dgetv parsed "kind"))
        with DistillParseError (Distill.KindNotCreate (dgetv parsed "kind"));; Ok tt);
  let fp := Fingerprint.fp (fingerprint_of parsed top_entity_ids) in
  poisoned ← poison_checker fns fp;
  _ ← io_lift (if poisoned : bool then Err PoisonedClusterSkip else Ok tt);
  now ← io_read now_iso;
  data ← io_lift (scanned_data cfg now
    (candidate_data cluster_traces all_memory_ids run_label window_end parsed fp now));
  mret [("tenant_id", PStr tenant); ("fleet_id", optional_text fleet);
        ("collection", PStr "skills"); ("doc_id", PStr ("forge/" ++ text_at parsed "slug"));
        ("data", PDict data)]%string.

(** ** The run loop *)
Record counters : Type := {
  written_ids : list string;
  skipped_poisoned : nat;
  skipped_sentinel : nat;
  skipped_distill_error : nat;
  skipped_io_error : nat;
  skipped_existing : nat;
}.
Definition no_counts : counters :=
  {| written_ids := []; skipped_poisoned := 0; skipped_sentinel := 0; skipped_distill_error := 0;
     skipped_io_error := 0; skipped_existing := 0 |}.

(** What happened to one cluster, and its bucket. *)
Inductive cluster_outcome : Type :=
| Written (doc_id : string) | Poisoned | SentinelBlocked | DistillFailed | IoFailed | Existing.

Definition count (c : counters) (o : cluster_outcome) : counters :=
  match c with
  | Build_counters w p s d i e =>
      match o with
      | Written id => Build_counters (w ++ [id]) p s d i e
      | Poisoned => Build_counters w (S p) s d i e
      | SentinelBlocked => Build_counters w p (S s) d i e
      | DistillFailed => Build_counters w p s (S d) i e
      | IoFailed => Build_counters w p s d (S i) e
      | Existing => Build_counters w p s d i (S e)
      end
  end.

Definition doc_id_of (doc : pydict) : string := text_at doc "doc_id".

(** The no-overwrite guard: [Some] outcome when the write must not happen. *)
Definition guard (tenant : string) (doc : pydict) (w : W) : option cluster_outcome * W :=
  match status_checker fns with
  | None => (None, w)
  | Some check =>
      match check tenant "skills"%string (doc_id_of doc) w with
      | (Err _, w) => (Some IoFailed, w)
      | (Ok PNone, w) => (None, w)
      | (Ok st, w) => (if py_eqb (PStr "candidate") st then None else Some Existing, w)
      end
  end.

Definition forge_cluster (cfg : ForgeConfig) (tenant : string) (fleet : option string)
    (run_label : string) (window_end : datetime) (cluster_traces : list trace) (w : W) :
    cluster_outcome * W :=
  match _distill_cluster cfg tenant fleet run_label window_end cluster_traces w with
  | (Err PoisonedClusterSkip, w) => (Poisoned, w)
  | (Err SentinelFatalSkip, w) => (SentinelBlocked, w)
  | (Err (DistillParseError _), w) => (DistillFailed, w)
  | (Err (Unexpected _), w) => (IoFailed, w)
  | (Ok doc, w) =>
      match guard tenant doc w with
      | (Some o, w) => (o, w)
      | (None, w) =>
          match candidate_writer fns doc w with
          | (Err _, w) => (IoFailed, w)
          | (Ok _, w) => (Written (doc_id_of doc), w)
          end
      end
  end.

Fixpoint forge_loop (step : list trace → W → cluster_outcome * W) (cs : list (list trace))
    (c : counters) (w : W) : counters * W :=
  match cs with
  | [] => (c, w)
  | cl :: cs => let '(o, w) := step cl w in forge_loop step cs (count c o) w
  end.

(** [l[:n]] *)
Definition slice_to {A} (n : Z) (l : list A) : list A :=
  if 0 <=? n then take (Z.to_nat n) l else take (Z.to_nat (Z.of_nat (length l) + n)) l.

Record ForgeRunResult : Type := {
  r_tenant_id : string;
  r_fleet_id : option string;
  r_window_start : datetime;
  r_window_end : datetime;
  total_traces : nat;
  labeled_traces : nat;
  clusters_total : nat;
  clusters_eligible : nat;
  candidates_written : nat;
  candidates_skipped_poisoned : nat;
  candidates_skipped_sentinel : nat;
  candidates_skipped_distill_error : nat;
  candidates_skipped_io_error : nat;
  candidates_skipped_existing : nat;
  r_started_at : datetime;
  r_run_label : string;
  candidate_doc_ids : list string;
}.

Definition labeled_of (traces : list trace) : list trace :=
  List.filter (λ t, negb (bool_decide (SessionTrace.outcome_label t = SessionTrace.Unknown))) traces.

Definition eligible_of (cfg : ForgeConfig) (traces : list trace) : list (list trace) :=
  _gate_clusters (min_cluster_size cfg) (min_distinct_agents cfg)
    (_cluster_by_entity_overlap (cluster_entity_jaccard_threshold cfg) (labeled_of traces)).

(** The run once its traces are known. *)
Definition forge_run_on (cfg : ForgeConfig) (tenant : string) (fleet : option string)
    (window_start window_end : datetime) (run_label : string) (run_started_at : datetime)
    (traces : list trace) : io W forge_exn ForgeRunResult := λ w,
  let labeled := labeled_of traces in
  let clusters := _cluster_by_entity_overlap (cluster_entity_jaccard_threshold cfg) labeled in
  let eligible := _gate_clusters (min_cluster_size cfg) (min_distinct_agents cfg) clusters in
  let '(c, w) :=
    forge_loop (forge_cluster cfg tenant fleet run_label window_end)
      (slice_to (max_writes_per_run cfg) eligible) no_counts w in
  (Ok {| r_tenant_id := tenant; r_fleet_id := fleet; r_window_start := window_start;
         r_window_end := window_end; total_traces := length traces;
         labeled_traces := length labeled; clusters_total := length clusters;
         clusters_eligible := length eligible; candidates_written := length (written_ids c);
         candidates_skipped_poisoned := skipped_poisoned c;
         candidates_skipped_sentinel := skipped_sentinel c;
         candidates_skipped_distill_error := skipped_distill_error c;
         candidates_skipped_io_error := skipped_io_error c;
         candidates_skipped_existing := skipped_existing c;
         r_started_at := run_started_at; r_run_label := run_label;
         candidate_doc_ids := written_ids c |}, w).

(** [build] is [build_session_traces] over the run's window. *)
Definition run_forge_distill (cfg : ForgeConfig) (build : io W forge_exn (list trace))
    (tenant : string) (fleet : option string) (window_start window_end : datetime)
    (run_label : string) : io W forge_exn ForgeRunResult :=
  run_started_at ← io_read clock;
  traces ← build;
  forge_run_on cfg tenant fleet window_start window_end run_label run_started_at traces.

(** The trace builder against the storage service: the six extractors, the
    window read, the link read and the upsert. *)
Definition traces_io (fromisoformat : string → option datetime) (tenant : string)
    (fleet : option string)
    (signals : W → list (res pyexn (list SessionTrace.SignalEvidence)))
    (window : io W forge_exn (list SessionTrace.WindowRow))
    (links : W → list string → res pyexn (list (string * string)))
    (upsert : list trace → io W forge_exn unit) : io W forge_exn (list trace) :=
  sig ← io_read signals;
  rows ← window;
  lk ← io_read links;
  p ← io_lift (map_err Unexpected
    (SessionTrace.build_session_traces fromisoformat isoformat tenant fleet sig rows lk true));
  match p.2 with
  | None => mret p.1
  | Some batch => _ ← upsert batch; mret p.1
  end.

End Run.

(** ** Clusters *)

(** The entities of a list of traces. *)
Definition ents_of (c : list trace) : gset string := ⋃ (ents <$> c).

Lemma ents_of_snoc c t : ents_of (c ++ [t]) = ents_of c ∪ ents t.
Proof. unfold ents_of. rewrite fmap_app, union_list_app_L. cbn. set_solver. Qed.

(** How a cluster grows: from one trace with entities, each later trace
    overlapping the union of the earlier ones. *)
Inductive grown (threshold : float) : list trace → Prop :=
| grown_one t : ents t ≠ ∅ → grown threshold [t]
| grown_snoc c t :
    grown threshold c → overlaps threshold (ents t) (ents_of c) = true → grown threshold (c ++ [t]).

Definition cluster_ok (threshold : float) (cl : cluster) : Prop :=
  grown threshold cl.1 ∧ cl.2 = ents_of cl.1.

Lemma place_ok th t cs cs' :
  place th t cs = Some cs' → Forall (cluster_ok th) cs → Forall (cluster_ok th) cs'.
Proof.
  revert cs'. induction cs as [|[ms es] cs IH]; intros cs'; cbn; [done|]. intros Hp Hok.
  apply Forall_cons in Hok as [[Hg He] Hok]. cbn [fst snd] in Hg, He. subst es.
  destruct (overlaps th (ents t) (ents_of ms)) eqn:Ho.
  - injection Hp as <-. constructor; [|done]. split; cbn [fst snd]; [by constructor|by rewrite ents_of_snoc].
  - destruct (place th t cs) as [cs0|]; [|done]. injection Hp as <-. constructor; [done|auto].
Qed.

Lemma place_perm th t cs cs' :
  place th t cs = Some cs' → concat cs'.*1 ≡ₚ concat cs.*1 ++ [t].
Proof.
  revert cs'. induction cs as [|[ms es] cs IH]; intros cs'; cbn; [done|]. intros Hp.
  destruct (overlaps th (ents t) es).
  - injection Hp as <-. cbn. rewrite <- !app_assoc. f_equiv. apply Permutation_app_comm.
  - destruct (place th t cs) as [cs0|]; [|done]. injection Hp as <-. cbn.
    by rewrite (IH _ eq_refl), app_assoc.
Qed.

Lemma place_sublist th t cs cs' l :
  place th t cs = Some cs' → Forall (λ cl : cluster, cl.1 `sublist_of` l) cs →
  Forall (λ cl : cluster, cl.1 `sublist_of` l ++ [t]) cs'.
Proof.
  revert cs'. induction cs as [|[ms es] cs IH]; intros cs'; cbn; [done|]. intros Hp Hs.
  apply Forall_cons in Hs as [Hms Hs]. cbn in Hms.
  assert (Hall : Forall (λ cl : cluster, cl.1 `sublist_of` l ++ [t]) cs).
  { eapply Forall_impl; [exact Hs|]. intros cl Hcl. by apply sublist_inserts_r. }
  destruct (overlaps th (ents t) es).
  - injection Hp as <-. constructor; [|done]. by apply sublist_app.
  - destruct (place th t cs) as [cs0|]; [|done]. injection Hp as <-.
    constructor; [by apply sublist_inserts_r|auto].
Qed.

(** Clustering partitions the traces.  Every trace with entities is in
    exactly one cluster and the others in none; a cluster lists its traces in
    input order; and it starts with one trace, each later one having an
    overlap with the entities of the earlier ones that reaches the threshold. *)
Theorem cluster_by_entity_overlap_partition th traces :
  concat (_cluster_by_entity_overlap th traces) ≡ₚ filter (λ t, ents t ≠ ∅) traces ∧
  Forall (λ c, c `sublist_of` traces ∧ grown th c) (_cluster_by_entity_overlap th traces).
Proof.
  unfold _cluster_by_entity_overlap.
  assert (Hinv : let cs := foldl (cluster_step th) [] traces in
    concat cs.*1 ≡ₚ filter (λ t, ents t ≠ ∅) traces ∧
    Forall (λ cl : cluster, cl.1 `sublist_of` traces) cs ∧ Forall (cluster_ok th) cs).
  { induction traces as [|t traces IH] using rev_ind; [by repeat constructor|].
    cbn in IH |- *. rewrite foldl_app. cbn. set (cs := foldl _ _ traces) in *.
    destruct IH as (Hp & Hs & Hok). rewrite filter_app, filter_cons, filter_nil.
    unfold cluster_step. destruct (decide (ents t = ∅)) as [He|He].
    { rewrite decide_False by naive_solver. rewrite app_nil_r. split_and!; [done| |done].
      eapply Forall_impl; [exact Hs|]. intros cl Hcl. by apply sublist_inserts_r. }
    rewrite decide_True by done. destruct (place th t cs) as [cs'|] eqn:Hpl.
    - split_and!.
      + by rewrite (place_perm _ _ _ _ Hpl), Hp.
      + by eapply place_sublist.
      + by eapply place_ok.
    - rewrite fmap_app, concat_app. cbn. split_and!.
      + by rewrite Hp.
      + apply Forall_app. split.
        * eapply Forall_impl; [exact Hs|]. intros cl Hcl. by apply sublist_inserts_r.
        * constructor; [|constructor]. cbn. by apply sublist_inserts_l.
      + apply Forall_app. split; [done|]. constructor; [|constructor].
        split; cbn [fst snd]; [by constructor|]. unfold ents_of. cbn. by rewrite union_empty_r_L. }
  destruct Hinv as (Hp & Hs & Hok). split; [done|].
  apply Forall_fmap, Forall_forall. intros cl Hcl. cbn. split.
  - by eapply (proj1 (Forall_forall _ _) Hs).
  - by apply (proj1 (Forall_forall _ _) Hok).
Qed.

(** ** The run *)
Section RunTheorems.
Context `{PyText}.
Context {W : Type}.
Context (sha256_hex : string → string).
Context (isoformat : datetime → string).
Context (render : Sentinel.finding_msg → string).
Context (json_loads raw_decode : string → option pyval).
Context (now_iso : W → string) (clock : W → datetime).
Context (fns : Callables W).

Notation distill := (_distill_cluster sha256_hex isoformat render json_loads raw_decode now_iso fns).
Notation step := (forge_cluster sha256_hex isoformat render json_loads raw_decode now_iso fns).
Notation run := (run_forge_distill sha256_hex isoformat render json_loads raw_decode now_iso clock fns).

Definition counted (c : counters) : nat :=
  length (written_ids c) + skipped_poisoned c + skipped_sentinel c + skipped_distill_error c +
  skipped_io_error c + skipped_existing c.

Lemma count_counted c o : counted (count c o) = S (counted c).
Proof. destruct c, o; unfold counted; cbn; rewrite ?length_app; cbn; lia. Qed.

Lemma forge_loop_counted st cs c (w : W) :
  counted (forge_loop st cs c w).1 = (counted c + length cs)%nat.
Proof.
  revert c w. induction cs as [|cl cs IH]; intros c w; cbn; [lia|].
  destruct (st cl w) as [o w']. rewrite IH, count_counted. lia.
Qed.

Lemma cluster_count th traces :
  (length (_cluster_by_entity_overlap th traces) ≤ length traces)%nat.
Proof.
  unfold _cluster_by_entity_overlap. rewrite length_fmap.
  induction traces as [|t traces IH] using rev_ind; [done|].
  rewrite foldl_app, length_app. cbn. unfold cluster_step at 1. case_decide; [lia|].
  destruct (place _ _ _) as [cs'|] eqn:Hp; [|rewrite length_app; by apply Nat.add_le_mono_r].
  assert (Hlen : length cs' = length (foldl (cluster_step th) [] traces)).
  2: { apply (Nat.le_trans _ _ _ (Nat.eq_le_incl _ _ Hlen)). etrans; [exact IH|]. lia. }
  revert cs' Hp. generalize (foldl (cluster_step th) [] traces) as cs. clear.
  induction cs as [|[ms es] cs IH]; intros cs'; cbn; [done|].
  destruct (overlaps _ _ _); [by intros [= <-]|]. destruct (place th t cs); [|done].
  intros [= <-]. cbn. by rewrite (IH _ eq_refl).
Qed.

Lemma filter_length_le {A} (f : A → bool) l : (length (List.filter f l) ≤ length l)%nat.
Proof. induction l as [|x l IH]; cbn; [lia|]. destruct (f x); cbn; lia. Qed.

Lemma slice_to_length {A} n (l : list A) : 0 ≤ n → Z.of_nat (length (slice_to n l)) = Z.min n (Z.of_nat (length l)).
Proof.
  intros Hn. unfold slice_to. destruct (Z.leb_spec 0 n); [|lia]. rewrite length_take. lia.
Qed.

(** The run always reports, and its books balance: whatever the injected
    callables return or raise, a run whose traces could be built returns a
    summary; each cluster it took up is counted in exactly one bucket; at most
    [max_writes_per_run] candidates are written; and each stage of the funnel
    is no larger than the one before. *)
Theorem run_forge_distill_accounts cfg build tenant fleet ws we label traces w w1 :
  build w = (Ok traces, w1) →
  ∃ r w2, run cfg build tenant fleet ws we label w = (Ok r, w2) ∧
    (candidates_written r + candidates_skipped_poisoned r + candidates_skipped_sentinel r +
     candidates_skipped_distill_error r + candidates_skipped_io_error r +
     candidates_skipped_existing r =
     length (slice_to (max_writes_per_run cfg) (eligible_of cfg traces)))%nat ∧
    candidates_written r = length (candidate_doc_ids r) ∧
    (0 ≤ max_writes_per_run cfg → Z.of_nat (candidates_written r) ≤ max_writes_per_run cfg) ∧
    (clusters_eligible r ≤ clusters_total r ≤ labeled_traces r)%nat ∧
    (labeled_traces r ≤ total_traces r)%nat ∧ total_traces r = length traces ∧
    r_started_at r = clock w.
Proof.
  intros Hb. unfold run_forge_distill, mbind, io_bind, io_read, forge_run_on. rewrite Hb.
  destruct (forge_loop _ _ _ _) as [c w2] eqn:Hl.
  assert (Hc : counted c = length (slice_to (max_writes_per_run cfg) (eligible_of cfg traces))).
  { change c with (c, w2).1. rewrite <- Hl, forge_loop_counted. done. }
  eexists _, w2. split; [done|]. cbn. split_and!; try done.
  - intros Hm. pose proof (slice_to_length _ (eligible_of cfg traces) Hm).
    unfold counted in Hc. lia.
  - apply filter_length_le.
  - apply cluster_count.
  - apply filter_length_le.
Qed.

(** ** No overwriting

    What the run needs of the document store: the status a store holds for a
    document, and callables that report it truthfully and write nothing but
    the candidate handed to the writer. *)
Class DocStore := doc_status : W → string → string → pyval.

Class StoreLaws `{!DocStore} : Prop := {
  check_wired : ∃ check, status_checker fns = Some check;
  check_truthful : ∀ check t id w st w', status_checker fns = Some check →
    check t "skills"%string id w = (Ok st, w') → st = doc_status w t id;
  check_keeps : ∀ check t id w t' id', status_checker fns = Some check →
    doc_status (check t "skills"%string id w).2 t' id' = doc_status w t' id';
  llm_keeps : ∀ p w t id, doc_status (llm_fn fns p w).2 t id = doc_status w t id;
  fetch_keeps : ∀ ids w t id, doc_status (memory_fetcher fns ids w).2 t id = doc_status w t id;
  poison_keeps : ∀ f w t id, doc_status (poison_checker fns f w).2 t id = doc_status w t id;
  write_only : ∀ doc w t id, (t, id) ≠ (text_at doc "tenant_id", doc_id_of doc) →
    doc_status (candidate_writer fns doc w).2 t id = doc_status w t id;
}.

Section NoOverwrite.
Context `{!DocStore} `{!StoreLaws}.

(** Statuses other than candidate survive. *)
Definition keeps_curated (w w' : W) : Prop :=
  ∀ t id, doc_status w t id ≠ PNone → doc_status w t id ≠ PStr "candidate" →
          doc_status w' t id = doc_status w t id.
#[local] Instance keeps_curated_preorder : PreOrder keeps_curated.
Proof.
  split; [by intros w t id|]. intros w1 w2 w3 R1 R2 t id Hn Hc.
  specialize (R1 t id Hn Hc). rewrite <- R1 in *. by apply R2.
Qed.

(** All statuses survive. *)
Definition keeps_all (w w' : W) : Prop := ∀ t id, doc_status w' t id = doc_status w t id.
#[local] Instance keeps_all_preorder : PreOrder keeps_all.
Proof. split; [by intros w t id|]. intros w1 w2 w3 R1 R2 t id. by rewrite R2, R1. Qed.

Lemma distill_keeps cfg tenant fleet label we cl :
  io_keeps keeps_all (distill cfg tenant fleet label we cl).
Proof.
  unfold _distill_cluster.
  repeat (apply io_keeps_bind; [apply _|..|intros ?]);
    try apply io_keeps_lift; try apply io_keeps_read; try apply io_keeps_ret; try apply _.
  - intros w t id. apply fetch_keeps.
  - intros w t id. apply llm_keeps.
  - intros w t id. apply poison_keeps.
Qed.

Lemma distill_doc cfg tenant fleet label we cl w doc w' :
  distill cfg tenant fleet label we cl w = (Ok doc, w') → text_at doc "tenant_id" = tenant.
Proof.
  unfold _distill_cluster. intros Hd.
  repeat (apply io_bind_Ok in Hd as (? & ? & ? & Hd)). by injection Hd as <- _.
Qed.

Lemma step_keeps cfg tenant fleet label we cl w :
  keeps_curated w (step cfg tenant fleet label we cl w).2.
Proof.
  unfold forge_cluster. pose proof (distill_keeps cfg tenant fleet label we cl w) as Hk.
  destruct (distill cfg tenant fleet label we cl w) as [[doc|e] w1] eqn:Hd; cbn [snd] in Hk.
  2: { intros t id _ _. destruct e; apply Hk. }
  apply distill_doc in Hd. destruct check_wired as [check Hc]. unfold guard. rewrite Hc.
  pose proof (λ t id, check_keeps check tenant (doc_id_of doc) w1 t id Hc) as Hck.
  pose proof (check_truthful check tenant (doc_id_of doc) w1) as Htr.
  destruct (check tenant "skills"%string (doc_id_of doc) w1) as [[st|e] w2]; cbn [snd] in Hck.
  2: { intros t id _ _. by rewrite <- Hk, <- Hck. }
  specialize (Htr st w2 Hc eq_refl).
  assert (Hw2 : keeps_all w w2) by (intros t id; by rewrite <- Hk, <- Hck).
  assert (Hwrite : st = PNone ∨ st = PStr "candidate" →
    keeps_curated w (match candidate_writer fns doc w2 with
                     | (Err _, w) => (IoFailed, w) | (Ok _, w) => (Written (doc_id_of doc), w) end).2).
  { intros Hst t id Hn Hcand. rewrite <- Hw2 in *.
    assert (Hne : (t, id) ≠ (text_at doc "tenant_id", doc_id_of doc)).
    { intros [= -> ->]. rewrite Hd, Hck, <- Htr in *. by destruct Hst. }
    pose proof (write_only doc w2 t id Hne) as Hwo.
    by destruct (candidate_writer fns doc w2) as [[]]. }
  assert (Hlive : st ≠ PNone → keeps_curated w
    (match (if py_eqb (PStr "candidate") st then None else Some Existing) with
     | Some o => (o, w2)
     | None => match candidate_writer fns doc w2 with
               | (Err _, w) => (IoFailed, w) | (Ok _, w) => (Written (doc_id_of doc), w) end
     end).2).
  { intros Hn. destruct (py_eqb (PStr "candidate") st) eqn:Heq.
    - apply py_eqb_str_l in Heq. apply Hwrite. by right.
    - intros t id _ _. apply Hw2. }
  destruct st; [apply Hwrite; by left|by apply Hlive..].
Qed.

(** Forge never overwrites curated work.  Against a store that reports
    statuses truthfully, a whole run leaves the status of every existing
    document that is not a candidate as it was, even when two clusters of the
    same run distill to the same slug. *)
Theorem run_forge_distill_keeps_curated cfg build tenant fleet ws we label w :
  io_keeps keeps_curated build →
  keeps_curated w (run cfg build tenant fleet ws we label w).2.
Proof.
  intros Hb. unfold run_forge_distill.
  apply (io_keeps_bind keeps_curated); [by intros w1|]. intros start.
  apply io_keeps_bind; [apply _|done|]. intros traces w1. unfold forge_run_on.
  assert (Hl : ∀ cs c w0, keeps_curated w0
    (forge_loop (step cfg tenant fleet label we) cs c w0).2).
  { induction cs as [|cl cs IH]; intros c w0; cbn; [done|].
    pose proof (step_keeps cfg tenant fleet label we cl w0) as Hs.
    destruct (step cfg tenant fleet label we cl w0) as [o w2]. etrans; [exact Hs|apply IH]. }
  specialize (Hl (slice_to (max_writes_per_run cfg) (eligible_of cfg traces)) no_counts w1).
  unfold eligible_of in Hl. by destruct (forge_loop _ _ _ _).
Qed.
End NoOverwrite.

(** ** What a distilled candidate is *)
Lemma distill_steps cfg tenant fleet label we cl w doc w' :
  distill cfg tenant fleet label we cl w = (Ok doc, w') →
  ∃ parsed now data,
    dgetv parsed "kind" = PStr "create" ∧
    scanned_data render cfg now (candidate_data sha256_hex isoformat cl (memory_ids_of cl) label we
      parsed (Fingerprint.fp (fingerprint_of sha256_hex parsed (entities_of cl))) now) = Ok data ∧
    doc = [("tenant_id", PStr tenant); ("fleet_id", optional_text fleet);
           ("collection", PStr "skills"); ("doc_id", PStr ("forge/" ++ text_at parsed "slug"));
           ("data", PDict data)]%string.
Proof.
  unfold _distill_cluster. intros Hd.
  apply io_bind_Ok in Hd as (contents & w1 & _ & Hd).
  apply io_bind_Ok in Hd as (snaps & w2 & _ & Hd).
  apply io_bind_Ok in Hd as (raw & w3 & _ & Hd).
  apply io_bind_Ok in Hd as (parsed & w4 & _ & Hd).
  apply io_bind_Ok in Hd as ([] & w5 & Hk & Hd).
  apply io_bind_Ok in Hd as (poisoned & w6 & _ & Hd).
  apply io_bind_Ok in Hd as ([] & w7 & _ & Hd).
  apply io_bind_Ok in Hd as (now & w8 & _ & Hd).
  apply io_bind_Ok in Hd as (data & w9 & Hs & Hd).
  exists parsed, now, data. unfold io_lift in Hk, Hs. injection Hs as Hs _. injection Hd as <- _.
  split_and!; [|exact Hs|done].
  destruct (py_eqb (PStr "create") (dgetv parsed "kind")) eqn:Hc; [|done]. by apply py_eqb_str_l.
Qed.

Lemma scanned_data_Ok cfg now data data' :
  scanned_data render cfg now data = Ok data' →
  (∀ k, k ∉ ["scan"; "status"; "quarantined_at"]%string → dget data' k = dget data k) ∧
  ∃ scan, dget data' "scan" = Some (PDict (Sentinel.as_doc_field render scan)) ∧
    ((Sentinel.state scan = Sentinel.Quarantined ∧ dget data' "status" = Some (PStr "quarantined")) ∨
     (Sentinel.state scan = Sentinel.Clean ∧ dget data' "status" = dget data "status")).
Proof.
  unfold scanned_data. destruct (Sentinel.scan_skill_doc _ _ _ _) as [scan|] eqn:Hsc; [|done].
  intros Hd. apply raise_if_Ok in Hd as [_ Hd]. injection Hd as <-.
  assert (Hst : Sentinel.state scan = Sentinel.Quarantined ∨ Sentinel.state scan = Sentinel.Clean).
  { apply Sentinel.scan_skill_doc_dict in Hsc as (fs & _ & ->). unfold Sentinel.summarize. cbn.
    destruct (existsb _ _ || _); naive_solver. }
  case_bool_decide as Hq; split.
  - intros k Hk. rewrite !not_elem_of_cons in Hk. destruct Hk as (? & ? & ? & _).
    by rewrite !dget_dset_ne.
  - exists scan. split.
    + rewrite !dget_dset_ne by done. by rewrite dget_dset.
    + left. split; [done|]. rewrite dget_dset_ne by done. by rewrite dget_dset.
  - intros k Hk. rewrite !not_elem_of_cons in Hk. destruct Hk as (? & ? & ? & _).
    by rewrite dget_dset_ne.
  - exists scan. split; [by rewrite dget_dset|]. right. split; [by destruct Hst|].
    by rewrite dget_dset_ne.
Qed.

End RunTheorems.

(** ** Concrete runs *)
Section Witnesses.
#[local] Existing Instance AsciiText.

(** A store: the status of each document, by tenant and id. *)
Abbreviation ex_world := (gmap (string * string) pyval).
#[local] Instance ex_store : DocStore (W:=ex_world) := λ w t id, default PNone (w !! (t, id)).

Definition ex_status (doc : pydict) : pyval :=
  match dgetv doc "data" with PDict d => dgetv d "status" | _ => PNone end.
Definition ex_fns : Callables ex_world :=
  {| llm_fn := λ _ w, (Ok "{answer}"%string, w);
     memory_fetcher := λ ids w, (Ok [("m1", "ran the tests")]%string, w);
     poison_checker := λ _ w, (Ok false, w);
     candidate_writer := λ doc w,
       (Ok tt, <[(text_at doc "tenant_id", doc_id_of doc) := ex_status doc]> w);
     status_checker := Some (λ t c id w, (Ok (default PNone (w !! (t, id))), w)) |}.

#[local] Instance ex_laws : StoreLaws ex_fns.
Proof.
  split.
  - by eexists.
  - intros check t id w st w' [= <-] [= <- _]. done.
  - intros check t id w t' id' [= <-]. done.
  - done.
  - done.
  - done.
  - intros doc w t id Hne. unfold doc_status, ex_store. cbn. by rewrite lookup_insert_ne by congruence.
Qed.

Definition ex_trace (agent : string) (es : list string) : trace :=
  {| SessionTrace.tenant_id := "t"; SessionTrace.fleet_id := None; SessionTrace.run_id := "r";
     SessionTrace.agent_id := agent; SessionTrace.outcome_label := SessionTrace.Success;
     SessionTrace.memory_ids := ["m1"%string]; SessionTrace.entity_ids := es;
     SessionTrace.signals_summary := []; SessionTrace.started_at := Some (DateTime 0 (Some 0));
     SessionTrace.ended_at := Some (DateTime 1 (Some 0)); SessionTrace.goal_phrase := None |}.
Definition ex_traces : list trace :=
  [ex_trace "a1" ["e1"; "e2"]; ex_trace "a2" ["e1"]; ex_trace "a3" ["e1"; "e2"; "e3"]]%string.
Definition ex_print (t : datetime) : string := "t".
Definition ex_iso (s : string) : option datetime := Some (DateTime 0 (Some 0)).
Definition ex_render (m : Sentinel.finding_msg) : string := "".
Definition ex_loads (s : string) : option pyval :=
  if String.eqb s "{answer}" then Some (PDict Distill.ex_answer) else None.
Definition ex_run (w : ex_world) : res forge_exn ForgeRunResult * ex_world :=
  run_forge_distill (λ s, s) ex_print ex_render ex_loads ex_loads (λ _, "now"%string)
    (λ _, DateTime 0 None) ex_fns default_config (λ w, (Ok ex_traces, w)) "t" None
    (DateTime 0 None) (DateTime 0 None) "run" w.

(** A first run writes its candidate, a run over an approved skill does not. *)
Example ex_run_writes :
  (match (ex_run ∅).1 with Ok r => candidate_doc_ids r | Err _ => [] end) = ["forge/deploy-svc"%string].
Proof. vm_compute. reflexivity. Qed.

Lemma run_forge_distill_accounts_witness : ∃ r w2, ex_run ∅ = (Ok r, w2) ∧ total_traces r = 3%nat.
Proof.
  destruct (run_forge_distill_accounts (λ s, s) ex_print ex_render ex_loads ex_loads
    (λ _, "now"%string) (λ _, DateTime 0 None) ex_fns default_config (λ w, (Ok ex_traces, w)) "t"
    None (DateTime 0 None) (DateTime 0 None) "run" ex_traces ∅ ∅ eq_refl)
    as (r & w2 & Hr & _ & _ & _ & _ & _ & Ht & _).
  exists r, w2. split; [exact Hr|exact Ht].
Defined.

Lemma run_forge_distill_keeps_curated_witness :
  doc_status (ex_run {[("t", "forge/deploy-svc") := PStr "active"]}).2 "t" "forge/deploy-svc" =
  PStr "active".
Proof.
  pose proof (run_forge_distill_keeps_curated (λ s, s) ex_print ex_render ex_loads ex_loads
    (λ _, "now"%string) (λ _, DateTime 0 None) ex_fns default_config (λ w, (Ok ex_traces, w))
    "t" None (DateTime 0 None) (DateTime 0 None) "run"
    {[("t", "forge/deploy-svc") := PStr "active"]}%string) as Hk.
  refine (Hk _ "t" "forge/deploy-svc" _ _)%string.
  - intros w t id _ _. reflexivity.
  - discriminate.
  - discriminate.
Defined.

End Witnesses.
End Forge.
