(* ===== verification/AuditChain.v ===== *)
(** * The tamper-evident audit chain
    (core_storage_api/services/audit_chain.py, and the chained insert and the
    verifier of core_storage_api/services/postgres_service.py)

    A tenant's events are numbered from 1 and each commits to the hash of the
    one before.  [sha256], the JSON text of a value whose keys are in order,
    UUID parsing and the UTC rendering of a time are parameters; the database
    is a state with one atomic step per transaction. *)

From S2P Require Import Prelude Regex.
Import Regex.

Module AuditChain.

Definition GENESIS_PREV_HASH : string := str_of_bytes (replicate 32 0%nat).
Arguments GENESIS_PREV_HASH : simpl never.

(** ** Canonical JSON *)

(** Collapse integral floats to integers, everywhere in a value. *)
Fixpoint _normalise_numbers (obj : pyval) : pyval :=
  match obj with
  | PFloat q => if Qnum q mod Zpos (Qden q) =? 0 then PInt (Qnum q / Zpos (Qden q)) else obj
  | PDict d => PDict (map (λ kv, (kv.1, _normalise_numbers kv.2)) d)
  | PList l => PList (map _normalise_numbers l)
  | _ => obj
  end.

(** [sort_keys=True]: every object's entries in key order. *)
Definition sort_entries (d : pydict) : pydict :=
  (λ k, (k, dgetv d k)) <$> sort_strings (dkeys d).
Fixpoint sort_keys (obj : pyval) : pyval :=
  match obj with
  | PDict d => PDict (sort_entries (map (λ kv, (kv.1, sort_keys kv.2)) d))
  | PList l => PList (map sort_keys l)
  | _ => obj
  end.

(** ** The guard against raw secrets *)
Definition _CARD_SHAPE : compiled :=
  re_compile no_flags "\b\d{4}[ -]\d{4}[ -]\d{4}[ -]\d{4}\b".
Definition _SSN_SHAPE : compiled := re_compile no_flags "\b\d{3}-\d{2}-\d{4}\b".
Definition _HASH_TOKEN : compiled :=
  re_compile no_flags "\A(?:[a-z0-9]+-[a-z0-9]+:)?[0-9a-fA-F]{32,}\Z".
Example audit_patterns_compile : forallb compiles [_CARD_SHAPE; _SSN_SHAPE; _HASH_TOKEN] = true.
Proof. vm_compute. reflexivity. Qed.

Fixpoint _iter_str_leaves (obj : pyval) : list string :=
  match obj with
  | PStr s => [s]
  | PDict d => flat_map (λ kv, _iter_str_leaves kv.2) d
  | PList l => flat_map _iter_str_leaves l
  | _ => []
  end.

Inductive audit_error : Type := PIIInAuditError.

Section Guard.
Context `{PyText}.
Definition leaf_is_pii (value : string) : bool :=
  match re_match_start _HASH_TOKEN value with
  | Some _ => false
  | None => found _CARD_SHAPE value || found _SSN_SHAPE value
  end.
Definition assert_pii_safe (detail : pyval) : res audit_error unit :=
  if truthy detail
  then raise_if existsb leaf_is_pii (_iter_str_leaves detail) with PIIInAuditError;; Ok tt
  else Ok tt.
End Guard.

(** ** Rows and heads *)
Record AuditEvent : Type := {
  ev_tenant_id : string;
  ev_agent_id : option string;
  ev_action : string;
  ev_resource_type : string;
  ev_resource_id : option string;
  ev_detail : pyval;
  ev_created_at : option datetime;
  ev_client_event_id : option string;
}.

Record AuditRow : Type := {
  tenant_id : string;
  agent_id : option string;
  action : string;
  resource_type : string;
  resource_id : option string;
  detail : pyval;
  created_at : datetime;
  seq : option Z;
  prev_hash : string;
  event_hash : string;
  client_event_id : option string;
}.

Record AuditChainHead : Type := { last_seq : Z; last_hash : string; updated_at : datetime }.

(** The two tables, [audit_log] in insertion order. *)
Record chain_db : Type := { audit_log : list AuditRow; heads : gmap string AuditChainHead }.
Definition empty_db : chain_db := {| audit_log := []; heads := ∅ |}.

Definition null_str (o : option string) : pyval :=
  match o with Some s => PStr s | None => PNone end.

Section Chain.
Context `{PyText}.
Context (sha256 : string → string).
(** [json.dumps] of a value with its keys in the order given. *)
Context (dumps : pyval → string).
(** [str(UUID(s))], [None] for [ValueError]. *)
Context (parse_uuid : string → option string).
(** [t.astimezone(UTC).strftime(...) + "Z"] *)
Context (canonical_created_at : datetime → string).

Definition _canonical_resource_id (rid : option string) : option string :=
  match rid with
  | None => None
  | Some s => if String.eqb s "" then None else Some (default s (parse_uuid s))
  end.

Definition canonical_event (tenant : string) (sq : Z) (agent : option string) (act rtype : string)
    (rid : option string) (det : pyval) (created_at_iso : string) : string :=
  dumps (sort_keys (PDict
    [("tenant_id", PStr tenant); ("seq", PInt sq); ("agent_id", null_str agent);
     ("action", PStr act); ("resource_type", PStr rtype);
     ("resource_id", null_str (_canonical_resource_id rid));
     ("detail", _normalise_numbers det); ("created_at", PStr created_at_iso)]%string)).

Definition compute_event_hash (canonical prev : string) : string := sha256 (canonical ++ prev).

(** ** The chained insert: one tenant's events in one transaction *)

(** [select client_event_id where tenant_id = ... and client_event_id in ...] *)
Definition already_chained (db : chain_db) (tenant : string) (incoming : list string) : list string :=
  omap (λ r, if String.eqb (tenant_id r) tenant
             then match client_event_id r with
                  | Some c => if str_mem c incoming then Some c else None
                  | None => None
                  end
             else None) (audit_log db).

(** The running state of the event loop. *)
Record loop_state : Type := {
  ls_prev : string; ls_seq : Z; ls_seen : list string; ls_rows : list AuditRow }.

Definition make_row (tenant : string) (now : datetime) (sq : Z) (prev : string) (ev : AuditEvent) :
    AuditRow :=
  let created := default now (ev_created_at ev) in
  let canon := canonical_event tenant sq (ev_agent_id ev) (ev_action ev) (ev_resource_type ev)
                 (ev_resource_id ev) (ev_detail ev) (canonical_created_at created) in
  {| tenant_id := tenant; agent_id := ev_agent_id ev; action := ev_action ev;
     resource_type := ev_resource_type ev; resource_id := ev_resource_id ev; detail := ev_detail ev;
     created_at := created; seq := Some sq; prev_hash := prev;
     event_hash := compute_event_hash canon prev; client_event_id := ev_client_event_id ev |}.

Definition skip_event (already seen : list string) (ev : AuditEvent) : bool :=
  match ev_client_event_id ev with
  | Some c => str_mem c already || str_mem c seen
  | None => false
  end.

Definition chain_event (tenant : string) (now : datetime) (already : list string) (st : loop_state)
    (ev : AuditEvent) : res audit_error loop_state :=
  if skip_event already (ls_seen st) ev then Ok st
  else
    let seen := match ev_client_event_id ev with Some c => c :: ls_seen st | None => ls_seen st end in
    _ ← assert_pii_safe (ev_detail ev);
    let sq := ls_seq st + 1 in
    let row := make_row tenant now sq (ls_prev st) ev in
    Ok {| ls_prev := event_hash row; ls_seq := sq; ls_seen := seen; ls_rows := ls_rows st ++ [row] |}.

Fixpoint chain_events (tenant : string) (now : datetime) (already : list string) (st : loop_state)
    (events : list AuditEvent) : res audit_error loop_state :=
  match events with
  | [] => Ok st
  | ev :: events =>
      st ← chain_event tenant now already st ev;
      chain_events tenant now already st events
  end.

(** An exception rolls the transaction back: the result carries no state. *)
Definition _audit_chain_one_tenant (now : datetime) (tenant : string) (events : list AuditEvent)
    (db : chain_db) : res audit_error chain_db :=
  let head := default {| last_seq := 0; last_hash := GENESIS_PREV_HASH; updated_at := now |}
                (heads db !! tenant) in
  let incoming := omap ev_client_event_id events in
  let already := match incoming with [] => [] | _ => already_chained db tenant incoming end in
  st ← chain_events tenant now already
         {| ls_prev := last_hash head; ls_seq := last_seq head; ls_seen := []; ls_rows := [] |} events;
  Ok {| audit_log := audit_log db ++ ls_rows st;
        heads := <[tenant := {| last_seq := ls_seq st; last_hash := ls_prev st; updated_at := now |}]>
                   (heads db) |}.

(** Tenant by tenant, each in its own transaction: what ran before an
    exception stays. *)
Fixpoint commit_groups (now : string → datetime) (groups : list (string * list AuditEvent))
    (db : chain_db) : res audit_error unit * chain_db :=
  match groups with
  | [] => (Ok tt, db)
  | (tenant, events) :: groups =>
      match _audit_chain_one_tenant (now tenant) tenant events db with
      | Ok db => commit_groups now groups db
      | Err e => (Err e, db)
      end
  end.

Definition audit_add_batch_chained (now : string → datetime) (events : list AuditEvent) (db : chain_db) :
    res audit_error unit * chain_db :=
  commit_groups now (group ((λ ev, (ev_tenant_id ev, ev)) <$> events)) db.

(** The single-event path. *)
Definition audit_add (now : datetime) (tenant : string) (ev : AuditEvent) (db : chain_db) :
    res audit_error unit * chain_db :=
  match _audit_chain_one_tenant now tenant
          [{| ev_tenant_id := tenant; ev_agent_id := ev_agent_id ev; ev_action := ev_action ev;
              ev_resource_type := ev_resource_type ev; ev_resource_id := ev_resource_id ev;
              ev_detail := ev_detail ev; ev_created_at := None; ev_client_event_id := None |}] db with
  | Ok db => (Ok tt, db)
  | Err e => (Err e, db)
  end.

(** ** The verifier *)
Inductive broken_reason : Type := seq_gap | prev_hash_mismatch | event_hash_mismatch.

Inductive verdict : Type :=
| Broken (verified_count : Z) (at_seq : option Z) (reason : broken_reason)
| TailTruncated (verified_count : Z) (head_seq chain_seq : option Z)
| Valid (verified_count : Z) (head_seq : option Z) (truncated : bool).

Definition row_canonical (row : AuditRow) : string :=
  canonical_event (tenant_id row) (default 0 (seq row)) (agent_id row) (action row)
    (resource_type row) (resource_id row) (detail row) (canonical_created_at (created_at row)).

(** What is wrong with a row, given the hash and number expected of it. *)
Definition check_row (expected_prev : string) (expected_seq : Z) (row : AuditRow) :
    option broken_reason :=
  if negb (bool_decide (seq row = Some expected_seq)) then Some seq_gap
  else if negb (String.eqb (prev_hash row) expected_prev) then Some prev_hash_mismatch
  else if negb (String.eqb (compute_event_hash (row_canonical row) (prev_hash row)) (event_hash row))
       then Some event_hash_mismatch
  else None.

Fixpoint walk (expected_prev : string) (expected_seq : Z) (rows : list AuditRow) : option verdict :=
  match rows with
  | [] => None
  | row :: rows =>
      match check_row expected_prev expected_seq row with
      | Some reason => Some (Broken (expected_seq - 1) (seq row) reason)
      | None => walk (event_hash row) (expected_seq + 1) rows
      end
  end.

Definition _verify_audit_chain_rows (rows : list AuditRow) (head : option AuditChainHead) (limit : Z) :
    verdict :=
  match walk GENESIS_PREV_HASH 1 rows with
  | Some v => v
  | None =>
      let n := Z.of_nat (length rows) in
      let truncated := limit <=? n in
      let '(head_seq, head_hash) :=
        match head with Some h => (Some (last_seq h), last_hash h) | None => (Some 0, GENESIS_PREV_HASH) end in
      let '(lseq, lhash) :=
        match last rows with
        | Some r => (seq r, event_hash r)
        | None => (Some 0, GENESIS_PREV_HASH)
        end in
      if negb truncated && (negb (bool_decide (head_seq = lseq)) || negb (String.eqb head_hash lhash))
      then TailTruncated n head_seq lseq
      else Valid n lseq truncated
  end.

(** [order_by(seq.asc())] *)
Definition seq_key (r : AuditRow) : Z := default 0 (seq r).
Definition seq_le : AuditRow → AuditRow → Prop := key_le seq_key.
#[global] Instance seq_le_dec : RelDecision seq_le.
Proof. intros a b. unfold seq_le, key_le. apply _. Defined.

(** What a row reads back as: JSONB and UUID columns have their own forms. *)
Context (reload : AuditRow → AuditRow).

Definition tenant_rows (db : chain_db) (tenant : string) : list AuditRow :=
  List.filter (λ r, String.eqb (tenant_id r) tenant && negb (bool_decide (seq r = None)))
    (audit_log db).

Definition audit_verify_chain (db : chain_db) (tenant : string) (limit : nat) : verdict :=
  _verify_audit_chain_rows
    (reload <$> take limit (merge_sort seq_le (tenant_rows db tenant)))
    (heads db !! tenant) (Z.of_nat limit).

End Chain.

(** ** The canonical form survives the database *)

(** Objects with distinct keys, at every level. *)
Fixpoint wf_json (v : pyval) : Prop :=
  match v with
  | PDict d => NoDup (dkeys d) ∧ foldr (λ kv P, wf_json kv.2 ∧ P) True d
  | PList l => foldr (λ x P, wf_json x ∧ P) True l
  | _ => True
  end.

(** A value read back from a JSONB column: integral numbers may change their
    type, and keys their order. *)
Inductive same_json : pyval → pyval → Prop :=
| same_refl v : same_json v v
| same_int q z : q = inject_Z z → same_json (PFloat q) (PInt z)
| same_float q z : q = inject_Z z → same_json (PInt z) (PFloat q)
| same_list l l' : Forall2 same_json l l' → same_json (PList l) (PList l')
| same_dict d d' d'' :
    Forall2 (λ kv kv', kv.1 = kv'.1 ∧ same_json kv.2 kv'.2) d d' → d' ≡ₚ d'' →
    same_json (PDict d) (PDict d'').

Definition canon (v : pyval) : pyval := sort_keys (_normalise_numbers v).

Lemma sort_entries_Permutation d d' :
  NoDup (dkeys d) → d ≡ₚ d' → sort_entries d = sort_entries d'.
Proof.
  intros Hnd Hp. unfold sort_entries.
  rewrite (sort_strings_Permutation (dkeys d) (dkeys d')) by (unfold dkeys; by rewrite Hp).
  apply list_fmap_ext. intros i k _. unfold dgetv. by rewrite (dget_Permutation d d').
Qed.

Lemma canon_integral z : canon (PFloat (inject_Z z)) = PInt z.
Proof. unfold canon. cbn. by rewrite Z.mod_1_r, Z.div_1_r. Qed.

Lemma canon_dict d :
  canon (PDict d) = PDict (sort_entries (map (λ kv, (kv.1, canon kv.2)) d)).
Proof. unfold canon. cbn. f_equal. f_equal. rewrite map_map. done. Qed.

Lemma canon_list l : canon (PList l) = PList (map canon l).
Proof. unfold canon. cbn. f_equal. by rewrite map_map. Qed.

Lemma wf_list l : wf_json (PList l) ↔ Forall wf_json l.
Proof.
  cbn. induction l as [|x l IH]; cbn; [by split|]. rewrite Forall_cons. by rewrite IH.
Qed.
Lemma wf_dict d : wf_json (PDict d) ↔ NoDup (dkeys d) ∧ Forall (λ kv, wf_json kv.2) d.
Proof.
  cbn. f_equiv. induction d as [|x l IH]; cbn; [by split|]. rewrite Forall_cons. by rewrite IH.
Qed.

Lemma canon_keys (d : pydict) : dkeys (map (λ kv, (kv.1, canon kv.2)) d) = dkeys d.
Proof. unfold dkeys. induction d as [|kv d IH]; [done|]. cbn. f_equal. exact IH. Qed.

Lemma canon_same v w : wf_json v → same_json v w → canon v = canon w.
Proof.
  revert w. induction v as [| | | | | |l IH|d IH] using pyval_ind'; intros w Hwf Hs;
    inversion Hs; subst; try done; try by rewrite canon_integral.
  - rewrite !canon_list. f_equal. apply wf_list in Hwf. clear Hs.
    match goal with Hl : Forall2 same_json _ _ |- _ => revert IH Hwf; induction Hl as [|x y ? ? Hxy _ IHl] end;
      [done|]. rewrite !Forall_cons. intros [IHx IH] [Hx Hwf]. cbn. by rewrite (IHx y), IHl.
  - apply wf_dict in Hwf as [Hnd Hwf]. rewrite !canon_dict. f_equal.
    assert (Heq : map (λ kv, (kv.1, canon kv.2)) d = map (λ kv, (kv.1, canon kv.2)) d').
    { clear Hs Hnd. match goal with Hp : d' ≡ₚ _ |- _ => clear Hp end.
      match goal with Hf : Forall2 _ d d' |- _ => induction Hf as [|x y ? ? [Hk Hxy] _ IHl] end; [done|].
      rewrite Forall_cons in IH, Hwf. destruct IH as [IHx IH], Hwf as [Hx Hwf].
      cbn. rewrite (IHx y.2), Hk by done. by rewrite IHl. }
    rewrite Heq. apply sort_entries_Permutation; [by rewrite <- Heq, canon_keys|].
    by apply Permutation_map.
Qed.


(** ** Writer and verifier agree *)
Section Theorems.
Context `{PyText}.
Context (sha256 : string → string).
Context (dumps : pyval → string).
Context (parse_uuid : string → option string).
Context (canonical_created_at : datetime → string).
Context (reload : AuditRow → AuditRow).

Notation row_canonical := (row_canonical dumps parse_uuid canonical_created_at).
Notation one_tenant := (_audit_chain_one_tenant sha256 dumps parse_uuid canonical_created_at).
Notation add_batch := (audit_add_batch_chained sha256 dumps parse_uuid canonical_created_at).
Notation make_row := (make_row sha256 dumps parse_uuid canonical_created_at).
Notation chain_events := (chain_events sha256 dumps parse_uuid canonical_created_at).
Notation verify := (audit_verify_chain sha256 dumps parse_uuid canonical_created_at reload).
Notation walk := (walk sha256 dumps parse_uuid canonical_created_at).

(** What the columns keep of a row. *)
Class ReloadLaws : Prop := reload_row : ∀ r,
  let r' := reload r in
  tenant_id r' = tenant_id r ∧ agent_id r' = agent_id r ∧ action r' = action r ∧
  resource_type r' = resource_type r ∧ seq r' = seq r ∧ prev_hash r' = prev_hash r ∧
  event_hash r' = event_hash r ∧
  canonical_created_at (created_at r') = canonical_created_at (created_at r) ∧
  _canonical_resource_id parse_uuid (resource_id r') =
    _canonical_resource_id parse_uuid (resource_id r) ∧
  same_json (detail r) (detail r').

Lemma reload_canonical `{!ReloadLaws} r :
  wf_json (detail r) → row_canonical (reload r) = row_canonical r.
Proof.
  intros Hwf. destruct (reload_row r) as (Ht & Ha & Hac & Hrt & Hs & _ & _ & Hc & Hr & Hj).
  unfold AuditChain.row_canonical, canonical_event. rewrite Ht, Ha, Hac, Hrt, Hs, Hc, Hr.
  pose proof (canon_same _ _ Hwf Hj) as Heq. unfold canon in Heq.
  cbn [sort_keys map fst snd]. by rewrite Heq.
Qed.

(** Rows that form a chain from [prev], numbered from [n]. *)
Fixpoint linked (prev : string) (n : Z) (rows : list AuditRow) : Prop :=
  match rows with
  | [] => True
  | r :: rows =>
      seq r = Some n ∧ prev_hash r = prev ∧
      event_hash r = compute_event_hash sha256 (row_canonical r) prev ∧ wf_json (detail r) ∧
      linked (event_hash r) (n + 1) rows
  end.

Definition end_hash (prev : string) (rows : list AuditRow) : string :=
  default prev (event_hash <$> last rows).

Lemma end_hash_cons prev r rows : end_hash prev (r :: rows) = end_hash (event_hash r) rows.
Proof. unfold end_hash. rewrite last_cons. by destruct (last rows). Qed.

Lemma end_hash_app prev a b : end_hash prev (a ++ b) = end_hash (end_hash prev a) b.
Proof. unfold end_hash. rewrite last_app. by destruct (last b). Qed.

Lemma linked_app prev n a b :
  linked prev n (a ++ b) ↔
  linked prev n a ∧ linked (end_hash prev a) (n + Z.of_nat (length a)) b.
Proof.
  revert prev n. induction a as [|r a IH]; intros prev n; cbn [linked app length].
  - cbn. rewrite Z.add_0_r. tauto.
  - rewrite IH, end_hash_cons. replace (n + 1 + Z.of_nat (length a)) with (n + Z.of_nat (S (length a))) by lia.
    tauto.
Qed.

Lemma linked_seq prev n rows i r :
  linked prev n rows → rows !! i = Some r → seq r = Some (n + Z.of_nat i).
Proof.
  revert prev n i. induction rows as [|r0 rows IH]; intros prev n i Hl Hi; [done|].
  destruct Hl as (Hs & _ & _ & _ & Hl). destruct i as [|i]; cbn in Hi.
  - injection Hi as ->. rewrite Hs. f_equal. lia.
  - rewrite (IH _ _ _ Hl Hi). f_equal. lia.
Qed.

Lemma linked_sorted prev n rows :
  linked prev n rows → StronglySorted (λ a b, seq_key a < seq_key b) rows.
Proof.
  revert prev n. induction rows as [|r rows IH]; intros prev n Hl; [constructor|].
  pose proof Hl as (Hs & _ & _ & _ & Hl'). constructor; [by eapply IH|].
  apply Forall_forall. intros x [i Hi]%list_elem_of_lookup.
  pose proof (linked_seq _ _ _ _ _ Hl' Hi) as Hx. unfold seq_key. rewrite Hs, Hx. cbn. lia.
Qed.

Lemma linked_take prev n rows k : linked prev n rows → linked prev n (take k rows).
Proof. rewrite <- (take_drop k rows) at 1. rewrite linked_app. tauto. Qed.

Lemma walk_linked `{!ReloadLaws} prev n rows :
  linked prev n rows → walk prev n (reload <$> rows) = None.
Proof.
  revert prev n. induction rows as [|r rows IH]; intros prev n Hl; [done|].
  destruct Hl as (Hs & Hp & He & Hwf & Hl). cbn [fmap list_fmap AuditChain.walk].
  unfold check_row. rewrite (reload_canonical r Hwf).
  destruct (reload_row r) as (_ & _ & _ & _ & Hs' & Hp' & He' & _).
  rewrite Hs', Hp', He', Hs, Hp. rewrite bool_decide_eq_true_2 by done. cbn.
  rewrite String.eqb_refl. cbn. rewrite <- He, String.eqb_refl. cbn. by apply IH.
Qed.

(** ** The invariant of the two tables *)
Definition head_matches (head : option AuditChainHead) (rows : list AuditRow) : Prop :=
  match head with
  | None => rows = []
  | Some h => last_seq h = Z.of_nat (length rows) ∧ last_hash h = end_hash GENESIS_PREV_HASH rows
  end.

Definition chain_inv (db : chain_db) : Prop :=
  ∀ t, linked GENESIS_PREV_HASH 1 (tenant_rows db t) ∧ head_matches (heads db !! t) (tenant_rows db t).

Lemma chain_events_spec tenant now already events st st' :
  Forall (λ ev, wf_json (ev_detail ev)) events →
  chain_events tenant now already st events = Ok st' →
  ∃ new, ls_rows st' = ls_rows st ++ new ∧ linked (ls_prev st) (ls_seq st + 1) new ∧
    ls_seq st' = ls_seq st + Z.of_nat (length new) ∧ ls_prev st' = end_hash (ls_prev st) new ∧
    Forall (λ r, tenant_id r = tenant ∧ seq r ≠ None) new.
Proof.
  intros Hwf. revert st. induction Hwf as [|ev events Hev Hwf IH]; intros st; cbn.
  - intros [= <-]. exists []. cbn. rewrite app_nil_r, Z.add_0_r. by split_and!.
  - intros Hs. apply res_bind_Ok in Hs as (st1 & H1 & Hs). unfold chain_event in H1.
    destruct (skip_event already (ls_seen st) ev); [injection H1 as ->; by apply IH|].
    apply res_bind_Ok in H1 as (_ & _ & [= <-]). apply IH in Hs.
    destruct Hs as (new & Hr & Hl & Hq & Hp & Hf). cbn in *.
    set (row := make_row tenant now (ls_seq st + 1) (ls_prev st) ev) in *.
    exists (row :: new). rewrite Hr, <- app_assoc. split_and!; try done.
    + rewrite Hq. cbn [length]. lia.
    + by rewrite Hp, end_hash_cons.
    + by constructor.
Qed.

Lemma tenant_rows_app db hs new t :
  tenant_rows {| audit_log := audit_log db ++ new; heads := hs |} t =
  tenant_rows db t ++ List.filter (λ r, String.eqb (tenant_id r) t && negb (bool_decide (seq r = None))) new.
Proof. unfold tenant_rows. cbn. by rewrite List.filter_app. Qed.

Lemma filter_own tenant (new : list AuditRow) t :
  Forall (λ r, tenant_id r = tenant ∧ seq r ≠ None) new →
  List.filter (λ r, String.eqb (tenant_id r) t && negb (bool_decide (seq r = None))) new =
  if String.eqb tenant t then new else [].
Proof.
  induction 1 as [|r new [Ht Hs] _ IH]; cbn; [by case_match|].
  rewrite bool_decide_eq_false_2, Ht, IH by done. cbn. rewrite andb_true_r. by case_match.
Qed.

Lemma one_tenant_inv now tenant events db db' :
  Forall (λ ev, wf_json (ev_detail ev)) events →
  one_tenant now tenant events db = Ok db' → chain_inv db → chain_inv db'.
Proof.
  intros Hwf Ho Hinv t. unfold _audit_chain_one_tenant in Ho.
  set (head := default _ (heads db !! tenant)) in Ho.
  apply res_bind_Ok in Ho as (st & Hst & [= <-]).
  apply chain_events_spec in Hst as (new & Hr & Hl & Hq & Hp & Hf); [|done]. cbn in Hr, Hl, Hq, Hp.
  rewrite tenant_rows_app, Hr, (filter_own tenant) by done. cbn [heads].
  destruct (Hinv tenant) as [Hlt Hht]. destruct (String.eqb_spec tenant t) as [<-|Hne].
  - assert (Hhead : last_seq head = Z.of_nat (length (tenant_rows db tenant)) ∧
                    last_hash head = end_hash GENESIS_PREV_HASH (tenant_rows db tenant)).
    { unfold head. destruct (heads db !! tenant); cbn in *; [done|]. by rewrite Hht. }
    destruct Hhead as [Hs Hh]. rewrite lookup_insert_eq. cbn [head_matches last_seq last_hash]. rewrite Hq, Hp, Hs. split.
    + rewrite linked_app. split; [done|]. rewrite <- Hh. by rewrite Hs, Z.add_comm in Hl.
    + rewrite length_app, end_hash_app, <- Hh. split; [lia|done].
  - rewrite app_nil_r, lookup_insert_ne by done. apply Hinv.
Qed.

(** The transactions of the service. *)
Inductive audit_step : chain_db → chain_db → Prop :=
| step_batch now events db :
    Forall (λ ev, wf_json (ev_detail ev)) events →
    audit_step db (add_batch now events db).2
| step_single now tenant ev db :
    wf_json (ev_detail ev) →
    audit_step db (audit_add sha256 dumps parse_uuid canonical_created_at now tenant ev db).2.

Lemma commit_groups_inv now groups db :
  Forall (λ g : string * list AuditEvent, Forall (λ ev, wf_json (ev_detail ev)) g.2) groups →
  chain_inv db →
  chain_inv (commit_groups sha256 dumps parse_uuid canonical_created_at now groups db).2.
Proof.
  intros Hwf. revert db. induction Hwf as [|[t evs] groups Hg _ IH]; intros db Hinv; [done|]. cbn.
  destruct (one_tenant (now t) t evs db) as [db'|] eqn:Ho; [|done].
  apply IH. by eapply one_tenant_inv.
Qed.

Lemma audit_step_inv db db' : audit_step db db' → chain_inv db → chain_inv db'.
Proof.
  intros [now events db0 Hwf|now tenant ev db0 Hwf] Hinv.
  - apply commit_groups_inv; [|done]. apply Forall_forall. intros [t evs] Hg.
    apply group_elem in Hg as [-> _]. cbn. apply Forall_forall. intros ev Hev.
    unfold values_of in Hev. apply list_elem_of_fmap in Hev as ([t' ev'] & -> & Hin).
    apply list_elem_of_filter in Hin as [_ Hin].
    apply list_elem_of_fmap in Hin as (ev & [= -> ->] & Hin).
    by apply (proj1 (Forall_forall _ _) Hwf).
  - unfold audit_add. destruct (one_tenant _ _ _ _) eqn:Ho; [|done]. cbn.
    eapply one_tenant_inv; [|exact Ho|done]. by repeat constructor.
Qed.

Lemma reachable_inv db db' : rtc audit_step db db' → chain_inv db → chain_inv db'.
Proof. induction 1 as [|a b c Hab _ IH]; [done|]. intros Ha. by eapply IH, audit_step_inv. Qed.

Lemma last_reload `{!ReloadLaws} rows :
  match last (reload <$> rows) with
  | Some r => (seq r, event_hash r)
  | None => (Some 0, GENESIS_PREV_HASH)
  end = match last rows with
        | Some r => (seq r, event_hash r)
        | None => (Some 0, GENESIS_PREV_HASH)
        end.
Proof.
  rewrite fmap_last. destruct (last rows) as [r|]; [|done]. cbn.
  by destruct (reload_row r) as (_ & _ & _ & _ & -> & _ & -> & _).
Qed.

Lemma linked_last n rows :
  linked GENESIS_PREV_HASH 1 rows → n = Z.of_nat (length rows) →
  match last rows with
  | Some r => (seq r, event_hash r)
  | None => (Some 0, GENESIS_PREV_HASH)
  end = (Some n, end_hash GENESIS_PREV_HASH rows).
Proof.
  intros Hl ->. unfold end_hash. rewrite last_lookup.
  destruct (rows !! pred (length rows)) as [r|] eqn:Hr; cbn.
  - rewrite (linked_seq _ _ _ _ _ Hl Hr). apply lookup_lt_Some in Hr. do 2 f_equal. lia.
  - apply lookup_ge_None in Hr. by destruct rows; cbn in *; [|lia].
Qed.

(** C8. Writer and verifier agree.  After any sequence of audit writes, with
    retries and refused batches among them, the chain of every tenant
    verifies: the count is that of the rows walked, and nothing is reported
    broken or truncated, although the rows come back from the database with
    their own number types, key order and UUID form. *)
Theorem audit_chain_verifies `{!ReloadLaws} db tenant (limit : nat) :
  rtc audit_step empty_db db →
  let n := Z.of_nat (length (tenant_rows db tenant)) in
  let m := Z.min (Z.of_nat limit) n in
  verify db tenant limit = Valid m (Some m) (Z.of_nat limit <=? n).
Proof.
  intros Hr n m. assert (Hinv : chain_inv db).
  { eapply reachable_inv; [exact Hr|]. intros t. by split. }
  destruct (Hinv tenant) as [Hl Hh]. unfold audit_verify_chain, _verify_audit_chain_rows, seq_le.
  rewrite key_sort_id by (by eapply linked_sorted).
  rewrite walk_linked by (by apply linked_take). rewrite length_fmap, length_take, last_reload.
  assert (Hm : Z.of_nat (Nat.min limit (length (tenant_rows db tenant))) = m) by (unfold m, n; lia).
  assert (Hmt : m = Z.of_nat (length (take limit (tenant_rows db tenant)))) by by rewrite length_take.
  rewrite Hm, (linked_last m _ (linked_take _ _ _ _ Hl) Hmt).
  assert (Hlim : (Z.of_nat limit <=? m) = (Z.of_nat limit <=? n)) by (unfold m; lia).
  rewrite Hlim. destruct (Z.leb_spec (Z.of_nat limit) n) as [|Hlt]; [by destruct (heads db !! tenant)|].
  rewrite take_ge by (unfold n in Hlt; lia). replace m with n by (unfold m; lia).
  destruct (heads db !! tenant) as [h|]; cbn in Hh.
  - destruct Hh as [-> ->]. fold n. rewrite bool_decide_eq_true_2 by done. by rewrite String.eqb_refl.
  - unfold n. by rewrite Hh.
Qed.

(** ** Tampering *)

(** Rows the walk accepts. *)
Fixpoint checked (prev : string) (n : Z) (rows : list AuditRow) : Prop :=
  match rows with
  | [] => True
  | r :: rows =>
      seq r = Some n ∧ prev_hash r = prev ∧
      event_hash r = compute_event_hash sha256 (row_canonical r) prev ∧
      checked (event_hash r) (n + 1) rows
  end.

Lemma walk_checked prev n rows : walk prev n rows = None ↔ checked prev n rows.
Proof.
  revert prev n. induction rows as [|r rows IH]; intros prev n; [done|]. cbn. unfold check_row.
  case_bool_decide as Hs; cbn; [|by split; [|intros (? & _)]].
  destruct (String.eqb_spec (prev_hash r) prev) as [Hp|]; cbn; [|by split; [|intros (_ & ? & _)]].
  destruct (String.eqb_spec (compute_event_hash sha256 (row_canonical r) (prev_hash r)) (event_hash r))
    as [He|He]; cbn.
  - rewrite IH. rewrite Hp in He. naive_solver.
  - split; [done|]. intros (_ & _ & He' & _). rewrite Hp in He. congruence.
Qed.

Lemma checked_app prev n a b :
  checked prev n (a ++ b) ↔
  checked prev n a ∧ checked (end_hash prev a) (n + Z.of_nat (length a)) b.
Proof.
  revert prev n. induction a as [|r a IH]; intros prev n; cbn [checked app length].
  - cbn. rewrite Z.add_0_r. tauto.
  - rewrite IH, end_hash_cons. replace (n + 1 + Z.of_nat (length a)) with (n + Z.of_nat (S (length a))) by lia.
    tauto.
Qed.

Lemma end_hash_snoc prev a r : end_hash prev (a ++ [r]) = event_hash r.
Proof. unfold end_hash. by rewrite last_snoc. Qed.

(** The texts hashed along a chain. *)
Definition hashed (rows : list AuditRow) : list string :=
  (λ r, (row_canonical r ++ prev_hash r)%string) <$> rows.

Lemma end_hash_length rows :
  (∀ s, String.length (sha256 s) = 32%nat) → checked GENESIS_PREV_HASH 1 rows →
  String.length (end_hash GENESIS_PREV_HASH rows) = 32%nat.
Proof.
  intros Hlen. destruct rows as [|r rows _] using rev_ind; [done|].
  rewrite checked_app, end_hash_snoc. intros (_ & _ & _ & He & _). rewrite He. apply Hlen.
Qed.

Lemma checked_unique rows1 rows2 :
  (∀ s, String.length (sha256 s) = 32%nat) →
  (∀ x y, x ∈ hashed rows1 → y ∈ hashed rows2 → sha256 x = sha256 y → x = y) →
  checked GENESIS_PREV_HASH 1 rows1 → checked GENESIS_PREV_HASH 1 rows2 →
  length rows1 = length rows2 →
  end_hash GENESIS_PREV_HASH rows1 = end_hash GENESIS_PREV_HASH rows2 →
  row_canonical <$> rows1 = row_canonical <$> rows2 ∧ event_hash <$> rows1 = event_hash <$> rows2.
Proof.
  intros Hlen. revert rows2. induction rows1 as [|r1 rows1 IH] using rev_ind; intros rows2.
  { intros _ _ _ Hn _. by destruct rows2. }
  destruct rows2 as [|r2 rows2 _] using rev_ind; [rewrite length_app; cbn; lia|].
  unfold hashed. rewrite !fmap_app, !checked_app, !length_app, !end_hash_snoc. cbn.
  intros Hcol (Hc1 & _ & Hp1 & He1 & _) (Hc2 & _ & Hp2 & He2 & _) Hn Heq.
  assert (Hlen1 := end_hash_length rows1 Hlen Hc1). assert (Hlen2 := end_hash_length rows2 Hlen Hc2).
  assert (Hstr : (row_canonical r1 ++ prev_hash r1)%string = (row_canonical r2 ++ prev_hash r2)%string).
  { apply Hcol; [set_solver|set_solver|].
    unfold compute_event_hash in He1, He2. rewrite Hp1, Hp2. congruence. }
  apply str_app_cancel in Hstr as [Hcan Hprev]; [|by rewrite Hp1, Hp2, Hlen1, Hlen2].
  destruct (IH rows2) as [IH1 IH2]; [..|by rewrite IH1, IH2, Hcan, Heq].
  - intros x y Hx Hy. apply Hcol; apply elem_of_app; by left.
  - done.
  - done.
  - lia.
  - congruence.
Qed.

Lemma checked_seq prev n rows i r :
  checked prev n rows → rows !! i = Some r → seq r = Some (n + Z.of_nat i).
Proof.
  revert prev n i. induction rows as [|r0 rows IH]; intros prev n i Hl Hi; [done|].
  destruct Hl as (Hs & _ & _ & Hl). destruct i as [|i]; cbn in Hi.
  - injection Hi as ->. rewrite Hs. f_equal. lia.
  - rewrite (IH _ _ _ Hl Hi). f_equal. lia.
Qed.

Lemma walk_not_valid prev n rows c s b : walk prev n rows ≠ Some (Valid c s b).
Proof.
  revert prev n. induction rows as [|r rows IH]; intros prev n; [done|]. cbn.
  by destruct (check_row _ _ _ _ _ _ _).
Qed.

Lemma verify_valid rows h limit c s :
  _verify_audit_chain_rows sha256 dumps parse_uuid canonical_created_at rows (Some h) limit =
    Valid c s false →
  checked GENESIS_PREV_HASH 1 rows ∧ c = Z.of_nat (length rows) ∧
  last_seq h = Z.of_nat (length rows) ∧ last_hash h = end_hash GENESIS_PREV_HASH rows.
Proof.
  unfold _verify_audit_chain_rows. destruct (walk _ _ _) as [v|] eqn:Hw.
  { intros ->. by apply walk_not_valid in Hw. }
  apply walk_checked in Hw. unfold end_hash. rewrite last_lookup.
  destruct (rows !! pred (length rows)) as [r|] eqn:Hr; cbn.
  - pose proof (checked_seq _ _ _ _ _ Hw Hr) as Hs. apply lookup_lt_Some in Hr.
    destruct (_ <=? _); cbn; [by intros [=]|]. rewrite Hs.
    case_bool_decide as Hq; [|done]. destruct (String.eqb_spec (last_hash h) (event_hash r)); [|done].
    intros [= <- _]. injection Hq as Hq. split_and!; try done. lia.
  - apply lookup_ge_None in Hr. assert (rows = []) as -> by (destruct rows; cbn in Hr; [done|lia]).
    destruct (_ <=? _); cbn; [by intros [=]|]. case_bool_decide as Hq; [|done].
    destruct (String.eqb_spec (last_hash h) GENESIS_PREV_HASH); [|done]. intros [= <- _].
    by injection Hq as ->.
Qed.

(** C10. Tamper evidence.  If the rows of a tenant verify completely against a
    head, no other rows do: any other set of rows that verifies against the
    same head holds the same number of rows with the same canonical contents
    and hashes in the same order, unless it exhibits two different texts with
    one SHA-256 value. *)
Theorem audit_chain_tamper_evident rows1 rows2 h limit1 limit2 c1 c2 s1 s2 :
  (∀ s, String.length (sha256 s) = 32%nat) →
  (∀ x y, x ∈ hashed rows1 → y ∈ hashed rows2 → sha256 x = sha256 y → x = y) →
  _verify_audit_chain_rows sha256 dumps parse_uuid canonical_created_at rows1 (Some h) limit1 =
    Valid c1 s1 false →
  _verify_audit_chain_rows sha256 dumps parse_uuid canonical_created_at rows2 (Some h) limit2 =
    Valid c2 s2 false →
  c1 = c2 ∧ row_canonical <$> rows1 = row_canonical <$> rows2 ∧
  event_hash <$> rows1 = event_hash <$> rows2.
Proof.
  intros Hlen Hcol (Hk1 & -> & Hs1 & Hh1)%verify_valid (Hk2 & -> & Hs2 & Hh2)%verify_valid.
  split; [lia|]. apply checked_unique; try done; [lia|congruence].
Qed.

(** ** Retries *)

(** Every event of the list is in the tenant's log already, by its id. *)
Definition covered (t : string) (evs : list AuditEvent) (db : chain_db) : Prop :=
  ∀ ev, ev ∈ evs → ∃ c r, ev_client_event_id ev = Some c ∧ r ∈ audit_log db ∧ tenant_id r = t ∧
                          client_event_id r = Some c.

(** Where a tenant's chain stands. *)
Definition position (db : chain_db) (t : string) : Z * string :=
  match heads db !! t with Some h => (last_seq h, last_hash h) | None => (0, GENESIS_PREV_HASH) end.

(** The ids seen so far are those of rows made so far. *)
Definition seen_made (tenant : string) (st : loop_state) : Prop :=
  ∀ c, c ∈ ls_seen st → ∃ r, r ∈ ls_rows st ∧ tenant_id r = tenant ∧ client_event_id r = Some c.

Lemma chain_events_seen tenant now already events st st' :
  chain_events tenant now already st events = Ok st' → seen_made tenant st →
  seen_made tenant st' ∧ (∀ c, c ∈ ls_seen st → c ∈ ls_seen st') ∧
  ∀ ev c, ev ∈ events → ev_client_event_id ev = Some c → c ∈ already ∨ c ∈ ls_seen st'.
Proof.
  revert st. induction events as [|ev events IH]; intros st; cbn.
  { intros [= <-] Hm. split_and!; try done. by intros ev c ?%not_elem_of_nil. }
  intros Hs Hm. apply res_bind_Ok in Hs as (st1 & H1 & Hs). unfold chain_event in H1.
  destruct (skip_event already (ls_seen st) ev) eqn:Hskip.
  - injection H1 as <-. destruct (IH _ Hs Hm) as (Hm' & Hmono & Hcov). split_and!; try done.
    intros ev' c [->|Hin]%elem_of_cons Hc; [|by eapply Hcov].
    unfold skip_event in Hskip. rewrite Hc, orb_true_iff, !str_mem_spec in Hskip. naive_solver.
  - apply res_bind_Ok in H1 as (_ & _ & [= <-]).
    destruct (IH _ Hs) as (Hm' & Hmono & Hcov); cbn in *.
    { intros c Hc. cbn in Hc |- *.
      assert (Hcase : ev_client_event_id ev = Some c ∨ c ∈ ls_seen st).
      { destruct (ev_client_event_id ev); [|by right].
        apply elem_of_cons in Hc as [->|]; [by left|by right]. }
      destruct Hcase as [He|Hc']; setoid_rewrite elem_of_app.
      - eexists. split; [right; by apply list_elem_of_singleton|]. done.
      - destruct (Hm c Hc') as (r & Hr & ?). exists r. split; [by left|done]. }
    split_and!; [done|..].
    + intros c Hc. apply Hmono. destruct (ev_client_event_id ev); [by right|done].
    + intros ev' c [->|Hin]%elem_of_cons Hc; [|by eapply Hcov].
      right. apply Hmono. rewrite Hc. by left.
Qed.

Lemma one_tenant_covers now t evs db db' :
  one_tenant now t evs db = Ok db' → Forall (λ ev, is_Some (ev_client_event_id ev)) evs →
  covered t evs db' ∧ ∃ new, audit_log db' = audit_log db ++ new.
Proof.
  unfold _audit_chain_one_tenant. intros Ho Hids. apply res_bind_Ok in Ho as (st & Hst & [= <-]).
  assert (Hseen := Hst). apply chain_events_seen in Hseen as (Hm & _ & Hcov);
    [|by intros c ?%not_elem_of_nil].
  split; [|by eexists]. intros ev Hev.
  destruct (proj1 (Forall_forall _ _) Hids ev Hev) as [c Hc]. cbn.
  destruct (Hcov ev c Hev Hc) as [Hal|Hs].
  - destruct (omap ev_client_event_id evs) as [|i ids]; [by apply not_elem_of_nil in Hal|].
    unfold already_chained in Hal. apply list_elem_of_omap in Hal as (r & Hr & Hrc).
    destruct (String.eqb_spec (tenant_id r) t) as [Ht|]; [|done].
    destruct (client_event_id r) as [c'|] eqn:Hrc'; [|done].
    destruct (str_mem _ _); [|done]. injection Hrc as ->.
    exists c, r. split_and!; try done. apply elem_of_app. by left.
  - destruct (Hm c Hs) as (r & Hr & Ht & Hrc). exists c, r. split_and!; try done.
    apply elem_of_app. by right.
Qed.

Lemma covered_extends t evs db db' :
  (∃ new, audit_log db' = audit_log db ++ new) → covered t evs db → covered t evs db'.
Proof.
  intros [new Hn] Hc ev Hev. destruct (Hc ev Hev) as (c & r & ? & ? & ? & ?).
  exists c, r. split_and!; try done. rewrite Hn. apply elem_of_app. by left.
Qed.

Lemma chain_events_skips tenant now already st evs :
  (∀ ev, ev ∈ evs → ∃ c, ev_client_event_id ev = Some c ∧ c ∈ already) →
  chain_events tenant now already st evs = Ok st.
Proof.
  induction evs as [|ev evs IH]; intros Hall; [done|]. cbn. unfold chain_event.
  destruct (Hall ev) as (c & Hc & Hin); [by left|]. unfold skip_event.
  rewrite Hc, (proj2 (str_mem_spec c already) Hin). cbn. apply IH. intros ev' Hev'. apply Hall. by right.
Qed.

Lemma one_tenant_covered now t evs db :
  covered t evs db → evs ≠ [] →
  ∃ db', one_tenant now t evs db = Ok db' ∧ audit_log db' = audit_log db ∧
         ∀ t', position db' t' = position db t'.
Proof.
  intros Hc Hne. unfold _audit_chain_one_tenant. rewrite chain_events_skips.
  - eexists. split; [done|]. cbn. rewrite app_nil_r. split; [done|]. intros t'. unfold position. cbn.
    destruct (decide (t = t')) as [<-|]; [|by rewrite lookup_insert_ne].
    rewrite lookup_insert_eq. by destruct (heads db !! t).
  - intros ev Hev. destruct (Hc ev Hev) as (c & r & Hec & Hr & Ht & Hrc). exists c. split; [done|].
    assert (Hin : c ∈ omap ev_client_event_id evs) by (apply list_elem_of_omap; by exists ev).
    destruct (omap ev_client_event_id evs) as [|i ids] eqn:Ho; [by apply not_elem_of_nil in Hin|].
    rewrite <- Ho in *. apply list_elem_of_omap. exists r. split; [done|].
    rewrite Ht, String.eqb_refl, Hrc. by rewrite (proj2 (str_mem_spec _ _) Hin).
Qed.

Notation commit_groups := (commit_groups sha256 dumps parse_uuid canonical_created_at).

Lemma commit_groups_covers now groups db db' :
  commit_groups now groups db = (Ok tt, db') →
  Forall (λ g : string * list AuditEvent, Forall (λ ev, is_Some (ev_client_event_id ev)) g.2) groups →
  (∃ new, audit_log db' = audit_log db ++ new) ∧ Forall (λ g, covered g.1 g.2 db') groups.
Proof.
  intros Hc Hids. revert db Hc. induction Hids as [|[t evs] groups Hg _ IH]; intros db; cbn.
  { intros [= <-]. split; [exists []; by rewrite app_nil_r|constructor]. }
  destruct (one_tenant (now t) t evs db) as [db1|] eqn:Ho; [|done]. intros Hc.
  destruct (IH _ Hc) as ([new Hn] & Hcov). apply one_tenant_covers in Ho as [Hcov1 [new1 Hn1]]; [|done].
  split; [exists (new1 ++ new); by rewrite Hn, Hn1, app_assoc|].
  constructor; [|done]. eapply covered_extends; [|exact Hcov1]. by exists new.
Qed.

Lemma commit_groups_again now groups db :
  Forall (λ g : string * list AuditEvent, covered g.1 g.2 db ∧ g.2 ≠ []) groups →
  ∃ db', commit_groups now groups db = (Ok tt, db') ∧ audit_log db' = audit_log db ∧
         ∀ t, position db' t = position db t.
Proof.
  revert db. induction groups as [|[t evs] groups IH]; intros db Hc; [by eexists|].
  apply Forall_cons in Hc as [[Hc Hne] Hcs]. cbn in *.
  destruct (one_tenant_covered (now t) t evs db Hc Hne) as (db1 & -> & Hl & Hp).
  destruct (IH db1) as (db' & Hr & Hl' & Hp').
  - eapply Forall_impl; [exact Hcs|]. intros g [Hg Hgn]. split; [|done].
    eapply covered_extends; [|exact Hg]. exists []. by rewrite app_nil_r.
  - exists db'. split_and!; [done|congruence|]. intros t'. by rewrite Hp', Hp.
Qed.

(** Retrying is harmless.  A batch whose events all carry an id, sent
    again after it succeeded, is accepted and changes nothing: no row is
    added and every tenant's chain stands where it stood. *)
Theorem audit_retry_idempotent now now' events db db1 :
  add_batch now events db = (Ok tt, db1) →
  Forall (λ ev, is_Some (ev_client_event_id ev)) events →
  ∃ db2, add_batch now' events db1 = (Ok tt, db2) ∧ audit_log db2 = audit_log db1 ∧
         ∀ t, position db2 t = position db1 t.
Proof.
  intros Hb Hids. apply commit_groups_covers in Hb as [_ Hcov].
  - apply commit_groups_again. apply Forall_forall. intros [t evs] Hg. split.
    + by apply (proj1 (Forall_forall _ _) Hcov).
    + by apply group_elem in Hg as [_ ?].
  - apply Forall_forall. intros [t evs] [-> _]%group_elem. cbn. apply Forall_forall. intros ev Hev.
    unfold values_of in Hev. apply list_elem_of_fmap in Hev as ([t' ev'] & -> & Hin).
    apply list_elem_of_filter in Hin as [_ Hin].
    apply list_elem_of_fmap in Hin as (ev & [= -> ->] & Hin).
    by apply (proj1 (Forall_forall _ _) Hids).
Qed.
End Theorems.

(** ** Concrete runs *)
Section Witnesses.
#[local] Existing Instance AsciiText.

(** A stand-in digest of 32 bytes. *)
Fixpoint ex_fold (acc : N) (s : string) : N :=
  match s with
  | EmptyString => acc
  | String c s => ex_fold ((acc * 263 + N_of_ascii c + 1) mod 2 ^ 61)%N s
  end.
Fixpoint ex_bytes (k : nat) (n : N) : string :=
  match k with O => "" | S k => String (ascii_of_N (n mod 256)) (ex_bytes k (n / 256)) end.
Definition ex_sha (s : string) : string := ex_bytes 32 (ex_fold 7 s).

(** A stand-in JSON text. *)
Fixpoint ex_dumps (v : pyval) : string :=
  match v with
  | PStr s => ("'" ++ s ++ "'")%string
  | PInt z => pretty z
  | PDict d => ("{" ++ fold_right (λ kv s, kv.1 ++ ":" ++ ex_dumps kv.2 ++ "," ++ s) "}" d)%string
  | PNone => "null"
  | _ => "?"
  end.
Definition ex_uuid (s : string) : option string := None.
Definition ex_time (t : datetime) : string := pretty (dt_wall t).
Definition ex_now (t : string) : datetime := DateTime 5 (Some 0).
Definition ex_event (t c : string) (d : pyval) : AuditEvent :=
  {| ev_tenant_id := t; ev_agent_id := None; ev_action := "write"; ev_resource_type := "memory";
     ev_resource_id := None; ev_detail := d; ev_created_at := None; ev_client_event_id := Some c |}.
Definition ex_detail : pyval := PDict [("n", PFloat 3); ("k", PStr "v")]%string.
Definition ex_batch : list AuditEvent :=
  [ex_event "t1" "c1" ex_detail; ex_event "t2" "c2" PNone; ex_event "t1" "c3" PNone]%string.
Definition ex_db : chain_db :=
  (audit_add_batch_chained ex_sha ex_dumps ex_uuid ex_time ex_now ex_batch empty_db).2.

(** The database returns integral floats as integers and sorts keys by length. *)
Definition ex_reload (r : AuditRow) : AuditRow :=
  {| tenant_id := tenant_id r; agent_id := agent_id r; action := action r;
     resource_type := resource_type r; resource_id := resource_id r;
     detail := match detail r with
               | PDict [(k1, PFloat q); kv2] =>
                   if (Qnum q =? 3) && Pos.eqb (Qden q) 1 then PDict [kv2; (k1, PInt 3)] else detail r
               | d => d
               end;
     created_at := created_at r; seq := seq r; prev_hash := prev_hash r;
     event_hash := event_hash r; client_event_id := client_event_id r |}.

#[local] Instance ex_reload_laws : ReloadLaws ex_uuid ex_time ex_reload.
Proof.
  intros r. split_and!; try done. cbn.
  destruct (detail r) as [| | | | | | |[|[k1 [| | |q| | | |]] [|kv2 [|]]]]; try apply same_refl.
  destruct (_ && _) eqn:Hq; [|apply same_refl].
  apply andb_true_iff in Hq as [Hn%Z.eqb_eq Hd].
  eapply same_dict; [|apply perm_swap].
  constructor; [split; [done|]; cbn; apply same_int; destruct q as [n [| |]]; cbn in *; by subst|].
  constructor; [split; [done|]; apply same_refl|constructor].
Qed.

Example ex_leak :
  is_ok (audit_add_batch_chained ex_sha ex_dumps ex_uuid ex_time ex_now
    [ex_event "t1" "c9" (PDict [("note", PStr "card 4111 1111 1111 1111")])]%string ex_db).1 = false.
Proof. vm_compute. reflexivity. Qed.

Lemma audit_chain_verifies_witness :
  audit_verify_chain ex_sha ex_dumps ex_uuid ex_time ex_reload ex_db "t1" 100 = Valid 2 (Some 2) false.
Proof.
  refine (audit_chain_verifies ex_sha ex_dumps ex_uuid ex_time ex_reload ex_db "t1" 100 _).
  apply rtc_once. apply step_batch. repeat constructor; cbn; set_solver.
Defined.

Definition ex_head : AuditChainHead :=
  Eval vm_compute in default {| last_seq := 0; last_hash := ""; updated_at := ex_now "" |}
                       (heads ex_db !! "t1"%string).
Definition ex_rows : list AuditRow :=
  Eval vm_compute in tenant_rows ex_db "t1".

Lemma ex_sha_length s : String.length (ex_sha s) = 32%nat.
Proof. reflexivity. Qed.

Lemma audit_chain_tamper_evident_witness :
  row_canonical ex_dumps ex_uuid ex_time <$> ex_rows =
  row_canonical ex_dumps ex_uuid ex_time <$> (ex_reload <$> ex_rows).
Proof.
  destruct (audit_chain_tamper_evident ex_sha ex_dumps ex_uuid ex_time ex_reload ex_rows (ex_reload <$> ex_rows)
    ex_head 100 100 2 2 (Some 2) (Some 2)) as (_ & Hc & _).
  - exact ex_sha_length.
  - assert (Hno : Forall (λ x, Forall (λ y, ex_sha x = ex_sha y → x = y)
      (hashed ex_dumps ex_uuid ex_time (ex_reload <$> ex_rows)))
      (hashed ex_dumps ex_uuid ex_time ex_rows)).
    { apply (bool_decide_unpack _). vm_compute. exact I. }
    intros x y Hx Hy. rewrite Forall_forall in Hno. specialize (Hno x Hx).
    rewrite Forall_forall in Hno. exact (Hno y Hy).
  - vm_compute. reflexivity.
  - vm_compute. reflexivity.
  - exact Hc.
Defined.

Lemma audit_retry_idempotent_witness :
  ∃ db2, audit_add_batch_chained ex_sha ex_dumps ex_uuid ex_time ex_now ex_batch ex_db = (Ok tt, db2) ∧
         audit_log db2 = audit_log ex_db.
Proof.
  destruct (audit_retry_idempotent ex_sha ex_dumps ex_uuid ex_time ex_now ex_now ex_batch empty_db ex_db)
    as (db2 & Hr & Hl & _).
  - vm_compute. reflexivity.
  - repeat constructor; by eexists.
  - exists db2. split; [exact Hr|exact Hl].
Defined.
End Witnesses.
End AuditChain.
