(* ===== verification/AuditQueue.v ===== *)
(** * The audit event queue (core_api/services/audit_queue.py)

    A bounded queue, its counters and the background flusher, as a transition
    system: request handlers enqueue at any point, the flusher drains the
    queue into chunks and hands them over one by one, and each hand-over ends
    as the flush callable makes it end. *)

From S2P Require Import Prelude.

Module AuditQueue.

Section Queue.
Context {Ev : Type}.

(** The constructor's parameters. *)
Record queue_config : Type := {
  max_queue_size : Z;
  flush_threshold : Z;
  chunk_size : nat;
}.
Context (cfg : queue_config).

(** How [await self._flush_callable(chunk)] ends: it returns, or raises an
    [Exception] or another [BaseException], with the [failed_event_count] the
    exception may carry; [sentinels] is the callable's [_sentinel_count]
    afterwards. *)
Inductive flush_outcome : Type :=
| Flushed (sentinels : Z)
| RaisedException (failed_event_count : option Z) (sentinels : Z)
| RaisedBase (failed_event_count : option Z) (sentinels : Z).

(** Where the flusher task is. *)
Inductive flusher : Type :=
| NotStarted
| LoopTop
| Waiting
| Flushing (final : bool) (chunks : list (list Ev))
| Exited.

Record qstate : Type := {
  queue : list Ev;
  stopping : bool;
  wake_event : bool;
  dropped_count : Z;
  flushed_count : Z;
  failed_count : Z;
  task : flusher;
}.

Definition init : qstate :=
  {| queue := []; stopping := false; wake_event := false; dropped_count := 0; flushed_count := 0;
     failed_count := 0; task := NotStarted |}.

(** [asyncio.Queue.full()]: a maximum of zero or less means no bound. *)
Definition full (q : list Ev) : bool :=
  (0 <? max_queue_size cfg) && (max_queue_size cfg <=? Z.of_nat (length q)).

Definition set_task (st : qstate) (t : flusher) : qstate :=
  {| queue := queue st; stopping := stopping st; wake_event := wake_event st;
     dropped_count := dropped_count st; flushed_count := flushed_count st;
     failed_count := failed_count st; task := t |}.

Definition enqueue (event : Ev) (silent : bool) (st : qstate) : bool * qstate :=
  if full (queue st) then
    (false,
     if silent then st
     else {| queue := queue st; stopping := stopping st; wake_event := wake_event st;
             dropped_count := dropped_count st + 1; flushed_count := flushed_count st;
             failed_count := failed_count st; task := task st |})
  else
    let q := queue st ++ [event] in
    (true,
     {| queue := q; stopping := stopping st;
        wake_event := wake_event st || (flush_threshold cfg <=? Z.of_nat (length q));
        dropped_count := dropped_count st; flushed_count := flushed_count st;
        failed_count := failed_count st; task := task st |}).

(** [start()]: a no-op while a task runs. *)
Definition running (t : flusher) : bool :=
  match t with NotStarted | Exited => false | _ => true end.
Definition start (st : qstate) : qstate :=
  if running (task st) then st
  else {| queue := queue st; stopping := false; wake_event := wake_event st;
          dropped_count := dropped_count st; flushed_count := flushed_count st;
          failed_count := failed_count st; task := LoopTop |}.

(** [stop()] up to its wait: the signal to drain and exit. *)
Definition stop_signal (st : qstate) : qstate :=
  match task st with
  | NotStarted => st
  | _ => {| queue := queue st; stopping := true; wake_event := true;
            dropped_count := dropped_count st; flushed_count := flushed_count st;
            failed_count := failed_count st; task := task st |}
  end.

(** [events[i : i + chunk_size] for i in range(0, len(events), chunk_size)];
    the length of the list bounds the number of chunks. *)
Fixpoint chunks_of (fuel : nat) (events : list Ev) : list (list Ev) :=
  match fuel, events with
  | O, _ | _, [] => []
  | S fuel, _ => take (chunk_size cfg) events :: chunks_of fuel (drop (chunk_size cfg) events)
  end.

(** The drain of [_drain_and_flush]: the whole queue, cut into chunks. *)
Definition drain (final : bool) (st : qstate) : qstate :=
  {| queue := []; stopping := stopping st; wake_event := wake_event st;
     dropped_count := dropped_count st; flushed_count := flushed_count st;
     failed_count := failed_count st;
     task := Flushing final (chunks_of (length (queue st)) (queue st)) |}.

(** The accounting of one chunk. *)
Definition credit (chunk : list Ev) (o : flush_outcome) : Z * Z :=
  let n := Z.of_nat (length chunk) in
  match o with
  | Flushed sentinels => (n - sentinels, 0)
  | RaisedException f sentinels => let failed := default n f in (n - failed - sentinels, failed)
  | RaisedBase f sentinels => let failed := default 0 f in (n - failed - sentinels, failed)
  end.

Definition account (chunk : list Ev) (o : flush_outcome) (next : flusher) (st : qstate) : qstate :=
  let '(ok, bad) := credit chunk o in
  {| queue := queue st; stopping := stopping st; wake_event := wake_event st;
     dropped_count := dropped_count st; flushed_count := flushed_count st + ok;
     failed_count := failed_count st + bad; task := next |}.

Definition is_base (o : flush_outcome) : bool :=
  match o with RaisedBase _ _ => true | _ => false end.

(** One hand-over.  [except Exception] keeps the loop going; anything else
    ends the task. *)
Definition flush_chunk (o : flush_outcome) (st : qstate) : qstate :=
  match task st with
  | Flushing final (chunk :: chunks) =>
      account chunk o (if is_base o then Exited else Flushing final chunks) st
  | _ => st
  end.

(** The flusher's own moves. *)
Definition flusher_move (st : qstate) : qstate :=
  match task st with
  | LoopTop => if stopping st then drain true st else set_task st Waiting
  | Waiting =>
      drain false {| queue := queue st; stopping := stopping st; wake_event := false;
                     dropped_count := dropped_count st; flushed_count := flushed_count st;
                     failed_count := failed_count st; task := Waiting |}
  | Flushing final [] => set_task st (if final then Exited else LoopTop)
  | _ => st
  end.

(** A cancellation delivered while the flusher waits. *)
Definition cancel_wait (st : qstate) : qstate :=
  match task st with Waiting => set_task st Exited | _ => st end.

(** ** The machine, with its history: the events accepted, and the chunks
    handed to the flush callable with what came of them *)
Record history : Type := {
  accepted : list Ev;
  rejected : nat;
  recovered : nat;
  handed : list (list Ev * flush_outcome);
  lost : list Ev;
}.
Definition no_history : history :=
  {| accepted := []; rejected := 0; recovered := 0; handed := []; lost := [] |}.

Inductive label : Type :=
| LEnqueue (event : Ev) (silent : bool)
| LStart | LStop | LMove | LChunk (o : flush_outcome) | LCancelWait.

Definition mstate : Type := qstate * history.

Definition note_enqueue (event : Ev) (silent ok : bool) (h : history) : history :=
  {| accepted := if ok then accepted h ++ [event] else accepted h;
     rejected := if negb ok && negb silent then S (rejected h) else rejected h;
     recovered := if negb ok && silent then S (recovered h) else recovered h;
     handed := handed h; lost := lost h |}.

(** Chunks not yet handed over when the task dies are lost. *)
Definition note_chunk (st : qstate) (o : flush_outcome) (h : history) : history :=
  match task st with
  | Flushing _ (chunk :: chunks) =>
      {| accepted := accepted h; rejected := rejected h; recovered := recovered h;
         handed := handed h ++ [(chunk, o)];
         lost := if is_base o then lost h ++ concat chunks else lost h |}
  | _ => h
  end.

Definition step (l : label) (m : mstate) : mstate :=
  let '(st, h) := m in
  match l with
  | LEnqueue ev silent =>
      let '(ok, st') := enqueue ev silent st in (st', note_enqueue ev silent ok h)
  | LStart => (start st, h)
  | LStop => (stop_signal st, h)
  | LMove => (flusher_move st, h)
  | LChunk o => (flush_chunk o st, note_chunk st o h)
  | LCancelWait => (cancel_wait st, h)
  end.

Definition run (ls : list label) : mstate := foldl (λ m l, step l m) (init, no_history) ls.

End Queue.

(** ** Conservation *)
Section Theorems.
Context {Ev : Type} (cfg : queue_config).
Context (Hchunk : (0 < chunk_size cfg)%nat).
Implicit Types (st : qstate (Ev:=Ev)) (h : history (Ev:=Ev)).

Definition inflight st : list Ev :=
  match task st with Flushing _ chunks => concat chunks | _ => [] end.

Lemma chunks_of_spec fuel (events : list Ev) :
  (length events ≤ fuel)%nat →
  concat (chunks_of cfg fuel events) = events ∧
  Forall (λ c, (length c ≤ chunk_size cfg)%nat) (chunks_of cfg fuel events).
Proof.
  revert events. induction fuel as [|fuel IH]; intros events Hlen.
  { destruct events; cbn in *; [by split; [|constructor]|lia]. }
  destruct events as [|e events]; [by split; [|constructor]|]. cbn [chunks_of].
  destruct (IH (drop (chunk_size cfg) (e :: events))) as [Hc Hf].
  { rewrite length_drop. cbn in *. lia. }
  cbn [concat]. rewrite Hc, take_drop. split; [done|]. constructor; [|done].
  rewrite length_take. lia.
Qed.

Record queue_inv (m : mstate (Ev:=Ev)) : Prop := {
  inv_all : accepted m.2 ≡ₚ concat (handed m.2).*1 ++ lost m.2 ++ inflight m.1 ++ queue m.1;
  inv_fifo : lost m.2 = [] → accepted m.2 = concat (handed m.2).*1 ++ inflight m.1 ++ queue m.1;
  inv_bound : 0 < max_queue_size cfg → Z.of_nat (length (queue m.1)) ≤ max_queue_size cfg;
  inv_chunks : Forall (λ c, (length c ≤ chunk_size cfg)%nat) (handed m.2).*1 ∧
               match task m.1 with
               | Flushing _ cs => Forall (λ c, (length c ≤ chunk_size cfg)%nat) cs
               | _ => True
               end;
  inv_dropped : dropped_count m.1 = Z.of_nat (rejected m.2);
  inv_counts :
    flushed_count m.1 = foldr (λ co n, (credit co.1 co.2).1 + n) 0 (handed m.2) ∧
    failed_count m.1 = foldr (λ co n, (credit co.1 co.2).2 + n) 0 (handed m.2);
}.

Lemma foldr_snoc_sum {A} (f : A → Z) l x :
  foldr (λ y n, f y + n) 0 (l ++ [x]) = foldr (λ y n, f y + n) 0 l + f x.
Proof. induction l as [|y l IH]; cbn; [lia|]. rewrite IH. lia. Qed.

(** A change of the task that moves no event keeps the invariant. *)
Lemma inv_retask st h t b w :
  inflight (set_task st t) = inflight st →
  match t with Flushing _ cs => Forall (λ c, (length c ≤ chunk_size cfg)%nat) cs | _ => True end →
  queue_inv (st, h) →
  queue_inv ({| queue := queue st; stopping := b; wake_event := w;
                dropped_count := dropped_count st; flushed_count := flushed_count st;
                failed_count := failed_count st; task := t |}, h).
Proof.
  intros Hi Ht [Ha Hf Hb [Hc _] Hd Hn]. unfold inflight in *. cbn in *.
  constructor; cbn; unfold inflight; cbn; rewrite ?Hi; done.
Qed.

Lemma drain_inv st h final b w :
  inflight st = [] → queue_inv (st, h) →
  queue_inv (drain cfg final {| queue := queue st; stopping := b; wake_event := w;
                dropped_count := dropped_count st; flushed_count := flushed_count st;
                failed_count := failed_count st; task := task st |}, h).
Proof.
  intros Hi [Ha Hf Hb [Hc _] Hd Hn]. cbn in *. rewrite Hi in *.
  destruct (chunks_of_spec (length (queue st)) (queue st)) as [Hcat Hsz]; [done|].
  constructor; cbn; try done.
  - unfold inflight. cbn. by rewrite Hcat, app_nil_r.
  - unfold inflight. cbn. rewrite Hcat, app_nil_r. exact Hf.
  - lia.
Qed.

Lemma enqueue_inv ev silent st h :
  queue_inv (st, h) → queue_inv (step cfg (LEnqueue ev silent) (st, h)).
Proof.
  intros [Ha Hf Hb Hc Hd Hn]. cbn in *. unfold enqueue.
  destruct (full cfg (queue st)) eqn:Hfull.
  - destruct silent; constructor; cbn; try done. lia.
  - constructor; cbn; try done.
    + unfold inflight in *. cbn. by rewrite Ha, <- !app_assoc.
    + intros Hl. unfold inflight in *. cbn. by rewrite (Hf Hl), <- !app_assoc.
    + intros Hm. unfold full in Hfull. rewrite length_app. cbn. lia.
Qed.

Lemma chunk_inv o st h : queue_inv (st, h) → queue_inv (step cfg (LChunk o) (st, h)).
Proof.
  intros [Ha Hf Hb [Hc Hct] Hd [Hn1 Hn2]]. cbn in *. unfold flush_chunk, note_chunk, inflight in *.
  destruct (task st) as [| | |final [|chunk chunks]|] eqn:Ht;
    try (constructor; cbn; unfold inflight; rewrite ?Ht; done).
  apply Forall_cons in Hct as [Hch Hct]. unfold account.
  destruct (credit chunk o) as [ok bad] eqn:Hcr.
  constructor; cbn; rewrite ?fmap_app, ?concat_app; cbn; rewrite ?app_nil_r; try done.
  - unfold inflight. cbn. rewrite Ha. destruct (is_base o); cbn; solve_Permutation.
  - unfold inflight. cbn. intros Hl. destruct (is_base o); cbn.
    + apply app_eq_nil in Hl as [Hl Hcs]. rewrite (Hf Hl). cbn. by rewrite Hcs, app_nil_r, <- app_assoc.
    + rewrite (Hf Hl). cbn. by rewrite <- !app_assoc.
  - split; [apply Forall_app; by repeat constructor|]. by destruct (is_base o).
  - rewrite !(foldr_snoc_sum (λ co, (credit co.1 co.2).1)), !(foldr_snoc_sum (λ co, (credit co.1 co.2).2)).
    cbn. rewrite Hcr. cbn. lia.
Qed.

Lemma step_inv l m : queue_inv m → queue_inv (step cfg l m).
Proof.
  destruct m as [st h]. intros Hinv. destruct l as [ev silent| | | |o|].
  - by apply enqueue_inv.
  - cbn. unfold start. destruct (running (task st)) eqn:Hr; [done|]. apply inv_retask; try done.
    unfold inflight. cbn. by destruct (task st).
  - cbn. unfold stop_signal. pose proof (inv_chunks _ Hinv) as [_ Hct]. cbn in Hct.
    destruct (task st) eqn:Ht; try done; rewrite <- Ht;
      (apply inv_retask; [reflexivity|by rewrite Ht|done]).
  - cbn. unfold flusher_move. destruct (task st) as [| | |final [|c cs]|] eqn:Ht; try done.
    + destruct (stopping st).
      * pose proof (drain_inv st h true (stopping st) (wake_event st)) as Hd.
        unfold inflight in Hd. rewrite Ht in Hd. by apply Hd.
      * apply inv_retask; try done. unfold inflight. cbn. by rewrite Ht.
    + pose proof (drain_inv st h false (stopping st) false) as Hd.
      unfold inflight in Hd. rewrite Ht in Hd. by apply Hd.
    + apply inv_retask; try done; [unfold inflight; cbn; rewrite Ht; by destruct final|by destruct final].
  - by apply chunk_inv.
  - cbn. unfold cancel_wait. destruct (task st) eqn:Ht; try done.
    apply inv_retask; try done. unfold inflight. cbn. by rewrite Ht.
Qed.

Lemma run_inv (ls : list (label (Ev:=Ev))) : queue_inv (run cfg ls).
Proof.
  unfold run. assert (H0 : queue_inv (init, no_history)) by (constructor; cbn; try done; lia).
  revert H0. generalize ((init, no_history) : mstate (Ev:=Ev)). induction ls as [|l ls IH]; intros m Hm; [done|].
  cbn. by apply IH, step_inv.
Qed.

(** C36. No audit event is duplicated or silently mislaid.  In every
    interleaving of producers, the flusher, its failures, stops and restarts,
    the accepted events are exactly those handed to the flush callable, those
    lost with a task that died between two chunks, those drained and waiting,
    and those queued; when no task died they are so in order of acceptance;
    chunks respect the cap of the storage endpoint and the queue its bound. *)
Theorem audit_queue_conserves (ls : list (label (Ev:=Ev))) :
  let '(st, h) := run cfg ls in
  accepted h ≡ₚ concat (handed h).*1 ++ lost h ++ inflight st ++ queue st ∧
  (lost h = [] → accepted h = concat (handed h).*1 ++ inflight st ++ queue st) ∧
  Forall (λ c, (length c ≤ chunk_size cfg)%nat) (handed h).*1 ∧
  (0 < max_queue_size cfg → Z.of_nat (length (queue st)) ≤ max_queue_size cfg).
Proof.
  pose proof (run_inv ls) as Hinv. destruct (run cfg ls) as [st h].
  destruct Hinv as [Ha Hf Hb [Hc _] _ _]. by split_and!.
Qed.

Definition sentinels_of (o : flush_outcome) : Z :=
  match o with Flushed s | RaisedException _ s | RaisedBase _ s => s end.

(** The counters add up.  The drop counter counts exactly the rejections
    the producer did not recover; flushed, failed and sentinel events together
    are the events handed over; and a chunk interrupted by a cancellation that
    carries no count is credited to [flushed_count] in full. *)
Theorem audit_queue_counters (ls : list (label (Ev:=Ev))) chunk :
  let '(st, h) := run cfg ls in
  dropped_count st = Z.of_nat (rejected h) ∧
  flushed_count st + failed_count st + foldr (λ co n, sentinels_of co.2 + n) 0 (handed h) =
    Z.of_nat (length (concat (handed h).*1)) ∧
  credit (Ev:=Ev) chunk (RaisedBase None 0) = (Z.of_nat (length chunk), 0).
Proof.
  pose proof (run_inv ls) as Hinv. destruct (run cfg ls) as [st h].
  destruct Hinv as [_ _ _ _ Hd [Hn1 Hn2]]. cbn in *. split_and!; [done| |].
  - rewrite Hn1, Hn2. clear. induction (handed h) as [|[c o] l IH]; [done|]. cbn.
    rewrite length_app. destruct o; cbn; lia.
  - unfold credit. cbn. f_equal; lia.
Qed.


(** ** Shutdown *)

(** The flusher alone, each chunk ending as [oracle] says. *)
Fixpoint flusher_run (oracle : list Ev → flush_outcome) (fuel : nat) (m : mstate) : mstate :=
  match fuel with
  | O => m
  | S fuel =>
      match task m.1 with
      | Exited | NotStarted => m
      | Flushing _ (c :: _) => flusher_run oracle fuel (step cfg (LChunk (oracle c)) m)
      | _ => flusher_run oracle fuel (step cfg LMove m)
      end
  end.

(** [m'] is reached from [m], with nothing accepted or lost on the way. *)
Definition drains oracle (m m' : mstate) : Prop :=
  (∃ n, ∀ k, flusher_run oracle (n + k) m = flusher_run oracle k m') ∧
  accepted m'.2 = accepted m.2 ∧ lost m'.2 = lost m.2 ∧ (queue_inv m → queue_inv m').

Lemma drains_trans oracle m1 m2 m3 : drains oracle m1 m2 → drains oracle m2 m3 → drains oracle m1 m3.
Proof.
  intros ([n1 H1] & Ha1 & Hl1 & Hi1) ([n2 H2] & Ha2 & Hl2 & Hi2).
  split_and!; [|congruence|congruence|auto].
  exists (n1 + n2)%nat. intros k. by rewrite <- Nat.add_assoc, H1, H2.
Qed.

Lemma drains_move oracle st h :
  match task st with Exited | NotStarted | Flushing _ (_ :: _) => False | _ => True end →
  drains oracle (st, h) (flusher_move cfg st, h).
Proof.
  intros Ht. split_and!; [|done|done|intros Hi; exact (step_inv LMove _ Hi)].
  exists 1%nat. intros k. cbn. by destruct (task st) as [| | |final [|c cs]|].
Qed.

Lemma drains_chunks oracle final cs st h :
  (∀ c, is_base (oracle c) = false) → task st = Flushing final cs →
  ∃ st' h', drains oracle (st, h) (st', h') ∧ task st' = Flushing final [] ∧
            queue st' = queue st ∧ stopping st' = stopping st.
Proof.
  intros Ho. revert st h. induction cs as [|c cs IH]; intros st h Ht.
  { exists st, h. split_and!; try done. split_and!; try done. by exists 0%nat. }
  set (st1 := flush_chunk (oracle c) st). set (h1 := note_chunk st (oracle c) h).
  assert (Hst1 : task st1 = Flushing final cs ∧ queue st1 = queue st ∧ stopping st1 = stopping st).
  { unfold st1, flush_chunk, account. rewrite Ht, Ho. by destruct (credit c (oracle c)). }
  destruct Hst1 as (Ht1 & Hq1 & Hs1). destruct (IH st1 h1 Ht1) as (st' & h' & Hd & Ht' & Hq' & Hs').
  exists st', h'. split_and!; [|done|congruence|congruence].
  eapply drains_trans; [|exact Hd]. split_and!.
  - exists 1%nat. intros k. cbn. by rewrite Ht.
  - unfold h1, note_chunk. by rewrite Ht.
  - unfold h1, note_chunk. cbn. rewrite Ht. cbn. by rewrite Ho.
  - intros Hi. exact (step_inv (LChunk (oracle c)) _ Hi).
Qed.

Lemma drains_from_top oracle st h :
  (∀ c, is_base (oracle c) = false) → task st = LoopTop → stopping st = true →
  ∃ st' h', drains oracle (st, h) (st', h') ∧ task st' = Exited ∧ queue st' = [].
Proof.
  intros Ho Ht Hs. assert (Hm := drains_move oracle st h). rewrite Ht in Hm. specialize (Hm I).
  unfold flusher_move in Hm. rewrite Ht, Hs in Hm.
  destruct (drains_chunks oracle true _ (drain cfg true st) h Ho eq_refl) as (st' & h' & Hd & Ht' & Hq' & _).
  exists (set_task st' Exited), h'. split_and!; [|done|done].
  eapply drains_trans; [exact Hm|]. eapply drains_trans; [exact Hd|].
  assert (Hm' := drains_move oracle st' h'). rewrite Ht' in Hm'. specialize (Hm' I).
  unfold flusher_move in Hm'. by rewrite Ht' in Hm'.
Qed.

Lemma drains_from_flush oracle final cs st h :
  (∀ c, is_base (oracle c) = false) → task st = Flushing final cs → stopping st = true →
  (final = true → queue st = []) →
  ∃ st' h', drains oracle (st, h) (st', h') ∧ task st' = Exited ∧ queue st' = [].
Proof.
  intros Ho Ht Hs Hfin. destruct (drains_chunks oracle final cs st h Ho Ht) as (st1 & h1 & Hd & Ht1 & Hq1 & Hs1).
  assert (Hm := drains_move oracle st1 h1). rewrite Ht1 in Hm. specialize (Hm I).
  unfold flusher_move in Hm. rewrite Ht1 in Hm. destruct final.
  - exists (set_task st1 Exited), h1. split_and!; [by eapply drains_trans|done|].
    cbn. rewrite Hq1. by apply Hfin.
  - destruct (drains_from_top oracle (set_task st1 LoopTop) h1 Ho) as (st' & h' & Hd' & ? & ?);
      [done|by cbn; rewrite Hs1|].
    exists st', h'. split_and!; [|done|done]. eapply drains_trans; [exact Hd|].
    by eapply drains_trans.
Qed.

End Theorems.

(** ** A concrete run: a burst over the bound, a failed chunk, a stop *)
Section Witnesses.
Definition ex_cfg : queue_config := {| max_queue_size := 3; flush_threshold := 2; chunk_size := 2 |}.
Definition ex_labels : list (label (Ev:=nat)) :=
  let put (n : nat) silent := LEnqueue n silent in
  [LStart; LMove; put 1%nat false; put 2%nat false; put 3%nat false; put 4%nat false;
   put 5%nat true; LMove; LChunk (RaisedException (Some 1) 0); put 6%nat false].

Definition ex_state : qstate * history := Eval vm_compute in run ex_cfg ex_labels.
Lemma ex_queue_run : run ex_cfg ex_labels = ex_state.
Proof. by vm_compute. Qed.
Lemma ex_chunk : (0 < chunk_size ex_cfg)%nat.
Proof. cbn. lia. Qed.

Lemma audit_queue_conserves_witness :
  (0 < chunk_size ex_cfg)%nat ∧ accepted (run ex_cfg ex_labels).2 = [1; 2; 3; 6]%nat.
Proof.
  pose proof (audit_queue_conserves ex_cfg ex_chunk ex_labels) as H. rewrite ex_queue_run in *.
  split; [exact ex_chunk|]. destruct H as (_ & H & _). exact (H eq_refl).
Defined.

Lemma audit_queue_counters_witness :
  dropped_count (run ex_cfg ex_labels).1 = Z.of_nat (rejected (run ex_cfg ex_labels).2).
Proof.
  pose proof (audit_queue_counters ex_cfg ex_chunk ex_labels []) as H. rewrite ex_queue_run in *.
  exact (proj1 H).
Defined.

End Witnesses.
End AuditQueue.
