(* ===== verification/Documents.v ===== *)
(** * The document store and the table of rejected fingerprints
    (the [document_*] and [forge_*fingerprint*] methods of
    core_storage_api/services/postgres_service.py, over the [documents] table
    of common/models/document.py, and services/forge/poison.py)

    The two tables are a state; one storage call is one atomic step.  A client
    of the store runs in a [world] in which other writers act between any two
    of its calls, its reads may come from a replica, and its requests or their
    replies may be lost. *)

From S2P Require Import Prelude.

Module Documents.

(** A row of [documents].  [data] is a JSONB object: the entries are listed,
    their order carries no meaning.  Times are microseconds. *)
Record Document : Type := {
  fleet_id : option string;
  data : pydict;
  created_at : Z;
  updated_at : Z;
}.

(** A row of [forge_rejected_fingerprints]. *)
Record RejectedFingerprint : Type := {
  rf_tenant : string;
  rf_fleet : option string;
  cluster_fingerprint : string;
  rejected_by_agent : string;
  rejected_at : Z;
  cooloff_days : Z;
  reason : option string;
}.

(** (tenant_id, collection, doc_id), the unique constraint of the table. *)
Abbreviation doc_key := (string * string * string)%type.

Record store : Type := {
  documents : gmap doc_key Document;
  rejected_fingerprints : list RejectedFingerprint;
  clock : Z;
}.
Definition empty_store : store :=
  {| documents := ∅; rejected_fingerprints := []; clock := 0 |}.

Inductive storage_error : Type := SystemManaged | MultipleRows.

Definition set_documents (f : gmap doc_key Document → gmap doc_key Document) (s : store) : store :=
  {| documents := f (documents s); rejected_fingerprints := rejected_fingerprints s; clock := clock s |}.

(** [collection.startswith("_") and not system] *)
Definition system_managed (collection : string) (system : bool) : bool :=
  starts_with "_" collection && negb system.

Definition document_upsert (tenant collection doc_id : string) (d : pydict) (fleet : option string)
    (system : bool) (s : store) : res storage_error Document * store :=
  if system_managed collection system then (Err SystemManaged, s)
  else
    let key := (tenant, collection, doc_id) in
    let row :=
      {| fleet_id := fleet; data := d;
         created_at := match documents s !! key with Some old => created_at old | None => clock s end;
         updated_at := clock s |} in
    (Ok row, set_documents (<[key := row]>) s).

(** The rows of one collection and id in the readable tenants. *)
Definition document_get_by_doc_id (tenant collection doc_id : string) (readable : list string)
    (s : store) : res storage_error (option Document) :=
  let tenants := match readable with [] => [tenant] | _ => remove_dups readable end in
  match omap (λ t, documents s !! (t, collection, doc_id)) tenants with
  | [] => Ok None
  | [row] => Ok (Some row)
  | _ => Err MultipleRows
  end.

Lemma get_by_doc_id_home tenant collection doc_id s :
  document_get_by_doc_id tenant collection doc_id [] s = Ok (documents s !! (tenant, collection, doc_id)).
Proof. unfold document_get_by_doc_id. cbn. by destruct (documents s !! _). Qed.

Section Sql.
(** The text PostgreSQL gives a JSON value other than a string. *)
Context (json_text : pyval → string).
(** [ORDER BY] on text: the collation of the database. *)
Context (collate : string → string → bool).
(** [t.isoformat(timespec="seconds")] of a clock reading. *)
Context (iso_seconds : Z → string).

(** [data->>'key']: [None] is SQL's NULL. *)
Definition astext (d : pydict) (key : string) : option string :=
  match dgetv d key with PNone => None | PStr t => Some t | v => Some (json_text v) end.

(** [data->>'key' = value] in a [WHERE]: NULL does not match. *)
Definition text_is (d : pydict) (key value : string) : bool :=
  match astext d key with Some t => String.eqb t value | None => false end.

(** A filter on the fleet applies only when the caller gives a non-empty one. *)
Definition fleet_matches (fleet : option string) (row : Document) : bool :=
  match fleet with
  | None => true
  | Some f => String.eqb f "" || bool_decide (fleet_id row = Some f)
  end.

(** Ascending order puts NULL last, descending order first. *)
Definition text_le (a b : option string) : bool :=
  match a, b with
  | Some a, Some b => collate a b
  | _, None => true
  | None, Some _ => false
  end.
Definition row_le (order_by : string) (desc : bool) (x y : doc_key * Document) : bool :=
  let kx := astext (data x.2) order_by in
  let ky := astext (data y.2) order_by in
  if desc then text_le ky kx else text_le kx ky.
Definition newest_first (x y : doc_key * Document) : bool := updated_at y.2 <=? updated_at x.2.
Definition row_order (order_by : option string) (desc : bool) (x y : doc_key * Document) : Prop :=
  match order_by with Some k => row_le k desc x y | None => newest_first x y end = true.
#[global] Instance row_order_dec order_by desc : RelDecision (row_order order_by desc).
Proof. intros x y. unfold row_order. apply _. Defined.

(** [document_query] with text filters; rows that compare equal come in any
    order, here the one of the map. *)
Definition document_query (tenant collection : string) (fleet : option string)
    (where_ : list (string * string)) (order_by : option string) (desc : bool) (limit offset : nat)
    (s : store) : list (string * Document) :=
  let rows := List.filter (λ kr : doc_key * Document,
    let '((t, c, _), row) := kr in
    String.eqb t tenant && String.eqb c collection && fleet_matches fleet row &&
    forallb (λ kv, text_is (data row) kv.1 kv.2) where_) (map_to_list (documents s)) in
  (λ kr : doc_key * Document, (kr.1.2, kr.2)) <$>
    take limit (drop offset (merge_sort (row_order order_by desc) rows)).

Definition document_delete_by_doc_id (tenant collection doc_id : string) (system : bool)
    (require_status : option string) (s : store) : res storage_error bool * store :=
  if system_managed collection system then (Err SystemManaged, s)
  else
    let key := (tenant, collection, doc_id) in
    match documents s !! key with
    | Some row =>
        if match require_status with Some st => text_is (data row) "status" st | None => true end
        then (Ok true, set_documents (delete key) s)
        else (Ok false, s)
    | None => (Ok false, s)
    end.

(** The conditional update of one status; its SQL leaves the column
    [updated_at] alone. *)
Definition with_status (d : pydict) (new_status now : string) : pydict :=
  dset (dset d "status" (PStr new_status)) (new_status ++ "_at") (PStr now).
Definition document_update_status (tenant collection doc_id new_status expected_status : string)
    (s : store) : bool * store :=
  let key := (tenant, collection, doc_id) in
  match documents s !! key with
  | Some row =>
      if text_is (data row) "status" expected_status then
        (true, set_documents (<[key :=
           {| fleet_id := fleet_id row; data := with_status (data row) new_status (iso_seconds (clock s));
              created_at := created_at row; updated_at := updated_at row |}]>) s)
      else (false, s)
  | None => (false, s)
  end.

End Sql.

(** ** Rejected fingerprints *)
Definition forge_write_rejected_fingerprint (tenant : string) (fleet : option string)
    (fp by_agent : string) (cooloff : Z) (why : option string) (s : store) : store :=
  {| documents := documents s;
     rejected_fingerprints := rejected_fingerprints s ++
       [{| rf_tenant := tenant; rf_fleet := fleet; cluster_fingerprint := fp;
           rejected_by_agent := by_agent; rejected_at := clock s; cooloff_days := cooloff;
           reason := why |}];
     clock := clock s |}.

Definition day_us : Z := 86400 * 1000000.

(** The row applies to a scan of [fleet]: the three arms. *)
Definition fleet_applies (row_fleet scan_fleet : option string) : bool :=
  match row_fleet, scan_fleet with
  | None, _ | _, None => true
  | Some a, Some b => String.eqb a b
  end.
Definition row_blocks (tenant : string) (fleet : option string) (fp : string) (now : Z)
    (r : RejectedFingerprint) : bool :=
  String.eqb (rf_tenant r) tenant && String.eqb (cluster_fingerprint r) fp &&
  fleet_applies (rf_fleet r) fleet && (now <? rejected_at r + day_us * cooloff_days r).
Definition forge_is_fingerprint_poisoned (tenant : string) (fleet : option string) (fp : string)
    (s : store) : bool :=
  existsb (row_blocks tenant fleet fp (clock s)) (rejected_fingerprints s).

(** The guards of [forge/poison.py], [ValueError] for each. *)
Inductive poison_error : Type := EmptyFingerprint | CooloffTooShort (days : Z).
Definition check_rejection (fp : string) (cooloff : Z) : res poison_error unit :=
  raise_if String.eqb fp "" with EmptyFingerprint;;
  raise_if cooloff <? 1 with CooloffTooShort cooloff;;
  Ok tt.

(** ** The world of a client *)

(** What happens to a request: it is served and answered, or it is lost, or
    it is served and its answer is lost. *)
Inductive delivery : Type := Delivered | RequestLost (exc : string) | ReplyLost (exc : string).

(** One call: what others did since the last one, what the replica shows of
    the primary, and the fate of the request. *)
Record turn : Type := { others : store → store; lag : store → store; fate : delivery }.
Definition quiet : turn := {| others := λ s, s; lag := λ s, s; fate := Delivered |}.

Record world : Type := {
  db : store;
  schedule : list turn;
  (** the client's own writes: the store before and after each *)
  own_writes : list (store * store);
}.
Definition next_turn (w : world) : turn := default quiet (head (schedule w)).

Section Calls.
Context {E : Type} (lost : string → E).

(** A call that writes the primary. *)
Definition call {A} (f : store → res E A * store) : io world E A := λ w,
  let t := next_turn w in
  let s := others t (db w) in
  let rest := tail (schedule w) in
  match fate t with
  | RequestLost exc => (Err (lost exc), {| db := s; schedule := rest; own_writes := own_writes w |})
  | _ =>
      let '(r, s') := f s in
      (match fate t with ReplyLost exc => Err (lost exc) | _ => r end,
       {| db := s'; schedule := rest; own_writes := own_writes w ++ [(s, s')] |})
  end.

(** A read, from the replica unless [primary]. *)
Definition ask {A} (primary : bool) (f : store → res E A) : io world E A := λ w,
  let t := next_turn w in
  let s := others t (db w) in
  (match fate t with
   | Delivered => f (if primary then s else lag t s)
   | RequestLost exc | ReplyLost exc => Err (lost exc)
   end,
   {| db := s; schedule := tail (schedule w); own_writes := own_writes w |}).
End Calls.

(** ** Reasoning about a client: an invariant others rely on, and a guarantee
    for each of its own writes *)
Section Safe.
Context (I : store → Prop) (G : store → store → Prop).

Definition preserves (t : turn) : Prop :=
  (∀ s, I s → I (others t s)) ∧ (∀ s, I s → I (lag t s)).

Record safe (w : world) : Prop := {
  safe_db : I (db w);
  safe_rely : Forall preserves (schedule w);
  safe_writes : Forall (λ p, G p.1 p.2) (own_writes w);
}.

Lemma next_turn_preserves w : safe w → preserves (next_turn w) ∧ Forall preserves (tail (schedule w)).
Proof.
  intros [_ Hr _]. unfold next_turn. destruct (schedule w) as [|t ts]; cbn; [by split|].
  by apply Forall_cons in Hr.
Qed.

Lemma call_spec {E A} (lost : string → E) (f : store → res E A * store) (Q : A → Prop) :
  (∀ s, I s → I (f s).2 ∧ G s (f s).2 ∧ ∀ a, (f s).1 = Ok a → Q a) → io_spec safe (call lost f) Q.
Proof.
  intros Hf w Hw. destruct (next_turn_preserves w Hw) as [[Ho _] Hts]. destruct Hw as [Hd _ Hws].
  destruct (Hf _ (Ho _ Hd)) as (Hi & Hg & Hq). unfold call.
  destruct (f (others (next_turn w) (db w))) as [r s'] eqn:Hfs.
  destruct (fate (next_turn w)); cbn in *;
    (split; [constructor; cbn; auto; apply Forall_app; by repeat constructor|]); by auto.
Qed.

Lemma ask_spec {E A} (lost : string → E) primary (f : store → res E A) (Q : A → Prop) :
  (∀ s, I s → ∀ a, f s = Ok a → Q a) → io_spec safe (ask lost primary f) Q.
Proof.
  intros Hf w Hw. destruct (next_turn_preserves w Hw) as [[Ho Hl] Hts]. destruct Hw as [Hd _ Hws].
  unfold ask. split; [constructor; cbn; auto|]. cbn. intros a.
  destruct (fate (next_turn w)); [|done|done]. apply Hf. destruct primary; auto.
Qed.

(** *** The same with the list of writes: [does I m R] when [m], run among
    others that keep [I], keeps [I] itself and ends with a result and new
    writes of its own that [R] relates. *)
Definition rely (w : world) : Prop := I (db w) ∧ Forall preserves (schedule w).
Definition does {E A} (m : io world E A) (R : res E A → list (store * store) → Prop) : Prop :=
  ∀ w, rely w → rely (m w).2 ∧ ∃ new, own_writes (m w).2 = own_writes w ++ new ∧ R (m w).1 new.

(** The relation of a call that writes nothing. *)
Definition reads {E A} (Q : A → Prop) (r : res E A) (new : list (store * store)) : Prop :=
  new = [] ∧ ∀ a, r = Ok a → Q a.

Lemma does_bind {E A B} (m : io world E A) (f : A → io world E B) Q R :
  does m Q → (∀ e n, Q (Err e) n → R (Err e) n) →
  (∀ a n, Q (Ok a) n → does (f a) (λ r n', R r (n ++ n'))) → does (m ≫= f) R.
Proof.
  intros Hm He Hf w Hw. unfold mbind, io_bind. destruct (Hm w Hw) as (Hw1 & n & Hn & Hq).
  destruct (m w) as [[a|e] w1]; cbn in *; [|by eauto].
  destruct (Hf a n Hq w1 Hw1) as (Hw2 & n' & Hn' & Hr). split; [done|].
  exists (n ++ n'). by rewrite Hn', Hn, <- app_assoc.
Qed.

(** A read first. *)
Lemma does_read_bind {E A B} (m : io world E A) (f : A → io world E B) Q R :
  does m (reads Q) → (∀ e, R (Err e) []) → (∀ a, Q a → does (f a) R) → does (m ≫= f) R.
Proof.
  intros Hm He Hf. eapply does_bind; [exact Hm|by intros e n [-> _]|].
  intros a n [-> Hq]. by apply Hf, Hq.
Qed.

Lemma does_ret {E A} (a : A) (R : res E A → _ → Prop) : R (Ok a) [] → does (mret a) R.
Proof. intros Ha w Hw. split; [done|]. exists []. by rewrite app_nil_r. Qed.
Lemma does_lift {E A} (r : res E A) (R : res E A → _ → Prop) : R r [] → does (io_lift r) R.
Proof. intros Ha w Hw. split; [done|]. exists []. by rewrite app_nil_r. Qed.
Lemma does_raise {E A} (e : E) (R : res E A → _ → Prop) : R (Err e) [] → does (io_raise e) R.
Proof. intros Ha w Hw. split; [done|]. exists []. by rewrite app_nil_r. Qed.
Lemma reads_read {E A} (f : world → A) : does (E:=E) (io_read f) (reads (λ _, True)).
Proof. intros w Hw. split; [done|]. exists []. by rewrite app_nil_r. Qed.
Lemma reads_lift {E A} (r : res E A) : does (io_lift r) (reads (λ a, r = Ok a)).
Proof. by apply does_lift. Qed.
Lemma reads_ret {E A} (a : A) (Q : A → Prop) : Q a → does (E:=E) (mret a) (reads Q).
Proof. intros Ha. apply does_ret. split; [done|]. by intros ? [= <-]. Qed.
Lemma reads_raise {E A} (e : E) (Q : A → Prop) : does (io_raise e) (reads Q).
Proof. by apply does_raise. Qed.
Lemma reads_bind {E A B} (m : io world E A) (f : A → io world E B) Q R :
  does m (reads Q) → (∀ a, Q a → does (f a) (reads R)) → does (m ≫= f) (reads R).
Proof. intros Hm Hf. by eapply does_read_bind. Qed.
Lemma reads_impl {E A} (m : io world E A) (Q R : A → Prop) :
  does m (reads Q) → (∀ a, Q a → R a) → does m (reads R).
Proof.
  intros Hm Hq w Hw. destruct (Hm w Hw) as (Hr & n & Hn & -> & Ha). split; [done|]. exists [].
  split; [done|]. split; [done|]. auto.
Qed.

Lemma next_turn_rely w : rely w → preserves (next_turn w) ∧ Forall preserves (tail (schedule w)).
Proof.
  intros [_ Hr]. unfold next_turn. destruct (schedule w) as [|t ts]; cbn; [by split|].
  by apply Forall_cons in Hr.
Qed.

Lemma does_call {E A} (lost : string → E) (f : store → res E A * store) (R : res E A → _ → Prop) :
  (∀ s, I s → I (f s).2 ∧ R (f s).1 [(s, (f s).2)] ∧
        ∀ e, R (Err (lost e)) [(s, (f s).2)] ∧ R (Err (lost e)) []) → does (call lost f) R.
Proof.
  intros Hf w Hw. destruct (next_turn_rely w Hw) as [[Ho _] Hts]. destruct Hw as [Hd _].
  destruct (Hf _ (Ho _ Hd)) as (Hi & Hr & Hl). unfold call.
  destruct (f (others (next_turn w) (db w))) as [r s'] eqn:Hfs. cbn in *.
  destruct (fate (next_turn w)) as [|exc|exc]; (split; [by split; cbn; auto|]); cbn.
  - by eexists.
  - exists []. rewrite app_nil_r. split; [done|]. apply Hl.
  - eexists. split; [done|]. apply Hl.
Qed.

Lemma reads_ask {E A} (lost : string → E) primary (f : store → res E A) (Q : A → Prop) :
  (∀ s, I s → ∀ a, f s = Ok a → Q a) → does (ask lost primary f) (reads Q).
Proof.
  intros Hf w Hw. destruct (next_turn_rely w Hw) as [[Ho Hl] Hts]. destruct Hw as [Hd _].
  unfold ask. split; [by split; cbn; auto|]. exists []. rewrite app_nil_r. split; [done|].
  split; [done|]. cbn. intros a. destruct (fate (next_turn w)); [|done|done].
  apply Hf. destruct primary; auto.
Qed.
End Safe.

(** ** The conditional update *)
Section Theorems.
Context (json_text : pyval → string) (iso_seconds : Z → string).
Notation update_status := (document_update_status json_text iso_seconds).
Notation text_is := (text_is json_text).

Lemma at_key_ne new : (new ++ "_at")%string ≠ "status"%string.
Proof. do 7 (destruct new as [|? new]; [done|cbn; intros [= -> Hn]; revert Hn; try done]). Qed.

Lemma with_status_status d new now : dget (with_status d new now) "status" = Some (PStr new).
Proof.
  unfold with_status. rewrite dget_dset_ne by apply at_key_ne. apply dget_dset.
Qed.
Lemma with_status_other d new now k :
  k ≠ "status"%string → k ≠ (new ++ "_at")%string → dget (with_status d new now) k = dget d k.
Proof. intros H1 H2. unfold with_status. by rewrite !dget_dset_ne by done. Qed.

Lemma text_is_status d st st' :
  dget d "status" = Some (PStr st) → text_is d "status" st' = String.eqb st st'.
Proof. intros Hd. unfold text_is, astext, dgetv. by rewrite Hd. Qed.

Lemma update_status_cases tenant coll id new expected s :
  (update_status tenant coll id new expected s = (false, s) ∧
   ∀ row, documents s !! (tenant, coll, id) = Some row → text_is (data row) "status" expected = false) ∨
  ∃ row, documents s !! (tenant, coll, id) = Some row ∧ text_is (data row) "status" expected = true ∧
    update_status tenant coll id new expected s =
      (true, set_documents (<[(tenant, coll, id) :=
         {| fleet_id := fleet_id row; data := with_status (data row) new (iso_seconds (clock s));
            created_at := created_at row; updated_at := updated_at row |}]>) s).
Proof.
  unfold document_update_status. destruct (documents s !! _) as [row|] eqn:Hrow; [|by left].
  destruct (text_is (data row) "status" expected) eqn:Ht; [right; by exists row|left].
  split; [done|]. by intros ? [= <-].
Qed.

(** The status update is a compare-and-swap.  It succeeds exactly on a
    document whose status is the expected one, then changes that status and
    the new status's time and nothing else anywhere; when it fails it changes
    nothing; and of two updates that expect the same status, whatever they set
    instead, the second always fails. *)
Theorem document_update_status_cas tenant coll id new expected s :
  new ≠ expected →
  let key := (tenant, coll, id) in
  let '(ok, s') := update_status tenant coll id new expected s in
  (ok = true ↔ ∃ row, documents s !! key = Some row ∧ text_is (data row) "status" expected = true) ∧
  (ok = false → s' = s) ∧
  (∀ k, k ≠ key → documents s' !! k = documents s !! k) ∧
  rejected_fingerprints s' = rejected_fingerprints s ∧
  (ok = true →
     (∃ row row', documents s !! key = Some row ∧ documents s' !! key = Some row' ∧
        fleet_id row' = fleet_id row ∧ dget (data row') "status" = Some (PStr new) ∧
        ∀ f, f ≠ "status"%string → f ≠ (new ++ "_at")%string → dget (data row') f = dget (data row) f) ∧
     ∀ new2, (update_status tenant coll id new2 expected s').1 = false).
Proof.
  intros Hne key. destruct (update_status_cases tenant coll id new expected s)
    as [[-> Hno]|(row & Hrow & Ht & ->)].
  - split_and!; [|done..]. split; [done|]. intros (row & Hrow & Ht). by rewrite Hno in Ht.
  - cbn. assert (Hst := with_status_status (data row) new (iso_seconds (clock s))).
    split_and!; [|done| |done|]; [by split; [exists row|]|intros k Hk; by rewrite lookup_insert_ne|].
    intros _. split.
    + exists row. eexists. rewrite lookup_insert_eq. split_and!; [done|done|done|done|].
      cbn. intros f. apply with_status_other.
    + intros new2. unfold document_update_status. cbn. rewrite lookup_insert_eq. cbn.
      rewrite (text_is_status _ new) by done. by rewrite (proj2 (String.eqb_neq _ _) Hne).
Qed.

(** ** What a query returns *)
Section Query.
Context (collate : string → string → bool).
Notation query := (document_query json_text collate).

Definition selects tenant coll fleet where_ (kr : doc_key * Document) : Prop :=
  kr.1 = (tenant, coll, kr.1.2) ∧ fleet_matches fleet kr.2 = true ∧
  Forall (λ kv, text_is (data kr.2) kv.1 kv.2 = true) where_.

Lemma document_query_rows tenant coll fleet where_ order_by desc limit offset s :
  ∃ rows, query tenant coll fleet where_ order_by desc limit offset s =
            (λ kr : doc_key * Document, (kr.1.2, kr.2)) <$> rows ∧
          NoDup rows.*1 ∧
          ∀ kr, kr ∈ rows → documents s !! kr.1 = Some kr.2 ∧ selects tenant coll fleet where_ kr.
Proof.
  unfold document_query. eexists. split; [reflexivity|].
  match goal with |- context [merge_sort _ ?l] => set (rows := l) end.
  assert (Hsub : ∃ l', take limit (drop offset (merge_sort (row_order json_text collate order_by desc) rows))
                       `sublist_of` l' ∧ l' ≡ₚ rows).
  { eexists. split; [etrans; [apply sublist_take|apply sublist_drop]|apply merge_sort_Permutation]. }
  destruct Hsub as (l' & Hl & Hp). split.
  - eapply sublist_NoDup; [|by apply fmap_sublist]. rewrite Hp. unfold rows.
    eapply sublist_NoDup; [apply (NoDup_fst_map_to_list (documents s))|].
    apply fmap_sublist, List_filter_sublist.
  - intros kr Hin. assert (Hr : kr ∈ rows) by (rewrite <- Hp; by eapply elem_of_sublist).
    unfold rows in Hr. apply list_elem_of_In, filter_In in Hr as [Hm Hf].
    apply list_elem_of_In in Hm. destruct kr as [[[t c] i] row].
    apply elem_of_map_to_list in Hm. split; [done|]. unfold selects. cbn in *.
    apply andb_true_iff in Hf as [[[Ht Hc]%andb_true_iff Hfl]%andb_true_iff Hw].
    apply String.eqb_eq in Ht as ->, Hc as ->. split_and!; [done|done|].
    apply Forall_forall. intros kv Hkv. rewrite forallb_forall in Hw. by apply Hw, list_elem_of_In.
Qed.

Lemma document_query_elem tenant coll fleet where_ order_by desc limit offset s id row :
  (id, row) ∈ query tenant coll fleet where_ order_by desc limit offset s →
  documents s !! (tenant, coll, id) = Some row ∧
  Forall (λ kv, text_is (data row) kv.1 kv.2 = true) where_.
Proof.
  destruct (document_query_rows tenant coll fleet where_ order_by desc limit offset s)
    as (rows & -> & _ & Hr).
  intros ([k r] & [= -> ->] & Hin)%list_elem_of_fmap. apply Hr in Hin as (Hk & Heq & _ & Hw).
  cbn in *. by rewrite <- Heq.
Qed.

Lemma document_query_NoDup tenant coll fleet where_ order_by desc limit offset s :
  NoDup (query tenant coll fleet where_ order_by desc limit offset s).*1.
Proof.
  destruct (document_query_rows tenant coll fleet where_ order_by desc limit offset s)
    as (rows & -> & Hnd & Hr).
  rewrite <- list_fmap_compose. induction rows as [|kr rows IH]; [constructor|].
  cbn in *. apply NoDup_cons in Hnd as [Hn Hnd]. apply NoDup_cons. split.
  - intros (kr' & Heq & Hin)%list_elem_of_fmap. apply Hn. cbn in Heq.
    destruct (Hr kr ltac:(left)) as (_ & Hk & _), (Hr kr' ltac:(by right)) as (_ & Hk' & _).
    apply list_elem_of_fmap. exists kr'. split; [congruence|done].
  - apply IH; [done|]. intros kr' Hin. apply Hr. by right.
Qed.
End Query.

(** ** Rejections last *)
Lemma rejection_blocks tenant fleet fp agent days why s s' scan :
  rejected_fingerprints (forge_write_rejected_fingerprint tenant fleet fp agent days why s)
    ⊆ rejected_fingerprints s' →
  fleet_applies fleet scan = true → clock s' < clock s + day_us * days →
  forge_is_fingerprint_poisoned tenant scan fp s' = true.
Proof.
  intros Hsub Hf Hc. unfold forge_is_fingerprint_poisoned. apply existsb_exists.
  eexists. split; [apply list_elem_of_In, Hsub; cbn; apply elem_of_app; right; by left|].
  unfold row_blocks. cbn. rewrite !String.eqb_refl, Hf. cbn. by apply Z.ltb_lt.
Qed.
End Theorems.

(** ** A concrete update *)
Section Witnesses.
Definition ex_text (v : pyval) : string := "?".
Definition ex_iso (t : Z) : string := "now".
Definition ex_row : Document :=
  {| fleet_id := None; data := [("status", PStr "candidate"); ("n", PInt 1)]%string;
     created_at := 0; updated_at := 0 |}.
Definition ex_store : store :=
  set_documents (<[("t", "skills", "a")%string := ex_row]>) empty_store.

Lemma document_update_status_cas_witness :
  (document_update_status ex_text ex_iso "t" "skills" "a" "staged" "candidate" ex_store).1 = true.
Proof.
  assert (Hne : "staged"%string ≠ "candidate"%string) by done.
  pose proof (document_update_status_cas ex_text ex_iso "t" "skills" "a" _ _ ex_store Hne) as H.
  cbn zeta in H. destruct (document_update_status _ _ _ _ _ _ _ ex_store) as [ok s'].
  destruct H as [H _]. apply H. exists ex_row. split; reflexivity.
Defined.
End Witnesses.
End Documents.
