(* ===== verification/Promoter.v ===== *)
(** * The skill promoter (services/skill_promoter.py)

    One tick reads the candidates of a tenant, evaluates the six auto-gates on
    each and moves those that pass to [staged], or to [active] when the tenant
    opted into it and the stamped scan is clean.  The default callables of the
    module, over the document store, are the ones modelled. *)

From S2P Require Import Prelude Sentinel SkillLifecycle Documents.
Import Documents.

Module Promoter.

(** What can escape a tick, or end one status update. *)
Inductive promoter_exn : Type :=
| AlreadyTransitionedError
| RouteRefused
| CallFailed (exc : string)
| StorageRaised (e : storage_error)
| Raised (e : pyexn).

Record PromotionAttempt : Type := {
  doc_id : string;
  promoted : bool;
  attempt_gates : SkillLifecycle.AutoGateResult;
  target_status : option string;
}.

Record PromoterRunResult : Type := {
  scanned : nat;
  n_promoted : nat;
  held : nat;
  auto_approved : nat;
  attempts : list PromotionAttempt;
}.

Section Promoter.
Context (json_text : pyval → string).
Context (collate : string → string → bool).
Context (iso_seconds : Z → string).
(** [datetime.fromisoformat] and [int] of a text, [None] for [ValueError]. *)
Context (fromisoformat : string → option datetime).
Context (int_of_text : string → option Z).

(** ** The default callables *)

(** [is_fingerprint_poisoned]: the check goes to the read prefix. *)
Definition poison_checker (tenant : string) (fleet : option string) (fp : string) :
    io world promoter_exn bool :=
  ask CallFailed false (λ s, Ok (forge_is_fingerprint_poisoned tenant fleet fp s)).

(** [make_db_live_data_fetcher]: [read=False], the primary. *)
Definition live_data_fetcher (tenant collection doc_id : string) : io world promoter_exn pyval :=
  row ← ask CallFailed true (λ s,
          map_err StorageRaised (document_get_by_doc_id tenant collection doc_id [] s));
  mret (match row with Some row => PDict (data row) | None => PNone end).

(** [POST /documents/update-status], with its checks of the body. *)
Definition update_status_route (tenant collection doc_id new_status expected_status : string)
    (s : store) : res promoter_exn bool * store :=
  if existsb (String.eqb "") [tenant; collection; doc_id; new_status; expected_status]
  then (Err RouteRefused, s)
  else let '(ok, s') := document_update_status json_text iso_seconds tenant collection doc_id
                          new_status expected_status s in (Ok ok, s').

(** [make_db_status_updater(expected_status="candidate")] *)
Definition status_updater (tenant collection doc_id new_status : string) : io world promoter_exn unit :=
  ok ← call CallFailed (update_status_route tenant collection doc_id new_status "candidate");
  if ok : bool then mret tt else io_raise AlreadyTransitionedError.

(** ** One candidate *)

(** [int(v)]; [None] for [TypeError] and [ValueError]. *)
Definition int_of (v : pyval) : option Z :=
  match v with
  | PInt z => Some z
  | PBool b => Some (if b then 1 else 0)
  | PFloat q => Some (Z.quot (Qnum q) (Zpos (Qden q)))
  | PStr s => int_of_text s
  | _ => None
  end.

Definition _scan_is_clean (doc : pydict) : bool :=
  let scan := dgetv doc "scan" in
  match if truthy scan then scan else PDict [] with
  | PDict scan =>
      match int_of (default (PInt 0) (dget scan "critical")) with
      | None => false
      | Some critical => py_eqb (dgetv scan "state") (PStr "clean") && (critical =? 0)
      end
  | _ => false
  end.

(** A callable's answer as a gate sees it: the gate catches every exception. *)
Definition exn_name (e : promoter_exn) : string :=
  match e with CallFailed exc => exc | _ => "Exception" end.
Definition answer {A} (m : io world promoter_exn A) : io world promoter_exn (res string A) :=
  io_try m (λ a, mret (Ok a)) (λ e, mret (Err (exn_name e))).

(** The fingerprint the poison gate asks about, and the slug the hash gate
    fetches, when they do. *)
Definition fingerprint_of (doc : pydict) : option string :=
  match dgetv doc "cluster_fingerprint" with
  | PStr fp => if String.eqb fp "" then None else Some fp
  | _ => None
  end.
Definition fetched_slug (doc : pydict) : option string :=
  if negb (py_eqb (PStr "update") (default (PStr "create") (dget doc "kind"))) then None
  else match match dgetv doc "target" with PDict t => dgetv t "target_content_hash" | _ => PNone end,
             dgetv doc "slug" with
       | PStr _, PStr slug => Some slug
       | _, _ => None
       end.

(** [evaluate_auto_gates] with its two calls, in its order. *)
Definition evaluate (tenant : string) (fleet : option string) (doc : pydict) (now : datetime)
    (min_cluster_size min_distinct_agents freshness_window_days : Z) :
    io world promoter_exn SkillLifecycle.AutoGateResult :=
  _ ← io_lift (map_err Raised (SkillLifecycle.get_object doc "origin"));
  poisoned ← match fingerprint_of doc with
             | Some fp => answer (poison_checker tenant fleet fp)
             | None => mret (Ok false)
             end;
  _ ← io_lift (map_err Raised (SkillLifecycle.scan_gate doc));
  live ← match fetched_slug doc with
         | Some slug => answer (live_data_fetcher tenant "skills" slug)
         | None => mret (Ok PNone)
         end;
  io_lift (map_err Raised (SkillLifecycle.evaluate_auto_gates fromisoformat doc now
    (Some (λ _, poisoned)) (Some (λ _, live))
    min_cluster_size min_distinct_agents freshness_window_days)).

Section Tick.
Context (tenant : string) (now : datetime) (auto_promote_clean : bool).
Context (min_cluster_size min_distinct_agents freshness_window_days : Z).

Definition destination (doc : pydict) : string :=
  if auto_promote_clean && _scan_is_clean doc then "active" else "staged".

Definition promote_one (row : string * Document) : io world promoter_exn PromotionAttempt :=
  let '(id, d) := row in
  gs ← evaluate tenant (fleet_id d) (data d) now
         min_cluster_size min_distinct_agents freshness_window_days;
  let hold := {| doc_id := id; promoted := false; attempt_gates := gs; target_status := None |} in
  if SkillLifecycle.promote gs then
    io_try (status_updater tenant "skills" id (destination (data d)))
      (λ _, mret {| doc_id := id; promoted := true; attempt_gates := gs;
                    target_status := Some (destination (data d)) |})
      (λ _, mret hold)
  else mret hold.

Fixpoint promote_all (rows : list (string * Document)) : io world promoter_exn (list PromotionAttempt) :=
  match rows with
  | [] => mret []
  | row :: rows => a ← promote_one row; rest ← promote_all rows; mret (a :: rest)
  end.

Definition candidates (fleet : option string) (limit : nat) (s : store) : list (string * Document) :=
  document_query json_text collate tenant "skills" fleet
    [("status", "candidate"); ("source", "forge")]%string (Some "created_at"%string) false limit 0 s.

Definition is_active (a : PromotionAttempt) : bool :=
  bool_decide (target_status a = Some "active"%string).

Definition promote_pending_candidates (fleet : option string) (limit : nat) :
    io world promoter_exn PromoterRunResult :=
  rows ← ask CallFailed false (λ s, Ok (candidates fleet limit s));
  atts ← promote_all rows;
  let n := length (List.filter promoted atts) in
  mret {| scanned := length atts; n_promoted := n; held := length atts - n;
          auto_approved := length (List.filter is_active atts); attempts := atts |}.
End Tick.
End Promoter.

(** ** The pre-apply hook *)
Record PreApplyVerdict : Type := {
  allow : bool;
  verdict_state : Sentinel.scan_state;
  verdict_findings : list Sentinel.ScanFinding;
}.
Definition rescan_before_apply `{PyText} (now : string) (doc_data : pyval) (body_max description_max : Z) :
    res pyexn PreApplyVerdict :=
  r ← Sentinel.scan_skill_doc doc_data now body_max description_max;
  Ok {| allow := bool_decide (Sentinel.state r = Sentinel.Clean) && negb (Sentinel.any_fatal r);
        verdict_state := Sentinel.state r; verdict_findings := Sentinel.findings r |}.

(** ** What a tick may do to the store *)
Section Theorems.
Context (json_text : pyval → string) (collate : string → string → bool) (iso_seconds : Z → string).
Context (fromisoformat : string → option datetime) (int_of_text : string → option Z).
Context (tenant : string) (now : datetime) (auto_promote_clean : bool).
Context (min_cluster_size min_distinct_agents freshness_window_days : Z).
Notation evaluate := (evaluate fromisoformat).
Notation status_updater := (status_updater json_text iso_seconds).
Notation scan_is_clean := (_scan_is_clean int_of_text).
Notation destination := (destination int_of_text auto_promote_clean).
Notation promote_one := (promote_one json_text iso_seconds fromisoformat int_of_text tenant now
  auto_promote_clean min_cluster_size min_distinct_agents freshness_window_days).
Notation promote_all := (promote_all json_text iso_seconds fromisoformat int_of_text tenant now
  auto_promote_clean min_cluster_size min_distinct_agents freshness_window_days).
Notation candidates := (candidates json_text collate tenant).
Notation tick := (promote_pending_candidates json_text collate iso_seconds fromisoformat int_of_text
  tenant now auto_promote_clean min_cluster_size min_distinct_agents freshness_window_days).

(** A candidate moved to [st]. *)
Definition moved (row : Document) (st : string) (s : store) : Document :=
  {| fleet_id := fleet_id row; data := with_status (data row) st (iso_seconds (clock s));
     created_at := created_at row; updated_at := updated_at row |}.

(** Nothing, or one candidate of the tenant moved. *)
Definition promotion (s s' : store) : Prop :=
  s' = s ∨
  ∃ id row st, documents s !! (tenant, "skills"%string, id) = Some row ∧
    text_is json_text (data row) "status" "candidate" = true ∧
    (st = "staged"%string ∨ st = "active"%string ∧ auto_promote_clean = true) ∧
    s' = set_documents (<[(tenant, "skills"%string, id) := moved row st s]>) s.

(** What an attempt records of its row. *)
Definition verdict (row : string * Document) (a : PromotionAttempt) : Prop :=
  doc_id a = row.1 ∧
  (∃ check fetch, SkillLifecycle.evaluate_auto_gates fromisoformat (data row.2) now check fetch
     min_cluster_size min_distinct_agents freshness_window_days = Ok (attempt_gates a)) ∧
  if promoted a then
    SkillLifecycle.promote (attempt_gates a) = true ∧
    (target_status a = Some "staged"%string ∨
     target_status a = Some "active"%string ∧ auto_promote_clean = true ∧
     scan_is_clean (data row.2) = true)
  else target_status a = None.

Lemma destination_cases d :
  destination d = "staged"%string ∨
  destination d = "active"%string ∧ auto_promote_clean = true ∧ scan_is_clean d = true.
Proof.
  unfold Promoter.destination. destruct auto_promote_clean, (scan_is_clean d); cbn; auto.
Qed.

Lemma update_route_promotion id st s :
  (st = "staged"%string ∨ st = "active"%string ∧ auto_promote_clean = true) →
  promotion s (update_status_route json_text iso_seconds tenant "skills" id st "candidate" s).2.
Proof.
  intros Hst. unfold update_status_route. destruct (existsb _ _); [by left|].
  destruct (update_status_cases json_text iso_seconds tenant "skills" id st "candidate" s)
    as [[-> _]|(row & Hrow & Ht & ->)]; [by left|right]. by exists id, row, st.
Qed.

(** For an invariant of the store that a promotion keeps. *)
Section Specs.
Context (I : store → Prop) (HI : ∀ s s', promotion s s' → I s → I s').
Notation spec := (io_spec (safe I promotion)).

Lemma answer_spec {A} (m : io world promoter_exn A) :
  spec m (λ _, True) → spec (answer m) (λ _, True).
Proof. intros Hm. eapply io_spec_try; [exact Hm|..]; intros; by apply io_spec_ret. Qed.

Lemma poison_checker_spec fleet fp : spec (poison_checker tenant fleet fp) (λ _, True).
Proof. by apply ask_spec. Qed.
Lemma live_data_fetcher_spec coll id : spec (live_data_fetcher tenant coll id) (λ _, True).
Proof. eapply io_spec_bind; [by apply (ask_spec _ _ _ _ _ (λ _, True))|]. intros; by apply io_spec_ret. Qed.

Lemma evaluate_spec fleet doc :
  spec (evaluate tenant fleet doc now min_cluster_size min_distinct_agents freshness_window_days)
    (λ g, ∃ check fetch, SkillLifecycle.evaluate_auto_gates fromisoformat doc now check fetch
            min_cluster_size min_distinct_agents freshness_window_days = Ok g).
Proof.
  unfold Promoter.evaluate.
  eapply (io_spec_bind _ _ _ (λ _, True)); [by apply io_spec_lift|intros _ _].
  eapply (io_spec_bind _ _ _ (λ _, True)).
  { destruct (fingerprint_of doc); [apply answer_spec, poison_checker_spec|by apply io_spec_ret]. }
  intros poisoned _. eapply (io_spec_bind _ _ _ (λ _, True)); [by apply io_spec_lift|intros _ _].
  eapply (io_spec_bind _ _ _ (λ _, True)).
  { destruct (fetched_slug doc); [apply answer_spec, live_data_fetcher_spec|by apply io_spec_ret]. }
  intros live _. apply io_spec_lift. intros g Hg.
  destruct (SkillLifecycle.evaluate_auto_gates _ _ _ _ _ _ _ _) as [g'|e] eqn:He; [|done].
  injection Hg as <-. by eexists _, _.
Qed.

Lemma status_updater_spec id st :
  (st = "staged"%string ∨ st = "active"%string ∧ auto_promote_clean = true) →
  spec (status_updater tenant "skills" id st) (λ _, True).
Proof.
  intros Hst. eapply (io_spec_bind _ _ _ (λ _, True)).
  - apply call_spec. intros s Hs. pose proof (update_route_promotion id st s Hst) as Hp.
    split_and!; [by eapply HI|done|done].
  - intros [|] _; [by apply io_spec_ret|apply io_spec_raise].
Qed.

Lemma promote_one_spec row : spec (promote_one row) (verdict row).
Proof.
  destruct row as [id d]. eapply io_spec_bind; [apply evaluate_spec|]. cbn. intros g Hg.
  destruct (SkillLifecycle.promote g) eqn:Hp; [|by apply io_spec_ret; split_and!].
  pose proof (destination_cases (data d)) as Hd.
  eapply (io_spec_try _ _ _ _ (λ _, True)).
  - apply status_updater_spec. naive_solver.
  - intros _ _. apply io_spec_ret. split_and!; [done|done|]. cbn.
    split; [done|]. destruct Hd as [->|(-> & ? & ?)]; auto.
  - intros e. apply io_spec_ret. by split_and!.
Qed.

Lemma promote_all_spec rows : spec (promote_all rows) (Forall2 verdict rows).
Proof.
  induction rows as [|row rows IH]; [apply io_spec_ret; constructor|].
  eapply io_spec_bind; [apply promote_one_spec|]. intros a Ha.
  eapply io_spec_bind; [apply IH|]. intros rest Hr. apply io_spec_ret. by constructor.
Qed.

Lemma active_promoted rows atts :
  Forall2 verdict rows atts →
  (length (List.filter is_active atts) ≤ length (List.filter promoted atts))%nat ∧
  (length (List.filter promoted atts) ≤ length atts)%nat.
Proof.
  induction 1 as [|row a rows atts (_ & _ & Ha) _ IH]; [done|]. cbn. unfold is_active at 1.
  destruct (promoted a); [|rewrite Ha, bool_decide_false by done]; [|cbn; lia].
  destruct (bool_decide _); cbn; lia.
Qed.

Lemma tick_spec fleet limit :
  spec (tick fleet limit) (λ r,
    (n_promoted r + held r)%nat = scanned r ∧ (auto_approved r ≤ n_promoted r)%nat ∧
    scanned r = length (attempts r) ∧ ∃ rows, Forall2 verdict rows (attempts r)).
Proof.
  eapply (io_spec_bind _ _ _ (λ _, True)); [by apply ask_spec|]. intros rows _.
  eapply io_spec_bind; [apply promote_all_spec|]. intros atts Ha. apply io_spec_ret. cbn.
  destruct (active_promoted _ _ Ha). split_and!; [lia|done|done|by exists rows].
Qed.
End Specs.


(** ** A tick that runs alone *)

(** Calls that leave a quiet world as it is. *)
Definition same_if_quiet (w w' : world) : Prop := schedule w = [] → w' = w.
#[local] Instance same_if_quiet_preorder : PreOrder same_if_quiet.
Proof.
  split; [by intros w|]. intros w1 w2 w3 R1 R2 Hq. rewrite (R2 (eq_ind_r (λ w, schedule w = []) Hq (R1 Hq))).
  by apply R1.
Qed.

Lemma ask_quiet {A} primary (f : store → res promoter_exn A) : io_keeps same_if_quiet (ask CallFailed primary f).
Proof. intros w Hq. unfold ask, next_turn. destruct w. cbn in *. by subst. Qed.

Lemma answer_quiet {A} (m : io world promoter_exn A) :
  io_keeps same_if_quiet m → io_keeps same_if_quiet (answer m).
Proof. intros Hm w. specialize (Hm w). unfold answer, io_try. by destruct (m w) as [[a|e] w1]. Qed.

Lemma evaluate_quiet fleet doc :
  io_keeps same_if_quiet
    (evaluate tenant fleet doc now min_cluster_size min_distinct_agents freshness_window_days).
Proof.
  unfold Promoter.evaluate.
  repeat (apply io_keeps_bind; [apply _|..|intros ?]); try apply io_keeps_lift; try apply _.
  - destruct (fingerprint_of doc); [apply answer_quiet, ask_quiet|apply io_keeps_ret; apply _].
  - destruct (fetched_slug doc); [apply answer_quiet|apply io_keeps_ret; apply _].
    apply io_keeps_bind; [apply _|apply ask_quiet|intros ?; apply io_keeps_ret; apply _].
Qed.

Lemma status_updater_quiet id st w row :
  schedule w = [] → tenant ≠ ""%string → id ≠ ""%string → st ≠ ""%string →
  documents (db w) !! (tenant, "skills"%string, id) = Some row →
  text_is json_text (data row) "status" "candidate" = true →
  ∃ w', status_updater tenant "skills" id st w = (Ok tt, w') ∧ schedule w' = [] ∧
    documents (db w') = <[(tenant, "skills"%string, id) := moved row st (db w)]> (documents (db w)).
Proof.
  intros Hq Ht Hid Hst Hrow Hc. apply String.eqb_neq in Ht, Hid, Hst. rewrite String.eqb_sym in Ht, Hid, Hst.
  unfold Promoter.status_updater, mbind, io_bind, call, next_turn. rewrite Hq. cbn [head default fate quiet others tail].
  unfold update_status_route. cbn [existsb]. rewrite Ht, Hid, Hst. cbn.
  unfold document_update_status. rewrite Hrow, Hc. cbn. by eexists.
Qed.

(** The documents of the rows a tick still has to visit. *)
Definition pending (w : world) (rows : list (string * Document)) : Prop :=
  Forall (λ r, r.1 ≠ ""%string ∧ documents (db w) !! (tenant, "skills"%string, r.1) = Some r.2 ∧
               text_is json_text (data r.2) "status" "candidate" = true) rows.

(** What a quiet tick leaves behind for one attempt. *)
Definition settled (w : world) (a : PromotionAttempt) : Prop :=
  promoted a = SkillLifecycle.promote (attempt_gates a) ∧
  (promoted a = true → ∃ row st, documents (db w) !! (tenant, "skills"%string, doc_id a) = Some row ∧
     target_status a = Some st ∧ st ≠ "candidate"%string ∧ dget (data row) "status" = Some (PStr st)).

Lemma promote_one_quiet id d w a w' :
  schedule w = [] → tenant ≠ ""%string → pending w [(id, d)] → promote_one (id, d) w = (Ok a, w') →
  schedule w' = [] ∧ doc_id a = id ∧ settled w' a ∧
  ∀ k, k ≠ (tenant, "skills"%string, id) → documents (db w') !! k = documents (db w) !! k.
Proof.
  intros Hq Ht Hp Ha. apply Forall_cons in Hp as [(Hid & Hrow & Hc) _]. cbn in *.
  apply io_bind_Ok in Ha as (gs & w1 & Hg & Ha).
  pose proof (evaluate_quiet (fleet_id d) (data d) w Hq) as Hw1. rewrite Hg in Hw1. cbn in Hw1. subst w1.
  destruct (SkillLifecycle.promote gs) eqn:Hpr.
  2: { injection Ha as <- <-. split_and!; [done|done| |done]. by split. }
  pose proof (destination_cases (data d)) as Hd.
  assert (Hst : destination (data d) ≠ ""%string ∧ destination (data d) ≠ "candidate"%string)
    by (destruct Hd as [->|(-> & _)]; done).
  destruct Hst as [Hst Hstc].
  destruct (status_updater_quiet id (destination (data d)) w d Hq Ht Hid Hst Hrow Hc) as (w2 & Hu & Hq2 & Hdb).
  unfold io_try in Ha. rewrite Hu in Ha. injection Ha as <- <-. split_and!; [done|done| |].
  - split; [done|]. intros _. cbn. rewrite Hdb, lookup_insert_eq. eexists _, _. split_and!; [done|done|done|].
    apply with_status_status.
  - intros k Hk. rewrite Hdb. by apply lookup_insert_ne.
Qed.

Lemma settled_other w w' a id :
  settled w a → doc_id a ≠ id →
  (∀ k, k ≠ (tenant, "skills"%string, id) → documents (db w') !! k = documents (db w) !! k) → settled w' a.
Proof.
  intros [Hp Hs] Hne Hk. split; [done|]. intros Hpr. rewrite Hk by congruence. by apply Hs.
Qed.

Lemma promote_all_quiet rows w atts w' :
  schedule w = [] → tenant ≠ ""%string → NoDup rows.*1 → pending w rows →
  promote_all rows w = (Ok atts, w') →
  Forall (settled w') atts ∧ doc_id <$> atts = rows.*1 ∧
  ∀ k, (∀ id, id ∈ rows.*1 → k ≠ (tenant, "skills"%string, id)) →
       documents (db w') !! k = documents (db w) !! k.
Proof.
  revert w atts. induction rows as [|[id d] rows IH]; intros w atts Hq Ht Hnd Hp Ha.
  { injection Ha as <- <-. split_and!; [constructor|done|done]. }
  apply io_bind_Ok in Ha as (a & w1 & Ha & Hr). apply io_bind_Ok in Hr as (rest & w2 & Hr & Heq).
  injection Heq as <- <-. apply Forall_cons in Hp as [Hp1 Hp]. apply NoDup_cons in Hnd as [Hn Hnd].
  destruct (promote_one_quiet id d w a w1) as (Hq1 & Hida & Hs & Hk1); [done|done|by constructor|done|].
  destruct (IH w1 rest Hq1 Ht Hnd) as (Hrest & Hids & Hk2); [|done|].
  { unfold pending in *. rewrite Forall_forall in Hp |- *. intros [id' d'] Hin.
    destruct (Hp _ Hin) as (? & Hrow & ?). split_and!; [done| |done]. cbn in *. rewrite Hk1; [done|].
    intros [= ->]. apply Hn, list_elem_of_fmap. by exists (id, d'). }
  split_and!.
  - constructor; [|done]. split; [apply Hs|]. intros Hpr.
    rewrite Hk2; [by apply Hs|]. intros id' Hin. rewrite Hida. intros [= ->]. done.
  - cbn. by rewrite Hida, Hids.
  - intros k Hk. rewrite Hk2, Hk1; [done| |]; [apply Hk; by left|]. intros id' Hin. apply Hk. by right.
Qed.

(** A tick that runs alone promotes exactly the candidates that pass the
    gates, and is idempotent: each promoted document then has its target
    status, and no later tick's query returns it. *)
Theorem promote_pending_candidates_alone fleet limit w :
  schedule w = [] → tenant ≠ ""%string → documents (db w) !! (tenant, "skills"%string, ""%string) = None →
  let '(r, w') := tick fleet limit w in
  ∀ res, r = Ok res →
    doc_id <$> attempts res = (candidates fleet limit (db w)).*1 ∧
    Forall (λ a, promoted a = SkillLifecycle.promote (attempt_gates a)) (attempts res) ∧
    ∀ a fleet' limit', a ∈ attempts res → promoted a = true →
      (∃ row st, documents (db w') !! (tenant, "skills"%string, doc_id a) = Some row ∧
         target_status a = Some st ∧ dget (data row) "status" = Some (PStr st)) ∧
      doc_id a ∉ (candidates fleet' limit' (db w')).*1.
Proof.
  intros Hq Ht Hno. destruct (tick fleet limit w) as [r w'] eqn:Hr. intros res ->.
  apply io_bind_Ok in Hr as (rows & w1 & Hrows & Hr). apply io_bind_Ok in Hr as (atts & w2 & Ha & Heq).
  injection Heq as <- <-. cbn [attempts].
  pose proof (ask_quiet false (λ s, Ok (candidates fleet limit s)) w Hq) as Hw1.
  rewrite Hrows in Hw1. cbn in Hw1. subst w1.
  assert (Hr : rows = candidates fleet limit (db w)).
  { revert Hrows. unfold ask, next_turn. rewrite Hq. cbn. by intros [= <-]. }
  destruct (promote_all_quiet rows w atts w2 Hq Ht) as (Hs & Hids & _); [|  |done|].
  { rewrite Hr. apply document_query_NoDup. }
  { apply Forall_forall. intros [id d] Hin. rewrite Hr in Hin.
    apply document_query_elem in Hin as [Hrow Hw]. apply Forall_cons in Hw as [Hc _]. cbn in *.
    split_and!; [|done|done]. by intros ->; rewrite Hno in Hrow. }
  split_and!; [by rewrite Hids, Hr|eapply Forall_impl; [exact Hs|]; by intros a []|].
  intros a fleet' limit' Hin Hp. rewrite Forall_forall in Hs. destruct (Hs a Hin) as [_ Hset].
  destruct (Hset Hp) as (row & st & Hrow & Htgt & Hne & Hst). split; [by exists row, st|].
  intros ([id d] & Hid & Hq')%list_elem_of_fmap. apply document_query_elem in Hq' as [Hrow' Hw].
  cbn in Hid. subst id. rewrite Hrow in Hrow'. injection Hrow' as <-.
  apply Forall_cons in Hw as [Hc _]. cbn in Hc. rewrite (text_is_status _ _ st) in Hc by done.
  by apply String.eqb_eq in Hc.
Qed.
End Theorems.

(** ** Concrete ticks *)
Section Witnesses.
Definition ex_data : pydict :=
  SkillLifecycle.ex_candidate ++
  [("status", PStr "candidate"); ("source", PStr "forge"); ("created_at", PStr "now")]%string.
Definition ex_doc : Document := {| fleet_id := None; data := ex_data; created_at := 0; updated_at := 0 |}.
Definition ex_world (schedule : list turn) : world :=
  {| db := set_documents (<[("t", "skills", "forge/a")%string := ex_doc]>) empty_store;
     schedule := schedule; own_writes := [] |}.
Definition ex_collate (a b : string) : bool := true.
Definition ex_int (s : string) : option Z := None.
Definition ex_tick (auto : bool) (w : world) : res promoter_exn PromoterRunResult * world :=
  promote_pending_candidates ex_text ex_collate ex_iso SkillLifecycle.ex_iso ex_int "t"
    (DateTime 0 (Some 0)) auto 3 3 14 None 50 w.

(** Before the third call another writer stages the candidate. *)
Definition ex_race : list turn :=
  [quiet; quiet;
   {| others := λ s, (document_update_status ex_text ex_iso "t" "skills" "forge/a" "staged" "candidate" s).2;
      lag := λ s, s; fate := Delivered |}].

Definition summary (r : res promoter_exn PromoterRunResult) : option (nat * nat * nat * list (option string)) :=
  match r with
  | Ok r => Some (scanned r, n_promoted r, held r, target_status <$> attempts r)
  | Err _ => None
  end.
Example ex_alone : summary (ex_tick true (ex_world [])).1 = Some (1, 1, 0, [Some "active"%string])%nat.
Proof. by vm_compute. Qed.
Example ex_raced : summary (ex_tick true (ex_world ex_race)).1 = Some (1, 0, 1, [None])%nat.
Proof. by vm_compute. Qed.

Definition ex_lone_result : PromoterRunResult := Eval vm_compute in
  match (ex_tick true (ex_world [])).1 with
  | Ok r => r
  | Err _ => {| scanned := 0; n_promoted := 0; held := 0; auto_approved := 0; attempts := [] |}
  end.
Lemma ex_lone_run : (ex_tick true (ex_world [])).1 = Ok ex_lone_result.
Proof. by vm_compute. Qed.
Definition ex_raced_result : PromoterRunResult := Eval vm_compute in
  match (ex_tick true (ex_world ex_race)).1 with
  | Ok r => r
  | Err _ => {| scanned := 0; n_promoted := 0; held := 0; auto_approved := 0; attempts := [] |}
  end.
Lemma ex_raced_run : (ex_tick true (ex_world ex_race)).1 = Ok ex_raced_result.
Proof. by vm_compute. Qed.


Lemma promote_pending_candidates_alone_witness :
  schedule (ex_world []) = [] ∧
  Forall (λ a, promoted a = SkillLifecycle.promote (attempt_gates a)) (attempts ex_lone_result).
Proof.
  split; [reflexivity|].
  assert (Ht : "t"%string ≠ ""%string) by discriminate.
  pose proof (promote_pending_candidates_alone ex_text ex_collate ex_iso SkillLifecycle.ex_iso ex_int "t"
    (DateTime 0 (Some 0)) true 3 3 14 None 50 (ex_world []) eq_refl Ht eq_refl) as H.
  pose proof ex_lone_run as Hr. unfold ex_tick in Hr.
  destruct (promote_pending_candidates _ _ _ _ _ _ _ _ _ _ _ _ _ _) as [r w']. cbn [fst] in Hr.
  exact (proj1 (proj2 (H _ Hr))).
Defined.
End Witnesses.
End Promoter.
