(* ===== verification/SkillStore.v ===== *)
(** * The skill store as a whole

    Forge, the promoter and the five Inbox actions over one document store
    (the wiring of services/forge/cron_handler.py), each a client among the
    others: what all of them keep, whatever their interleaving. *)

From S2P Require Import Prelude Sentinel SkillLifecycle SessionTrace Forge Documents Promoter Inbox.
Import Documents.

Module SkillStore.

(** ** The callables the cron tick wires *)
Section Wiring.
Context (tenant : string) (fleet : option string).
(** The memory contents the storage service returns for some ids, and the
    language model's answer to a prompt. *)
Context (memory_contents : store → list string → res Forge.forge_exn (list (string * string))).
Context (llm : string → res Forge.forge_exn string).

Definition lost (exc : string) : Forge.forge_exn := Forge.Unexpected (OtherExc exc).

Definition _make_memory_fetcher (ids : list string) : io world Forge.forge_exn (list (string * string)) :=
  match ids with [] => mret [] | _ => ask lost false (λ s, memory_contents s ids) end.
Definition _make_poison_checker (fp : string) : io world Forge.forge_exn bool :=
  ask lost false (λ s, Ok (forge_is_fingerprint_poisoned tenant fleet fp s)).

(** The candidate as the body of [POST /documents]. *)
Definition storage_raised (e : storage_error) : Forge.forge_exn := Forge.Unexpected (OtherExc "HTTPStatusError").
Definition _make_candidate_writer (doc : pydict) : io world Forge.forge_exn unit :=
  _ ← call lost (λ s,
        let '(r, s') := document_upsert (Forge.text_at doc "tenant_id") (Forge.text_at doc "collection")
                          (Forge.text_at doc "doc_id") (default [] (as_dict (dgetv doc "data")))
                          (as_str (dgetv doc "fleet_id")) false s in
        (map_err storage_raised r, s'));
  mret tt.
Definition _make_status_checker (tenant_id collection doc_id : string) : io world Forge.forge_exn pyval :=
  doc ← ask lost false (λ s,
          map_err storage_raised (document_get_by_doc_id tenant_id collection doc_id [] s));
  mret (match doc with Some row => dgetv (data row) "status" | None => PNone end).

Definition wired : Forge.Callables world :=
  {| Forge.llm_fn := λ prompt, ask lost false (λ _, llm prompt);
     Forge.memory_fetcher := _make_memory_fetcher;
     Forge.poison_checker := _make_poison_checker;
     Forge.candidate_writer := _make_candidate_writer;
     Forge.status_checker := Some _make_status_checker |}.
End Wiring.

(** ** Every writer of skills as an action *)
Inductive skill_action : Type :=
| ApproveSkill (auth : Inbox.AuthContext) (slug : string)
| RejectSkill (auth : Inbox.AuthContext) (slug reason : string) (cooloff_days : option Z)
| QuarantineSkill (auth : Inbox.AuthContext) (slug reason : string)
| DeferSkill (auth : Inbox.AuthContext) (slug : string) (reason : option string)
| EditSkill (auth : Inbox.AuthContext) (slug : string) (body : Inbox.EditRequest)
| PromoterTick (tenant : string) (now : datetime) (auto_promote_clean : bool)
    (min_cluster_size min_distinct_agents freshness_window_days : Z)
    (fleet : option string) (limit : nat)
| ForgeRun (cfg : Forge.ForgeConfig) (tenant : string) (fleet : option string)
    (window_start window_end : datetime) (run_label : string).

Section Store.
Context `{PyText}.
Context (sha256_hex : string → string) (render : Sentinel.finding_msg → string).
Context (iso_seconds : Z → string) (py_str : pyval → string) (json_text : pyval → string).
Context (collate : string → string → bool) (fromisoformat : string → option datetime).
Context (int_of_text : string → option Z) (isoformat : datetime → string).
Context (json_loads raw_decode : string → option pyval).
Context (settings : string → Inbox.FactorySettings).
(** The traces of a tenant, and the wiring's own parameters. *)
Context (traces_of : string → option string → store → res Forge.forge_exn (list SessionTrace.SessionTraceRow)).
Context (memory_contents : store → list string → res Forge.forge_exn (list (string * string))).
Context (llm : string → res Forge.forge_exn string).

Definition forge_run (cfg : Forge.ForgeConfig) (tenant : string) (fleet : option string)
    (window_start window_end : datetime) (run_label : string) :
    io world Forge.forge_exn Forge.ForgeRunResult :=
  Forge.run_forge_distill sha256_hex isoformat render json_loads raw_decode
    (λ w, iso_seconds (clock (db w))) (λ w, DateTime (clock (db w)) (Some 0))
    (wired tenant fleet memory_contents llm) cfg (ask lost false (traces_of tenant fleet))
    tenant fleet window_start window_end run_label.

(** The world as a fresh client finds it. *)
Definition as_client (w : world) : world :=
  {| db := db w; schedule := schedule w; own_writes := [] |}.

Definition perform (a : skill_action) (w : world) : world :=
  let w := as_client w in
  match a with
  | ApproveSkill auth slug => (Inbox.approve render iso_seconds settings auth slug w).2
  | RejectSkill auth slug reason cooloff =>
      (Inbox.reject iso_seconds settings auth slug reason cooloff w).2
  | QuarantineSkill auth slug reason => (Inbox.quarantine iso_seconds settings auth slug reason w).2
  | DeferSkill auth slug reason => (Inbox.defer iso_seconds settings auth slug reason w).2
  | EditSkill auth slug body =>
      (Inbox.edit sha256_hex render iso_seconds py_str settings auth slug body w).2
  | PromoterTick tenant now auto ms ma fw fleet limit =>
      (Promoter.promote_pending_candidates json_text collate iso_seconds fromisoformat int_of_text
         tenant now auto ms ma fw fleet limit w).2
  | ForgeRun cfg tenant fleet ws we label => (forge_run cfg tenant fleet ws we label w).2
  end.
Definition perform_all (actions : list skill_action) (w : world) : world :=
  foldl (λ w a, perform a w) w actions.

(** ** The invariant *)

(** The data scans clean, under some caps. *)
Definition vetted (d : pydict) : Prop :=
  ∃ now body_max description_max scan,
    Sentinel.scan_skill_doc (PDict d) now body_max description_max = Ok scan ∧
    Sentinel.state scan = Sentinel.Clean.

(** On the way to being served, or served. *)
Definition live_statuses : list string := ["candidate"; "staged"; "active"]%string.
Definition live (d : pydict) : Prop :=
  ∃ st, st ∈ live_statuses ∧ text_is json_text d "status" st = true.

Definition vetted_store (s : store) : Prop :=
  ∀ tenant id row, documents s !! (tenant, Inbox.SKILLS_COLLECTION, id) = Some row →
    live (data row) → vetted (data row).

Lemma vetted_ext d d' :
  (∀ k, k ∈ Inbox.scan_keys → dgetv d k = dgetv d' k) → vetted d → vetted d'.
Proof.
  intros Hk (now & b & m & scan & Hs & Hc). exists now, b, m, scan. split; [|done].
  by rewrite <- (Inbox.scan_ext d d').
Qed.

Lemma live_status d st : st ∈ live_statuses → dgetv d "status" = PStr st → live d.
Proof. intros Hin Hd. exists st. split; [done|]. unfold text_is, astext. rewrite Hd. apply String.eqb_refl. Qed.

Lemma not_live d st : st ∉ live_statuses → dgetv d "status" = PStr st → ¬ live d.
Proof.
  intros Hn Hd (st' & Hin & Ht). unfold text_is, astext in Ht. rewrite Hd in Ht.
  apply String.eqb_eq in Ht as ->. done.
Qed.

Lemma put_vetted tenant slug fleet d s :
  (live d → vetted d) → vetted_store s → vetted_store (Inbox.put tenant slug fleet d s).
Proof.
  intros Hd Hs t id row. unfold Inbox.put, document_upsert. cbn [system_managed negb].
  destruct (system_managed _ _); cbn; [apply Hs|].
  intros [[_ <-]|[_ Hrow]]%lookup_insert_Some; [exact Hd|by eapply Hs].
Qed.

Lemma seen_vetted tenant slug doc :
  Inbox.seen vetted_store tenant slug doc → live (data doc) → vetted (data doc).
Proof. intros (s & Hs & Hrow). by eapply Hs. Qed.

(** ** Each action keeps it *)
Lemma approval_vetted auth slug s s' :
  Inbox.approval render settings auth slug s s' → vetted_store s → vetted_store s'.
Proof.
  intros (tenant & fleet & d & _ & -> & (_ & (now & scan & Hs & Hc & _) & _)). apply put_vetted.
  intros _. by eexists _, _, _, _.
Qed.

Lemma poisoning_vetted auth reason cooloff tenant fleet fp s s' :
  Inbox.poisoning settings auth reason cooloff tenant fleet fp s s' → vetted_store s → vetted_store s'.
Proof. by intros (_ & _ & _ & ->). Qed.

Lemma flipped_vetted slug reason tenant fleet s s' :
  Inbox.flipped slug reason vetted_store tenant fleet s s' → vetted_store s → vetted_store s'.
Proof.
  intros (doc & now & _ & _ & _ & ->). apply put_vetted. intros Hl. exfalso. revert Hl.
  apply (not_live _ "rejected"); [literals|]. unfold dgetv. by rewrite Inbox.transition_status by literals.
Qed.

Lemma quarantined_vetted auth slug reason s s' :
  Inbox.quarantined settings vetted_store auth slug reason s s' → vetted_store s → vetted_store s'.
Proof.
  intros (tenant & doc & now & _ & _ & _ & ->). apply put_vetted. intros Hl. exfalso. revert Hl.
  apply (not_live _ "quarantined"); [literals|]. unfold dgetv. by rewrite Inbox.transition_status by literals.
Qed.

Lemma deferral_vetted auth slug reason s s' :
  Inbox.deferral settings vetted_store auth slug reason s s' → vetted_store s → vetted_store s'.
Proof.
  intros (tenant & doc & now & _ & Hseen & (st & Hst & Hd) & ->). apply put_vetted. intros _.
  eapply vetted_ext; [|eapply seen_vetted, (live_status _ st); [exact Hseen| |exact Hd]].
  - intros k Hk. unfold Inbox.deferred_data.
    assert (Hne : k ≠ "deferred_at"%string ∧ k ≠ "defer_reason"%string ∧ k ≠ "updated_at"%string)
      by (split_and!; literals).
    destruct Hne as (H1 & H2 & H3). destruct reason as [r|]; [destruct (String.eqb r "")|];
      by rewrite ?Inbox.dgetv_dset_ne.
  - literals.
Qed.

Lemma revision_vetted auth slug body s s' :
  Inbox.revision sha256_hex render settings vetted_store auth slug body s s' →
  vetted_store s → vetted_store s'.
Proof.
  intros (tenant & doc & fleet & d & _ & _ & _ & _ & -> & Hed). apply put_vetted. intros Hl.
  destruct (Inbox.ed_scan _ _ _ _ _ _ _ Hed) as (now & scan & Hs & _ & _ & [[Hc _]|[_ Hq]]).
  - by eexists _, _, _, _.
  - exfalso. revert Hl. apply (not_live _ "quarantined"); [literals|done].
Qed.

Lemma promotion_vetted tenant auto s s' :
  Promoter.promotion json_text iso_seconds tenant auto s s' → vetted_store s → vetted_store s'.
Proof.
  intros [->|(id & row & st & Hrow & Hc & Hst & ->)] Hs; [done|].
  intros t i row'. cbn. intros [[_ <-]|[_ Hrow']]%lookup_insert_Some; [|by eapply Hs]. intros _.
  eapply vetted_ext; [|eapply Hs; [exact Hrow|]].
  - intros k Hk. cbn. unfold dgetv.
    assert (k ≠ "status"%string ∧ k ≠ "staged_at"%string ∧ k ≠ "active_at"%string) as (? & ? & ?)
      by (split_and!; literals).
    rewrite with_status_other; [done|done|]. by destruct Hst as [->|[-> _]].
  - exists "candidate"%string. split; [literals|done].
Qed.

(** ** Forge *)
Definition kept (w w' : world) : Prop := rely vetted_store w → rely vetted_store w'.
#[local] Instance kept_preorder : PreOrder kept.
Proof. split; [intros w Hw; exact Hw|intros w1 w2 w3 R1 R2 Hw; exact (R2 (R1 Hw))]. Qed.

Lemma does_kept {E A} (m : io world E A) R : does vetted_store m R → io_keeps kept m.
Proof. intros Hm w Hw. by apply Hm. Qed.
Lemma ask_kept {E A} (f : string → E) primary (g : store → res E A) : io_keeps kept (ask f primary g).
Proof. apply (does_kept _ (reads (λ _, True))). by apply reads_ask. Qed.

Section ForgeRun.
Context (cfg : Forge.ForgeConfig) (tenant : string) (fleet : option string) (run_label : string)
  (window_end : datetime).
Notation fns := (wired tenant fleet memory_contents llm).
Notation now_iso := (λ w : world, iso_seconds (clock (db w))).
Notation distill := (Forge._distill_cluster sha256_hex isoformat render json_loads raw_decode now_iso fns).
Notation step := (Forge.forge_cluster sha256_hex isoformat render json_loads raw_decode now_iso fns).

Lemma distill_kept cl : io_keeps kept (distill cfg tenant fleet run_label window_end cl).
Proof.
  unfold Forge._distill_cluster.
  repeat (apply io_keeps_bind; [apply _|..|intros ?]);
    try apply io_keeps_lift; try apply io_keeps_read; try apply io_keeps_ret; try apply _.
  - cbn. unfold _make_memory_fetcher. case_match; [apply io_keeps_ret; apply _|apply ask_kept].
  - apply ask_kept.
  - apply ask_kept.
Qed.

(** What Forge writes is quarantined or scanned clean. *)
Lemma distilled_vetted cl w doc w' :
  distill cfg tenant fleet run_label window_end cl w = (Ok doc, w') →
  ∃ id d, Forge.text_at doc "tenant_id" = tenant ∧ Forge.text_at doc "collection" = Inbox.SKILLS_COLLECTION ∧
    Forge.text_at doc "doc_id" = id ∧ dgetv doc "data" = PDict d ∧ (live d → vetted d).
Proof.
  intros (parsed & now & d & _ & Hs & ->)%Forge.distill_steps. exists ("forge/" ++ Forge.text_at parsed "slug")%string, d.
  split_and!; [done..|]. pose proof (Forge.scanned_data_Ok sha256_hex render json_loads raw_decode _ _ _ _ Hs) as (Hk & _).
  unfold Forge.scanned_data in Hs.
  destruct (Sentinel.scan_skill_doc _ _ _ _) as [scan|] eqn:Hscan; [|done].
  apply raise_if_Ok in Hs as [_ Hs]. injection Hs as Hs.
  case_bool_decide as Hq.
  - intros Hl. exfalso. revert Hl. apply (not_live _ "quarantined"); [literals|].
    by subst d.
  - intros _. eapply (vetted_ext (Forge.candidate_data _ _ _ _ _ _ _ _ _)); cycle 1.
    + eexists now, _, _, scan. split; [exact Hscan|].
      apply Sentinel.scan_skill_doc_dict in Hscan as (fs & _ & ->). revert Hq.
      unfold Sentinel.summarize. cbn. by destruct (existsb _ _ || _).
    + intros k Hin. unfold dgetv. rewrite Hk; [done|literals].
Qed.

Lemma writer_kept doc id d :
  Forge.text_at doc "tenant_id" = tenant → Forge.text_at doc "collection" = Inbox.SKILLS_COLLECTION →
  Forge.text_at doc "doc_id" = id → dgetv doc "data" = PDict d → (live d → vetted d) →
  io_keeps kept (_make_candidate_writer doc).
Proof.
  intros Ht Hc Hi Hd Hv. apply io_keeps_bind; [apply _| |intros ?; apply io_keeps_ret; apply _].
  apply (does_kept _ (λ _ _, True)). apply does_call. intros s Hs. split; [|done].
  rewrite Ht, Hc, Hi, Hd. cbn [as_dict default from_option].
  pose proof (put_vetted tenant id (as_str (dgetv doc "fleet_id")) d s Hv Hs) as Hp.
  unfold Inbox.put in Hp. by destruct (document_upsert _ _ _ _ _ _ s).
Qed.

Lemma status_checker_kept t coll id : io_keeps kept (_make_status_checker t coll id).
Proof. apply io_keeps_bind; [apply _|apply ask_kept|]. intros ?. apply io_keeps_ret. apply _. Qed.

Lemma step_kept cl w : kept w (step cfg tenant fleet run_label window_end cl w).2.
Proof.
  unfold Forge.forge_cluster. pose proof (distill_kept cl w) as Hk.
  destruct (distill cfg tenant fleet run_label window_end cl w) as [[doc|e] w1] eqn:Hd; cbn [snd] in Hk.
  2: by destruct e.
  apply distilled_vetted in Hd as (id & d & Ht & Hc & Hi & Hdata & Hv). etrans; [exact Hk|].
  assert (Hg : kept w1 (Forge.guard fns tenant doc w1).2).
  { unfold Forge.guard. cbn [Forge.status_checker wired].
    pose proof (status_checker_kept tenant "skills" (Forge.doc_id_of doc) w1) as Hb.
    destruct (_make_status_checker _ _ _ w1) as [[st|e] w2]; cbn [snd] in Hb; [|done]. by destruct st. }
  destruct (Forge.guard fns tenant doc w1) as [[o|] w2]; cbn [snd] in Hg; [done|].
  etrans; [exact Hg|]. pose proof (writer_kept doc id d Ht Hc Hi Hdata Hv w2) as Hw. cbn [Forge.candidate_writer wired].
  by destruct (_make_candidate_writer doc w2) as [[?|?] w3].
Qed.
End ForgeRun.

Lemma forge_run_kept cfg tenant fleet ws we label : io_keeps kept (forge_run cfg tenant fleet ws we label).
Proof.
  unfold forge_run, Forge.run_forge_distill.
  apply io_keeps_bind; [apply _|apply io_keeps_read; apply _|]. intros start.
  apply io_keeps_bind; [apply _|apply ask_kept|]. intros traces w. unfold Forge.forge_run_on.
  match goal with |- context [Forge.forge_loop ?f _ _ w] =>
    assert (Hl : ∀ cs n w0, kept w0 (Forge.forge_loop f cs n w0).2) end.
  { induction cs as [|cl cs IH]; intros n w0; cbn [Forge.forge_loop]; [done|].
    pose proof (step_kept cfg tenant fleet label we cl w0) as Hs.
    destruct (Forge.forge_cluster _ _ _ _ _ _ _ _ _ _ _ _ _ w0) as [o w2]. etrans; [exact Hs|apply IH]. }
  match goal with |- context [Forge.forge_loop ?f ?cs ?n w] =>
    specialize (Hl cs n w); by destruct (Forge.forge_loop f cs n w) end.
Qed.

(** ** All together *)
Lemma perform_kept a : ∀ w, kept w (perform a w).
Proof.
  intros w Hw. assert (Hc : rely vetted_store (as_client w)) by exact Hw.
  destruct a as [auth slug|auth slug why cool|auth slug why|auth slug why|auth slug body
                |tenant now auto ms ma fw fleet limit|cfg tenant fleet ws we label]; cbn [perform].
  - apply (Inbox.approve_does render iso_seconds settings vetted_store auth slug); [apply approval_vetted|done].
  - apply (Inbox.reject_does iso_seconds settings auth slug why cool vetted_store);
      [intros tenant fleet fp s s'; apply poisoning_vetted|intros tenant fleet s s'; apply flipped_vetted|done].
  - apply (Inbox.quarantine_does iso_seconds settings vetted_store auth slug why); [apply quarantined_vetted|done].
  - apply (Inbox.defer_does iso_seconds settings vetted_store auth slug why); [apply deferral_vetted|done].
  - apply (Inbox.edit_does sha256_hex render iso_seconds py_str settings vetted_store auth slug body);
      [apply revision_vetted|done].
  - destruct Hc as [Hd Hs].
    destruct (Promoter.tick_spec json_text collate iso_seconds fromisoformat int_of_text tenant now
      auto ms ma fw vetted_store
      (promotion_vetted tenant auto) fleet limit (as_client w)) as [[Hd' Hs' _] _]; [|by split].
    by constructor.
  - by apply forge_run_kept.
Qed.

End Store.

(** ** A concrete day *)
Section Witnesses.
#[local] Existing Instance AsciiText.

Definition ex_clean_row : Document :=
  {| fleet_id := None; data := Inbox.ex_staged; created_at := 0; updated_at := 0 |}.
Definition ex_store_world : world :=
  {| db := set_documents (<[("t", "skills", "a")%string := ex_clean_row]>) empty_store;
     schedule := [quiet]; own_writes := [] |}.
Definition ex_day : list skill_action :=
  [EditSkill Inbox.ex_admin "a" (Inbox.ex_edit "ship it twice"); ApproveSkill Inbox.ex_admin "a";
   PromoterTick "t" (DateTime 0 (Some 0)) true 3 3 14 None 50].
Definition ex_perform (actions : list skill_action) : world :=
  perform_all SkillLifecycle.ex_digest SkillLifecycle.ex_render ex_iso Inbox.ex_py ex_text
    Promoter.ex_collate SkillLifecycle.ex_iso Promoter.ex_int (λ _, "now"%string) (λ _, None) (λ _, None)
    Inbox.ex_settings (λ _ _ _, Ok []) (λ _ _, Ok []) Ok actions ex_store_world.

Lemma ex_store_vetted : rely (vetted_store ex_text) ex_store_world.
Proof.
  split; [|repeat constructor; intros s Hs; exact Hs].
  intros t i row. cbn. intros [[_ <-]|[_ Hrow]]%lookup_insert_Some; [|by rewrite lookup_empty in Hrow].
  intros _. eexists "now"%string, 40000, 160, _. split; [by vm_compute|by vm_compute].
Qed.


(** The day does serve the skill. *)
Example ex_day_serves :
  match documents (db (ex_perform ex_day)) !! ("t", "skills", "a")%string with
  | Some row => dgetv (data row) "status" | None => PNone
  end = PStr "active".
Proof. by vm_compute. Qed.
End Witnesses.
End SkillStore.
