(* ===== verification/Interleaving.v ===== *)
(** * Programs that interleave on a shared store

    A request handler is a program over HTTP calls; the server of a call runs
    a transaction of SQL statements, each atomic, over a shared store.  Any
    number of handlers run at once: a run is a list of moves, and every move
    executes one statement of one of them, advances the clock, lets the
    environment act, or makes a client give up on a call whose server then
    runs on alone.  The module holds the semantics and a program logic for it:
    an invariant of log and store, a specification [wp] that one handler meets
    whatever the others do, and the theorem that every reachable state then
    satisfies both. *)

From S2P Require Import Prelude.

Module Interleaving.

Section Programs.
(** The store, the writes to it, what a handler does besides calls, and what
    it gets back. *)
Context {T W Act Ans : Type}.

(** The server's side of a call: one transaction. *)
Inductive tx (A : Type) : Type :=
| TRet (a : A)
(** [now()], fixed when the transaction starts *)
| TNow (k : Z → tx A)
(** one statement: its answer, and what it writes, if it does *)
| TSql (X : Type) (stmt : T → X * option W) (k : X → tx A).
#[global] Arguments TRet {A} a.
#[global] Arguments TNow {A} k.
#[global] Arguments TSql {A X} stmt k.

(** The handler's side. *)
Inductive prog (A : Type) : Type :=
| Ret (a : A)
(** the clock of the handler's own machine *)
| Clock (k : Z → prog A)
| Do (act : Act) (k : Ans → prog A)
(** an HTTP call: [None] when it raises *)
| Http (X : Type) (server : tx X) (k : option X → prog A).
#[global] Arguments Ret {A} a.
#[global] Arguments Clock {A} k.
#[global] Arguments Do {A} act k.
#[global] Arguments Http {A X} server k.

#[global] Instance tx_ret : MRet tx := λ A a, TRet a.
#[global] Instance tx_bind : MBind tx := λ A B f,
  fix go (p : tx A) : tx B :=
    match p with
    | TRet a => f a
    | TNow k => TNow (λ t, go (k t))
    | TSql stmt k => TSql stmt (λ x, go (k x))
    end.
#[global] Instance prog_ret : MRet prog := λ A a, Ret a.
#[global] Instance prog_bind : MBind prog := λ A B f,
  fix go (p : prog A) : prog B :=
    match p with
    | Ret a => f a
    | Clock k => Clock (λ t, go (k t))
    | Do act k => Do act (λ x, go (k x))
    | Http server k => Http server (λ x, go (k x))
    end.

Definition tnow : tx Z := TNow TRet.
Definition tsql {X} (stmt : T → X * option W) : tx X := TSql stmt TRet.
Definition clock_reading : prog Z := Clock Ret.
Definition perform (act : Act) : prog Ans := Do act Ret.
Definition http {X} (server : tx X) : prog (option X) := Http server Ret.

(** ** What has happened *)
Inductive what : Type :=
| Wrote (w : W)
| Did (act : Act) (ans : Ans)
(** the request got an exception from a call *)
| Lost.
Record event : Type := Event { ev_tid : nat; ev_at : Z; ev_what : what }.
Record log : Type := Log { now : Z; events : list event }.
Definition logged (tid : nat) (w : what) (l : log) : log :=
  Log (now l) (events l ++ [Event tid (now l) w]).

(** The log after a statement. *)
Definition ran (tid : nat) (o : option W) (l : log) : log :=
  match o with Some w => logged tid (Wrote w) l | None => l end.

Definition later (l l' : log) : Prop := now l ≤ now l' ∧ events l `prefix_of` events l'.
#[global] Instance later_preorder : PreOrder later.
Proof.
  split; [by split|]. intros a b c [H1 H2] [H3 H4]. split; [lia|by etrans].
Qed.
Lemma later_logged tid w l : later l (logged tid w l).
Proof. split; [done|]. by apply prefix_app_r. Qed.
Lemma later_ran tid o l : later l (ran tid o l).
Proof. destruct o; [apply later_logged|done]. Qed.

(** ** Running a system *)
Context {Req Env A : Type} (handler : Req → prog A) (apply_write : W → T → T)
  (env : Z → Env → T → T).

(** The store after a statement. *)
Definition after (o : option W) (t : T) : T :=
  match o with Some w => apply_write w t | None => t end.

Inductive code : Type :=
| Client (p : prog A)
(** the server of an abandoned call *)
| Server (X : Type) (p : tx X).
(** [acts] is what the thread itself has done so far. *)
Record thread : Type :=
  Thread { tid : nat; req : Req; acts : list (Act * Ans); run_code : code }.
Record sys : Type := Sys { store : T; sys_log : log; threads : list thread }.

Inductive move : Type :=
| Arrive (r : Req)
(** thread [i] goes on; [reading] and [ans] are what it gets if it asks *)
| Step (i : nat) (reading : Z) (ans : Ans)
| Abandon (i : nat)
| Tick (d : N)
| Other (e : Env).

Definition with_code (th : thread) (c : code) : thread := Thread (tid th) (req th) (acts th) c.
Definition did (th : thread) (act : Act) (ans : Ans) : thread :=
  Thread (tid th) (req th) (acts th ++ [(act, ans)]) (run_code th).
Definition set_thread (i : nat) (th : thread) (c : code) (s : sys) : list thread :=
  <[i := with_code th c]> (threads s).

(** One statement of a transaction of thread [tid]. *)
Definition tx_step {X} (tid : nat) (p : tx X) (s : sys) : tx X * T * log :=
  match p with
  | TRet a => (TRet a, store s, sys_log s)
  | TNow k => (k (now (sys_log s)), store s, sys_log s)
  | TSql stmt k =>
      let '(x, o) := stmt (store s) in
      (k x, after o (store s), ran tid o (sys_log s))
  end.

Definition step (m : move) (s : sys) : sys :=
  match m with
  | Arrive r => Sys (store s) (sys_log s)
                  (threads s ++ [Thread (length (threads s)) r [] (Client (handler r))])
  | Tick d => Sys (store s) (Log (now (sys_log s) + Z.of_N d) (events (sys_log s))) (threads s)
  | Other e => Sys (env (now (sys_log s)) e (store s)) (sys_log s) (threads s)
  | Abandon i =>
      match threads s !! i with
      | Some th =>
          match run_code th with
          | Client (Http server k) =>
              Sys (store s) (logged (tid th) Lost (sys_log s))
                (set_thread i th (Client (k None)) s ++ [with_code th (Server _ server)])
          | _ => s
          end
      | None => s
      end
  | Step i reading ans =>
      match threads s !! i with
      | Some th =>
          match run_code th with
          | Client (Ret a) => s
          | Client (Clock k) => Sys (store s) (sys_log s) (set_thread i th (Client (k reading)) s)
          | Client (Do act k) =>
              Sys (store s) (logged (tid th) (Did act ans) (sys_log s))
                (set_thread i (did th act ans) (Client (k ans)) s)
          | Client (Http (TRet x) k) =>
              Sys (store s) (sys_log s) (set_thread i th (Client (k (Some x))) s)
          | Client (Http server k) =>
              let '(server', t, l) := tx_step (tid th) server s in
              Sys t l (set_thread i th (Client (Http server' k)) s)
          | Server X server =>
              let '(server', t, l) := tx_step (tid th) server s in
              Sys t l (set_thread i th (Server X server') s)
          end
      | None => s
      end
  end.
Definition run (ms : list move) (s : sys) : sys := foldl (λ s m, step m s) s ms.

(** ** Specifications of programs *)
Section Logic.
Context (Inv : log → T → Prop).

Fixpoint wptx {X} (tid : nat) (p : tx X) (l : log) (Q : X → log → Prop) : Prop :=
  match p with
  | TRet x => ∀ l', later l l' → Q x l'
  | TNow k => ∀ l', later l l' → wptx tid (k (now l')) l' Q
  | TSql stmt k => ∀ l' t, later l l' → Inv l' t →
      let l2 := ran tid (stmt t).2 l' in
      Inv l2 (after (stmt t).2 t) ∧ wptx tid (k (stmt t).1) l2 Q
  end.

Fixpoint wp {B} (tid : nat) (p : prog B) (acts : list (Act * Ans)) (l : log)
    (Q : B → list (Act * Ans) → log → Prop) : Prop :=
  match p with
  | Ret b => ∀ l', later l l' → Q b acts l'
  | Clock k => ∀ l' reading, later l l' → wp tid (k reading) acts l' Q
  | Do act k => ∀ l' t ans, later l l' → Inv l' t →
      Inv (logged tid (Did act ans) l') t ∧
      wp tid (k ans) (acts ++ [(act, ans)]) (logged tid (Did act ans) l') Q
  | Http server k =>
      wptx tid server l (λ x l', wp tid (k (Some x)) acts l' Q) ∧
      ∀ l' t, later l l' → Inv l' t →
        Inv (logged tid Lost l') t ∧ wp tid (k None) acts (logged tid Lost l') Q
  end.

Lemma wptx_later {X} tid (p : tx X) l l' Q : later l l' → wptx tid p l Q → wptx tid p l' Q.
Proof. intros Hl. destruct p; cbn; intros Hp **; eapply Hp; first [eassumption|by etrans]. Qed.

Lemma wptx_impl {X} tid (p : tx X) l (Q R : X → log → Prop) :
  (∀ x l', later l l' → Q x l' → R x l') → wptx tid p l Q → wptx tid p l R.
Proof.
  revert l. induction p as [x|k IH|Y stmt k IH]; cbn; intros l HQ Hp; intros.
  - auto.
  - eapply IH; [|by eauto]. intros; apply HQ; [by etrans|done].
  - destruct (Hp l' t) as [Hi Hk]; [done..|]. split; [done|].
    eapply IH; [|done]. intros x l2 Hl2. apply HQ. etrans; [done|]. etrans; [|done].
    apply later_ran.
Qed.

Lemma wp_later {B} tid (p : prog B) ac l l' Q : later l l' → wp tid p ac l Q → wp tid p ac l' Q.
Proof.
  intros Hl. destruct p; cbn; [intros Hp **; eapply Hp; first [eassumption|by etrans]..|].
  intros [Hs Hn]. split; [by eapply wptx_later|]. intros. apply Hn; [by etrans|done].
Qed.

Lemma wp_impl {B} tid (p : prog B) ac l (Q R : B → list (Act * Ans) → log → Prop) :
  (∀ b ac' l', later l l' → Q b ac' l' → R b ac' l') → wp tid p ac l Q → wp tid p ac l R.
Proof.
  revert ac l. induction p as [b|k IH|act k IH|Y server k IH]; cbn; intros ac l HQ Hp; intros.
  - auto.
  - eapply IH; [|by eauto]. intros; apply HQ; [by etrans|done].
  - destruct (Hp l' t ans) as [Hi Hk]; [done..|]. split; [done|].
    eapply IH; [|done]. intros x ac2 l2 Hl2. apply HQ. etrans; [done|]. etrans; [|done].
    apply later_logged.
  - destruct Hp as [Hs Hn]. split.
    + eapply wptx_impl; [|done]. intros x l' Hl'. apply IH. intros b ac2 l2 Hl2. apply HQ. by etrans.
    + intros l' t Hl' Ht. destruct (Hn l' t Hl' Ht) as [Hi Hk]. split; [done|].
      eapply IH; [|done]. intros b ac2 l2 Hl2. apply HQ. etrans; [done|]. etrans; [|done].
      apply later_logged.
Qed.

Lemma wptx_bind {X Y} tid (p : tx X) (f : X → tx Y) l Q :
  wptx tid p l (λ x l', wptx tid (f x) l' Q) → wptx tid (p ≫= f) l Q.
Proof.
  revert l. induction p as [x|k IH|Z stmt k IH]; cbn; intros l Hp.
  - apply Hp. reflexivity.
  - intros l' Hl'. by apply IH, Hp.
  - intros l' t Hl' Ht. destruct (Hp l' t Hl' Ht). split; [done|]. by apply IH.
Qed.

Lemma wp_bind {B C} tid (p : prog B) (f : B → prog C) ac l Q :
  wp tid p ac l (λ b ac' l', wp tid (f b) ac' l' Q) → wp tid (p ≫= f) ac l Q.
Proof.
  revert ac l. induction p as [b|k IH|act k IH|Y server k IH]; cbn; intros ac l Hp.
  - apply Hp. reflexivity.
  - intros l' t Hl'. by apply IH, Hp.
  - intros l' t ans Hl' Ht. destruct (Hp l' t ans Hl' Ht). split; [done|]. by apply IH.
  - destruct Hp as [Hs Hn]. split.
    + eapply wptx_impl; [|done]. intros x l' _. apply IH.
    + intros l' t Hl' Ht. destruct (Hn l' t Hl' Ht). split; [done|]. by apply IH.
Qed.

Lemma wp_ret {B} tid (b : B) ac l (Q : B → list (Act * Ans) → log → Prop) :
  (∀ l', later l l' → Q b ac l') → wp tid (mret b) ac l Q.
Proof. done. Qed.
Lemma wptx_ret {X} tid (x : X) l (Q : X → log → Prop) :
  (∀ l', later l l' → Q x l') → wptx tid (mret x) l Q.
Proof. done. Qed.

Lemma wp_perform tid act ac l (Q : Ans → list (Act * Ans) → log → Prop) :
  (∀ l' t ans, later l l' → Inv l' t →
     Inv (logged tid (Did act ans) l') t ∧
     ∀ l2, later (logged tid (Did act ans) l') l2 → Q ans (ac ++ [(act, ans)]) l2) →
  wp tid (perform act) ac l Q.
Proof. exact id. Qed.
Lemma wp_reading tid ac l (Q : Z → list (Act * Ans) → log → Prop) :
  (∀ l' reading, later l l' → Q reading ac l') → wp tid clock_reading ac l Q.
Proof. intros HQ l' reading Hl l2 Hl2. apply HQ. by etrans. Qed.

(** ** Soundness *)
Context (Q : nat → Req → A → list (Act * Ans) → log → Prop).

(** Time and the environment keep the invariant, and the handler of every
    request, or of those in [R], meets its specification from any log. *)
Record sound_for (R : Req → Prop) : Prop := {
  sound_tick : ∀ l t d, Inv l t → Inv (Log (now l + Z.of_N d) (events l)) t;
  sound_env : ∀ l t e, Inv l t → Inv l (env (now l) e t);
  sound_handler : ∀ i r l, R r → wp i (handler r) [] l (Q i r);
}.
Definition sound : Prop := sound_for (λ _, True).
Definition arrives (R : Req → Prop) (m : move) : Prop := match m with Arrive r => R r | _ => True end.

Definition thread_ok (l : log) (th : thread) : Prop :=
  match run_code th with
  | Client p => wp (tid th) p (acts th) l (Q (tid th) (req th))
  | Server X p => wptx (tid th) p l (λ _ _, True)
  end.
Definition sys_ok (s : sys) : Prop :=
  Inv (sys_log s) (store s) ∧ Forall (thread_ok (sys_log s)) (threads s).

Lemma thread_ok_later l l' th : later l l' → thread_ok l th → thread_ok l' th.
Proof. unfold thread_ok. destruct (run_code th); [apply wp_later|apply wptx_later]. Qed.

Lemma threads_ok_later l l' ths : later l l' → Forall (thread_ok l) ths → Forall (thread_ok l') ths.
Proof. intros Hl Hths. eapply Forall_impl; [done|]. intros th. by apply thread_ok_later. Qed.

(** Replacing one thread after the log grew. *)
Lemma set_thread_ok s i th c l' :
  Forall (thread_ok (sys_log s)) (threads s) → later (sys_log s) l' →
  thread_ok l' (with_code th c) → Forall (thread_ok l') (set_thread i th c s).
Proof.
  intros Hs Hl Hc. apply Forall_insert; [|done]. by eapply threads_ok_later.
Qed.

Lemma tx_step_ok {X} i (p : tx X) s R :
  Inv (sys_log s) (store s) → wptx i p (sys_log s) R →
  let '(p', t, l) := tx_step i p s in
  Inv l t ∧ later (sys_log s) l ∧ wptx i p' l R.
Proof.
  intros Hi Hp. destruct p as [x|k|Y stmt k]; cbn in *.
  - done.
  - split_and!; [done|done|]. by apply Hp.
  - destruct (Hp (sys_log s) (store s)) as [Hi' Hk]; [done..|].
    destruct (stmt (store s)) as [x o]. cbn in *. split_and!; [done|apply later_ran|done].
Qed.

Lemma step_ok R m s : sound_for R → arrives R m → sys_ok s → sys_ok (step m s).
Proof.
  intros [Ht He Hh] Hm [Hi Hths]. destruct m as [r|i reading ans|i|d|e]; cbn.
  - split; [done|]. cbn. apply Forall_app; split; [done|]. constructor; [|done].
    unfold thread_ok. cbn. by apply Hh.
  - destruct (threads s !! i) as [th|] eqn:Hth; [|by split].
    pose proof (proj1 (Forall_lookup _ _) Hths _ _ Hth) as Hok. unfold thread_ok in Hok.
    destruct (run_code th) as [[a|k|act k|X server k]|X server] eqn:Hc; cbn in Hok.
    + by split.
    + split; [done|]. apply set_thread_ok; [done..|]. unfold thread_ok. cbn. by apply Hok.
    + destruct (Hok (sys_log s) (store s) ans) as [Hi' Hk]; [done..|].
      split; [done|]. apply set_thread_ok; [done|apply later_logged|]. done.
    + destruct Hok as [Hs Hn].
      assert (Hg : ∀ srv : tx X, wptx (tid th) srv (sys_log s)
                (λ x l', wp (tid th) (k (Some x)) (acts th) l' (Q (tid th) (req th))) →
              sys_ok (let '(server', t, l) := tx_step (tid th) srv s in
                      Sys t l (set_thread i th (Client (Http server' k)) s))).
      { intros srv Hsrv. pose proof (tx_step_ok _ srv s _ Hi Hsrv) as Hst.
        destruct (tx_step (tid th) srv s) as [[p' t] l]. destruct Hst as (Hi' & Hl & Hp').
        split; [done|]. apply set_thread_ok; [done..|]. unfold thread_ok. cbn. split; [done|].
        intros l' t' Hl'. apply Hn. by etrans. }
      destruct server as [x|k'|Y stmt k']; [|by apply (Hg (TNow k'))|by apply (Hg (TSql stmt k'))].
      split; [done|]. apply set_thread_ok; [done..|]. unfold thread_ok. cbn. by apply Hs.
    + pose proof (tx_step_ok _ server s _ Hi Hok) as Hst.
      destruct (tx_step (tid th) server s) as [[p' t] l]. destruct Hst as (Hi' & Hl & Hp').
      split; [done|]. by apply set_thread_ok.
  - destruct (threads s !! i) as [th|] eqn:Hth; [|by split].
    pose proof (proj1 (Forall_lookup _ _) Hths _ _ Hth) as Hok. unfold thread_ok in Hok.
    destruct (run_code th) as [[a|k|act k|X server k]|X server]; [by split..| |by split].
    destruct Hok as [Hs Hn]. destruct (Hn (sys_log s) (store s)) as [Hi' Hk]; [done..|].
    split; [done|]. cbn. apply Forall_app; split.
    + apply set_thread_ok; [done|apply later_logged|done].
    + constructor; [|done]. unfold thread_ok. cbn.
      eapply wptx_later; [apply later_logged|]. by eapply wptx_impl; [|exact Hs].
  - split; [by apply Ht|]. cbn. eapply threads_ok_later; [|done]. split; cbn; [lia|done].
  - split; [by apply He|done].
Qed.

Theorem run_ok_for R ms s : sound_for R → Forall (arrives R) ms → sys_ok s → sys_ok (run ms s).
Proof.
  intros Hs. revert s. induction ms as [|m ms IH]; [done|].
  intros s [Hm Hms]%Forall_cons Hok. by apply IH, (step_ok R).
Qed.
Theorem run_ok ms s : sound → sys_ok s → sys_ok (run ms s).
Proof.
  intros Hs. apply (run_ok_for (λ _, True)); [done|]. by apply Forall_forall; intros [].
Qed.

(** What a finished handler returned meets its postcondition. *)
Lemma finished_ok s i th a :
  sys_ok s → threads s !! i = Some th → run_code th = Client (Ret a) →
  Q (tid th) (req th) a (acts th) (sys_log s).
Proof.
  intros [_ Hths] Hth Hc. pose proof (proj1 (Forall_lookup _ _) Hths _ _ Hth) as Hok.
  unfold thread_ok in Hok. rewrite Hc in Hok. by apply Hok.
Qed.
End Logic.
End Programs.

#[global] Arguments tx T W A : clear implicits.
#[global] Arguments prog T W Act Ans A : clear implicits.
#[global] Arguments what W Act Ans : clear implicits.
#[global] Arguments event W Act Ans : clear implicits.
#[global] Arguments log W Act Ans : clear implicits.
#[global] Arguments move Ans Req Env : clear implicits.
#[global] Arguments sys T W Act Ans Req A : clear implicits.
End Interleaving.
