(* ===== verification/Idempotency.v ===== *)
(** * Idempotency keys (core_api/middleware/idempotency.py, the
    [idempotency_*] methods of core_storage_api/services/postgres_service.py
    with their router and client, and the routes that use them)

    A write with an Idempotency-Key claims a row of [idempotency_responses],
    runs, and records its response there; a retry replays it.  The handlers
    are programs of [Interleaving]: any number of them run at once, calls are
    lost, servers outlive their clients, and a cleanup job deletes expired
    rows.  Times are microseconds. *)

From S2P Require Import Prelude Interleaving.

Module Idempotency.
Import Interleaving.

(** A row; (tenant_id, idempotency_key) is the primary key. *)
Record IdempotencyResponse : Type := {
  request_hash : string;
  response_body : pyval;
  status_code : Z;
  created_at : Z;
  expires_at : Z;
  is_pending : bool;
}.
Abbreviation row_key := (string * string)%type.
Abbreviation inbox := (gmap row_key IdempotencyResponse).
(** Every write puts one row. *)
Abbreviation write := (row_key * IdempotencyResponse)%type.
Definition put (w : write) (db : inbox) : inbox := <[w.1 := w.2]> db.

(** ** The storage service *)
Definition live (t : Z) (row : IdempotencyResponse) : bool := t <? expires_at row.

Definition idempotency_get (key : row_key) : tx inbox write (option IdempotencyResponse) :=
  t ← tnow;
  tsql (λ db : inbox,
    (match db !! key with
     | Some row => if live t row then Some row else None
     | None => None
     end, None)).

Definition pending_row (h : string) (created expires : Z) : IdempotencyResponse :=
  {| request_hash := h; response_body := PDict []; status_code := 0; created_at := created;
     expires_at := expires; is_pending := true |}.

(** [INSERT .. ON CONFLICT DO UPDATE .. WHERE expires_at <= now()] *)
Definition claim_stmt (key : row_key) (h : string) (expires t : Z) (db : inbox) :
    option IdempotencyResponse * option write :=
  match db !! key with
  | None => let row := pending_row h t expires in (Some row, Some (key, row))
  | Some old =>
      if live t old then (None, None)
      else let row := pending_row h (created_at old) expires in
           (Some row, Some (key, row))
  end.
Definition idempotency_claim (key : row_key) (h : string) (expires : Z) :
    tx inbox write (option IdempotencyResponse) :=
  t ← tnow; tsql (claim_stmt key h expires t).

Inductive record_error : Type := RowVanished | StillPending | OtherHash.

(** The three statements of [idempotency_record]. *)
Definition done_row (h : string) (body : pyval) (status created expires : Z) : IdempotencyResponse :=
  {| request_hash := h; response_body := body; status_code := status; created_at := created;
     expires_at := expires; is_pending := false |}.
Definition update_stmt (key : row_key) (h : string) (body : pyval) (status expires : Z) (db : inbox) :
    option IdempotencyResponse * option write :=
  match db !! key with
  | Some old =>
      if String.eqb (request_hash old) h && is_pending old then
        let row := done_row h body status (created_at old) expires in
        (Some row, Some (key, row))
      else (None, None)
  | None => (None, None)
  end.
Definition insert_stmt (key : row_key) (h : string) (body : pyval) (status expires t : Z) (db : inbox) :
    option IdempotencyResponse * option write :=
  match db !! key with
  | None => let row := done_row h body status t expires in (Some row, Some (key, row))
  | Some _ => (None, None)
  end.
Definition insert_or_existing (key : row_key) (h : string) (body : pyval) (status expires t : Z) :
    tx inbox write (res record_error IdempotencyResponse) :=
  inserted ← tsql (insert_stmt key h body status expires t);
  match inserted with
  | Some row => mret (Ok row)
  | None =>
      existing ← tsql (λ db : inbox, (db !! key, None));
      mret match existing with
           | None => Err RowVanished
           | Some row =>
               if is_pending row then Err StillPending
               else if negb (String.eqb (request_hash row) h) then Err OtherHash
               else Ok row
           end
  end.
Definition idempotency_record (key : row_key) (h : string) (body : pyval) (status expires : Z) :
    tx inbox write (res record_error IdempotencyResponse) :=
  t ← tnow;
  updated ← tsql (update_stmt key h body status expires);
  match updated with
  | Some row => mret (Ok row)
  | None => insert_or_existing key h body status expires t
  end.
Definition idempotency_upsert := idempotency_record.

(** The claim endpoint: 201 with the row, or 409 with the row in the way. *)
Inductive claim_reply : Type := Created (row : IdempotencyResponse) | Conflict (found : option IdempotencyResponse).
Definition claim_endpoint (key : row_key) (h : string) (expires : Z) : tx inbox write claim_reply :=
  row ← idempotency_claim key h expires;
  match row with
  | Some row => mret (Created row)
  | None => existing ← idempotency_get key; mret (Conflict existing)
  end.

(** ** Requests, and what a handler does besides calling the storage *)
Inductive route : Type := WriteMemory | WriteBulk | UpsertDocument.
Record Request : Type := {
  at_route : route;
  tenant_id : string;
  (** the [Idempotency-Key] header *)
  idempotency_key : option string;
  (** [body.metadata] *)
  metadata : pydict;
  body_bytes : string;
}.
(** The work of the route: [None] when it raises. *)
Inductive action : Type := StartWork (rq : Request) | FinishWork (rq : Request).
Abbreviation answer := (option (pyval * Z)).
Abbreviation handler_prog := (prog inbox write action answer).

(** ** The storage client: [None] when the call raises *)
Definition get_idempotency (key : row_key) : handler_prog (option (option IdempotencyResponse)) :=
  http (idempotency_get key).
Definition claim_idempotency (key : row_key) (h : string) (expires : Z) :
    handler_prog (option (bool * option IdempotencyResponse)) :=
  resp ← http (claim_endpoint key h expires);
  mret match resp with
       | Some (Created row) => Some (true, Some row)
       | Some (Conflict found) => Some (false, found)
       | None => None
       end.
Definition upsert_idempotency (key : row_key) (h : string) (body : pyval) (status expires : Z) :
    handler_prog (option IdempotencyResponse) :=
  resp ← http (idempotency_upsert key h body status expires);
  mret match resp with Some (Ok row) => Some row | _ => None end.

(** ** The middleware *)
Definition MAX_IDEMPOTENCY_KEY_LEN : Z := 255.
Definition _CLAIM_POLL_MAX_ATTEMPTS : nat := 20.
Definition _IDEMPOTENCY_BODY_FIELDS : list string := ["idempotency_key"; "client_idempotency_key"]%string.

Definition not_blank (s : string) : bool := negb (String.eqb (str_strip s) "").
Fixpoint first_key (fields : list string) (metadata : pydict) : option string :=
  match fields with
  | [] => None
  | field :: fields =>
      match dgetv metadata field with
      | PStr value => if not_blank value then Some value else first_key fields metadata
      | _ => first_key fields metadata
      end
  end.
Definition idempotency_key_from_metadata (metadata : pydict) : option string :=
  first_key _IDEMPOTENCY_BODY_FIELDS metadata.

Record Settings : Type := {
  idempotency_ttl_seconds : Z;
  idempotency_pending_ttl_seconds : Z;
}.
Definition seconds (n : Z) : Z := n * 1000000.

Record IdempotencyGuard : Type := {
  key : row_key;
  hash : string;
  cached : option IdempotencyResponse;
}.
Definition cached_replay (g : IdempotencyGuard) : option (pyval * Z) :=
  match cached g with Some row => Some (response_body row, status_code row) | None => None end.

Record http_error : Type := HTTPException { status : Z; detail : string }.
Definition key_conflict : http_error :=
  HTTPException 422 "Idempotency-Key reused with a different request body".
Definition still_in_progress : http_error :=
  HTTPException 409 "Idempotency-Key still in progress; retry shortly".
Definition storage_unavailable : http_error :=
  HTTPException 503 "Upstream storage unavailable; retry later".
Definition did_not_complete : http_error :=
  HTTPException 409 "Previous request did not complete; safe to retry".

Section Middleware.
(** [hashlib.sha256(b).hexdigest()] *)
Context (sha256_hex : string → string) (settings : Settings).

Definition record (g : IdempotencyGuard) (body : pyval) (status : Z) : handler_prog unit :=
  t ← clock_reading;
  _ ← upsert_idempotency (key g) (hash g) body status (t + seconds (idempotency_ttl_seconds settings));
  mret tt.

Inductive poll_result : Type :=
| PollDone (row : IdempotencyResponse) | PollVanished | PollStorageError | PollExhausted.
(** The sleeps between the attempts are the time other handlers move in. *)
Fixpoint poll (attempts : nat) (k : row_key) : handler_prog poll_result :=
  match attempts with
  | O => mret PollExhausted
  | S attempts =>
      resp ← get_idempotency k;
      match resp with
      | None => mret PollStorageError
      | Some None => mret PollVanished
      | Some (Some row) => if negb (is_pending row) then mret (PollDone row) else poll attempts k
      end
  end.
Definition _poll_until_complete (k : row_key) : handler_prog poll_result :=
  poll _CLAIM_POLL_MAX_ATTEMPTS k.

(** A row found complete is replayed when its hash is the request's. *)
Definition replay (k : row_key) (h : string) (row : IdempotencyResponse) :
    res http_error (option IdempotencyGuard) :=
  if negb (String.eqb (request_hash row) h) then Err key_conflict
  else Ok (Some {| key := k; hash := h; cached := Some row |}).
(** The tail that both waiting branches of [idempotency_for] repeat. *)
Definition wait_for_holder (k : row_key) (h : string) :
    handler_prog (res http_error (option IdempotencyGuard)) :=
  completed ← _poll_until_complete k;
  mret match completed with
       | PollExhausted => Err still_in_progress
       | PollStorageError => Err storage_unavailable
       | PollVanished => Err did_not_complete
       | PollDone row => replay k h row
       end.

Inductive key_source : Type := Header | Body.
Definition namespaced (source : key_source) (k : string) : string :=
  ((match source with Header => "header" | Body => "body" end) ++ ":" ++ k)%string.

(** The checks that come before any storage call. *)
Definition check_key (k : string) : res http_error unit :=
  if negb (not_blank k) then Err (HTTPException 400 "Idempotency-Key must not be blank")
  else if MAX_IDEMPOTENCY_KEY_LEN <? char_len k then
    Err (HTTPException 400 "Idempotency-Key must be at most 255 characters")
  else Ok tt.

Definition no_cache (k : row_key) (h : string) : res http_error (option IdempotencyGuard) :=
  Ok (Some {| key := k; hash := h; cached := None |}).

Definition claim (k : row_key) (h : string) : handler_prog (res http_error (option IdempotencyGuard)) :=
  t ← clock_reading;
  resp ← claim_idempotency k h (t + seconds (idempotency_pending_ttl_seconds settings));
  match resp with
  | None => mret (no_cache k h)
  | Some (true, _) => mret (no_cache k h)
  | Some (false, Some row) =>
      if negb (String.eqb (request_hash row) h) then mret (Err key_conflict)
      else if negb (is_pending row) then mret (replay k h row)
      else wait_for_holder k h
  | Some (false, None) => wait_for_holder k h
  end.

Definition idempotency_for (rq : Request) (given : option string) (source : key_source) :
    handler_prog (res http_error (option IdempotencyGuard)) :=
  match given with
  | None | Some EmptyString => mret (Ok None)
  | Some given =>
      match check_key given with
      | Err e => mret (Err e)
      | Ok _ =>
          let k := (tenant_id rq, namespaced source given) in
          let h := sha256_hex (body_bytes rq) in
          found ← get_idempotency k;
          match found with
          | None => mret (no_cache k h)
          | Some (Some row) =>
              if negb (is_pending row) then mret (replay k h row)
              else if negb (String.eqb (request_hash row) h) then mret (Err key_conflict)
              else wait_for_holder k h
          | Some None => claim k h
          end
      end
  end.

(** ** The routes *)

(** Where the key comes from: the single write falls back on the body. *)
Definition key_given (rq : Request) : option string * key_source :=
  match at_route rq, idempotency_key rq with
  | WriteMemory, Some (String _ _ as k) => (Some k, Header)
  | WriteMemory, _ => (idempotency_key_from_metadata (metadata rq), Body)
  | _, k => (k, Header)
  end.

Inductive outcome : Type :=
| Replayed (body : pyval) (status : Z)
| Answered (body : pyval) (status : Z)
| Refused (e : http_error)
| WorkRaised.

(** The work and, when it returns, its record. *)
Definition work_and_record (rq : Request) (idem : option IdempotencyGuard) : handler_prog outcome :=
  _ ← perform (StartWork rq);
  result ← perform (FinishWork rq);
  match result with
  | None => mret WorkRaised
  | Some (body, status) =>
      _ ← match idem with Some g => record g body status | None => mret tt end;
      mret (Answered body status)
  end.

Definition replay_of (idem : option IdempotencyGuard) : option (pyval * Z) :=
  match idem with Some g => cached_replay g | None => None end.
Definition write_route (rq : Request) : handler_prog outcome :=
  let '(given, source) := key_given rq in
  idem ← idempotency_for rq given source;
  match idem with
  | Err e => mret (Refused e)
  | Ok idem =>
      match replay_of idem with
      | Some (body, status) => mret (Replayed body status)
      | None => work_and_record rq idem
      end
  end.
End Middleware.

(** The cleanup job prunes an expired row. *)
Definition prune (t : Z) (k : row_key) (db : inbox) : inbox :=
  match db !! k with
  | Some row => if live t row then db else delete k db
  | None => db
  end.

Definition idle : sys inbox write action answer Request outcome := Sys ∅ (Log 0 []) [].
Definition serve (sha : string → string) (settings : Settings)
    (ms : list (move answer Request row_key)) : sys inbox write action answer Request outcome :=
  run (write_route sha settings) put prune ms idle.

(** ** What the claims guarantee *)
Section Theorems.
Context (sha256_hex : string → string) (settings : Settings).
Abbreviation history := (log write action answer).
Abbreviation entry := (event write action answer).

(** The row a request works with, when it brings an acceptable key. *)
Definition key_of (rq : Request) : option row_key :=
  let '(given, source) := key_given rq in
  match given with
  | None | Some EmptyString => None
  | Some k => match check_key k with
              | Ok _ => Some (tenant_id rq, namespaced source k)
              | Err _ => None
              end
  end.
Definition hash_of (rq : Request) : string := sha256_hex (body_bytes rq).

(** [row] was written under [k]: a claim when it is pending, a response
    otherwise. *)
Definition wrote (k : row_key) (row : IdempotencyResponse) (pending : bool) (ev : entry) : Prop :=
  ev_what ev = Wrote (k, row) ∧ is_pending row = pending.
(** By [x] the claim has run out, or a response recorded for the key has. *)
Definition lapsed (l : history) (k : row_key) (claim : IdempotencyResponse) (x : Z) : Prop :=
  expires_at claim ≤ x ∨
  ∃ ev row, ev ∈ events l ∧ wrote k row false ev ∧ expires_at row ≤ x.
Definition finished (l : history) (rq : Request) (body : pyval) (status : Z) : Prop :=
  ∃ tid t, Event tid t (Did (FinishWork rq) (Some (body, status))) ∈ events l.

(** What entitles a request to start its work under a key. *)
Definition lost_before (l : history) (tid p : nat) : Prop :=
  ∃ q t, (q < p)%nat ∧ events l !! q = Some (Event tid t Lost).
Definition claimed_before (l : history) (tid p : nat) (k : row_key) (h : string) : Prop :=
  ∃ q t row, (q < p)%nat ∧ events l !! q = Some (Event tid t (Wrote (k, row))) ∧
    is_pending row = true ∧ request_hash row = h.
Definition entitled (l : history) (tid p : nat) (rq : Request) : Prop :=
  ∀ k, key_of rq = Some k → lost_before l tid p ∨ claimed_before l tid p k (hash_of rq).

Record inbox_ok (l : history) (db : inbox) : Prop := {
  (** the log is in order of time *)
  ok_times : ∀ p q ep eq, (p ≤ q)%nat → events l !! p = Some ep → events l !! q = Some eq →
    ev_at ep ≤ ev_at eq;
  ok_past : ∀ ev, ev ∈ events l → ev_at ev ≤ now l;
  ok_logged : ∀ k row, db !! k = Some row → ∃ ev, ev ∈ events l ∧ ev_what ev = Wrote (k, row);
  (** a complete row holds the response of a run of a request with its key and hash *)
  ok_done : ∀ k row, db !! k = Some row → is_pending row = false →
    ∃ rq, finished l rq (response_body row) (status_code row) ∧ key_of rq = Some k ∧
          hash_of rq = request_hash row;
  (** a claim is protected by the row until it has lapsed *)
  ok_held : ∀ ev k claim, ev ∈ events l → wrote k claim true ev →
    lapsed l k claim (now l) ∨ ∃ row, db !! k = Some row ∧ lapsed l k claim (expires_at row);
  ok_exclusive : ∀ p q ep eq k cp cq, (p < q)%nat →
    events l !! p = Some ep → events l !! q = Some eq →
    wrote k cp true ep → wrote k cq true eq → lapsed l k cp (ev_at eq);
  ok_entitled : ∀ p tid t rq ans, events l !! p = Some (Event tid t (Did (StartWork rq) ans)) →
    entitled l tid p rq;
}.

(** *** Facts that stay *)
Lemma lapsed_later l l' k c x : later l l' → lapsed l k c x → lapsed l' k c x.
Proof.
  intros [_ Hp] [|(ev & row & Hin & Hw)]; [by left|right]. exists ev, row. split; [|done].
  by eapply elem_of_prefix.
Qed.
Lemma lapsed_le l k c x y : x ≤ y → lapsed l k c x → lapsed l k c y.
Proof. intros Hxy [|(ev & row & Hin & Hw & He)]; [left; lia|right]. exists ev, row. split_and!; auto; lia. Qed.
Lemma finished_later l l' rq b st : later l l' → finished l rq b st → finished l' rq b st.
Proof. intros [_ Hp] (tid & t & Hin). exists tid, t. by eapply elem_of_prefix. Qed.
Lemma entitled_later l l' tid p rq : later l l' → entitled l tid p rq → entitled l' tid p rq.
Proof.
  intros [_ Hp] He k Hk. destruct (He k Hk) as [(q & t & Hq & Hl)|(q & t & row & Hq & Hl & Hr)].
  - left. exists q, t. split; [done|]. by eapply prefix_lookup_Some.
  - right. exists q, t, row. split_and!; [done| |by apply Hr..]. by eapply prefix_lookup_Some.
Qed.

(** *** The invariant is kept *)
Lemma lookup_logged (l : history) tid w p ev :
  events (logged tid w l) !! p = Some ev →
  events l !! p = Some ev ∨ p = length (events l) ∧ ev = Event tid (now l) w.
Proof.
  cbn. intros [Hp|[Hp ?]]%lookup_app_Some; [by left|right].
  apply list_lookup_singleton_Some in H as [? <-]. split; [lia|done].
Qed.
Lemma elem_of_logged (l : history) tid w ev :
  ev ∈ events (logged tid w l) ↔ ev ∈ events l ∨ ev = Event tid (now l) w.
Proof. cbn. by rewrite elem_of_app, list_elem_of_singleton. Qed.

(** Anything may be logged that is not a claim, as long as the store after it
    is accounted for. *)
Lemma inbox_ok_logged l db db' tid w :
  inbox_ok l db →
  (∀ k row, db' !! k = Some row → db !! k = Some row ∨ w = Wrote (k, row) ∧
     (is_pending row = false → ∃ rq, finished l rq (response_body row) (status_code row) ∧
        key_of rq = Some k ∧ hash_of rq = request_hash row)) →
  (∀ ev k claim, ev ∈ events l → wrote k claim true ev →
     lapsed (logged tid w l) k claim (now l) ∨
     ∃ row, db' !! k = Some row ∧ lapsed (logged tid w l) k claim (expires_at row)) →
  (∀ k claim, w = Wrote (k, claim) → is_pending claim = true →
     db' !! k = Some claim ∧
     ∀ ev c, ev ∈ events l → wrote k c true ev → lapsed l k c (now l)) →
  (∀ rq ans, w = Did (StartWork rq) ans → entitled l tid (length (events l)) rq) →
  inbox_ok (logged tid w l) db'.
Proof.
  intros Hok Hrows Hheld Hclaim Hent. pose proof (later_logged tid w l) as Hl. split.
  - intros p q ep eq Hpq Hp Hq.
    apply lookup_logged in Hp as [Hp|[-> ->]], Hq as [Hq|[-> ->]]; cbn.
    + by eapply (ok_times _ _ Hok).
    + by eapply (ok_past _ _ Hok), list_elem_of_lookup_2.
    + apply lookup_lt_Some in Hq. lia.
    + done.
  - intros ev [Hin| ->]%elem_of_logged; cbn; [by apply (ok_past _ _ Hok)|done].
  - intros k row Hk. destruct (Hrows _ _ Hk) as [Hk'|[-> _]].
    + destruct (ok_logged _ _ Hok _ _ Hk') as (ev & Hin & Hw). exists ev. split; [|done].
      apply elem_of_logged. by left.
    + eexists. split; [apply elem_of_logged; by right|done].
  - intros k row Hk Hp. destruct (Hrows _ _ Hk) as [Hk'|[_ Hd]].
    + destruct (ok_done _ _ Hok _ _ Hk' Hp) as (rq & Hf & ?). exists rq. split; [|done].
      by eapply finished_later.
    + destruct (Hd Hp) as (rq & Hf & ?). exists rq. split; [|done]. by eapply finished_later.
  - intros ev k c [Hin| ->]%elem_of_logged Hw; [by eapply Hheld|].
    destruct Hw as [Hw Hp]. cbn in Hw. destruct (Hclaim _ _ Hw Hp) as [Hk _].
    right. exists c. split; [done|]. by left.
  - intros p q ep eq k cp cq Hpq Hp Hq Hcp Hcq.
    apply lookup_logged in Hq as [Hq|[-> ->]].
    + apply lookup_logged in Hp as [Hp|[-> ->]]; [|apply lookup_lt_Some in Hq; lia].
      eapply lapsed_later; [done|]. by eapply (ok_exclusive _ _ Hok p q).
    + apply lookup_logged in Hp as [Hp|[-> ->]]; [|lia].
      destruct Hcq as [Hw Hpd]. cbn in Hw. destruct (Hclaim _ _ Hw Hpd) as [_ Hall]. cbn.
      eapply lapsed_later; [done|]. eapply Hall; [by eapply list_elem_of_lookup_2|done].
  - intros p i t rq ans Hp. apply lookup_logged in Hp as [Hp|[-> Hev]].
    + eapply entitled_later; [done|]. by eapply (ok_entitled _ _ Hok).
    + injection Hev as -> -> <-. eapply entitled_later; [done|]. by eapply Hent.
Qed.

Lemma inbox_ok_quiet l db tid w :
  inbox_ok l db → (∀ x, w ≠ Wrote x) →
  (∀ rq ans, w = Did (StartWork rq) ans → entitled l tid (length (events l)) rq) →
  inbox_ok (logged tid w l) db.
Proof.
  intros Hok Hw Hent. apply (inbox_ok_logged l db); [done|by left| |by intros ? ? ?%Hw|done].
  intros ev k c Hin Hc.
  destruct (ok_held _ _ Hok _ _ _ Hin Hc) as [|(row & ? & ?)].
  - left. eapply lapsed_later; [apply later_logged|done].
  - right. exists row. split; [done|]. eapply lapsed_later; [apply later_logged|done].
Qed.

Lemma inbox_ok_tick l db d : inbox_ok l db → inbox_ok (Log (now l + Z.of_N d) (events l)) db.
Proof.
  intros Hok. split; cbn; try apply Hok.
  - intros ev Hin. apply (ok_past _ _ Hok) in Hin. lia.
  - intros ev k c Hin Hc. destruct (ok_held _ _ Hok _ _ _ Hin Hc) as [Hl|Hl]; [left|by right].
    eapply lapsed_le; [|exact Hl]. lia.
Qed.

Lemma inbox_ok_prune l db k : inbox_ok l db → inbox_ok l (prune (now l) k db).
Proof.
  intros Hok. unfold prune. destruct (db !! k) as [row|] eqn:Hk; [|done].
  unfold live. destruct (Z.ltb_spec (now l) (expires_at row)); [done|].
  split; try apply Hok.
  - intros k' row' [? Hk']%lookup_delete_Some. by apply (ok_logged _ _ Hok).
  - intros k' row' [? Hk']%lookup_delete_Some. by apply (ok_done _ _ Hok).
  - intros ev k' c Hin Hc. destruct (ok_held _ _ Hok _ _ _ Hin Hc) as [Hl|(row' & Hk' & Hl)]; [by left|].
    destruct (decide (k = k')) as [<-|Hne].
    2: { right. exists row'. split; [|done]. apply lookup_delete_Some. by split. }
    left. simplify_eq. by eapply lapsed_le.
Qed.

(** A claim goes through when the row is missing or has run out. *)
Lemma inbox_ok_claim l db tid k h created e :
  inbox_ok l db → (∀ old, db !! k = Some old → expires_at old ≤ now l) →
  inbox_ok (logged tid (Wrote (k, pending_row h created e)) l)
    (put (k, pending_row h created e) db).
Proof.
  intros Hok Hold. set (row := pending_row h created e).
  assert (Hall : ∀ ev c, ev ∈ events l → wrote k c true ev → lapsed l k c (now l)).
  { intros ev c Hin Hc. destruct (ok_held _ _ Hok _ _ _ Hin Hc) as [|(old & Ho & Hl)]; [done|].
    eapply lapsed_le; [by apply Hold|done]. }
  apply (inbox_ok_logged l db); [done| | | |done].
  - unfold put. cbn. intros k' row' [[<- <-]|[? ?]]%lookup_insert_Some; [right|by left]. by split.
  - intros ev k' c Hin Hc. destruct (decide (k = k')) as [<-|Hne].
    + left. eapply lapsed_later; [apply later_logged|]. by eapply Hall.
    + destruct (ok_held _ _ Hok _ _ _ Hin Hc) as [Hl|(row' & Hk & Hl)]; [left|right; exists row'; split].
      * eapply lapsed_later; [apply later_logged|done].
      * unfold put. by rewrite lookup_insert_ne.
      * eapply lapsed_later; [apply later_logged|done].
  - intros k' c [= <- <-] _. split; [unfold put; by rewrite lookup_insert_eq|done].
Qed.

(** A response may be put under its key at any time. *)
Lemma inbox_ok_response l db tid k rq body status created e :
  inbox_ok l db → finished l rq body status → key_of rq = Some k →
  let row := done_row (hash_of rq) body status created e in
  inbox_ok (logged tid (Wrote (k, row)) l) (put (k, row) db).
Proof.
  intros Hok Hf Hk row. apply (inbox_ok_logged l db); [done| | |by intros ? ? [= <- <-]|done].
  - unfold put. cbn. intros k' row' [[<- <-]|[? ?]]%lookup_insert_Some; [right|by left].
    split; [done|]. intros _. by exists rq.
  - intros ev k' c Hin Hc. destruct (decide (k = k')) as [<-|Hne].
    + right. exists row. split; [unfold put; by rewrite lookup_insert_eq|]. right.
      eexists _, row. split; [apply elem_of_logged; by right|]. by repeat split.
    + destruct (ok_held _ _ Hok _ _ _ Hin Hc) as [Hl|(row' & Hk' & Hl)]; [left|right; exists row'; split].
      * eapply lapsed_later; [apply later_logged|done].
      * unfold put. by rewrite lookup_insert_ne.
      * eapply lapsed_later; [apply later_logged|done].
Qed.

(** *** What a handler may rely on *)
Definition row_fact (l : history) (k : row_key) (row : IdempotencyResponse) : Prop :=
  (∃ ev, ev ∈ events l ∧ ev_what ev = Wrote (k, row)) ∧
  (is_pending row = false → ∃ rq, finished l rq (response_body row) (status_code row) ∧
     key_of rq = Some k ∧ hash_of rq = request_hash row).
Definition lost (l : history) (tid : nat) : Prop := ∃ t, Event tid t Lost ∈ events l.
Definition claimed (l : history) (tid : nat) (k : row_key) (h : string) : Prop :=
  ∃ t row, Event tid t (Wrote (k, row)) ∈ events l ∧ is_pending row = true ∧ request_hash row = h.

Lemma row_fact_db l db k row : inbox_ok l db → db !! k = Some row → row_fact l k row.
Proof. intros Hok Hk. split; [by eapply ok_logged|]. by eapply ok_done. Qed.
Lemma row_fact_later l l' k row : later l l' → row_fact l k row → row_fact l' k row.
Proof.
  intros Hl [(ev & Hin & Hw) Hd]. split.
  - exists ev. split; [|done]. destruct Hl as [_ Hp]. by eapply elem_of_prefix.
  - intros Hp. destruct (Hd Hp) as (rq & Hf & ?). exists rq. split; [|done]. by eapply finished_later.
Qed.
Lemma lost_later l l' tid : later l l' → lost l tid → lost l' tid.
Proof. intros [_ Hp] [t Ht]. exists t. by eapply elem_of_prefix. Qed.
Lemma claimed_later l l' tid k h : later l l' → claimed l tid k h → claimed l' tid k h.
Proof. intros [_ Hp] (t & row & Ht & ?). exists t, row. split; [|done]. by eapply elem_of_prefix. Qed.
Lemma lost_logged (l : history) tid : lost (logged tid Lost l) tid.
Proof. eexists. apply elem_of_logged. by right. Qed.

Lemma entitled_now l tid rq :
  (∀ k, key_of rq = Some k → lost l tid ∨ claimed l tid k (hash_of rq)) →
  entitled l tid (length (events l)) rq.
Proof.
  intros He k Hk. destruct (He k Hk) as [[t Ht]|(t & row & Ht & Hr)]; [left|right].
  - apply list_elem_of_lookup in Ht as [q Hq]. exists q, t. split; [by eapply lookup_lt_Some|done].
  - apply list_elem_of_lookup in Ht as [q Hq]. exists q, t, row.
    split; [by eapply lookup_lt_Some|done].
Qed.

(** *** The storage *)
Abbreviation wptx' := (wptx put inbox_ok).
Abbreviation wp' := (wp put inbox_ok).

Lemma idempotency_get_spec tid k l :
  wptx' tid (idempotency_get k) l (λ r l', ∀ row, r = Some row → row_fact l' k row).
Proof.
  cbn. intros l1 Hl1 l2 db Hl2 Hok. split; [done|]. intros l3 Hl3 row.
  destruct (db !! k) as [row'|] eqn:Hk; [|done]. destruct (live _ _); [|done]. intros [= ->].
  eapply row_fact_later; [done|]. by eapply row_fact_db.
Qed.

Lemma idempotency_claim_spec tid k h e l :
  wptx' tid (idempotency_claim k h e) l (λ r l', r ≠ None → claimed l' tid k h).
Proof.
  cbn. intros l1 Hl1 l2 db Hl2 Hok. unfold claim_stmt.
  assert (Hc : ∀ row l3, later (logged tid (Wrote (k, row)) l2) l3 → is_pending row = true →
    request_hash row = h → claimed l3 tid k h).
  { intros row l3 Hl3 Hp Hh. eapply claimed_later; [done|]. eexists _, row.
    split; [apply elem_of_logged; by right|done]. }
  destruct (db !! k) as [old|] eqn:Hk; [unfold live; destruct (Z.ltb_spec (now l1) (expires_at old))|];
    cbn; (split; [|intros l3 Hl3; by eauto]); try done.
  - apply inbox_ok_claim; [done|]. intros o. rewrite Hk. intros [= <-]. destruct Hl2. lia.
  - apply inbox_ok_claim; [done|]. by rewrite Hk.
Qed.

Lemma claim_endpoint_spec tid k h e l :
  wptx' tid (claim_endpoint k h e) l (λ r l',
    match r with
    | Created _ => claimed l' tid k h
    | Conflict found => ∀ row, found = Some row → row_fact l' k row
    end).
Proof.
  apply wptx_bind. eapply wptx_impl; [|apply idempotency_claim_spec]. intros [row|] l' _ Hc.
  - apply wptx_ret. intros l2 Hl2. eapply claimed_later; [done|]. by apply Hc.
  - apply wptx_bind. eapply wptx_impl; [|apply idempotency_get_spec]. intros found l2 _ Hf.
    apply wptx_ret. intros l3 Hl3 row Hrow. eapply row_fact_later; [done|]. by apply Hf.
Qed.

Section Record.
Context (tid : nat) (k : row_key) (rq : Request) (body : pyval) (status e : Z).

Lemma insert_or_existing_spec t l :
  finished l rq body status → key_of rq = Some k →
  wptx' tid (insert_or_existing k (hash_of rq) body status e t) l (λ _ _, True).
Proof.
  intros Hf Hk l' db Hl Hok. unfold insert_stmt. destruct (db !! k); cbn; [by split|].
  split; [|done]. apply inbox_ok_response; [done| |done]. by eapply finished_later.
Qed.

Lemma idempotency_record_spec l :
  finished l rq body status → key_of rq = Some k →
  wptx' tid (idempotency_record k (hash_of rq) body status e) l (λ _ _, True).
Proof.
  intros Hf Hk. cbn. intros l1 Hl1 l2 db Hl2 Hok.
  assert (Hf2 : finished l2 rq body status) by (eapply finished_later; [|done]; by etrans).
  pose proof (insert_or_existing_spec (now l1) l2 Hf2 Hk) as Hno.
  unfold update_stmt. destruct (db !! k) as [old|]; [|by split].
  destruct (String.eqb (request_hash old) (hash_of rq) && is_pending old); [|by split].
  split; [|done]. by apply inbox_ok_response.
Qed.
End Record.

(** *** The client and the middleware *)
Lemma wp_http {X} (tid : nat) (server : tx inbox write X) ac l (Q : option X → list (action * answer) → history → Prop) :
  wptx' tid server l (λ x l', ∀ l2, later l' l2 → Q (Some x) ac l2) →
  (∀ l', later l l' → lost l' tid → Q None ac l') →
  wp' tid (http server) ac l Q.
Proof.
  intros Hs Hn. split; [done|]. intros l' db Hl' Hok. split.
  - by apply inbox_ok_quiet.
  - cbn. intros l2 Hl2. apply Hn; [by etrans; [|etrans; [apply later_logged|]]|].
    eapply lost_later; [done|]. apply lost_logged.
Qed.

Lemma get_idempotency_spec tid k ac l :
  wp' tid (get_idempotency k) ac l (λ r ac' l', ac' = ac ∧
    match r with
    | None => lost l' tid
    | Some found => ∀ row, found = Some row → row_fact l' k row
    end).
Proof.
  apply wp_http; [|by split]. eapply wptx_impl; [|apply idempotency_get_spec].
  intros found l' _ Hf l2 Hl2. split; [done|]. intros row Hrow. eapply row_fact_later; [done|]. by apply Hf.
Qed.

Lemma claim_idempotency_spec tid k h e ac l :
  wp' tid (claim_idempotency k h e) ac l (λ r ac' l', ac' = ac ∧
    match r with
    | None => lost l' tid
    | Some (true, _) => claimed l' tid k h
    | Some (false, found) => ∀ row, found = Some row → row_fact l' k row
    end).
Proof.
  apply wp_bind, wp_http.
  - eapply wptx_impl; [|apply claim_endpoint_spec].
    intros [row|found] l' _ Hr l2 Hl2; apply wp_ret; intros l3 Hl3; (split; [done|]).
    + eapply claimed_later; [|done]. by etrans.
    + intros row Hrow. eapply row_fact_later; [|by apply Hr]. by etrans.
  - intros l' _ Hlost. apply wp_ret. intros l2 Hl2. split; [done|]. by eapply lost_later.
Qed.

Lemma record_spec tid (g : IdempotencyGuard) rq body status ac l :
  finished l rq body status → key_of rq = Some (key g) → hash g = hash_of rq →
  wp' tid (record settings g body status) ac l (λ _ ac' _, ac' = ac).
Proof.
  intros Hf Hk Hh. intros l' t Hl'. apply wp_bind, wp_bind, wp_http.
  - rewrite Hh. eapply wptx_impl; [|eapply idempotency_record_spec; [by eapply finished_later|done]].
    intros r l2 _ _ l3 Hl3. by apply wp_ret.
  - intros l2 _ _. by apply wp_ret.
Qed.

Lemma poll_spec tid k n ac l :
  wp' tid (poll n k) ac l (λ r ac' l', ac' = ac ∧
    match r with
    | PollDone row => row_fact l' k row ∧ is_pending row = false
    | PollStorageError => lost l' tid
    | _ => True
    end).
Proof.
  revert l. induction n as [|n IH]; intros l; cbn [poll]; [by apply wp_ret|].
  apply wp_bind. eapply wp_impl; [|apply get_idempotency_spec].
  intros [[row|]|] ac' l' _ [-> Hr]; [|by apply wp_ret|].
  - destruct (is_pending row) eqn:Hp; cbn; [apply IH|].
    intros l2 Hl2. split_and!; [done| |done]. eapply row_fact_later; [done|]. by apply Hr.
  - apply wp_ret. intros l2 Hl2. split; [done|]. by eapply lost_later.
Qed.

(** What [idempotency_for] hands to the route, for a request with key [k]. *)
Definition guard_ok (tid : nat) (rq : Request) (k : row_key) (l : history)
    (r : res http_error (option IdempotencyGuard)) : Prop :=
  match r with
  | Ok None => False
  | Ok (Some g) =>
      key g = k ∧ hash g = hash_of rq ∧
      match cached g with
      | None => lost l tid ∨ claimed l tid k (hash_of rq)
      | Some row => row_fact l k row ∧ request_hash row = hash_of rq ∧ is_pending row = false
      end
  | Err e =>
      (e = key_conflict ∧ ∃ row, row_fact l k row ∧ request_hash row ≠ hash_of rq) ∨
      e = still_in_progress ∨ e = did_not_complete ∨ e = storage_unavailable ∧ lost l tid
  end.

Lemma guard_ok_later tid rq k l l' r : later l l' → guard_ok tid rq k l r → guard_ok tid rq k l' r.
Proof.
  intros Hl. destruct r as [[g|]|e]; cbn; [|done|].
  - intros (Hk & Hh & Hc). split_and!; [done..|]. destruct (cached g) as [row|].
    + destruct Hc as [Hf ?]. split; [|done]. by eapply row_fact_later.
    + destruct Hc as [Hc|Hc]; [left; by eapply lost_later|right; by eapply claimed_later].
  - intros [(-> & row & Hf & Hne)|[->|[->|[-> Hlost]]]]; [left|by right; left|by right; right; left|].
    + split; [done|]. exists row. split; [|done]. by eapply row_fact_later.
    + right; right; right. split; [done|]. by eapply lost_later.
Qed.

Lemma guard_ok_replay tid rq k l row :
  row_fact l k row → is_pending row = false → guard_ok tid rq k l (replay k (hash_of rq) row).
Proof.
  intros Hf Hp. unfold replay. destruct (String.eqb_spec (request_hash row) (hash_of rq)) as [Hh|Hh].
  - by split_and!.
  - left. split; [done|]. by exists row.
Qed.

Lemma guard_ok_conflict tid rq k l row :
  row_fact l k row → String.eqb (request_hash row) (hash_of rq) = false →
  guard_ok tid rq k l (Err key_conflict).
Proof. intros Hf Hh%String.eqb_neq. left. split; [done|]. by exists row. Qed.

Lemma wp_guard tid rq k l ac r :
  guard_ok tid rq k l r →
  wp' tid (mret r) ac l (λ r' ac' l', ac' = ac ∧ guard_ok tid rq k l' r').
Proof. intros Hg. apply wp_ret. intros l' Hl'. split; [done|]. by eapply guard_ok_later. Qed.

Lemma wait_for_holder_spec tid rq k l ac :
  wp' tid (wait_for_holder k (hash_of rq)) ac l (λ r ac' l', ac' = ac ∧ guard_ok tid rq k l' r).
Proof.
  apply wp_bind. eapply wp_impl; [|apply poll_spec]. intros r ac' l' _ [-> Hr].
  apply wp_guard. destruct r as [row| | |]; cbn; [|tauto..].
  destruct Hr. by apply guard_ok_replay.
Qed.

Lemma claim_spec tid rq k l ac :
  wp' tid (claim settings k (hash_of rq)) ac l (λ r ac' l', ac' = ac ∧ guard_ok tid rq k l' r).
Proof.
  intros l1 t Hl1. apply wp_bind. eapply wp_impl; [|apply claim_idempotency_spec].
  intros [[[] found]|] ac' l' _ [-> Hr].
  - apply wp_guard. split_and!; [done..|]. by right.
  - destruct found as [row|]; [|apply wait_for_holder_spec]. specialize (Hr row eq_refl).
    destruct (String.eqb (request_hash row) (hash_of rq)) eqn:Hh; cbn [negb].
    + destruct (is_pending row) eqn:Hp; cbn [negb]; [apply wait_for_holder_spec|].
      by apply wp_guard, guard_ok_replay.
    + by eapply wp_guard, guard_ok_conflict.
  - apply wp_guard. split_and!; [done..|]. by left.
Qed.

Lemma idempotency_for_spec tid rq given source l ac :
  wp' tid (idempotency_for sha256_hex settings rq given source) ac l (λ r ac' l', ac' = ac ∧
    match given with
    | None | Some EmptyString => r = Ok None
    | Some g =>
        match check_key g with
        | Err e => r = Err e
        | Ok _ => guard_ok tid rq (tenant_id rq, namespaced source g) l' r
        end
    end).
Proof.
  destruct given as [[|c g]|]; [by apply wp_ret| |by apply wp_ret].
  cbn [idempotency_for]. destruct (check_key (String c g)) as [[]|e]; [|by apply wp_ret].
  apply wp_bind. eapply wp_impl; [|apply get_idempotency_spec]. fold (hash_of rq).
  intros [[row|]|] ac' l' _ [-> Hr].
  - specialize (Hr row eq_refl). destruct (is_pending row) eqn:Hp; cbn [negb].
    + destruct (String.eqb (request_hash row) (hash_of rq)) eqn:Hh; cbn [negb].
      * apply wait_for_holder_spec.
      * by eapply wp_guard, guard_ok_conflict.
    + by apply wp_guard, guard_ok_replay.
  - apply claim_spec.
  - apply wp_guard. split_and!; [done..|]. by left.
Qed.

(** *** The routes *)
Definition outcome_ok (tid : nat) (rq : Request) (a : outcome) (ac : list (action * answer))
    (l : history) : Prop :=
  match a with
  | Replayed body status =>
      ac = [] ∧ ∃ rq' k, finished l rq' body status ∧ key_of rq = Some k ∧ key_of rq' = Some k ∧
        hash_of rq' = hash_of rq
  | Answered body status =>
      ∃ x, ac = [(StartWork rq, x); (FinishWork rq, Some (body, status))]
  | WorkRaised => ∃ x, ac = [(StartWork rq, x); (FinishWork rq, None)]
  | Refused e =>
      ac = [] ∧
      match key_of rq with
      | None => status e = 400
      | Some k =>
          (e = key_conflict ∧ ∃ row ev, ev ∈ events l ∧ ev_what ev = Wrote (k, row) ∧
             request_hash row ≠ hash_of rq) ∨
          e = still_in_progress ∨ e = did_not_complete ∨ e = storage_unavailable ∧ lost l tid
      end
  end.

(** The work and the record, once the middleware lets a request pass. *)
Lemma work_spec tid rq (idem : option IdempotencyGuard) l :
  (∀ k, key_of rq = Some k → lost l tid ∨ claimed l tid k (hash_of rq)) →
  match idem with Some g => key_of rq = Some (key g) ∧ hash g = hash_of rq | None => True end →
  wp' tid (work_and_record settings rq idem) [] l (outcome_ok tid rq).
Proof.
  intros Hent Hg. apply wp_bind, wp_perform. intros l1 db x Hl1 Hok. split.
  { apply inbox_ok_quiet; [done..|]. intros rq' ans' [= <- <-]. apply entitled_now.
    intros k Hk. destruct (Hent k Hk); [left; by eapply lost_later|right; by eapply claimed_later]. }
  intros l2 _. apply wp_bind, wp_perform. intros l3 db3 ans _ Hok3. split; [by apply inbox_ok_quiet|].
  intros l4 Hl4. destruct ans as [[body status]|]; [|apply wp_ret; by eexists].
  apply wp_bind. destruct idem as [g|].
  - destruct Hg as [Hk Hh]. eapply wp_impl; [|eapply record_spec; [|done|done]].
    + intros u ac' l' _ ->. apply wp_ret. by eexists.
    + eapply finished_later; [done|]. eexists _, _. apply elem_of_logged. by right.
  - apply wp_ret. intros l' _. apply wp_ret. by eexists.
Qed.

Lemma write_route_spec tid rq l :
  wp' tid (write_route sha256_hex settings rq) [] l (outcome_ok tid rq).
Proof.
  unfold write_route. destruct (key_given rq) as [given source] eqn:Hgiven.
  assert (Hkey : ∀ k, key_of rq = Some k → ∃ g, given = Some g ∧ g ≠ ""%string ∧ check_key g = Ok tt ∧
            k = (tenant_id rq, namespaced source g)).
  { unfold key_of. rewrite Hgiven. intros k. destruct given as [[|c g]|]; [done| |done].
    destruct (check_key _) as [[]|] eqn:Hc; [|done]. intros [= <-]. by eexists. }
  apply wp_bind. eapply wp_impl; [|apply idempotency_for_spec]. intros r ac' l' _ [-> Hr].
  assert (Hcase : r = Ok None ∧ key_of rq = None ∨
                  (∃ e, r = Err e ∧ status e = 400 ∧ key_of rq = None) ∨
                  ∃ k, key_of rq = Some k ∧ guard_ok tid rq k l' r).
  { unfold key_of in *. rewrite Hgiven in *. destruct given as [[|c g]|]; [by left| |by left].
    unfold check_key in *. destruct (negb (not_blank _)); [right; left; by eexists|].
    destruct (_ <? _); [right; left; by eexists|]. right; right. by eexists. }
  destruct Hcase as [[-> Hk]|[(e & -> & Hst & Hk)|(k & Hk & Hg)]].
  - apply (work_spec tid rq None); [|done]. intros k. by rewrite Hk.
  - apply wp_ret. intros l2 _. split; [done|]. by rewrite Hk.
  - destruct r as [[g|]|e]; cbn in Hg; [|done|].
    + destruct Hg as (Hkg & Hh & Hc). unfold replay_of, cached_replay.
      destruct (cached g) as [row|].
      * destruct Hc as ([_ Hf] & Hrh & Hp). apply wp_ret. intros l2 Hl2. split; [done|].
        destruct (Hf Hp) as (rq' & Hfin & Hk' & Hh'). exists rq', k.
        split_and!; [by eapply finished_later|done..|congruence].
      * apply (work_spec tid rq (Some g)); [|split; congruence]. intros k'. rewrite Hk. by intros [= <-].
    + apply wp_ret. intros l2 Hl2. split; [done|]. rewrite Hk.
      pose proof (guard_ok_later tid rq k l' l2 (Err e) Hl2 Hg) as Hg2. cbn in Hg2.
      destruct Hg2 as [(-> & row & [(ev & Hin & Hw) _] & Hne)|Hg2]; [|by right].
      left. split; [done|]. by exists row, ev.
Qed.

Lemma serve_ok ms :
  sys_ok put inbox_ok outcome_ok (serve sha256_hex settings ms).
Proof.
  apply (run_ok _ _ prune inbox_ok outcome_ok).
  - split.
    + intros l db d. apply inbox_ok_tick.
    + intros l db k. apply inbox_ok_prune.
    + intros i rq l _. apply write_route_spec.
  - split; [|constructor]. split; cbn; intros; try done; by lazymatch goal with
    | H : _ ∈ [] |- _ => apply elem_of_nil in H
    end.
Qed.

(** Every request is answered in one of four ways, whatever runs at the
    same time: it replays, without working, a response that a run of a
    request with the same key and the same body hash produced; it works once
    and answers what that run produced; its work raised; or it is refused
    without working, with 400 for a key that is blank or too long, 422 only
    when a row of its key carried another body's hash, 503 only when a storage
    call of its own raised, and 409 otherwise. *)
Theorem idempotent_outcomes ms i th a :
  threads (serve sha256_hex settings ms) !! i = Some th → run_code th = Client (Ret a) →
  outcome_ok (tid th) (req th) a (acts th) (sys_log (serve sha256_hex settings ms)).
Proof. apply (finished_ok put inbox_ok outcome_ok), serve_ok. Qed.

End Theorems.

(** ** Concrete runs *)
Section Witnesses.
Definition ex_sha (s : string) : string := s.
Definition ex_settings : Settings :=
  {| idempotency_ttl_seconds := 86400; idempotency_pending_ttl_seconds := 90 |}.
Definition ex_request (body : string) : Request :=
  {| at_route := WriteMemory; tenant_id := "t"; idempotency_key := Some "k"%string; metadata := [];
     body_bytes := body |}.
Definition ex_steps (i n : nat) (t : Z) : list (move answer Request row_key) :=
  replicate n (Step i t (Some (PDict [], 201))).
Abbreviation ex_serve := (serve ex_sha ex_settings).
Definition ex_outcomes (ms : list (move answer Request row_key)) : list (option outcome) :=
  (λ th, match run_code th with Client (Ret a) => Some a | _ => None end) <$> threads (ex_serve ms).

(** A retry replays. *)
Definition ex_retry := [Arrive (ex_request "b")] ++ ex_steps 0 20 0 ++ [Arrive (ex_request "b")] ++ ex_steps 1 20 0.
(** The first request dies at work; its retry comes after the lease. *)
Definition ex_crash :=
  [Arrive (ex_request "b")] ++ ex_steps 0 8 0 ++
  [Tick 91000000; Arrive (ex_request "b")] ++ ex_steps 1 20 91000000.

(** A retry while the first request works waits for twenty polls, then 409. *)
Example ex_waits :
  ex_outcomes ([Arrive (ex_request "b")] ++ ex_steps 0 8 0 ++ [Arrive (ex_request "b")] ++ ex_steps 1 100 0)
  = [None; Some (Refused still_in_progress)].
Proof. vm_compute. reflexivity. Qed.
(** The same key with another body: 422. *)
Example ex_other_body :
  ex_outcomes ([Arrive (ex_request "b")] ++ ex_steps 0 20 0 ++ [Arrive (ex_request "c")] ++ ex_steps 1 9 0)
  = [Some (Answered (PDict []) 201); Some (Refused key_conflict)].
Proof. vm_compute. reflexivity. Qed.

Lemma idempotent_outcomes_witness :
  ex_outcomes ex_retry = [Some (Answered (PDict []) 201); Some (Replayed (PDict []) 201)] ∧
  ∃ rq', finished (sys_log (ex_serve ex_retry)) rq' (PDict []) 201.
Proof.
  split; [vm_compute; reflexivity|].
  assert (Hth : threads (serve ex_sha ex_settings ex_retry) !! 1%nat =
    Some (Thread 1 (ex_request "b") [] (Client (Ret (Replayed (PDict []) 201))))).
  { vm_compute. reflexivity. }
  destruct (idempotent_outcomes ex_sha ex_settings ex_retry 1 _ _ Hth eq_refl) as (_ & rq' & k & Hf & _).
  by exists rq'.
Defined.

End Witnesses.
End Idempotency.
