(* ===== verification/Retry.v ===== *)
(** * Retries (common/http_retry.py, common/llm/retry.py, and the retry layer
    of core_api/clients/storage_client.py and core_worker/clients/storage_client.py)

    A call may raise or answer; a retry policy decides whether to call again.
    The world is the script of outcomes the calls will meet, and a record of
    the calls made and of the sleeps between them. *)

From S2P Require Import Prelude Floats.

Module Retry.
Import Floats.

(** ** Calls that follow a script *)
Section World.
Context {E A : Type}.
Record world : Type := {
  (** what the n-th call meets *)
  script : nat → res E A;
  (** the jitter of the n-th sleep *)
  jitter : nat → float;
  made : list (res E A);
  sleeps : list float;
}.
Definition attempt_call : io world E A := λ w,
  let r := script w (length (made w)) in
  (r, {| script := script w; jitter := jitter w; made := made w ++ [r]; sleeps := sleeps w |}).
Definition sleep (delay : float → float) : io world E unit := λ w,
  let d := delay (jitter w (length (sleeps w))) in
  (Ok tt, {| script := script w; jitter := jitter w; made := made w; sleeps := sleeps w ++ [d] |}).
End World.
Arguments world : clear implicits.

(** ** HTTP (common/http_retry.py) *)
Inductive exn : Type :=
| ConnectTimeout | ReadTimeout | PoolTimeout | ConnectError
| OtherException (type : string) | HTTPStatusError (status : Z) | LoopExited.
#[global] Instance exn_eq_dec : EqDecision exn.
Proof. solve_decision. Defined.

(** An outcome of a call is the status of its response, or an exception. *)
Abbreviation http_world := (world exn Z).
Abbreviation http A := (io http_world exn A).

Definition RETRY_MAX_ATTEMPTS : nat := 3.
Definition RETRY_BACKOFF_BASE_S : float := lit 2 10.
Definition RETRY_BACKOFF_MAX_S : float := of_Z 2.
Definition CONNECT_PHASE_MAX_ATTEMPTS : nat := 5.
Definition RETRYABLE_EXCEPTIONS : list exn := [ConnectTimeout; ReadTimeout; PoolTimeout; ConnectError].
Definition CONNECT_PHASE_EXCEPTIONS : list exn := [ConnectTimeout; ConnectError; PoolTimeout].
Definition RETRYABLE_STATUS_CODES : list Z := [502; 503; 504].
Definition NO_RETRYABLE_STATUSES : list Z := [].

(** [min(x, y)] of two floats *)
Definition fmin (x y : float) : float := if flt y x then y else x.
(** [jitter] is what [random.uniform(-0.1, 0.1)] returns. *)
Definition _backoff_delay (attempt : nat) (jitter : float) : float :=
  let delay := fmul RETRY_BACKOFF_BASE_S (of_Z (2 ^ (Z.of_nat attempt - 1))) in
  fmin (fmul delay (fadd (of_Z 1) jitter)) RETRY_BACKOFF_MAX_S.

(** The arguments of [with_retry]. *)
Record policy : Type := {
  retryable_exceptions : list exn;
  retryable_statuses : list Z;
  max_attempts : nat;
  connect_phase_max_attempts : option nat;
}.
Definition cp_max (p : policy) : nat := default (max_attempts p) (connect_phase_max_attempts p).
Definition effective_max (p : policy) : nat := Nat.max (max_attempts p) (cp_max p).

Definition limit (p : policy) (e : exn) : nat :=
  if bool_decide (e ∈ CONNECT_PHASE_EXCEPTIONS) then cp_max p else max_attempts p.

(** The loop, [remaining] attempts before its range is exhausted. *)
Fixpoint retry_loop (p : policy) (remaining attempt : nat) (last_exc : option exn) : http Z :=
  match remaining with
  | O => io_raise (default LoopExited last_exc)
  | S remaining =>
      io_try attempt_call
        (λ status,
           if bool_decide (status ∈ retryable_statuses p) && Nat.ltb attempt (max_attempts p) then
             _ ← sleep (_backoff_delay attempt); retry_loop p remaining (S attempt) last_exc
           else mret status)
        (λ e,
           if bool_decide (e ∈ retryable_exceptions p) then
             if Nat.ltb attempt (limit p e) then
               _ ← sleep (_backoff_delay attempt); retry_loop p remaining (S attempt) (Some e)
             else io_raise e
           else io_raise e)
  end.
Definition with_retry (p : policy) : http Z := retry_loop p (effective_max p) 1 None.

Definition idempotent_policy : policy :=
  {| retryable_exceptions := RETRYABLE_EXCEPTIONS; retryable_statuses := RETRYABLE_STATUS_CODES;
     max_attempts := RETRY_MAX_ATTEMPTS; connect_phase_max_attempts := None |}.
Definition connect_phase_policy : policy :=
  {| retryable_exceptions := CONNECT_PHASE_EXCEPTIONS; retryable_statuses := NO_RETRYABLE_STATUSES;
     max_attempts := CONNECT_PHASE_MAX_ATTEMPTS; connect_phase_max_attempts := None |}.
Definition read_policy : policy :=
  {| retryable_exceptions := RETRYABLE_EXCEPTIONS; retryable_statuses := RETRYABLE_STATUS_CODES;
     max_attempts := RETRY_MAX_ATTEMPTS;
     connect_phase_max_attempts := Some CONNECT_PHASE_MAX_ATTEMPTS |}.
Definition with_connect_phase_retry : http Z := with_retry connect_phase_policy.
Definition _read_retry : http Z := with_retry read_policy.

(** *** The storage client: a pool that is exhausted is rebuilt, once, and the
    policy runs again. *)
Definition _execute (retry : http Z) : http Z :=
  io_try retry mret (λ e, if decide (e = PoolTimeout) then retry else io_raise e).

(** [resp.raise_for_status()] *)
Definition raise_for_status (status : Z) : http Z :=
  if (200 <=? status) && (status <? 300) then mret status else io_raise (HTTPStatusError status).
(** The methods: [None] is the 404 some of them turn into "not found". *)
Definition found_or_raise (status : Z) : http (option Z) :=
  if status =? 404 then mret None else s ← raise_for_status status; mret (Some s).
Definition _get : http (option Z) := status ← _execute _read_retry; found_or_raise status.
Definition _get_list : http Z := status ← _execute _read_retry; raise_for_status status.
Definition _post (idempotent : bool) : http Z :=
  status ← _execute (if idempotent then with_retry idempotent_policy else with_connect_phase_retry);
  raise_for_status status.
Definition _post_optional : http (option Z) :=
  status ← _execute with_connect_phase_retry; found_or_raise status.
Definition _patch : http (option Z) :=
  status ← _execute (with_retry idempotent_policy); found_or_raise status.
Definition _delete : http bool :=
  status ← _execute (with_retry idempotent_policy);
  if status =? 404 then mret false else _ ← raise_for_status status; mret true.

(** *** The worker: a rejected token is fetched anew, once. *)
Definition _signed_call (audience_set : bool) : http Z :=
  status ← with_connect_phase_retry;
  if (status =? 401) && audience_set then with_connect_phase_retry else mret status.

(** ** LLM providers (common/llm/retry.py) *)
Section Llm.
Context {T : Type}.

Definition LLM_RETRY_ATTEMPTS : Z := 2.
Definition LLM_RETRY_DELAY_S : float := of_Z 1.

(** [BaseException]s that are not [Exception]s pass every handler. *)
Inductive llm_exn : Type := ExceptionRaised (what : string) | Cancelled | BadMaxAttempts (n : Z).
Definition is_exception (e : llm_exn) : bool := match e with Cancelled => false | _ => true end.

Record provider : Type := { provider_name : string; is_fake : bool }.

(** The world of the providers: what the n-th call answers and which provider
    each call went to. *)
Record llm_world : Type := {
  answers : nat → res llm_exn T;
  asked : list provider;
  waits : list float;
}.
Abbreviation llm A := (io llm_world llm_exn A).
Definition call_fn (p : provider) : llm T := λ w,
  (answers w (length (asked w)),
   {| answers := answers w; asked := asked w ++ [p]; waits := waits w |}).
Definition wait (d : float) : llm unit := λ w,
  (Ok tt, {| answers := answers w; asked := asked w; waits := waits w ++ [d] |}).

Fixpoint llm_loop (base_delay : float) (p : provider) (remaining : nat) (attempt : Z) (last_exc : llm_exn) : llm T :=
  match remaining with
  | O => io_raise last_exc
  | S remaining =>
      io_try (call_fn p) mret
        (λ e,
           if is_exception e then
             _ ← match remaining with
                 | O => mret tt
                 | _ => wait (fmul base_delay (of_Z (attempt + 1)))
                 end;
             llm_loop base_delay p remaining (attempt + 1) e
           else io_raise e)
  end.
Definition call_with_retry (p : provider) (max_attempts : Z) (base_delay : float) : llm T :=
  if max_attempts <=? 0 then io_raise (BadMaxAttempts max_attempts)
  else llm_loop base_delay p (Z.to_nat max_attempts) 0 (BadMaxAttempts 0).

(** [provider_factory(name, config, model_override, model_attr)], and
    [tenant_config.resolve_fallback()] where the configuration has it. *)
Context (provider_factory : string → option string → res llm_exn provider).

Definition FAKE : string := "fake".
Definition NONE : string := "none".

Definition try_provider (name : string) (model : option string) (max_attempts : Z) : llm (option T) :=
  p ← io_lift (provider_factory name model);
  if is_fake p then mret None
  else t ← call_with_retry p max_attempts LLM_RETRY_DELAY_S; mret (Some t).

(** [except Exception]: the tier yields nothing. *)
Definition tier (m : llm (option T)) : llm (option T) :=
  io_try m mret (λ e, if is_exception e then mret None else io_raise e).

Definition fallback_provider (primary : string)
    (resolve_fallback : option (res llm_exn (option string * option string))) (max_attempts : Z) :
    llm (option T) :=
  match resolve_fallback with
  | None => mret None
  | Some resolve =>
      '(name, model) ← io_lift resolve;
      match name with
      | Some name =>
          if negb (String.eqb name "") && negb (String.eqb name primary)
          then try_provider name model max_attempts else mret None
      | None => mret None
      end
  end.

Definition call_with_fallback (primary : string) (fake_fn : T) (model_override : option string)
    (resolve_fallback : option (res llm_exn (option string * option string))) (max_attempts : Z) : llm T :=
  if str_mem primary [FAKE; NONE] then mret fake_fn
  else
    first ← tier (try_provider primary model_override max_attempts);
    match first with
    | Some t => mret t
    | None =>
        second ← tier (fallback_provider primary resolve_fallback max_attempts);
        mret (default fake_fn second)
    end.
End Llm.
Arguments llm_world : clear implicits.

(** ** What the policies guarantee *)
Section HttpTheorems.

(** Whether an outcome of the n-th attempt makes the policy call again. *)
Definition again (p : policy) (n : nat) (o : res exn Z) : bool :=
  match o with
  | Ok status => bool_decide (status ∈ retryable_statuses p) && Nat.ltb n (max_attempts p)
  | Err e => bool_decide (e ∈ retryable_exceptions p) && Nat.ltb n (limit p e)
  end.
Definition short_sleep (d : float) : Prop := flt RETRY_BACKOFF_MAX_S d = false.

Lemma fmin_bound x y : flt y y = false → flt y (fmin x y) = false.
Proof. unfold fmin. by destruct (flt y x) eqn:?. Qed.
Lemma backoff_short n j : short_sleep (_backoff_delay n j).
Proof. by apply fmin_bound. Qed.

Lemma limit_le p e : (limit p e ≤ effective_max p)%nat.
Proof. unfold limit, effective_max. case_bool_decide; lia. Qed.
Lemma again_last p o : again p (effective_max p) o = false.
Proof.
  destruct o as [status|e]; cbn; apply andb_false_iff; right; apply Nat.ltb_ge.
  - apply Nat.le_max_l.
  - apply limit_le.
Qed.

(** One run of a policy: the calls [pre], each of which made it call again,
    then a call whose outcome is the policy's own. *)
Definition policy_run (p : policy) (n : nat) (w w' : http_world) (r : res exn Z) : Prop :=
  ∃ pre ds, made w' = made w ++ pre ++ [r] ∧ sleeps w' = sleeps w ++ ds ∧
    (n + length pre ≤ effective_max p)%nat ∧
    (∀ i o, pre !! i = Some o → again p (n + i) o = true) ∧ again p (n + length pre) r = false ∧
    Forall short_sleep ds.

Lemma policy_run_stop p n w r :
  (n ≤ effective_max p)%nat → again p n r = false → r = script w (length (made w)) →
  policy_run p n w (attempt_call w).2 r.
Proof.
  intros Hn Ha ->. exists [], []. rewrite Nat.add_0_r, app_nil_r. cbn. split_and!; done.
Qed.

Lemma policy_run_again p n w w' r :
  again p n (script w (length (made w))) = true →
  policy_run p (S n) (sleep (_backoff_delay n) (attempt_call w).2).2 w' r → policy_run p n w w' r.
Proof.
  intros Ha (pre & ds & Hm & Hs & Hn & Hpre & Hr & Hds). cbn in *.
  exists (script w (length (made w)) :: pre), (_backoff_delay n (jitter w (length (sleeps w))) :: ds).
  rewrite Hm, Hs, <- !app_assoc. cbn. split_and!; try done; [lia| | |].
  - intros [|i] o; cbn; [intros [= <-]; by rewrite Nat.add_0_r|].
    intros Hi. rewrite Nat.add_succ_r. by apply Hpre.
  - by rewrite Nat.add_succ_r.
  - constructor; [apply backoff_short|done].
Qed.

(** One turn of the loop. *)
Lemma retry_loop_turn p remaining n last w :
  let o := script w (length (made w)) in
  let w1 := (attempt_call w).2 in
  retry_loop p (S remaining) n last w =
  if again p n o
  then retry_loop p remaining (S n) (match o with Ok _ => last | Err e => Some e end)
         (sleep (_backoff_delay n) w1).2
  else (o, w1).
Proof.
  cbn [retry_loop]. unfold io_try. rewrite (surjective_pairing (attempt_call w)).
  cbn [attempt_call fst]. destruct (script w (length (made w))) as [status|e].
  - unfold again. by destruct (_ && _).
  - unfold again. destruct (bool_decide _); [|done]. by destruct (Nat.ltb _ _).
Qed.

Lemma retry_loop_run p remaining n last w :
  (0 < remaining)%nat → (n + remaining = S (effective_max p))%nat →
  policy_run p n w (retry_loop p remaining n last w).2 (retry_loop p remaining n last w).1.
Proof.
  revert n last w. induction remaining as [|remaining IH]; [lia|]. intros n last w _ Hn.
  rewrite retry_loop_turn. cbn zeta. destruct (again p n _) eqn:Ha.
  - apply policy_run_again; [done|]. apply IH; [|lia].
    destruct remaining; [|lia]. assert (n = effective_max p) as -> by lia. by rewrite again_last in Ha.
  - apply policy_run_stop; [lia|done|done].
Qed.

Lemma with_retry_run p w :
  (0 < effective_max p)%nat → policy_run p 1 w (with_retry p w).2 (with_retry p w).1.
Proof. intros Hp. apply retry_loop_run; [done|lia]. Qed.

(** A call of the storage client: at most two runs of its policy, every
    attempt but the last one an outcome the policy retries or the exhausted
    pool. *)
Definition execute_run (p : policy) (w w' : http_world) (r : res exn Z) : Prop :=
  ∃ pre ds, made w' = made w ++ pre ++ [r] ∧ sleeps w' = sleeps w ++ ds ∧
    (length pre < 2 * effective_max p)%nat ∧
    Forall (λ o, (∃ n, again p n o = true) ∨ o = Err PoolTimeout) pre ∧ Forall short_sleep ds.

Lemma execute_run_of p w :
  (0 < effective_max p)%nat → execute_run p w (_execute (with_retry p) w).2 (_execute (with_retry p) w).1.
Proof.
  intros Hp. unfold _execute, io_try. pose proof (with_retry_run p w Hp) as H1.
  assert (Hall : ∀ pre : list (res exn Z), (∀ i o, pre !! i = Some o → again p (1 + i) o = true) →
            Forall (λ o, (∃ n, again p n o = true) ∨ o = Err PoolTimeout) pre).
  { intros pre Hpre. apply Forall_lookup. intros i o Hi. left. eexists. by apply Hpre. }
  assert (Hstop : ∀ r w1, policy_run p 1 w w1 r → execute_run p w w1 r).
  { intros r w1 (pre & ds & Hm & Hs & Hn & Hpre & Hr & Hds). exists pre, ds.
    split_and!; auto. lia. }
  destruct (with_retry p w) as [[status|e] w1]; cbn in H1; [by apply Hstop|].
  destruct (decide (e = PoolTimeout)) as [->|]; [|by apply Hstop].
  destruct H1 as (pre & ds & Hm & Hs & Hn & Hpre & Hr & Hds).
  destruct (with_retry_run p w1 Hp) as (pre2 & ds2 & Hm2 & Hs2 & Hn2 & Hpre2 & Hr2 & Hds2).
  exists (pre ++ Err PoolTimeout :: pre2), (ds ++ ds2).
  rewrite Hm2, Hm, Hs2, Hs, <- !app_assoc. cbn. split_and!; [done|done| | |].
  - rewrite length_app. cbn. lia.
  - apply Forall_app; split; [by apply Hall|]. constructor; [by right|by apply Hall].
  - by apply Forall_app.
Qed.

(** The reply handling of every method leaves the calls alone. *)
Lemma found_or_raise_world status w : (found_or_raise status w).2 = w.
Proof.
  unfold found_or_raise, raise_for_status. destruct (status =? 404); [done|].
  unfold mbind, io_bind. by destruct (_ && _).
Qed.
Lemma raise_for_status_world status w : (raise_for_status status w).2 = w.
Proof. unfold raise_for_status. by destruct (_ && _). Qed.

(** The attempts of a storage call whose policy is [p]. *)
Definition attempts_ok (retried : res exn Z → Prop) (bound : nat) (w w' : http_world) : Prop :=
  ∃ pre r ds, made w' = made w ++ pre ++ [r] ∧ sleeps w' = sleeps w ++ ds ∧
    (length pre < bound)%nat ∧ Forall retried pre ∧ Forall short_sleep ds.
Definition never_sent (o : res exn Z) : Prop := ∃ e, o = Err e ∧ e ∈ CONNECT_PHASE_EXCEPTIONS.
Definition transient (o : res exn Z) : Prop :=
  never_sent o ∨ o = Err ReadTimeout ∨ ∃ status, o = Ok status ∧ status ∈ RETRYABLE_STATUS_CODES.

Lemma retried_transient p n o :
  retryable_exceptions p = RETRYABLE_EXCEPTIONS → retryable_statuses p = RETRYABLE_STATUS_CODES →
  again p n o = true ∨ o = Err PoolTimeout → transient o.
Proof.
  intros He Hs [Ha| ->]; [|left; eexists; split; [done|]; unfold CONNECT_PHASE_EXCEPTIONS; set_solver].
  destruct o as [status|e]; cbn in Ha; apply andb_true_iff in Ha as [Ha%bool_decide_eq_true_1 _].
  - rewrite Hs in Ha. right; right. by exists status.
  - rewrite He in Ha. unfold RETRYABLE_EXCEPTIONS in Ha.
    destruct (decide (e = ReadTimeout)) as [->|Hne]; [by right; left|left].
    exists e. split; [done|]. unfold CONNECT_PHASE_EXCEPTIONS. set_solver.
Qed.

Lemma retried_never_sent n o :
  again connect_phase_policy n o = true ∨ o = Err PoolTimeout → never_sent o.
Proof.
  intros [Ha| ->]; [|eexists; split; [done|]; unfold CONNECT_PHASE_EXCEPTIONS; set_solver].
  destruct o as [status|e]; cbn in Ha; apply andb_true_iff in Ha as [Ha%bool_decide_eq_true_1 _].
  - by apply elem_of_nil in Ha.
  - by exists e.
Qed.

Lemma bind_attempts {A} p (k : Z → http A) retried w :
  (0 < effective_max p)%nat → (∀ status w, (k status w).2 = w) →
  (∀ n o, again p n o = true ∨ o = Err PoolTimeout → retried o) →
  attempts_ok retried (2 * effective_max p) w ((_execute (with_retry p) ≫= k) w).2.
Proof.
  intros Hp Hk Hr. destruct (execute_run_of p w Hp) as (pre & ds & Hm & Hs & Hn & Hpre & Hds).
  assert (Hret : Forall retried pre).
  { eapply Forall_impl; [exact Hpre|]. intros o [[n Ha]|Ho]; [apply (Hr n)|apply (Hr 0%nat)]; auto. }
  unfold mbind, io_bind.
  destruct (_execute (with_retry p) w) as [r w1]. cbn in Hm, Hs. exists pre, r, ds.
  destruct r as [status|e]; [rewrite Hk|]; by split_and!.
Qed.

(** Retries are bounded and safe.  A POST that is not idempotent calls
    again only after exceptions raised before the request was sent, so at most
    its last attempt can have reached the storage, and it makes at most ten
    attempts; a read or another idempotent call repeats itself only after such
    an exception, a read timeout or a 502, 503 or 504, at most ten and six
    times; no sleep exceeds two seconds. *)
Theorem storage_calls_bounded w :
  attempts_ok never_sent 10 w (_post false w).2 ∧
  attempts_ok never_sent 10 w (_post_optional w).2 ∧
  attempts_ok transient 10 w (_get w).2 ∧
  attempts_ok transient 6 w (_post true w).2 ∧
  attempts_ok transient 6 w (_patch w).2 ∧
  attempts_ok transient 6 w (_delete w).2.
Proof.
  assert (Hdel : ∀ status w, ((if status =? 404 then mret false
            else _ ← raise_for_status status; mret true) w : res exn bool * http_world).2 = w).
  { intros status w0. destruct (status =? 404); [done|]. unfold mbind, io_bind, raise_for_status.
    by destruct (_ && _). }
  split_and!.
  - apply (bind_attempts connect_phase_policy); [cbn; lia|apply raise_for_status_world|].
    apply retried_never_sent.
  - apply (bind_attempts connect_phase_policy); [cbn; lia|apply found_or_raise_world|].
    apply retried_never_sent.
  - apply (bind_attempts read_policy); [cbn; lia|apply found_or_raise_world|].
    intros n o. by apply retried_transient.
  - apply (bind_attempts idempotent_policy); [cbn; lia|apply raise_for_status_world|].
    intros n o. by apply retried_transient.
  - apply (bind_attempts idempotent_policy); [cbn; lia|apply found_or_raise_world|].
    intros n o. by apply retried_transient.
  - apply (bind_attempts idempotent_policy); [cbn; lia|apply Hdel|].
    intros n o. by apply retried_transient.
Qed.
End HttpTheorems.

Section LlmTheorems.
Context {T : Type} (provider_factory : string → option string → res llm_exn provider).
Abbreviation llm A := (io (llm_world T) llm_exn A).

(** [t] is what one of the calls between [w] and [w'] answered. *)
Definition answered (w w' : llm_world T) (t : T) : Prop :=
  ∃ n, (length (asked w) ≤ n < length (asked w'))%nat ∧ answers w n = Ok t.
(** At most [k] calls, none to a fake provider; the result is related to them. *)
Definition asks {A} (k : nat) (m : llm A) (Q : llm_world T → llm_world T → A → Prop) : Prop :=
  ∀ w, answers (m w).2 = answers w ∧
    (∃ new, asked (m w).2 = asked w ++ new ∧ (length new ≤ k)%nat ∧ Forall (λ p, is_fake p = false) new) ∧
    ∀ a, (m w).1 = Ok a → Q w (m w).2 a.
Definition maybe_answered (w w' : llm_world T) (o : option T) : Prop :=
  ∀ t, o = Some t → answered w w' t.

Lemma asks_quiet {A} k (m : llm A) (Q : llm_world T → llm_world T → A → Prop) :
  (∀ w, (m w).2 = w) → (∀ w a, (m w).1 = Ok a → Q w w a) → asks k m Q.
Proof.
  intros Hw HQ w. rewrite Hw. split_and!; [done| |by apply HQ]. exists [].
  rewrite app_nil_r. split_and!; [done|cbn; lia|done].
Qed.
Lemma asks_ret {A} k (a : A) (Q : llm_world T → llm_world T → A → Prop) :
  (∀ w, Q w w a) → asks k (mret a) Q.
Proof. intros HQ. apply asks_quiet; [done|]. by intros w b [= <-]. Qed.
Lemma asks_raise {A} k e (Q : llm_world T → llm_world T → A → Prop) : asks k (io_raise e) Q.
Proof. by apply asks_quiet. Qed.
Lemma asks_lift {A} k (r : res llm_exn A) : asks k (io_lift r) (λ _ _ _, True).
Proof. by apply asks_quiet. Qed.

Lemma asks_impl {A} k (m : llm A) (Q R : llm_world T → llm_world T → A → Prop) :
  asks k m Q → (∀ w w' a, Q w w' a → R w w' a) → asks k m R.
Proof. intros Hm HQ w. destruct (Hm w) as (Ha & Hn & Hq). split_and!; eauto. Qed.

Lemma asks_try {A B} k1 k2 (m : llm A) (ok : A → llm B) handle Q R :
  asks k1 m Q →
  (∀ a, asks k2 (ok a) (λ w1 w' b, ∀ w, answers w = answers w1 →
     (length (asked w) ≤ length (asked w1))%nat → Q w w1 a → R w w' b)) →
  (∀ e, asks k2 (handle e) (λ w1 w' b, ∀ w, answers w = answers w1 →
     (length (asked w) ≤ length (asked w1))%nat → R w w' b)) →
  asks (k1 + k2) (io_try m ok handle) R.
Proof.
  intros Hm Hok Hh w. unfold io_try. destruct (Hm w) as (Ha & (new & Hn & Hl & Hf) & Hq).
  destruct (m w) as [r w1]. cbn in *.
  assert (Hlen : (length (asked w) ≤ length (asked w1))%nat) by (rewrite Hn, length_app; lia).
  destruct r as [a|e].
  - destruct (Hok a w1) as (Ha2 & (new2 & Hn2 & Hl2 & Hf2) & Hq2).
    split_and!; [congruence| |by eauto].
    exists (new ++ new2). rewrite Hn2, Hn, length_app, app_assoc. split_and!; [done|lia|by apply Forall_app].
  - destruct (Hh e w1) as (Ha2 & (new2 & Hn2 & Hl2 & Hf2) & Hq2).
    split_and!; [congruence| |by eauto].
    exists (new ++ new2). rewrite Hn2, Hn, length_app, app_assoc. split_and!; [done|lia|by apply Forall_app].
Qed.

Lemma asks_bind {A B} k1 k2 (m : llm A) (f : A → llm B) Q R :
  asks k1 m Q →
  (∀ a, asks k2 (f a) (λ w1 w' b, ∀ w, answers w = answers w1 →
     (length (asked w) ≤ length (asked w1))%nat → Q w w1 a → R w w' b)) →
  asks (k1 + k2) (m ≫= f) R.
Proof.
  intros Hm Hf. change (m ≫= f) with (io_try m f io_raise).
  eapply asks_try; [done|done|]. intros e. apply asks_raise.
Qed.

Lemma asks_answered_later w0 w1 w2 (t : T) :
  answers w0 = answers w1 → (length (asked w0) ≤ length (asked w1))%nat →
  answered w1 w2 t → answered w0 w2 t.
Proof. intros Ha Hl (n & Hn & Ht). exists n. split; [lia|congruence]. Qed.

Lemma llm_loop_asks d (p : provider) remaining attempt last :
  is_fake p = false → asks remaining (llm_loop d p remaining attempt last) answered.
Proof.
  intros Hp. revert attempt last. induction remaining as [|remaining IH]; intros attempt last.
  { apply asks_raise. }
  cbn [llm_loop]. change (S remaining) with (1 + remaining)%nat.
  eapply (asks_try 1 remaining _ _ _ answered).
  - intros w. cbn. split_and!; [done|exists [p]; split_and!; [done|cbn; lia|by constructor]|].
    intros t Ht. exists (length (asked w)). split; [cbn; rewrite length_app; cbn; lia|done].
  - intros t. by apply asks_ret.
  - intros e. destruct (is_exception e); [|apply asks_raise].
    apply (asks_bind 0 remaining _ _ (λ _ _ _, True)).
    + intros w. destruct remaining; cbn; (split_and!; [done|exists []; by rewrite app_nil_r|done]).
    + intros _. eapply asks_impl; [apply IH|].
      intros w1 w2 t Ht w Ha Hl _ w' Ha' Hl'. eapply asks_answered_later; [| |exact Ht]; [congruence|lia].
Qed.

Lemma call_with_retry_asks (p : provider) k d :
  is_fake p = false → asks (Z.to_nat k) (call_with_retry p k d) answered.
Proof.
  intros Hp. unfold call_with_retry. destruct (k <=? 0); [apply asks_raise|by apply llm_loop_asks].
Qed.

Lemma try_provider_asks name model k :
  asks (Z.to_nat k) (try_provider provider_factory name model k) maybe_answered.
Proof.
  apply (asks_bind 0 (Z.to_nat k) _ _ (λ _ _ _, True)); [apply asks_lift|]. intros p.
  destruct (is_fake p) eqn:Hp; [by apply asks_ret|]. rewrite <- (Nat.add_0_r (Z.to_nat k)).
  eapply asks_bind; [by apply call_with_retry_asks|]. intros t. apply asks_ret.
  intros w1 w Ha Hl Hans w0 Ha0 Hl0 _ t' [= <-].
  eapply asks_answered_later; [| |exact Hans]; [congruence|lia].
Qed.

Lemma tier_asks k (m : llm (option T)) : asks k m maybe_answered → asks k (tier m) maybe_answered.
Proof.
  intros Hm. rewrite <- (Nat.add_0_r k). eapply asks_try; [done| |].
  - intros o. by apply asks_ret.
  - intros e. destruct (is_exception e); [by apply asks_ret|apply asks_raise].
Qed.

Lemma fallback_asks primary resolve k :
  asks (Z.to_nat k) (fallback_provider provider_factory primary resolve k) maybe_answered.
Proof.
  destruct resolve as [resolve|]; [|by apply asks_ret].
  apply (asks_bind 0 (Z.to_nat k) _ _ (λ _ _ _, True)); [apply asks_lift|].
  intros [[name|] m]; [|by apply asks_ret]. destruct (_ && _); [|by apply asks_ret].
  eapply asks_impl; [apply try_provider_asks|]. intros w1 w2 o Ho w0 Ha Hl _ t Ht.
  eapply asks_answered_later; [done|done|by apply Ho].
Qed.

Lemma call_with_fallback_asks primary fake model resolve k :
  asks (Z.to_nat k + Z.to_nat k) (call_with_fallback provider_factory primary fake model resolve k)
    (λ w w' t, t = fake ∨ answered w w' t).
Proof.
  unfold call_with_fallback. destruct (str_mem primary [FAKE; NONE]); [apply asks_ret; by left|].
  eapply asks_bind; [apply tier_asks, try_provider_asks|]. intros [t|].
  { apply asks_ret. intros w1 w _ _ Ht. right. by apply Ht. }
  rewrite <- (Nat.add_0_r (Z.to_nat k)). eapply asks_bind; [apply tier_asks, fallback_asks|].
  intros o. apply asks_ret. intros w1 w Ha Hl Ho w0 Ha0 Hl0 _. destruct o as [t|]; [right|by left].
  eapply asks_answered_later; [| |by apply Ho]; [congruence|lia].
Qed.

(** An exception that leaves a tier is a cancellation. *)
Lemma tier_raises (m : llm (option T)) w e : (tier m w).1 = Err e → e = Cancelled.
Proof.
  unfold tier, io_try. destruct (m w) as [[o|e'] w']; [done|].
  destruct e'; cbn; [done|by intros [= <-]|done].
Qed.

Lemma call_with_fallback_raises primary (fake : T) model resolve k w e :
  (call_with_fallback provider_factory primary fake model resolve k w).1 = Err e → e = Cancelled.
Proof.
  unfold call_with_fallback. destruct (str_mem _ _); [done|]. unfold mbind, io_bind.
  destruct (tier (try_provider _ _ _ _) w) as [[[t|]|e1] w1] eqn:H1; [done| |].
  - destruct (tier _ w1) as [[o|e2] w2] eqn:H2; [done|]. intros [= <-]. eapply tier_raises. by rewrite H2.
  - intros [= <-]. eapply tier_raises. by rewrite H1.
Qed.

(** The fallback chain always answers.  Whatever the providers, their
    factory and the fallback configuration raise, [call_with_fallback] returns
    what one of the calls it made answered, or the value of the fake function;
    only a cancellation gets out.  It makes at most [max_attempts] calls to
    each of two providers and never calls a fake one, and none at all when the
    primary is configured as fake or none. *)
Theorem call_with_fallback_total primary fake model resolve k w :
  let '(r, w') := call_with_fallback provider_factory primary fake model resolve k w in
  (r = Err Cancelled ∨ ∃ t, r = Ok t ∧ (t = fake ∨ answered w w' t)) ∧
  ∃ new, asked w' = asked w ++ new ∧ (length new ≤ Z.to_nat k + Z.to_nat k)%nat ∧
    Forall (λ p, is_fake p = false) new ∧
    (str_mem primary [FAKE; NONE] = true → new = [] ∧ r = Ok fake).
Proof.
  destruct (call_with_fallback_asks primary fake model resolve k w) as (_ & (new & Hn & Hl & Hf) & Hq).
  destruct (call_with_fallback _ _ _ _ _ _ w) as [r w'] eqn:Hr. cbn [fst snd] in Hn, Hq. split.
  - destruct r as [t|e]; [right; eauto|left]. f_equal. eapply call_with_fallback_raises.
    by rewrite Hr.
  - exists new. split_and!; [done..|]. intros Hp. unfold call_with_fallback in Hr. rewrite Hp in Hr.
    injection Hr as <- <-. split; [|done].
    apply (f_equal length) in Hn. rewrite length_app in Hn. destruct new; cbn in *; [done|lia].
Qed.
End LlmTheorems.
End Retry.
