(* ===== verification/Enrichment.v ===== *)
(** * Enrichment of memories
    ([src/common/enrichment/service.py], [schema.py], [constants.py])

    The validation of what a language model says of a memory, the tag
    normalisation of the result's schema, the keyword heuristic, and
    [enrich_memory] over the fallback chain of [Retry].  The theorem: every
    result that comes out, from a model or from the heuristic, is well typed
    whatever the model answered. *)

From S2P Require Import Prelude Regex Floats Retry.

Module Enrichment.
Import Regex.
#[local] Open Scope string_scope.
#[local] Open Scope list_scope.

(** ** Vocabulary *)

Inductive MemoryType : Type :=
| FACT | EPISODE | DECISION | PREFERENCE | TASK | SEMANTIC | INTENTION | PLAN | COMMITMENT
| ACTION | OUTCOME | CANCELLATION | RULE | INSIGHT.
#[export] Instance MemoryType_eq_dec : EqDecision MemoryType.
Proof. solve_decision. Defined.

Definition type_value (t : MemoryType) : string :=
  match t with
  | FACT => "fact" | EPISODE => "episode" | DECISION => "decision" | PREFERENCE => "preference"
  | TASK => "task" | SEMANTIC => "semantic" | INTENTION => "intention" | PLAN => "plan"
  | COMMITMENT => "commitment" | ACTION => "action" | OUTCOME => "outcome"
  | CANCELLATION => "cancellation" | RULE => "rule" | INSIGHT => "insight"
  end.
Definition all_types : list MemoryType :=
  [FACT; EPISODE; DECISION; PREFERENCE; TASK; SEMANTIC; INTENTION; PLAN; COMMITMENT; ACTION;
   OUTCOME; CANCELLATION; RULE; INSIGHT].
Definition MEMORY_TYPES : list string := map type_value all_types.
Definition SERVER_RESERVED_MEMORY_TYPES : list string := ["outcome"; "rule"; "insight"].
Definition CLASSIFIER_DEPRECATED_MEMORY_TYPES : list string := ["semantic"].
Definition DEFAULT_MEMORY_TYPE : string := "fact".
Definition MEMORY_STATUSES : list string :=
  ["active"; "pending"; "confirmed"; "cancelled"; "outdated"; "conflicted"; "archived"; "deleted"].
Definition DEFAULT_MEMORY_WEIGHT : Floats.float := Floats.lit 1 2.

(** ** Schema *)

Record AtomicFact : Type := {
  af_content : string;
  suggested_type : string;
  af_retrieval_hint : string;
}.

Record EnrichmentResult : Type := {
  memory_type : string;
  weight : Floats.float;
  title : string;
  summary : string;
  tags : list string;
  status : string;
  ts_valid_start : option string;
  ts_valid_end : option string;
  contains_pii : bool;
  pii_types : list string;
  business_relevance : string;
  retrieval_hint : string;
  atomic_facts : option (list AtomicFact);
  llm_ms : Z;
}.

(** [EnrichmentResult()] *)
Definition empty_result : EnrichmentResult :=
  {| memory_type := "fact"; weight := Floats.lit 7 10; title := ""; summary := ""; tags := [];
     status := "active"; ts_valid_start := None; ts_valid_end := None; contains_pii := false;
     pii_types := []; business_relevance := "business"; retrieval_hint := "";
     atomic_facts := None; llm_ms := 0 |}.

(** ** What the interpreter and [dateutil] provide

    [str] of a value that is not a string, [float] of a string ([None]:
    [ValueError]), [dateutil.parser.parse] ([None]: an exception
    [_parse_temporal] catches) and [datetime.isoformat].  The microseconds of
    a [datetime] count from the beginning of 1970. *)
Class PyParsers := {
  py_str : pyval → string;
  float_of_str : string → option Floats.float;
  dateutil_parse : string → option datetime;
  isoformat : datetime → string;
  py_str_str : ∀ s, py_str (PStr s) = s;
  py_str_none : py_str PNone = "None";
}.

Section Enrich.
Context `{PyText} `{PyParsers}.

(** *** Tags *)

Definition _TAGS_MAX : nat := 5.
Definition _TAG_SEPARATOR_RE : compiled := re_compile no_flags "[\s_]+".

Definition _normalize_tag (raw : pyval) : string :=
  match raw with
  | PNone => ""
  | _ =>
      let s := str_lower (str_strip (py_str raw)) in
      if String.eqb s "" then "" else strip_chars "-" (re_sub _TAG_SEPARATOR_RE "-" s)
  end.

(** The loop of the validator; [normalised] holds the elements of [seen]. *)
Fixpoint tag_loop (normalised : list string) (raw : list pyval) : list string :=
  match raw with
  | [] => normalised
  | item :: raw =>
      let tag := _normalize_tag item in
      if String.eqb tag "" || str_mem tag normalised then tag_loop normalised raw
      else
        let normalised := normalised ++ [tag] in
        if Nat.leb _TAGS_MAX (length normalised) then normalised else tag_loop normalised raw
  end.
Definition _normalize_tags (raw : pyval) : list string :=
  match raw with PList l => tag_loop [] l | _ => [] end.

(** *** Dates *)

Definition micros_per_second : Z := 1000000.
(** The beginning of 2101. *)
Definition end_of_2100 : Z := 4133980800 * micros_per_second.
Definition utc (wall : Z) : datetime := DateTime wall (Some 0).

Definition _parse_temporal (val : string) : option datetime :=
  dt ← dateutil_parse val;
  let dt := utc (dt_wall dt - default 0 (dt_offset dt)) in
  if ((dt_wall dt <? 0) || (end_of_2100 <=? dt_wall dt))%Z then None else Some dt.

Definition parsed_ts (raw : pydict) (ts_field : string) : option datetime :=
  match dgetv raw ts_field with
  | PStr val => if String.eqb val "" then None else _parse_temporal val
  | _ => None
  end.

(** *** Weight *)

Definition one : Floats.float := Floats.of_Z 1.
(** Python's [min(a, b)] and [max(a, b)]. *)
Definition py_min (a b : Floats.float) : Floats.float := if Floats.flt b a then b else a.
Definition py_max (a b : Floats.float) : Floats.float := if Floats.flt a b then b else a.
Definition clamp01 (w : Floats.float) : Floats.float := py_max Floats.f0 (py_min one w).

(** [float(x)] where [TypeError] and [ValueError] are caught; an integer
    beyond the floats raises [OverflowError]. *)
Definition float_or (dflt : Floats.float) (v : pyval) : res pyexn Floats.float :=
  match v with
  | PFloat q => Ok (Floats.of_Q q)
  | PInt z => if Floats.is_finite (Floats.of_Z z) then Ok (Floats.of_Z z)
              else Err (OtherExc "OverflowError")
  | PBool b => Ok (Floats.of_Z (Z.b2z b))
  | PStr s => Ok (default dflt (float_of_str s))
  | _ => Ok dflt
  end.
Definition raw_weight (raw : pydict) : res pyexn Floats.float :=
  match dgetv raw "weight" with
  | PNone => Ok (Floats.lit 7 10)
  | v => float_or (Floats.lit 7 10) v
  end.

(** *** Atomic facts *)

Definition offered (t : string) : bool :=
  str_mem t MEMORY_TYPES && negb (str_mem t SERVER_RESERVED_MEMORY_TYPES) &&
  negb (str_mem t CLASSIFIER_DEPRECATED_MEMORY_TYPES).
(** The value if it is one of these texts, else the default. *)
Definition one_of (values : list string) (dflt : string) (v : pyval) : string :=
  match v with PStr s => if str_mem s values then s else dflt | _ => dflt end.
(** The value if it is an offered type, else the default. *)
Definition type_or_default (v : pyval) : string :=
  match v with
  | PStr t => if offered t then t else DEFAULT_MEMORY_TYPE
  | _ => DEFAULT_MEMORY_TYPE
  end.

Definition clean_fact (f : pyval) : option AtomicFact :=
  match f with
  | PDict d =>
      match dgetv d "content" with
      | PStr fc =>
          if String.eqb (str_strip fc) "" then None
          else
            Some {| af_content := char_take 10000 (str_strip fc);
                    suggested_type := type_or_default (dgetv d "suggested_type");
                    af_retrieval_hint :=
                      match dgetv d "retrieval_hint" with
                      | PStr fh => char_take 200 (str_strip fh)
                      | _ => ""
                      end |}
      | _ => None
      end
  | _ => None
  end.
Definition cleaned_facts (raw : pydict) : option (list AtomicFact) :=
  match dgetv raw "atomic_facts" with
  | PList l => match omap clean_fact l with [] => None | facts => Some facts end
  | _ => None
  end.

(** *** [_validate_enrichment]

    The fields are those the function leaves in [raw]; the construction of
    the result raises when a text or a list of texts is not one. *)
Definition str_field (v : pyval) : res pyexn string :=
  match v with PStr s => Ok s | _ => Err ValueError end.
Definition str_list_field (v : pyval) : res pyexn (list string) :=
  match v with PList l => collect_all str_field l | _ => Err ValueError end.

Definition valid_end (memory_type : string) (start end_ : option datetime) : option datetime :=
  let end_ :=
    match start, end_ with
    | Some s, Some e => if (dt_wall e <=? dt_wall s)%Z then None else Some e
    | _, e => e
    end in
  if String.eqb memory_type "episode" then None else end_.

Definition _validate_enrichment (raw : pyval) (llm_ms : Z) : res pyexn EnrichmentResult :=
  match raw with
  | PDict raw =>
      let mt := type_or_default (dgetv raw "memory_type") in
      let st := one_of MEMORY_STATUSES "active" (dgetv raw "status") in
      w ← raw_weight raw;
      let start := parsed_ts raw "ts_valid_start" in
      let end_ := parsed_ts raw "ts_valid_end" in
      sm ← (if dhas raw "summary" then str_field (dgetv raw "summary") else Ok "");
      pii ← (let v := dgetv raw "pii_types" in if truthy v then str_list_field v else Ok []);
      Ok {| memory_type := mt;
            weight := clamp01 w;
            title := char_take 80 (if dhas raw "title" then py_str (dgetv raw "title") else "");
            summary := sm;
            tags := if dhas raw "tags" then _normalize_tags (dgetv raw "tags") else [];
            status := st;
            ts_valid_start := isoformat <$> start;
            ts_valid_end := isoformat <$> valid_end mt start end_;
            contains_pii := truthy (dgetv raw "contains_pii");
            pii_types := pii;
            business_relevance :=
              one_of ["business"; "personal"] "business" (dgetv raw "business_relevance");
            retrieval_hint :=
              match dgetv raw "retrieval_hint" with
              | PStr hint => char_take 200 (str_strip hint)
              | _ => ""
              end;
            atomic_facts := cleaned_facts raw;
            llm_ms := llm_ms |}
  | _ => Err ValueError
  end.

(** *** The keyword heuristic *)

(** The branches in the order they are tried: keywords, type, weight in
    hundredths, status. *)
Definition keyword_rules : list (list string * (MemoryType * Z * string)) := [
  (["decided"; "chose"; "going with"; "approved"; "we will"], (DECISION, 85, "active"));
  (["prefers"; "likes"; "always wants"; "rather"; "favorite"], (PREFERENCE, 70, "active"));
  (["always notify"; "always do"; "never do"; "never use"; "never store"; "never commit";
    "do not ever"; "must always"; "should always"; "policy:"; "guideline:"; "rule:";
    "whenever you "; "whenever a "; "constraint:"; "requirement:"; "mandatory"],
   (RULE, 85, "active"));
  (["deployed"; "happened"; "launched"; "met with"; "incident"], (EPISODE, 65, "active"));
  (["task"; "todo"; "assigned"; "need to"; "must"], (TASK, 70, "pending"));
  (["plan"; "steps"; "roadmap"; "strategy"], (PLAN, 75, "pending"));
  (["commit"; "promise"; "guarantee"; "agreed to"], (COMMITMENT, 80, "pending"));
  (["cancelled"; "abandoned"; "stopped"; "withdrew"], (CANCELLATION, 65, "active"));
  (["result"; "outcome"; "achieved"; "completed"], (OUTCOME, 70, "confirmed"));
  (["intend"; "aim"; "goal"; "want to"], (INTENTION, 65, "active"));
  (["did"; "executed"; "performed"; "ran"], (ACTION, 65, "active")) ].

Definition classify_keywords (lower : string) : MemoryType * Z * string :=
  match find (λ r, existsb (λ kw, str_contains kw lower) r.1) keyword_rules with
  | Some r => r.2
  | None => (FACT, 70, "active")
  end.

Definition fake_enrich (content : string) : EnrichmentResult :=
  let '(mt, w, st) := classify_keywords (str_lower content) in
  let words := str_split content in
  {| memory_type := type_value mt;
     weight := Floats.lit w 100;
     title := (join " " (take 10 words) ++ (if Nat.ltb 10 (length words) then "..." else ""))%string;
     summary := char_take 200 content;
     tags := [];
     status := st;
     ts_valid_start := None; ts_valid_end := None;
     contains_pii := false; pii_types := []; business_relevance := "business";
     retrieval_hint := ""; atomic_facts := None;
     llm_ms := 0 |}.

Definition with_type (t : string) (r : EnrichmentResult) : EnrichmentResult :=
  {| memory_type := t; weight := weight r; title := title r; summary := summary r; tags := tags r;
     status := status r; ts_valid_start := ts_valid_start r; ts_valid_end := ts_valid_end r;
     contains_pii := contains_pii r; pii_types := pii_types r;
     business_relevance := business_relevance r; retrieval_hint := retrieval_hint r;
     atomic_facts := atomic_facts r; llm_ms := llm_ms r |}.
Definition _demote_reserved_enrichment (r : EnrichmentResult) : EnrichmentResult :=
  if str_mem (memory_type r) SERVER_RESERVED_MEMORY_TYPES then with_type DEFAULT_MEMORY_TYPE r else r.

(** *** [enrich_memory] *)

(** [_do_enrich]: the n-th call of a model, which answers a JSON value after
    some milliseconds or raises, and the validation of the answer. *)
Definition _do_enrich (complete_json : nat → res Retry.llm_exn (pyval * Z)) (n : nat) :
    res Retry.llm_exn EnrichmentResult :=
  '(raw, ms) ← complete_json n;
  match _validate_enrichment raw ms with
  | Ok r => Ok r
  | Err _ => Err (Retry.ExceptionRaised "validation")
  end.

Definition enrich_memory
    (provider_factory : string → option string → res Retry.llm_exn Retry.provider)
    (resolve_fallback : option (res Retry.llm_exn (option string * option string)))
    (complete_json : nat → res Retry.llm_exn (pyval * Z))
    (provider_name : string) (model : option string) (content : string) :
    res Retry.llm_exn EnrichmentResult :=
  let heuristic := _demote_reserved_enrichment (fake_enrich content) in
  if String.eqb provider_name "fake" then Ok heuristic
  else if String.eqb provider_name "none" then Ok empty_result
  else
    (Retry.call_with_fallback provider_factory provider_name heuristic model resolve_fallback
       Retry.LLM_RETRY_ATTEMPTS
       {| Retry.answers := _do_enrich complete_json; Retry.asked := []; Retry.waits := [] |}).1.
(** ** What a result satisfies *)

Definition in_unit (w : Floats.float) : Prop := Floats.fle Floats.f0 w = true ∧ Floats.fle w one = true.
(** The text of a date between 1970 and 2100. *)
Definition dated (s : string) (wall : Z) : Prop :=
  s = isoformat (utc wall) ∧ 0 <= wall < end_of_2100.
Definition fact_ok (f : AtomicFact) : Prop :=
  af_content f ≠ "" ∧ char_len (af_content f) <= 10000 ∧ offered (suggested_type f) = true ∧
  char_len (af_retrieval_hint f) <= 200.

Record well_typed (r : EnrichmentResult) : Prop := {
  wt_type : offered (memory_type r) = true;
  wt_status : status r ∈ MEMORY_STATUSES;
  wt_weight : in_unit (weight r);
  wt_tags : NoDup (tags r) ∧ (length (tags r) ≤ _TAGS_MAX)%nat ∧ "" ∉ tags r;
  wt_start : ∀ s, ts_valid_start r = Some s → ∃ t, dated s t;
  wt_end : ∀ e, ts_valid_end r = Some e →
    ∃ u, dated e u ∧ memory_type r ≠ "episode" ∧
         ∀ s, ts_valid_start r = Some s → ∃ t, dated s t ∧ t < u;
  wt_relevance : business_relevance r = "business" ∨ business_relevance r = "personal";
  wt_hint : char_len (retrieval_hint r) <= 200;
  wt_facts : ∀ fs, atomic_facts r = Some fs → fs ≠ [] ∧ Forall fact_ok fs;
}.

Lemma one_of_elem values dflt v : dflt ∈ values → one_of values dflt v ∈ values.
Proof.
  intros Hd. unfold one_of. destruct v; try done.
  destruct (str_mem s values) eqn:Hs; [by apply str_mem_spec|done].
Qed.
Lemma type_or_default_offered v : offered (type_or_default v) = true.
Proof. unfold type_or_default. destruct v; try done. by destruct (offered s) eqn:?. Qed.

Lemma flt_fle x y : Floats.flt x y = true → Floats.fle x y = true.
Proof. unfold Floats.flt, Floats.fle, SFltb, SFleb. by destruct (SFcompare x y) as [[]|]. Qed.
Lemma clamp01_unit w : in_unit (clamp01 w).
Proof.
  unfold clamp01, py_max, py_min, in_unit. destruct (Floats.flt w one) eqn:Hf1.
  - destruct (Floats.flt Floats.f0 w) eqn:Hf0; [|done]. by split; apply flt_fle.
  - by vm_compute.
Qed.

Lemma tag_loop_ok l raw :
  NoDup l → (length l < _TAGS_MAX)%nat → "" ∉ l →
  NoDup (tag_loop l raw) ∧ (length (tag_loop l raw) ≤ _TAGS_MAX)%nat ∧ "" ∉ tag_loop l raw.
Proof.
  revert l. induction raw as [|item raw IH]; intros l Hnd Hlen Hne; cbn [tag_loop]; [split_and!; [done|lia|done]|].
  destruct (String.eqb_spec (_normalize_tag item) "") as [|Htag]; cbn [orb]; [by apply IH|].
  destruct (str_mem _ l) eqn:Hmem; [by apply IH|]. apply str_mem_false in Hmem.
  assert (Hnd' : NoDup (l ++ [_normalize_tag item])).
  { apply NoDup_app. split; [done|]. split; [|apply NoDup_singleton].
    intros x Hx ->%list_elem_of_singleton. done. }
  assert (Hne' : "" ∉ l ++ [_normalize_tag item]).
  { rewrite elem_of_app, list_elem_of_singleton. intros [?|?]; congruence. }
  assert (Hlen' : length (l ++ [_normalize_tag item]) = S (length l)) by (rewrite length_app; cbn; lia).
  destruct (Nat.leb_spec _TAGS_MAX (length (l ++ [_normalize_tag item]))) as [Hge|Hlt].
  - split_and!; [done|lia|done].
  - by apply IH.
Qed.
Lemma no_tags_ok : NoDup (@nil string) ∧ (length (@nil string) ≤ _TAGS_MAX)%nat ∧ "" ∉ (@nil string).
Proof. split_and!; [apply NoDup_nil_2|unfold _TAGS_MAX; cbn; lia|apply not_elem_of_nil]. Qed.

Lemma normalize_tags_ok v :
  NoDup (_normalize_tags v) ∧ (length (_normalize_tags v) ≤ _TAGS_MAX)%nat ∧ "" ∉ _normalize_tags v.
Proof.
  destruct v; try apply no_tags_ok.
  apply tag_loop_ok; [apply NoDup_nil_2|unfold _TAGS_MAX; cbn; lia|apply not_elem_of_nil].
Qed.

Lemma char_take_nonempty n s : 0 < n → s ≠ "" → char_take n s ≠ "".
Proof.
  intros Hn Hs Ht. pose proof (char_len_take n s) as Hl. rewrite Ht in Hl.
  assert (Hpos : 0 < char_len s).
  { unfold char_len. destruct (chars s) eqn:Hc; [|cbn; lia].
    rewrite <- (unchars_chars s), Hc in Hs. done. }
  unfold char_len in Hl at 1. cbn in Hl. lia.
Qed.

Lemma clean_fact_ok f fact : clean_fact f = Some fact → fact_ok fact.
Proof.
  unfold clean_fact. destruct f as [| | | | | | |d]; try done. destruct (dgetv d "content") as [| | | |fc| | |]; try done.
  destruct (String.eqb_spec (str_strip fc) "") as [|Hne]; [done|]. intros [= <-]. unfold fact_ok. cbn.
  split_and!.
  - by apply char_take_nonempty.
  - rewrite char_len_take. lia.
  - apply type_or_default_offered.
  - destruct (dgetv d "retrieval_hint"); try done. rewrite char_len_take. lia.
Qed.

Lemma parsed_ts_range raw k dt : parsed_ts raw k = Some dt → dated (isoformat dt) (dt_wall dt).
Proof.
  unfold parsed_ts. destruct (dgetv raw k) as [| | | |val| | |]; try done. destruct (String.eqb val ""); [done|].
  unfold _parse_temporal. destruct (dateutil_parse val) as [d|]; cbn; [|done].
  destruct (Z.ltb_spec (dt_wall d - default 0 (dt_offset d)) 0); cbn; [done|].
  destruct (Z.leb_spec end_of_2100 (dt_wall d - default 0 (dt_offset d))); [done|].
  intros [= <-]. split; [done|cbn; lia].
Qed.

Lemma validate_well_typed raw ms r : _validate_enrichment raw ms = Ok r → well_typed r.
Proof.
  unfold _validate_enrichment. destruct raw as [| | | | | | |raw]; try done.
  set (mt := type_or_default _). set (start := parsed_ts raw "ts_valid_start").
  set (end_ := parsed_ts raw "ts_valid_end"). intros Hr. res_inv. subst r.
  split; cbn [memory_type status weight tags ts_valid_start ts_valid_end business_relevance
              retrieval_hint atomic_facts].
  - apply type_or_default_offered.
  - by apply one_of_elem, str_mem_spec.
  - apply clamp01_unit.
  - destruct (dhas raw "tags"); [apply normalize_tags_ok|apply (normalize_tags_ok PNone)].
  - intros s Hs. destruct start as [dt|] eqn:Hst; [|done]. injection Hs as <-.
    exists (dt_wall dt). by apply (parsed_ts_range raw "ts_valid_start").
  - intros e. unfold valid_end. destruct (String.eqb_spec mt "episode") as [|Hmt]; [done|].
    destruct start as [s|] eqn:Hst, end_ as [dt|] eqn:Hen; cbn; try done.
    + destruct (Z.leb_spec (dt_wall dt) (dt_wall s)); [done|]. intros [= <-]. exists (dt_wall dt).
      split_and!; [by apply (parsed_ts_range raw "ts_valid_end")|done|]. intros ? [= <-].
      exists (dt_wall s). split; [by apply (parsed_ts_range raw "ts_valid_start")|done].
    + intros [= <-]. exists (dt_wall dt).
      split_and!; [by apply (parsed_ts_range raw "ts_valid_end")|done|done].
  - pose proof (one_of_elem ["business"; "personal"] "business" (dgetv raw "business_relevance")) as Hin.
    specialize (Hin ltac:(by left)). set_solver.
  - destruct (dgetv raw "retrieval_hint"); try done. rewrite char_len_take. lia.
  - intros fs. unfold cleaned_facts. destruct (dgetv raw "atomic_facts"); try done.
    destruct (omap clean_fact l) as [|f fl] eqn:Hl; [done|]. intros [= <-]. split; [done|].
    rewrite <- Hl. apply Forall_forall. intros fact (y & _ & Hy)%list_elem_of_omap. by eapply clean_fact_ok.
Qed.

(** What every branch of the heuristic yields. *)
Definition branch_ok (b : MemoryType * Z * string) : bool :=
  let '(mt, w, st) := b in
  let mt := if str_mem (type_value mt) SERVER_RESERVED_MEMORY_TYPES then DEFAULT_MEMORY_TYPE else type_value mt in
  offered mt && str_mem st MEMORY_STATUSES &&
  Floats.fle Floats.f0 (Floats.lit w 100) && Floats.fle (Floats.lit w 100) one.
Lemma classify_keywords_ok lower : branch_ok (classify_keywords lower) = true.
Proof.
  assert (Hall : forallb (λ r, branch_ok r.2) keyword_rules = true) by (vm_compute; reflexivity).
  rewrite forallb_forall in Hall. unfold classify_keywords.
  destruct (find _ keyword_rules) as [r|] eqn:Hf; [|by vm_compute].
  apply Hall. by apply find_some in Hf as [Hf _].
Qed.

Lemma fake_well_typed content : well_typed (_demote_reserved_enrichment (fake_enrich content)).
Proof.
  unfold fake_enrich. pose proof (classify_keywords_ok (str_lower content)) as Hok.
  destruct (classify_keywords (str_lower content)) as [[mt w] st].
  unfold branch_ok in Hok. apply andb_true_iff in Hok as [Hok Hw1]. apply andb_true_iff in Hok as [Hok Hw0].
  apply andb_true_iff in Hok as [Hty Hst]. unfold _demote_reserved_enrichment. cbn [memory_type].
  destruct (str_mem (type_value mt) SERVER_RESERVED_MEMORY_TYPES);
    (split; cbn [with_type memory_type status weight tags ts_valid_start ts_valid_end
                 business_relevance retrieval_hint atomic_facts];
     [done|by apply str_mem_spec|by split|apply no_tags_ok|done|done|by left|done|done]).
Qed.

Lemma empty_well_typed : well_typed empty_result.
Proof.
  split; cbn [empty_result memory_type status weight tags ts_valid_start ts_valid_end
              business_relevance retrieval_hint atomic_facts];
    [done|by apply str_mem_spec|by vm_compute|apply no_tags_ok|done|done|by left|done|done].
Qed.


(** The answers it refuses: no object, a weight beyond the floats, a summary
    that is no text, labels that are no list of texts. *)
Lemma validate_refuses raw ms e :
  _validate_enrichment raw ms = Err e →
  as_dict raw = None ∨ ∃ d, raw = PDict d ∧
    ((∃ z, dgetv d "weight" = PInt z ∧ Floats.is_finite (Floats.of_Z z) = false) ∨
     (dhas d "summary" = true ∧ as_str (dgetv d "summary") = None) ∨
     (truthy (dgetv d "pii_types") = true ∧ is_ok (str_list_field (dgetv d "pii_types")) = false)).
Proof.
  unfold _validate_enrichment. destruct raw as [| | | | | | |d]; cbn; try (by left). intros Hr.
  right. exists d. split; [done|].
  destruct (raw_weight d) as [w|e1] eqn:Hw; cbn in Hr.
  - destruct (dhas d "summary").
    + destruct (dgetv d "summary"); cbn in Hr; try (by right; left).
      right; right. destruct (truthy (dgetv d "pii_types")); [|done]. by destruct (str_list_field _).
    + right; right. cbn in Hr. destruct (truthy (dgetv d "pii_types")); [|done].
      by destruct (str_list_field _).
  - left. unfold raw_weight, float_or in Hw. destruct (dgetv d "weight"); try done.
    exists z. split; [done|]. by destruct (Floats.is_finite _).
Qed.
End Enrich.

(** ** Instances for examples *)
Section Examples.
#[local] Existing Instance AsciiText.
Definition ExampleParsers : PyParsers.
Proof.
  refine {| py_str := λ v, match v with PStr s => s | PNone => "None" | _ => "object" end;
            float_of_str := λ s, if String.eqb s "nan" then Some S754_nan else None;
            dateutil_parse := λ _, None; isoformat := λ d, pretty (dt_wall d) |}; done.
Defined.
#[local] Existing Instance ExampleParsers.

Definition title_of (raw : pydict) : option string :=
  match _validate_enrichment (PDict raw) 1 with Ok r => Some (title r) | Err _ => None end.
(** A title that is null becomes the text None. *)
Example null_title : title_of [("title", PNone)] = Some "None" ∧ title_of [] = Some "".
Proof. done. Qed.

(** A weight that is not a number ends as the largest weight. *)
Example nan_weight :
  match _validate_enrichment (PDict [("weight", PStr "nan")]) 1 with
  | Ok r => weight r = one
  | Err _ => False
  end.
Proof. vm_compute. reflexivity. Qed.

Example tags_normalised :
  _normalize_tags (PList [PStr "Code Review"; PStr "code__review"; PStr " -x- "; PNone; PStr "ops"]) =
  ["code-review"; "x"; "ops"].
Proof. vm_compute. reflexivity. Qed.

(** The text false counts as true. *)
Example pii_string_false :
  match _validate_enrichment (PDict [("contains_pii", PStr "false")]) 1 with
  | Ok r => contains_pii r = true
  | Err _ => False
  end.
Proof. reflexivity. Qed.
End Examples.
End Enrichment.
