(* ===== verification/Slots.v ===== *)
(** * Per-tenant slots (core_api/middleware/per_tenant_concurrency.py and
    core_worker/per_tenant_concurrency.py)

    A process keeps one [asyncio.Semaphore] per scope and tenant (core-api) or
    per tenant in a bounded LRU registry (core-worker).  Tasks of one event
    loop enter, wait, are cancelled, resume and leave in any order; the code
    between two awaits is one step. *)

From S2P Require Import Prelude.

Module Slots.

(** ** [asyncio.Semaphore] *)

(** Why a task that waits is cancelled: its acquire timeout, or from outside. *)
Inductive cancel_reason : Type := TimedOut | TaskCancelled.
(** A waiter's future, and whether its task was cancelled after the grant. *)
Inductive future : Type :=
| Pending
| Granted
| GrantedThenCancelled (why : cancel_reason)
| CancelledFuture (why : cancel_reason).

(** [holders] are the tasks inside the [with] body; [initial] is the value the
    semaphore was made with. *)
Record semaphore (K : Type) : Type := {
  sem_key : K;
  initial : nat;
  value : nat;
  waiters : list (nat * future);
  holders : list nat;
}.
Arguments sem_key {K}. Arguments initial {K}. Arguments value {K}. Arguments waiters {K}.
Arguments holders {K}.

Section Semaphore.
Context {K : Type}.
Implicit Type s : semaphore K.

Definition make (k : K) (cap : nat) : semaphore K :=
  {| sem_key := k; initial := cap; value := cap; waiters := []; holders := [] |}.
Definition with_state s (v : nat) (ws : list (nat * future)) (hs : list nat) : semaphore K :=
  {| sem_key := sem_key s; initial := initial s; value := v; waiters := ws; holders := hs |}.

Definition is_cancelled (f : future) : bool := match f with CancelledFuture _ => true | _ => false end.
Definition is_pending (f : future) : bool := match f with Pending => true | _ => false end.
Definition has_grant (f : future) : bool :=
  match f with Granted | GrantedThenCancelled _ => true | _ => false end.

Definition locked s : bool :=
  Nat.eqb (value s) 0 || existsb (λ w, negb (is_cancelled w.2)) (waiters s).

(** The first waiter that is not done gets the slot. *)
Fixpoint grant_first (ws : list (nat * future)) : option (list (nat * future)) :=
  match ws with
  | [] => None
  | (t, Pending) :: ws => Some ((t, Granted) :: ws)
  | w :: ws => cons w <$> grant_first ws
  end.
Definition _wake_up_next s : semaphore K :=
  match grant_first (waiters s) with
  | Some ws => with_state s (value s - 1) ws (holders s)
  | None => s
  end.

(** [acquire] up to its first await: the task holds the slot or waits. *)
Definition acquire (t : nat) s : semaphore K :=
  if locked s then with_state s (value s) (waiters s ++ [(t, Pending)]) (holders s)
  else with_state s (value s - 1) (waiters s) (holders s ++ [t]).

(** [task.cancel()] of a waiting task. *)
Definition cancel_future (why : cancel_reason) (f : future) : future :=
  match f with
  | Pending => CancelledFuture why
  | Granted => GrantedThenCancelled why
  | f => f
  end.
Definition cancel (t : nat) (why : cancel_reason) s : semaphore K :=
  with_state s (value s)
    ((λ w : nat * future, if Nat.eqb w.1 t then (w.1, cancel_future why w.2) else w) <$> waiters s)
    (holders s).

Fixpoint remove_waiter (t : nat) (ws : list (nat * future)) : option (future * list (nat * future)) :=
  match ws with
  | [] => None
  | (t', f) :: ws =>
      if Nat.eqb t t' then Some (f, ws)
      else '(g, ws') ← remove_waiter t ws; Some (g, (t', f) :: ws')
  end.

(** The task goes on after its await: [Some] is how it leaves when it does not
    get the slot. *)
Definition resume (t : nat) s : option cancel_reason * semaphore K :=
  match remove_waiter t (waiters s) with
  | None | Some (Pending, _) => (None, s)
  | Some (Granted, ws) =>
      let s' := with_state s (value s) ws (holders s ++ [t]) in
      (None, if Nat.ltb 0 (value s') then _wake_up_next s' else s')
  | Some (GrantedThenCancelled why, ws) =>
      (Some why, _wake_up_next (with_state s (S (value s)) ws (holders s)))
  | Some (CancelledFuture why, ws) => (Some why, with_state s (value s) ws (holders s))
  end.

Fixpoint remove_one (t : nat) (l : list nat) : list nat :=
  match l with [] => [] | x :: l => if Nat.eqb t x then l else x :: remove_one t l end.
(** [release], at the end of the [with] body. *)
Definition release (t : nat) s : semaphore K :=
  if bool_decide (t ∈ holders s)
  then _wake_up_next (with_state s (S (value s)) (waiters s) (remove_one t (holders s)))
  else s.

Definition grants s : nat := length (List.filter (λ w, has_grant w.2) (waiters s)).

(** Every permit is free, held, or granted to a waiter that has not resumed;
    and a waiter without a grant waits only while no permit is free, or while
    a waiter with a grant will pass the wake-up on. *)
Record sem_ok s : Prop := {
  ok_count : (value s + length (holders s) + grants s)%nat = initial s;
  ok_wake : (∃ w, w ∈ waiters s ∧ is_pending w.2 = true) → value s = 0%nat ∨ (0 < grants s)%nat;
}.


(** The tasks that hold a slot of key [k], over a list of semaphores. *)
Definition of_key `{!EqDecision K} (k : K) (l : list (semaphore K)) : list (semaphore K) :=
  List.filter (λ s, bool_decide (sem_key s = k)) l.
Definition holding `{!EqDecision K} (k : K) (l : list (semaphore K)) : list nat :=
  concat (holders <$> of_key k l).

(** *** Every step keeps a semaphore in order *)
Lemma grants_app s v hs ws w :
  grants (with_state s v (ws ++ [w]) hs) =
  (length (List.filter (λ w, has_grant w.2) ws) + if has_grant w.2 then 1 else 0)%nat.
Proof. unfold grants. cbn. rewrite List.filter_app, length_app. cbn. by destruct (has_grant w.2). Qed.

Lemma grant_first_Some ws ws' :
  grant_first ws = Some ws' →
  length (List.filter (λ w, has_grant w.2) ws') = S (length (List.filter (λ w, has_grant w.2) ws)).
Proof.
  revert ws'. induction ws as [|[t f] ws IH]; [done|]. intros ws'.
  destruct f; cbn; [intros [= <-]; cbn; done|..];
    (destruct (grant_first ws) as [w|]; [|done]; intros [= <-]; cbn; by rewrite (IH w)).
Qed.
Lemma grant_first_None ws : grant_first ws = None → ∀ w, w ∈ ws → is_pending w.2 = false.
Proof.
  induction ws as [|[t f] ws IH]; cbn; [by intros _ w ?%elem_of_nil|].
  destruct f; [done|..]; (destruct (grant_first ws); [done|]; intros _ w [-> |Hw]%elem_of_cons; [done|by apply IH]).
Qed.

(** After a permit is returned, waking the next waiter restores the order. *)
Lemma wake_ok s :
  (value s + length (holders s) + grants s)%nat = initial s → (0 < value s)%nat →
  sem_ok (_wake_up_next s).
Proof.
  intros Hc Hv. unfold _wake_up_next. destruct (grant_first (waiters s)) as [ws|] eqn:Hg.
  - apply grant_first_Some in Hg. split; unfold grants in *; cbn; [lia|]. intros _. right. lia.
  - split; [done|]. intros (w & Hw & Hp). by rewrite (grant_first_None _ Hg w Hw) in Hp.
Qed.

Lemma of_key_app `{!EqDecision K} (k : K) l1 l2 : of_key k (l1 ++ l2) = of_key k l1 ++ of_key k l2.
Proof. apply List.filter_app. Qed.
Lemma of_key_none `{!EqDecision K} (k : K) l : (∀ s, s ∈ l → sem_key s ≠ k) → of_key k l = [].
Proof.
  induction l as [|s l IH]; [done|]. intros Hl. cbn.
  rewrite bool_decide_eq_false_2 by (apply Hl; left). apply IH. intros s' Hs'. apply Hl. by right.
Qed.
Lemma holding_bound `{!EqDecision K} (k : K) l n :
  (∀ s, s ∈ l → (length (holders s) ≤ n)%nat) → (length (holding k l) ≤ n * length (of_key k l))%nat.
Proof.
  unfold holding. induction l as [|s l IH]; intros Hl; [cbn; lia|]. cbn.
  assert (IH' : (length (concat (holders <$> of_key k l)) ≤ n * length (of_key k l))%nat)
    by (apply IH; intros; apply Hl; by right).
  case_bool_decide; [|done]. cbn. rewrite length_app. pose proof (Hl s ltac:(left)). unfold of_key in *. lia.
Qed.

Lemma make_ok k cap : sem_ok (make k cap).
Proof. split; [unfold grants; cbn; lia|]. by intros (w & ?%elem_of_nil & _). Qed.

Lemma acquire_ok t s : sem_ok s → sem_ok (acquire t s).
Proof.
  intros [Hc Hw]. unfold acquire. destruct (locked s) eqn:Hl; unfold locked in Hl.
  - split; unfold grants in *; cbn; rewrite List.filter_app, length_app; cbn; [lia|]. intros _.
    destruct (Nat.eqb_spec (value s) 0) as [|Hv]; [by left|right]. cbn in Hl.
    apply existsb_exists in Hl as (w & Hin%list_elem_of_In & Hn).
    destruct (is_pending w.2) eqn:Hp; [destruct Hw as [|]; [by exists w|lia|lia]|].
    assert (w ∈ List.filter (λ w, has_grant w.2) (waiters s)) as Hf.
    { apply list_elem_of_In, filter_In. split; [by apply list_elem_of_In|]. by destruct w as [? []]. }
    destruct (List.filter _ _); [by apply elem_of_nil in Hf|cbn; lia].
  - apply orb_false_iff in Hl as [Hv%Nat.eqb_neq Hex]. split; unfold grants in *; cbn.
    + rewrite length_app. cbn. lia.
    + intros (w & Hin & Hp). exfalso. apply Bool.not_true_iff_false in Hex. apply Hex.
      apply existsb_exists. exists w. split; [by apply list_elem_of_In|]. by destruct w as [? []].
Qed.

Lemma cancel_grants t why ws :
  length (List.filter (λ w : nat * future, has_grant w.2)
    ((λ w : nat * future, if Nat.eqb w.1 t then (w.1, cancel_future why w.2) else w) <$> ws)) =
  length (List.filter (λ w, has_grant w.2) ws).
Proof.
  induction ws as [|[t' f] ws IH]; [done|]. cbn. destruct (Nat.eqb t' t); destruct f; cbn; by rewrite IH.
Qed.
Lemma cancel_ok t why s : sem_ok s → sem_ok (cancel t why s).
Proof.
  intros [Hc Hw]. split; unfold grants in *; cbn; rewrite cancel_grants; [done|].
  intros (w & Hin & Hp). apply Hw. apply list_elem_of_fmap in Hin as ([t' f] & -> & Hin).
  exists (t', f). split; [done|]. cbn in Hp. destruct (Nat.eqb t' t); [by destruct f|done].
Qed.

Lemma remove_waiter_Some t ws f ws' :
  remove_waiter t ws = Some (f, ws') →
  (length (List.filter (λ w, has_grant w.2) ws) =
     length (List.filter (λ w, has_grant w.2) ws') + if has_grant f then 1 else 0)%nat ∧
  ∀ w, w ∈ ws' → w ∈ ws.
Proof.
  revert f ws'. induction ws as [|[t' g] ws IH]; [done|]. intros f ws'. cbn.
  destruct (Nat.eqb t t').
  - intros [= <- <-]. split; [destruct (has_grant g); cbn; lia|]. intros w Hw. by right.
  - destruct (remove_waiter t ws) as [[f0 ws0]|]; [|done]. cbn. intros [= <- <-].
    destruct (IH f0 ws0 eq_refl) as [Hlen Hsub]. split.
    + cbn. destruct (has_grant g); cbn; lia.
    + intros w [-> |Hw]%elem_of_cons; [by left|right; by apply Hsub].
Qed.

Lemma resume_ok t s : sem_ok s → sem_ok (resume t s).2.
Proof.
  intros [Hc Hw]. unfold resume.
  destruct (remove_waiter t (waiters s)) as [[f ws]|] eqn:Hr; [|by split].
  apply remove_waiter_Some in Hr as [Hlen Hsub]. unfold grants in *.
  destruct f as [| |why|why]; cbn [has_grant] in Hlen; cbn [snd].
  - by split.
  - destruct (Nat.ltb_spec 0 (value (with_state s (value s) ws (holders s ++ [t])))) as [Hv|Hv].
    + apply wake_ok; unfold grants; cbn in *; [rewrite length_app; cbn; lia|lia].
    + split; unfold grants; cbn in *; [rewrite length_app; cbn; lia|]. intros _. left. lia.
  - apply wake_ok; unfold grants; cbn; lia.
  - split; unfold grants; cbn; [lia|]. intros (w & Hin & Hp).
    destruct Hw as [|]; [exists w; split; [by apply Hsub|done]|by left|right; lia].
Qed.

Lemma remove_one_length t l : t ∈ l → length l = S (length (remove_one t l)).
Proof.
  induction l as [|x l IH]; [by intros ?%elem_of_nil|]. cbn.
  destruct (Nat.eqb_spec t x) as [->|Hne]; [done|].
  intros [->|Hin]%elem_of_cons; [done|]. cbn. by rewrite <- IH.
Qed.
Lemma release_ok t s : sem_ok s → sem_ok (release t s).
Proof.
  intros Hs. unfold release. case_bool_decide as Ht; [|done]. destruct Hs as [Hc Hw].
  apply remove_one_length in Ht. apply wake_ok; unfold grants in *; cbn; lia.
Qed.

(** The slots in use never exceed the initial value, and while a task waits
    without a grant some other task holds a slot or is about to take it. *)
Lemma sem_ok_bound s : sem_ok s → (length (holders s) ≤ initial s)%nat.
Proof. intros [Hc _]. lia. Qed.
Lemma sem_ok_progress s :
  sem_ok s → (0 < initial s)%nat → (∃ w, w ∈ waiters s ∧ is_pending w.2 = true) →
  (0 < length (holders s) + grants s)%nat.
Proof. intros [Hc Hw] Hi Hp. destruct (Hw Hp); lia. Qed.

(** Nothing but its making sets a semaphore's key and initial value. *)
Definition same_make s s' : Prop := sem_key s' = sem_key s ∧ initial s' = initial s.
Lemma wake_make s : same_make s (_wake_up_next s).
Proof. unfold _wake_up_next. by destruct (grant_first _). Qed.
Lemma wake_make_state s v ws hs : same_make s (_wake_up_next (with_state s v ws hs)).
Proof. apply (wake_make (with_state s v ws hs)). Qed.
Lemma acquire_make t s : same_make s (acquire t s).
Proof. unfold acquire. by destruct (locked s). Qed.
Lemma release_make t s : same_make s (release t s).
Proof. unfold release. case_bool_decide; [|done]. apply wake_make_state. Qed.
Lemma resume_make t s : same_make s (resume t s).2.
Proof.
  unfold resume. destruct (remove_waiter t (waiters s)) as [[f ws]|]; [|done].
  destruct f; cbn [snd]; try done; [destruct (Nat.ltb _ _); [|done]|]; apply wake_make_state.
Qed.

End Semaphore.

(** ** core-api: a semaphore per scope and tenant, for the life of the process *)
Module Core.
Inductive Scope : Type := Write | Search | Embed | StorageWrite | StorageSearch.
#[global] Instance Scope_eq_dec : EqDecision Scope.
Proof. solve_decision. Defined.
#[global] Instance Scope_countable : Countable Scope.
Proof.
  refine (inj_countable'
    (λ s, match s with Write => 0 | Search => 1 | Embed => 2 | StorageWrite => 3 | StorageSearch => 4 end%nat)
    (λ n, match n with 0 => Write | 1 => Search | 2 => Embed | 3 => StorageWrite | _ => StorageSearch end%nat) _).
  by intros [].
Defined.
(** [per_tenant_slot] takes the first three, with a timeout; the others queue. *)
Definition fails_fast (sc : Scope) : bool :=
  match sc with Write | Search | Embed => true | _ => false end.

Record Settings : Type := {
  per_tenant_write_concurrency : nat;
  per_tenant_search_concurrency : nat;
  per_tenant_embed_concurrency : nat;
  per_tenant_storage_write_concurrency : nat;
  per_tenant_storage_search_concurrency : nat;
}.
Definition _cap_for (settings : Settings) (sc : Scope) : nat :=
  match sc with
  | Write => per_tenant_write_concurrency settings
  | Search => per_tenant_search_concurrency settings
  | Embed => per_tenant_embed_concurrency settings
  | StorageWrite => per_tenant_storage_write_concurrency settings
  | StorageSearch => per_tenant_storage_search_concurrency settings
  end.

Abbreviation slot_key := (Scope * string)%type.
Record process : Type := {
  _TENANT_SEMAPHORES : gmap slot_key nat;
  objects : list (semaphore slot_key);
}.
Definition start : process := {| _TENANT_SEMAPHORES := ∅; objects := [] |}.

Definition _get_semaphore (settings : Settings) (k : slot_key) (p : process) : nat * process :=
  match _TENANT_SEMAPHORES p !! k with
  | Some id => (id, p)
  | None =>
      let id := length (objects p) in
      (id, {| _TENANT_SEMAPHORES := <[k := id]> (_TENANT_SEMAPHORES p);
              objects := objects p ++ [make k (_cap_for settings k.1)] |})
  end.
Definition on_object (id : nat) (f : semaphore slot_key → semaphore slot_key) (p : process) : process :=
  {| _TENANT_SEMAPHORES := _TENANT_SEMAPHORES p; objects := alter f id (objects p) |}.

(** The steps of the tasks.  The settings may change between two requests.  A
    timeout strikes only the scopes that have one. *)
Inductive event : Type :=
| Enter (settings : Settings) (k : slot_key) (t : nat)
| Cancel (id t : nat) (why : cancel_reason)
| Resume (id t : nat)
| Leave (id t : nat).
Definition may_cancel (why : cancel_reason) (s : semaphore slot_key) : bool :=
  match why with TimedOut => fails_fast (sem_key s).1 | TaskCancelled => true end.
Definition step (e : event) (p : process) : process :=
  match e with
  | Enter settings k t => let '(id, p) := _get_semaphore settings k p in on_object id (acquire t) p
  | Cancel id t why => on_object id (λ s, if may_cancel why s then cancel t why s else s) p
  | Resume id t => on_object id (λ s, (resume t s).2) p
  | Leave id t => on_object id (release t) p
  end.
Definition run (es : list event) : process := foldl (λ p e, step e p) start es.

(** What a resumed task raises: the 429 of a timeout, or the cancellation. *)
Inductive exn : Type := HTTPException (status : Z) | CancelledError.
Definition raised (why : cancel_reason) : exn :=
  match why with TimedOut => HTTPException 429 | TaskCancelled => CancelledError end.

(** The tasks that hold a slot of [k], over all semaphores ever made. *)
Definition in_flight (k : slot_key) (p : process) : list nat := holding k (objects p).

(** The settings of the first request for [k]. *)
Definition enters (k : slot_key) (e : event) : option Settings :=
  match e with Enter settings k' _ => if bool_decide (k' = k) then Some settings else None | _ => None end.
Definition first_settings (k : slot_key) (es : list event) : option Settings :=
  head (omap (enters k) es).

Record process_ok (es : list event) (p : process) : Prop := {
  all_sem_ok : ∀ id s, objects p !! id = Some s → sem_ok s;
  all_registered : ∀ id s, objects p !! id = Some s → _TENANT_SEMAPHORES p !! sem_key s = Some id;
  registered : ∀ k id, _TENANT_SEMAPHORES p !! k = Some id → ∃ s, objects p !! id = Some s ∧ sem_key s = k;
  capped : ∀ id s, objects p !! id = Some s →
    ∃ settings, first_settings (sem_key s) es = Some settings ∧ initial s = _cap_for settings (sem_key s).1;
  unseen : ∀ k, _TENANT_SEMAPHORES p !! k = None → first_settings k es = None;
}.

Lemma first_settings_snoc k es e :
  first_settings k (es ++ [e]) = match first_settings k es with Some st => Some st | None => enters k e end.
Proof.
  unfold first_settings. rewrite omap_app. destruct (omap (enters k) es); [|done].
  cbn. by destruct (enters k e).
Qed.

Lemma process_ok_snoc es e p :
  (∀ k, _TENANT_SEMAPHORES p !! k = None → enters k e = None) →
  process_ok es p → process_ok (es ++ [e]) p.
Proof.
  intros He [Ha Hr Hg Hc Hu]. split; [done..| |].
  - intros id s Hs. destruct (Hc id s Hs) as (st & Hf & ?). exists st. by rewrite first_settings_snoc, Hf.
  - intros k Hk. rewrite first_settings_snoc, Hu by done. by apply He.
Qed.

Lemma core_on_object_ok es id f p :
  (∀ s, sem_ok s → sem_ok (f s)) → (∀ s, same_make s (f s)) → process_ok es p → process_ok es (on_object id f p).
Proof.
  intros Hf Hm [Ha Hr Hg Hc Hu].
  assert (Hl : ∀ i s, alter f id (objects p) !! i = Some s →
            ∃ s0, objects p !! i = Some s0 ∧ same_make s0 s ∧ (sem_ok s0 → sem_ok s)).
  { intros i s. destruct (decide (i = id)) as [->|Hne].
    - rewrite list_lookup_alter_eq. destruct (objects p !! id) as [s0|]; [|done]. intros [= <-].
      exists s0. split_and!; [done|apply Hm|apply Hf].
    - rewrite list_lookup_alter_ne by done. intros Hs. by exists s. }
  split; cbn.
  - intros i s (s0 & Hs0 & _ & Hok)%Hl. by eapply Hok, Ha.
  - intros i s (s0 & Hs0 & [-> _] & _)%Hl. by apply Hr.
  - intros k i Hk. destruct (Hg k i Hk) as (s & Hs & Hsk). destruct (decide (i = id)) as [->|Hne].
    + exists (f s). rewrite list_lookup_alter_eq, Hs. split; [done|]. by rewrite (proj1 (Hm s)).
    + exists s. by rewrite list_lookup_alter_ne.
  - intros i s (s0 & Hs0 & [-> ->] & _)%Hl. by apply (Hc i).
  - done.
Qed.

Lemma get_semaphore_ok es settings k t p :
  process_ok es p → process_ok (es ++ [Enter settings k t]) (_get_semaphore settings k p).2.
Proof.
  intros Hp. unfold _get_semaphore.
  destruct (_TENANT_SEMAPHORES p !! k) as [id|] eqn:Hk.
  { apply process_ok_snoc; [|done]. cbn. intros k' Hk'. rewrite bool_decide_eq_false_2; congruence. }
  assert (Hfresh : ∀ id s, objects p !! id = Some s → sem_key s ≠ k).
  { intros id s Hs <-. by rewrite (all_registered _ _ Hp id s Hs) in Hk. }
  destruct Hp as [Ha Hr Hg Hc Hu]. split; cbn.
  - intros id s [Hs|[_ Hs]]%lookup_app_Some; [by eapply Ha|].
    apply list_lookup_singleton_Some in Hs as [_ <-]. apply make_ok.
  - intros id s [Hs|[Hl Hs]]%lookup_app_Some.
    + rewrite lookup_insert_ne by (symmetry; by eapply Hfresh). by apply Hr.
    + apply list_lookup_singleton_Some in Hs as [Hid <-]. cbn. rewrite lookup_insert_eq. f_equal. lia.
  - intros k' id [[<- <-]|[Hne Hk']]%lookup_insert_Some.
    + eexists. by rewrite lookup_app_r, Nat.sub_diag by lia.
    + destruct (Hg k' id Hk') as (s & Hs & <-). exists s. split; [|done]. by apply lookup_app_l_Some.
  - intros id s [Hs|[Hl Hs]]%lookup_app_Some.
    + destruct (Hc id s Hs) as (st & Hf & Hi). exists st. by rewrite first_settings_snoc, Hf.
    + apply list_lookup_singleton_Some in Hs as [Hid <-]. cbn. rewrite first_settings_snoc.
      rewrite Hu by done. cbn. rewrite bool_decide_eq_true_2 by done. by exists settings.
  - intros k' [Hk' Hne]%lookup_insert_None. rewrite first_settings_snoc, Hu by done. cbn.
    by rewrite bool_decide_eq_false_2.
Qed.

Lemma core_step_ok es e p : process_ok es p → process_ok (es ++ [e]) (step e p).
Proof.
  intros Hp.
  assert (Hsnoc : ∀ id f, (∀ s, sem_ok s → sem_ok (f s)) → (∀ s, same_make s (f s)) →
            (∀ k, enters k e = None) → process_ok (es ++ [e]) (on_object id f p)).
  { intros id f Hf Hm He. apply core_on_object_ok; [done..|]. by apply process_ok_snoc. }
  destruct e as [settings k t|id t why|id t|id t]; cbn.
  - pose proof (get_semaphore_ok es settings k t p Hp) as Hg.
    destruct (_get_semaphore settings k p) as [id p']. cbn in Hg.
    apply core_on_object_ok; [apply acquire_ok|apply acquire_make|done].
  - apply Hsnoc; [|by intros s; destruct (may_cancel _ _)|done].
    intros s Hs. destruct (may_cancel _ _); [by apply cancel_ok|done].
  - apply Hsnoc; [apply resume_ok|apply resume_make|done].
  - apply Hsnoc; [apply release_ok|apply release_make|done].
Qed.

Lemma core_run_ok es : process_ok es (run es).
Proof.
  induction es as [|e es IH] using rev_ind.
  - split; cbn; intros; done.
  - unfold run. rewrite foldl_app. by apply core_step_ok.
Qed.

(** The semaphore of a key is the only one its tasks hold. *)
Lemma in_flight_one es p k :
  process_ok es p →
  in_flight k p = match _TENANT_SEMAPHORES p !! k ≫= (objects p !!.) with
                  | Some s => holders s | None => [] end.
Proof.
  intros Hp. unfold in_flight, holding. destruct (_TENANT_SEMAPHORES p !! k) as [id|] eqn:Hk; cbn.
  - destruct (registered _ _ Hp k id Hk) as (s & Hs & Hsk). rewrite Hs.
    assert (Hkey : ∀ i s', objects p !! i = Some s' → i ≠ id → sem_key s' ≠ k).
    { intros i s' Hi Hne Heq. apply (all_registered _ _ Hp) in Hi. congruence. }
    assert (Hpre : of_key k (take id (objects p)) = []).
    { apply of_key_none. intros s' [i [Hi Hlt]%lookup_take_Some]%list_elem_of_lookup.
      by apply (Hkey i); [|lia]. }
    assert (Hpost : of_key k (drop (S id) (objects p)) = []).
    { apply of_key_none. intros s' [i Hi]%list_elem_of_lookup. rewrite lookup_drop in Hi.
      by apply (Hkey (S id + i)%nat); [|lia]. }
    rewrite <- (take_drop_middle _ _ _ Hs), of_key_app, Hpre.
    change (s :: drop (S id) (objects p)) with ([s] ++ drop (S id) (objects p)).
    rewrite of_key_app, Hpost. cbn. rewrite bool_decide_eq_true_2 by done. cbn. by rewrite app_nil_r.
  - rewrite of_key_none; [done|]. intros s [id Hid]%list_elem_of_lookup <-.
    by rewrite (all_registered _ _ Hp id s Hid) in Hk.
Qed.

End Core.

(** ** core-worker: an LRU registry of at most 4096 tenants *)
Module Worker.
Definition _MAX_TRACKED_TENANTS : nat := 4096.

(** The registry lists the tenants from the least to the most recently used;
    [evicted] remembers whom it dropped. *)
Record process : Type := {
  _TENANT_SEMAPHORES : list (string * nat);
  objects : list (semaphore string);
  evicted : list string;
}.
Definition start : process := {| _TENANT_SEMAPHORES := []; objects := []; evicted := [] |}.

Definition find (t : string) (r : list (string * nat)) : option nat := dget r t.
Definition move_to_end (t : string) (id : nat) (r : list (string * nat)) : list (string * nat) :=
  dpop r t ++ [(t, id)].
Definition _get_semaphore (cap : nat) (t : string) (p : process) : nat * process :=
  let r := _TENANT_SEMAPHORES p in
  match find t r with
  | Some id =>
      (id, {| _TENANT_SEMAPHORES := move_to_end t id r; objects := objects p; evicted := evicted p |})
  | None =>
      let id := length (objects p) in
      let '(r', out) := if Nat.leb _MAX_TRACKED_TENANTS (length r)
                        then (tail r, fst <$> take 1 r) else (r, []) in
      (id, {| _TENANT_SEMAPHORES := r' ++ [(t, id)];
              objects := objects p ++ [make t cap]; evicted := evicted p ++ out |})
  end.
Definition on_object (id : nat) (f : semaphore string → semaphore string) (p : process) : process :=
  {| _TENANT_SEMAPHORES := _TENANT_SEMAPHORES p; objects := alter f id (objects p); evicted := evicted p |}.

Inductive event : Type :=
| Enter (tenant : string) (t : nat)
| Cancel (id t : nat)
| Resume (id t : nat)
| Leave (id t : nat).
Section Config.
(** [settings.per_tenant_storage_write_concurrency] *)
Context (cap : nat).
Definition step (e : event) (p : process) : process :=
  match e with
  | Enter tenant t => let '(id, p) := _get_semaphore cap tenant p in on_object id (acquire t) p
  | Cancel id t => on_object id (cancel t TaskCancelled) p
  | Resume id t => on_object id (λ s, (resume t s).2) p
  | Leave id t => on_object id (release t) p
  end.
Definition run (es : list event) : process := foldl (λ p e, step e p) start es.
End Config.

Definition in_flight (tenant : string) (p : process) : list nat := holding tenant (objects p).
Definition evictions (tenant : string) (p : process) : nat :=
  length (List.filter (String.eqb tenant) (evicted p)).

Section Theorems.
Context (cap : nat).

Definition tracked (tenant : string) (p : process) : nat :=
  if bool_decide (tenant ∈ dkeys (_TENANT_SEMAPHORES p)) then 1 else 0.

Record process_ok (p : process) : Prop := {
  all_sem_ok : ∀ s, s ∈ objects p → sem_ok s ∧ initial s = cap;
  registry_size : (length (_TENANT_SEMAPHORES p) ≤ _MAX_TRACKED_TENANTS)%nat;
  registry_keys : NoDup (dkeys (_TENANT_SEMAPHORES p));
  (** a tenant has had one semaphore more than evictions, while it is tracked *)
  made : ∀ t, length (of_key t (objects p)) = (evictions t p + tracked t p)%nat;
}.

Lemma alter_of_key (t : string) id f (l : list (semaphore string)) :
  (∀ s, same_make s (f s)) → length (of_key t (alter f id l)) = length (of_key t l).
Proof.
  intros Hf. revert id. induction l as [|s l IH]; intros id; [by destruct id|].
  destruct id as [|id]; cbn.
  - rewrite (proj1 (Hf s)). by case_bool_decide.
  - case_bool_decide; cbn; [f_equal|]; apply IH.
Qed.

Lemma worker_on_object_ok id f p :
  (∀ s, sem_ok s → sem_ok (f s)) → (∀ s, same_make s (f s)) → process_ok p → process_ok (on_object id f p).
Proof.
  intros Hf Hm [Ha Hs Hk Hc].
  split; cbn [objects on_object _TENANT_SEMAPHORES evicted]; [|done|done|].
  - intros s [i Hi]%list_elem_of_lookup. destruct (decide (i = id)) as [->|Hne].
    + rewrite list_lookup_alter_eq in Hi. destruct (objects p !! id) as [s0|] eqn:H0; [|done].
      injection Hi as <-. apply list_elem_of_lookup_2 in H0. destruct (Ha s0 H0) as [Hok Hi].
      split; [by apply Hf|]. by rewrite (proj2 (Hm s0)).
    + rewrite list_lookup_alter_ne in Hi by done. by eapply Ha, list_elem_of_lookup_2.
  - intros t. rewrite alter_of_key by done. apply Hc.
Qed.

Lemma move_to_end_Permutation t id r :
  NoDup (dkeys r) → dget r t = Some id → move_to_end t id r ≡ₚ r.
Proof.
  intros Hnd Hg. unfold move_to_end. rewrite Permutation_app_comm. by apply dpop_Permutation.
Qed.

Lemma tracked_Permutation t p p' :
  _TENANT_SEMAPHORES p ≡ₚ _TENANT_SEMAPHORES p' → tracked t p = tracked t p'.
Proof.
  intros Hp. unfold tracked. assert (Hk : dkeys (_TENANT_SEMAPHORES p) ≡ₚ dkeys (_TENANT_SEMAPHORES p'))
    by by apply fmap_Permutation.
  destruct (decide (t ∈ dkeys (_TENANT_SEMAPHORES p'))) as [Hin|Hn].
  - rewrite !bool_decide_eq_true_2; [done|done|]. by rewrite Hk.
  - rewrite !bool_decide_eq_false_2; [done|done|]. by rewrite Hk.
Qed.

Lemma get_semaphore_hit t id p :
  find t (_TENANT_SEMAPHORES p) = Some id → process_ok p → process_ok (_get_semaphore cap t p).2.
Proof.
  intros Hf [Ha Hs Hk Hc]. unfold _get_semaphore. rewrite Hf.
  pose proof (move_to_end_Permutation t id _ Hk Hf) as Hp.
  split; cbn [snd objects _TENANT_SEMAPHORES]; [done|by rewrite Hp| |].
  - assert (Hd : dkeys (move_to_end t id (_TENANT_SEMAPHORES p)) ≡ₚ dkeys (_TENANT_SEMAPHORES p))
      by by apply fmap_Permutation.
    by rewrite Hd.
  - intros t'. rewrite Hc. unfold evictions. cbn [evicted]. f_equal. symmetry. by apply tracked_Permutation.
Qed.

Lemma dkeys_snoc (r : list (string * nat)) t id : dkeys (r ++ [(t, id)]) = dkeys r ++ [t].
Proof. unfold dkeys. by rewrite fmap_app. Qed.
Lemma NoDup_dkeys_snoc (r : list (string * nat)) t id :
  t ∉ dkeys r → NoDup (dkeys r) → NoDup (dkeys (r ++ [(t, id)])).
Proof.
  intros Hn Hnd. rewrite dkeys_snoc. apply NoDup_app. split_and!; [done| |apply NoDup_singleton].
  by intros x Hx ->%list_elem_of_singleton.
Qed.
(** How many entries a list of keys has for [t'], when it has at most one. *)
Definition present (t' : string) (l : list string) : nat := if bool_decide (t' ∈ l) then 1 else 0.
Lemma present_snoc (r : list (string * nat)) t id t' :
  t ∉ dkeys r →
  present t' (dkeys (r ++ [(t, id)])) =
  (present t' (dkeys r) + if bool_decide (t = t') then 1 else 0)%nat.
Proof.
  intros Hn. unfold present. rewrite dkeys_snoc. destruct (decide (t = t')) as [<-|Hne].
  - rewrite (bool_decide_eq_false_2 (t ∈ dkeys r)), (bool_decide_eq_true_2 (t = t)) by done.
    rewrite bool_decide_eq_true_2; [done|]. apply elem_of_app. right. by apply list_elem_of_singleton.
  - rewrite (bool_decide_eq_false_2 (t = t')), Nat.add_0_r by done. f_equal.
    rewrite (bool_decide_ext (t' ∈ dkeys r ++ [t]) (t' ∈ dkeys r)); [done|].
    rewrite elem_of_app, list_elem_of_singleton. naive_solver.
Qed.
Lemma present_cons t' t0 (l : list string) :
  t0 ∉ l → present t' (t0 :: l) = ((if String.eqb t' t0 then 1 else 0) + present t' l)%nat.
Proof.
  intros Hn. unfold present. destruct (String.eqb_spec t' t0) as [->|Hne].
  - rewrite bool_decide_eq_true_2 by left. by rewrite bool_decide_eq_false_2.
  - rewrite (bool_decide_ext (t' ∈ t0 :: l) (t' ∈ l)); [done|]. rewrite elem_of_cons. naive_solver.
Qed.

(** The registry after a miss: its oldest entry makes room when it is full. *)
Lemma get_semaphore_miss t p :
  find t (_TENANT_SEMAPHORES p) = None → process_ok p → process_ok (_get_semaphore cap t p).2.
Proof.
  intros Hf [Ha Hs Hk Hc]. unfold _get_semaphore. rewrite Hf. apply dget_None in Hf.
  assert (Hobj : ∀ s, s ∈ objects p ++ [make t cap] → sem_ok s ∧ initial s = cap).
  { intros s [Hin| ->%list_elem_of_singleton]%elem_of_app; [by apply Ha|]. split; [apply make_ok|done]. }
  assert (Hkey : ∀ t', length (of_key t' (objects p ++ [make t cap])) =
            (evictions t' p + present t' (dkeys (_TENANT_SEMAPHORES p)) +
             if bool_decide (t = t') then 1 else 0)%nat).
  { intros t'. rewrite of_key_app, length_app, Hc. f_equal. cbn. by case_bool_decide. }
  destruct (_TENANT_SEMAPHORES p) as [|[t0 id0] r] eqn:Hr;
    [|destruct (Nat.leb_spec _MAX_TRACKED_TENANTS (length ((t0, id0) :: r))) as [Hfull|Hroom]].
  - replace (Nat.leb _MAX_TRACKED_TENANTS (length (@nil (string * nat)))) with false by reflexivity.
    split; cbn [snd objects _TENANT_SEMAPHORES]; [done| |apply NoDup_singleton|].
    + vm_compute. lia.
    + intros t'. rewrite Hkey. unfold evictions. cbn [evicted]. by rewrite app_nil_r, <- Nat.add_assoc,
        <- (present_snoc [] t (length (objects p))).
  - apply not_elem_of_cons in Hf as [Hne Hf]. apply NoDup_cons in Hk as [Ht0 Hnd].
    split; cbn [snd objects _TENANT_SEMAPHORES tail]; [done| |by apply NoDup_dkeys_snoc|].
    + rewrite length_app. cbn [length] in *. lia.
    + intros t'. rewrite Hkey. unfold evictions. cbn [evicted]. rewrite List.filter_app, length_app.
      change (tracked t' _) with (present t' (dkeys (r ++ [(t, length (objects p))]))).
      rewrite present_snoc by done. change (dkeys ((t0, id0) :: r)) with (t0 :: dkeys r).
      rewrite present_cons by done. cbn. rewrite take_0. cbn. destruct (String.eqb t' t0); cbn; lia.
  - split; cbn [snd objects _TENANT_SEMAPHORES]; [done| |by apply NoDup_dkeys_snoc|].
    + rewrite length_app. cbn [length] in *. lia.
    + intros t'. rewrite Hkey. unfold evictions. cbn [evicted]. rewrite app_nil_r.
      change (tracked t' _) with (present t' (dkeys (((t0, id0) :: r) ++ [(t, length (objects p))]))).
      rewrite present_snoc by done. lia.
Qed.

Lemma worker_step_ok e p : process_ok p → process_ok (step cap e p).
Proof.
  intros Hp. destruct e as [tenant t|id t|id t|id t]; cbn [step].
  - assert (Hg : process_ok (_get_semaphore cap tenant p).2).
    { destruct (find tenant (_TENANT_SEMAPHORES p)) as [id|] eqn:Hf;
        [by eapply get_semaphore_hit|by apply get_semaphore_miss]. }
    destruct (_get_semaphore cap tenant p) as [id p'].
    apply worker_on_object_ok; [apply acquire_ok|apply acquire_make|done].
  - apply worker_on_object_ok; [apply cancel_ok|done|done].
  - apply worker_on_object_ok; [apply resume_ok|apply resume_make|done].
  - apply worker_on_object_ok; [apply release_ok|apply release_make|done].
Qed.
Lemma worker_run_ok es : process_ok (run cap es).
Proof.
  induction es as [|e es IH] using rev_ind.
  - split; cbn; [by intros s ?%elem_of_nil|lia|constructor|done].
  - unfold run. rewrite foldl_app. by apply worker_step_ok.
Qed.

(** The worker's registry is bounded and its slots are too.  In every
    interleaving it tracks at most 4096 tenants, each semaphore admits at most
    [cap] tasks, and a tenant has at most [cap] tasks in flight per semaphore
    it was given: one, and one more each time it was evicted, so a tenant that
    is never evicted stays within the cap. *)
Theorem worker_slots_bounded es t :
  let p := run cap es in
  (length (_TENANT_SEMAPHORES p) ≤ _MAX_TRACKED_TENANTS)%nat ∧ NoDup (dkeys (_TENANT_SEMAPHORES p)) ∧
  Forall (λ s, (length (holders s) ≤ cap)%nat) (objects p) ∧
  (length (in_flight t p) ≤ cap * (evictions t p + tracked t p))%nat.
Proof.
  intros p. pose proof (worker_run_ok es) as [Ha Hs Hk Hc]. fold p in Ha, Hs, Hk, Hc.
  assert (Hb : ∀ s, s ∈ objects p → (length (holders s) ≤ cap)%nat).
  { intros s Hin. destruct (Ha s Hin) as [Hok <-]. by apply sem_ok_bound. }
  split_and!; [done|done|by apply Forall_forall|]. rewrite <- Hc. by apply holding_bound.
Qed.
End Theorems.
End Worker.
End Slots.
