(* ===== verification/Contradictions.v ===== *)
(** * Contradictions (core_api/services/contradiction_detector.py, with
    subject_preflight.py, and the storage calls it makes: the status routes of
    core_storage_api/routers/memories.py and the [memory_*] methods of
    postgres_service.py)

    A new memory is compared with older and newer ones: a conflict marks the
    older row and links the newer one to it by [supersedes_id].  Path A finds
    candidates by triple and by similarity, Path C by shared entities, after it
    may have retracted Path A's verdict.  The detections are programs of
    [Interleaving] over the [memories] table and its read replica; the judge
    and the entity tables answer as they like.  Dates are as [_parse_dt] reads
    them. *)

From S2P Require Import Prelude Floats Interleaving.

Module Contradictions.
Import Floats Interleaving.

(** ** The table *)
Definition vector : Type := list float.
Record Memory : Type := {
  tenant_id : string;
  fleet_id : option string;
  status : string;
  supersedes_id : option string;
  content : string;
  visibility : string;
  subject_entity_id : option string;
  predicate : option string;
  object_value : option string;
  embedding : option vector;
  created_at : Z;
  deleted_at : option Z;
}.
(** Rows by id, the text of a UUID. *)
Abbreviation table := (gmap string Memory).
(** The primary, and the replica that reads may go to. *)
Record db : Type := { primary : table; replica : table }.
Abbreviation write := (string * Memory)%type.
Definition put (w : write) (s : db) : db :=
  {| primary := <[w.1 := w.2]> (primary s); replica := replica s |}.

(** A memory as the detector sees it: a JSON row, or what the synchronous API
    makes of an ORM object. *)
Record mem : Type := {
  mid : string;
  m_tenant : string;
  m_fleet : option string;
  m_status : string;
  m_supersedes : option string;
  m_content : string;
  m_visibility : option string;
  m_subject : option string;
  m_predicate : option string;
  m_object : option string;
  m_created : option Z;
  m_deleted : option Z;
}.
Definition orm_to_dict (id : string) (m : Memory) : mem :=
  {| mid := id; m_tenant := tenant_id m; m_fleet := fleet_id m; m_status := status m;
     m_supersedes := supersedes_id m; m_content := content m; m_visibility := Some (visibility m);
     m_subject := subject_entity_id m; m_predicate := predicate m; m_object := object_value m;
     m_created := Some (created_at m); m_deleted := deleted_at m |}.

(** ** The judge *)
Definition NON_CONFLICT_REASONS : list string :=
  ["temporal_supersession"; "list_valued_predicate"; "refinement"; "scope_mismatch";
   "same_name_distinct_subject"; "conditional_unrealized"; "event_restatement"]%string.
Definition is_true (v : pyval) : bool := match v with PBool true => true | _ => false end.
Definition same_subject (d : pydict) : bool := is_true (dgetv d "same_subject").
Definition contradicts (d : pydict) : bool := is_true (dgetv d "contradicts").
Definition named_reason (d : pydict) : bool :=
  match dgetv d "non_conflict_reason" with PStr r => str_mem r NON_CONFLICT_REASONS | _ => false end.

Definition _parse_contradiction_response (raw : pyval) : bool :=
  match raw with
  | PDict d =>
      if contradicts d && negb (same_subject d) then false
      else if contradicts d && named_reason d then false
      else contradicts d
  | _ => false
  end.

Definition _CONF_CLEAN : float := lit 90 100.
Definition _CONF_GATE2 : float := lit 85 100.
Definition _CONF_GATE1 : float := lit 60 100.
Definition _CONF_FALLBACK : float := lit 50 100.
Definition _judge_contradiction (raw : pyval) : bool * float :=
  match raw with
  | PDict ((_ :: _) as d) =>
      let verdict := _parse_contradiction_response raw in
      if contradicts d && negb (same_subject d) then (verdict, _CONF_GATE1)
      else if contradicts d && named_reason d then (verdict, _CONF_GATE2)
      else (verdict, _CONF_CLEAN)
  | _ => (false, _CONF_FALLBACK)
  end.

Section Judge.
Context `{PyText}.
Definition negations : list string :=
  ["not"; "no"; "never"; "none"; "isn't"; "wasn't"; "doesn't"; "can't"; "won't"]%string.
Definition word_set (s : string) : list string := remove_dups (str_split (str_lower s)).
Definition _fake_contradiction_check (new_content old_content : string) : bool :=
  let new_words := word_set new_content in
  let old_words := word_set old_content in
  let has_neg ws := existsb (λ w, str_mem w negations) ws in
  if xorb (has_neg new_words) (has_neg old_words) then
    let shared := List.filter (λ w, str_mem w old_words && negb (str_mem w negations)) new_words in
    Nat.leb 3 (length shared)
  else false.
End Judge.

(** ** Attribution *)
Definition str_lt (a b : string) : bool := String.ltb a b.
Definition _pick_older (a b : mem) : mem :=
  let by_id := if str_lt (mid a) (mid b) then a else if str_lt (mid b) (mid a) then b else a in
  match m_created a, m_created b with
  | Some x, Some y => if x =? y then by_id else if x <? y then a else b
  | _, _ => by_id
  end.

(** One entry of the batch: the status, and the link if the entry sets one. *)
Record update : Type := { u_status : string; u_supersedes : option string }.
Definition merge_update (old new : update) : update :=
  {| u_status := u_status new;
     u_supersedes := match u_supersedes new with Some o => Some o | None => u_supersedes old end |}.
Definition _merge_status_update (acc : list (string * update)) (id : string) (u : update) :
    list (string * update) :=
  match dget acc id with
  | Some old => dset acc id (merge_update old u)
  | None => dset acc id u
  end.

Inductive direction : Type := Canonical | Flipped.
Record ContradictionInfo : Type := {
  old_memory_id : string;
  old_status : string;
  reason : string;
  old_content_preview : string;
  info_direction : direction;
}.

(** The state of the loop over the confirmed conflicts. *)
Record loop_state : Type := {
  supersedes : option string;
  new_memory_is_outdated : bool;
  updates : list (string * update);
  contradictions : list ContradictionInfo;
}.

(** Who is older, and which row is the newer one: the new memory, or the
    candidate. *)
Definition newer_is_new (new old : mem) : bool :=
  negb (String.eqb (mid (_pick_older old new)) (mid new)).
Definition newer_of (new old : mem) : mem := if newer_is_new new old then new else old.

(** One confirmed conflict; [flag] is "outdated" for triples and "conflicted"
    for similar texts. *)
Definition attribute (flag why : string) (new : mem) (st : loop_state) (old : mem) : loop_state :=
  let older := _pick_older old new in
  let newer := newer_of new old in
  let link s := {| u_status := s; u_supersedes := Some (mid older) |} in
  let ups := _merge_status_update (updates st) (mid older) {| u_status := flag; u_supersedes := None |} in
  let info :=
    {| old_memory_id := mid old;
       old_status := if newer_is_new new old then flag else m_status old;
       reason := why; old_content_preview := char_take 200 (m_content old);
       info_direction := if newer_is_new new old then Canonical else Flipped |} in
  let found := contradictions st ++ [info] in
  if newer_is_new new old then
    if is_given (supersedes st) then
      {| supersedes := supersedes st; new_memory_is_outdated := new_memory_is_outdated st;
         updates := ups; contradictions := found |}
    else
      {| supersedes := Some (mid older); new_memory_is_outdated := new_memory_is_outdated st;
         updates := _merge_status_update ups (mid new)
                      (link (if new_memory_is_outdated st then flag else m_status new));
         contradictions := found |}
  else
    {| supersedes := supersedes st; new_memory_is_outdated := true;
       updates := if is_given (m_supersedes newer) then ups
                  else _merge_status_update ups (mid newer) (link (m_status newer));
       contradictions := found |}.
Definition attribute_all (flag why : string) (new : mem) (conflicts : list mem) : loop_state :=
  foldl (attribute flag why new)
    {| supersedes := m_supersedes new; new_memory_is_outdated := false; updates := []; contradictions := [] |}
    conflicts.

(** Path C's loop: only the first confirmed conflict sets a link. *)
Record path_c_state : Type := { c_found : bool; c_updates : list (string * update) }.
Definition attribute_c (new : mem) (st : path_c_state) (old : mem) : path_c_state :=
  let older := _pick_older old new in
  let newer := newer_of new old in
  let ups := _merge_status_update (c_updates st) (mid older) {| u_status := "conflicted"; u_supersedes := None |} in
  {| c_found := true;
     c_updates :=
       if c_found st then ups
       else if newer_is_new new old then
         _merge_status_update ups (mid new) {| u_status := m_status new; u_supersedes := Some (mid older) |}
       else if is_given (m_supersedes newer) then ups
       else _merge_status_update ups (mid newer) {| u_status := m_status newer; u_supersedes := Some (mid older) |} |}.
Definition attribute_all_c (new : mem) (conflicts : list mem) : path_c_state :=
  foldl (attribute_c new) {| c_found := false; c_updates := [] |} conflicts.

(** common/constants.py *)
Definition SINGLE_VALUE_PREDICATES : list string :=
  ["named"; "name"; "renamed_to"; "status"; "has_status"; "current_status"; "phase";
    "current_phase"; "state"; "current_state"; "role"; "has_role"; "current_role"; "title";
    "has_title"; "job_title"; "type"; "has_type"; "category"; "classified_as"; "identified_as";
    "labeled_as"; "lives_in"; "located_in"; "is_located_in"; "location"; "current_location";
    "headquartered_in"; "hq_in"; "based_in"; "is_based_in"; "resides_in"; "resides_at";
    "stationed_at"; "hosted_on"; "hosted_at"; "is_hosted_on"; "deployed_to"; "deployed_at";
    "deployed_on"; "is_deployed_to"; "runs_on"; "running_on"; "stored_in"; "stored_at";
    "registered_in"; "registered_at"; "country"; "city"; "region"; "address"; "reports_to";
    "reporting_to"; "led_by"; "owned_by"; "managed_by"; "manager"; "manager_of"; "headed_by";
    "head_of"; "ceo_of"; "ceo"; "cto_of"; "cto"; "cfo_of"; "cfo"; "assigned_to"; "assignee";
    "is_assigned_to"; "maintained_by"; "maintainer"; "maintainer_of"; "supervised_by";
    "supervisor"; "score"; "scored"; "has_score"; "rating"; "rated"; "has_rating"; "price";
    "priced_at"; "has_price"; "current_price"; "cost"; "costs"; "has_cost"; "value"; "valued_at";
    "has_value"; "net_worth"; "weight"; "weighs"; "has_weight"; "market_cap"; "has_market_cap";
    "market_cap_rank"; "revenue"; "has_revenue"; "annual_revenue"; "monthly_revenue"; "salary";
    "has_salary"; "compensation"; "budget"; "has_budget"; "funding"; "total_funding"; "valuation";
    "has_valuation"; "count"; "count_of"; "has_count"; "total"; "size"; "has_size"; "percentage";
    "percentage_of"; "estimated_at"; "estimate"; "measured_at"; "measurement"; "ranked"; "rank";
    "ranking"; "has_rank"; "potential_score"; "risk_score"; "quality_score"; "health_score";
    "sentiment"; "sentiment_score"; "confidence"; "confidence_score"; "probability"; "capacity";
    "has_capacity"; "limit"; "has_limit"; "quota"; "has_quota"; "balance"; "has_balance";
    "supply"; "total_supply"; "circulating_supply"; "volume"; "trading_volume"; "liquidity";
    "all_time_high"; "all_time_low"; "burn_rate"; "runway"; "latency"; "uptime"; "availability";
    "accuracy"; "precision"; "recall_metric"; "f1_score"; "version"; "has_version";
    "latest_version"; "current_version"; "running_version"; "released_as"; "replaced_by";
    "replaces"; "succeeded_by"; "succeeds"; "upgraded_to"; "upgraded_from"; "migrated_to";
    "migrated_from"; "chosen_over"; "selected"; "preferred"; "switched_to"; "switched_from";
    "deprecated_by"; "deprecated"; "scheduled_for"; "scheduled_at"; "rescheduled_to"; "due_by";
    "due_date"; "due_on"; "starts_on"; "start_date"; "started_on"; "started_at"; "ends_on";
    "end_date"; "ended_on"; "ended_at"; "expires_on"; "expiry_date"; "expiration"; "deadline";
    "has_deadline"; "eta"; "has_eta"; "expected_by"; "next_review"; "next_meeting";
    "next_milestone"; "last_updated"; "last_modified"; "last_seen"; "last_active"; "created_on";
    "created_at"; "target_date"; "release_date"; "go_live_date"; "launch_date"; "configured_as";
    "configuration"; "set_to"; "setting"; "limited_to"; "capped_at"; "defaults_to";
    "default_value"; "backed_by"; "backend"; "powered_by"; "styled_with"; "licensed_under";
    "license"; "instance_of"; "environment"; "env"; "tier"; "subscription"; "subscription_plan";
    "pricing_plan"; "mode"; "has_mode"; "priority"; "has_priority"; "severity"; "has_severity";
    "milestone"; "has_milestone"; "sprint"; "has_sprint"; "epic"; "has_epic";
    "depends_on_completion_of"; "hostname"; "cluster"; "namespace"; "zone"; "availability_zone";
    "email"; "has_email"; "email_address"; "phone"; "has_phone"; "phone_number"; "website";
    "has_website"; "age"; "has_age"; "born_in"; "birthdate"; "date_of_birth"; "married_to";
    "spouse"; "employed_by"; "employer"; "work_location"; "office"]%string.

(** ** The storage service *)
Definition live_status (s : string) : bool := str_mem s ["active"; "confirmed"; "pending"]%string.
Definition same_fleet (fleet : option string) (m : Memory) : bool :=
  match given fleet with
  | Some f => bool_decide (fleet_id m = Some f)
  | None => bool_decide (fleet_id m = None)
  end.
Definition rows (sel : string → Memory → bool) (t : table) : list mem :=
  (λ km : string * Memory, orm_to_dict km.1 km.2) <$>
    List.filter (λ km : string * Memory, sel km.1 km.2) (map_to_list t).

(** What every candidate query asks for. *)
Definition candidate_row (tenant memory_id : string) (id : string) (m : Memory) : bool :=
  String.eqb (tenant_id m) tenant && bool_decide (deleted_at m = None) &&
  live_status (status m) && negb (String.eqb id memory_id).

Section Storage.
(** The database's part in the queries: the order of rows without [ORDER BY],
    the vector search with its threshold, order and limit, and the overlap of
    entity names with its order and limit. *)
Context `{PyText}.
Context (any_order : list mem → list mem).
Context (nearest : vector → list mem → list mem).
Context (overlapping : string → list mem → list mem).

Definition get_memory (id : string) (s : db) : option mem := orm_to_dict id <$> replica s !! id.

Definition memory_find_rdf_conflicts (tenant subject pred object id : string) (fleet : option string)
    (s : db) : list mem :=
  any_order (rows (λ i m,
    candidate_row tenant id i m && bool_decide (subject_entity_id m = Some subject) &&
    match predicate m with Some p => String.eqb (str_lower p) (str_lower pred) | None => false end &&
    match object_value m with Some o => negb (String.eqb o object) | None => false end &&
    same_fleet fleet m) (replica s)).

Definition memory_find_similar_candidates (tenant : string) (fleet : option string) (v : vector)
    (id vis : string) (s : db) : list mem :=
  nearest v (rows (λ i m,
    candidate_row tenant id i m && negb (bool_decide (embedding m = None)) &&
    same_fleet fleet m && String.eqb (visibility m) vis) (replica s)).

(** Here a missing fleet means any fleet. *)
Definition memory_find_entity_overlap_candidates (id tenant : string) (fleet : option string)
    (vis : string) (s : db) : list mem :=
  overlapping id (rows (λ i m,
    candidate_row tenant id i m && String.eqb (visibility m) vis &&
    match given fleet with Some f => bool_decide (fleet_id m = Some f) | None => true end) (replica s)).

(** One conditional update of a row; the answer is whether it matched. *)
Definition with_pointer (m : Memory) (new_status : string) (pointer : option string) : Memory :=
  {| tenant_id := tenant_id m; fleet_id := fleet_id m; status := new_status; supersedes_id := pointer;
     content := content m; visibility := visibility m; subject_entity_id := subject_entity_id m;
     predicate := predicate m; object_value := object_value m; embedding := embedding m;
     created_at := created_at m; deleted_at := deleted_at m |}.
Definition update_row (tenant id : string) (guard : Memory → bool) (f : Memory → Memory) (s : db) :
    bool * option write :=
  match primary s !! id with
  | Some m => if String.eqb (tenant_id m) tenant && guard m then (true, Some (id, f m)) else (false, None)
  | None => (false, None)
  end.

Definition memory_update_status (tenant id new_status : string) (sup : option string)
    (unset : bool) (expected : option string) : tx db write bool :=
  tsql (update_row tenant id
    (λ m, match expected with Some e => bool_decide (supersedes_id m = Some e) | None => true end)
    (λ m, with_pointer m new_status
       (if unset then None else match sup with Some o => Some o | None => supersedes_id m end))).

(** POST /batch-update-status: a transaction per row, no gate on the pointer.
    A server that breaks off, as at a link to a row that is gone, is one that
    takes no further step. *)
Fixpoint update_each (tenant : string) (ups : list (string * update)) : tx db write (list string) :=
  match ups with
  | [] => mret []
  | (id, u) :: ups =>
      ok ← memory_update_status tenant id (u_status u) (u_supersedes u) false None;
      skipped ← update_each tenant ups;
      mret (if ok : bool then skipped else id :: skipped)
  end.
(** [None] is 422. *)
Definition batch_update_status (tenant : string) (ups : list (string * update)) :
    tx db write (option (list string)) :=
  if String.eqb tenant "" then mret None
  else skipped ← update_each tenant ups; mret (Some skipped).

(** PATCH /memories/{id}/status: [None] is the status code 200, else the code
    of the error. *)
Definition clear_pointer (tenant id new_status expected : string) : tx db write (option Z) :=
  ok ← tsql (update_row tenant id
    (λ m, bool_decide (supersedes_id m = Some expected) || bool_decide (supersedes_id m = None))
    (λ m, with_pointer m new_status None));
  mret (if ok : bool then None else Some 409).
Definition set_status (tenant id new_status : string) (sup : option string) : tx db write (option Z) :=
  ok ← memory_update_status tenant id new_status None false None;
  if ok : bool then
    match sup with
    | None => mret None
    | Some o =>
        _ ← tsql (update_row tenant id (λ m, bool_decide (supersedes_id m = None))
                   (λ m, with_pointer m (status m) (Some o)));
        mret None
    end
  else mret (Some 404).

(** ** The detector *)
Record entity : Type := {
  e_name : option string;
  entity_type : option string;
  e_role : option string;
  entity_id : string;
}.
Record link : Type := { link_entity : option string; link_role : option string }.
Record config : Type := { retraction_enabled : bool }.

(** What a check of two texts meets: the answer of a model, the heuristic when
    all providers fail, or an exception such as its timeout. *)
Inductive judged : Type := Raw (raw : pyval) | AllFailed | CheckRaised.

Inductive action : Type :=
| AcquireLock (key : string)
| ResolveConfig (tenant : string)
| Judge (new_content old_content : string)
| JudgeAware (new_content old_content : string) (new_entities old_entities : list entity)
| GetLinks (memory : string)
| GetEntity (id : string)
| FetchInTime.
Inductive answer : Type :=
| Yes | No
| AConfig (c : config)
| AJudged (j : judged)
| ALinks (l : list link)
| AEntity (name type : option string)
(** nothing there, or the call raised *)
| ANothing | ARaised.
Abbreviation detector := (prog db write action answer).

(** A call that may raise ends the detection; [None] is that. *)
Abbreviation ex A := (detector (option A)).
Definition ex_bind {A B} (m : ex A) (f : A → ex B) : ex B :=
  o ← m; match o with Some a => f a | None => mret None end.
Local Notation "x ⇐ m ; k" := (ex_bind m (λ x, k)) (at level 100, m at next level, right associativity).
Definition done_ : ex unit := mret (Some tt).

Definition ask {A} (q : db → A) : ex A := http (tsql (λ s, (q s, None))).

Definition verdict_of (new_content old_content : string) (j : judged) : option (bool * float) :=
  match j with
  | Raw raw => Some (_judge_contradiction raw)
  | AllFailed => Some (_fake_contradiction_check new_content old_content, _CONF_FALLBACK)
  | CheckRaised => None
  end.
Definition as_judged (a : answer) : judged := match a with AJudged j => j | _ => CheckRaised end.
Definition _llm_contradiction_check (new_content old_content : string) : detector (option (bool * float)) :=
  a ← perform (Judge new_content old_content); mret (verdict_of new_content old_content (as_judged a)).
Definition _llm_entity_aware_contradiction_check (new_content old_content : string)
    (new_entities old_entities : list entity) : detector (option (bool * float)) :=
  a ← perform (JudgeAware new_content old_content new_entities old_entities);
  mret (verdict_of new_content old_content (as_judged a)).

(** The candidates whose check confirmed the conflict, in their order. *)
Fixpoint confirmed (check : mem → detector (option (bool * float))) (cs : list mem) : detector (list mem) :=
  match cs with
  | [] => mret []
  | c :: cs =>
      result ← check c;
      rest ← confirmed check cs;
      mret (match result with Some (true, _) => c :: rest | _ => rest end)
  end.

Definition flush (tenant : string) (ups : list (string * update)) : ex unit :=
  match ups with
  | [] => done_
  | _ =>
      skipped ⇐ http (batch_update_status tenant ups);
      match skipped with Some _ => done_ | None => mret None end
  end.

(** [_detect], path 1 *)
Definition detect_rdf (new : mem) : ex (list ContradictionInfo) :=
  match given (m_subject new), given (m_predicate new), given (m_object new) with
  | Some subject, Some pred, Some object =>
      if str_mem (str_lower pred) SINGLE_VALUE_PREDICATES then
        conflicts ⇐ ask (memory_find_rdf_conflicts (m_tenant new) subject pred object (mid new) (m_fleet new));
        let st := attribute_all "outdated" "rdf_conflict" new conflicts in
        _ ⇐ flush (m_tenant new) (updates st);
        mret (Some (contradictions st))
      else mret (Some [])
  | _, _, _ => mret (Some [])
  end.
(** path 2 *)
Definition detect_semantic (new : mem) (v : vector) : ex (list ContradictionInfo) :=
  candidates ⇐ ask (memory_find_similar_candidates (m_tenant new) (m_fleet new) v (mid new)
                      (default "scope_team" (m_visibility new))%string);
  conflicts ← confirmed (λ c, _llm_contradiction_check (m_content new) (m_content c)) candidates;
  let st := attribute_all "conflicted" "semantic_conflict" new conflicts in
  _ ⇐ flush (m_tenant new) (updates st);
  mret (Some (contradictions st)).
Definition _detect (new : mem) (v : vector) : ex (list ContradictionInfo) :=
  found ⇐ detect_rdf new;
  match found with [] => detect_semantic new v | _ => mret (Some found) end.

(** The synchronous API reads these fields of an ORM object, and no others. *)
Definition normalize_orm (id : string) (m : Memory) : mem :=
  {| mid := id; m_tenant := tenant_id m; m_fleet := fleet_id m; m_status := status m;
     m_supersedes := supersedes_id m; m_content := content m; m_visibility := None;
     m_subject := subject_entity_id m; m_predicate := predicate m; m_object := object_value m;
     m_created := None; m_deleted := None |}.
Definition detect_contradictions (new : (string * Memory) + mem) (v : vector) : ex (list ContradictionInfo) :=
  _detect match new with inl (id, m) => normalize_orm id m | inr d => d end v.

Definition lock (key : string) : detector bool :=
  a ← perform (AcquireLock key); mret match a with No => false | _ => true end.
Definition resolve_config (tenant : string) : ex config :=
  a ← perform (ResolveConfig tenant); mret match a with AConfig c => Some c | _ => None end.

(** Whatever a detection raises is caught and logged. *)
Definition caught {A} (m : ex A) : detector unit := _ ← m; mret tt.

Definition given_or_fetched (memory_id : string) (new : option mem) : ex (option mem) :=
  match new with Some m => mret (Some (Some m)) | None => ask (get_memory memory_id) end.
Definition detect_contradictions_async (memory_id tenant : string) (v : vector) (new : option mem) :
    detector unit :=
  caught (
    owned ← lock ("contradiction:path_a:" ++ memory_id)%string;
    if owned : bool then
      found ⇐ given_or_fetched memory_id new;
      match found with
      | Some m =>
          match m_deleted m with
          | Some _ => done_
          | None => _ ⇐ resolve_config tenant; _ ⇐ _detect m v; done_
          end
      | None => done_
      end
    else done_).

(** *** Path C *)

(** [_fetch_entity_context]: missing links and entities are left out. *)
Fixpoint hydrate (ls : list link) : detector (list entity) :=
  match ls with
  | [] => mret []
  | l :: ls =>
      here ← match given (link_entity l) with
             | None => (mret None : detector (option entity))
             | Some e =>
                 a ← perform (GetEntity e);
                 mret match a with
                      | AEntity name type =>
                          Some {| e_name := name; entity_type := type; e_role := link_role l; entity_id := e |}
                      | _ => None
                      end
             end;
      rest ← hydrate ls;
      mret (match here with Some e => e :: rest | None => rest end)
  end.
Definition _fetch_entity_context (memory : string) : detector (list entity) :=
  a ← perform (GetLinks memory);
  match a with ALinks ls => hydrate ls | _ => mret [] end.

(** A gather of fetches under one timeout. *)
Fixpoint fetch_all (ids : list string) : detector (list (list entity)) :=
  match ids with
  | [] => mret []
  | id :: ids => c ← _fetch_entity_context id; cs ← fetch_all ids; mret (c :: cs)
  end.
Definition fetch_in_time (ids : list string) : detector (option (list (list entity))) :=
  cs ← fetch_all ids;
  a ← perform FetchInTime;
  mret match a with No | ARaised => None | _ => Some cs end.

Definition RETRACTION_CONFIDENCE_THRESHOLD : float := _CONF_CLEAN.

(** PATCH through the client, for which 404 is an answer like any other:
    [None] when the call or its status raises. *)
Definition patch_status (server : tx db write (option Z)) : ex unit :=
  r ← http server;
  mret match r with
       | Some None => Some tt
       | Some (Some code) => if code =? 404 then Some tt else None
       | None => None
       end.

(** Whether the second judgement undoes the first. *)
Definition retracts (r : option (bool * float)) : bool :=
  match r with
  | Some (verdict, confidence) => negb verdict && negb (flt confidence RETRACTION_CONFIDENCE_THRESHOLD)
  | None => false
  end.

Definition retract (new candidate : mem) : ex bool :=
  if String.eqb (m_tenant candidate) "" || String.eqb (m_tenant new) "" then mret None
  else
    _ ⇐ patch_status (set_status (m_tenant candidate) (mid candidate) "active" None);
    _ ← patch_status (clear_pointer (m_tenant new) (mid new) (m_status new) (mid candidate));
    mret (Some true).

Definition _attempt_path_c_retraction (new : mem) (c : config) : ex bool :=
  if negb (retraction_enabled c) then mret (Some false)
  else
    match given (m_supersedes new) with
    | None => mret (Some false)
    | Some target =>
        found ⇐ ask (get_memory target);
        match found with
        | None => mret (Some false)
        | Some candidate =>
            if bool_decide (m_deleted candidate = None) && String.eqb (m_status candidate) "conflicted" then
              fetched ← fetch_in_time [mid new; mid candidate];
              match fetched with
              | Some [(_ :: _) as new_entities; (_ :: _) as old_entities] =>
                  r ← _llm_entity_aware_contradiction_check (m_content new) (m_content candidate)
                        new_entities old_entities;
                  if retracts r then retract new candidate else mret (Some false)
              | _ => mret (Some false)
              end
            else mret (Some false)
        end
    end.

(** The preflights.  Subjects differ with certainty when both are known. *)
Definition _subjects_differ_with_certainty (left right : option string) : bool :=
  match left, right with Some l, Some r => negb (String.eqb l r) | _, _ => false end.

Definition _ENTITY_LINKS_PREFLIGHT_MAX_CANDIDATES : nat := 20.
Definition _ENTITY_LINKS_DETECTION_FETCH_MAX_CANDIDATES : nat := 2 * _ENTITY_LINKS_PREFLIGHT_MAX_CANDIDATES.

Definition unknown_subject (new c : mem) : bool :=
  bool_decide (m_subject new = None) || bool_decide (m_subject c = None).
Definition too_many (new : mem) (cs : list mem) : bool :=
  Nat.ltb _ENTITY_LINKS_PREFLIGHT_MAX_CANDIDATES (length (List.filter (unknown_subject new) cs)) ||
  Nat.ltb _ENTITY_LINKS_DETECTION_FETCH_MAX_CANDIDATES (length cs).

(** [_extract_subject_canonical_identity], of which only the id is compared. *)
Definition subject_identity (es : list entity) : option string :=
  entity_id <$> head (List.filter (λ e,
    match e_role e with Some r => String.eqb (str_lower r) "subject" | None => false end &&
    negb (String.eqb (entity_id e) "")) es).

Definition context_of (contexts : list (string * list entity)) (c : mem) : list entity :=
  default [] (dget contexts (mid c)).
(** The candidates a second preflight drops. *)
Definition other_subject (new : mem) (new_ctx : list entity) (contexts : list (string * list entity)) (c : mem) : bool :=
  match subject_identity new_ctx with
  | None => false
  | Some e =>
      unknown_subject new c &&
      match subject_identity (context_of contexts c) with
      | Some e' => negb (String.eqb e' e)
      | None => false
      end
  end.

(** The contexts of the new memory and of the candidates, when they were
    fetched; a later candidate with the same id would overwrite an earlier. *)
Definition fetch_contexts (new : mem) (cs : list mem) :
    detector (option (list entity * list (string * list entity))) :=
  if too_many new cs then mret None
  else
    fetched ← fetch_in_time (mid new :: (mid <$> cs));
    mret match fetched with
         | Some (new_ctx :: ctxs) => Some (new_ctx, foldl (λ d kc, dset d kc.1 kc.2) [] (zip (mid <$> cs) ctxs))
         | _ => None
         end.

Definition check_candidate (new : mem) (fetched : option (list entity * list (string * list entity))) (c : mem) :
    detector (option (bool * float)) :=
  match fetched with
  | Some ((_ :: _) as new_ctx, contexts) =>
      match context_of contexts c with
      | (_ :: _) as ctx => _llm_entity_aware_contradiction_check (m_content new) (m_content c) new_ctx ctx
      | [] => _llm_contradiction_check (m_content new) (m_content c)
      end
  | _ => _llm_contradiction_check (m_content new) (m_content c)
  end.

Definition detect_by_overlap (new : mem) (tenant : string) (fleet : option string) : ex unit :=
  found ⇐ ask (memory_find_entity_overlap_candidates (mid new) tenant fleet
                 (default "scope_team" (m_visibility new))%string);
  let cs := List.filter (λ c, negb (_subjects_differ_with_certainty (m_subject new) (m_subject c))) found in
  match cs with
  | [] => done_
  | _ =>
      fetched ← fetch_contexts new cs;
      let cs := match fetched with
                | Some ((_ :: _) as new_ctx, contexts) =>
                    List.filter (λ c, negb (other_subject new new_ctx contexts c)) cs
                | _ => cs
                end in
      conflicts ← confirmed (check_candidate new fetched) cs;
      flush tenant (c_updates (attribute_all_c new conflicts))
  end.

Definition detect_contradictions_by_entities_async (memory_id tenant : string) (fleet : option string) :
    detector unit :=
  caught (
    owned ← lock ("contradiction:path_c:" ++ memory_id)%string;
    if owned : bool then
      found ⇐ ask (get_memory memory_id);
      match found with
      | Some m =>
          match m_deleted m with
          | Some _ => done_
          | None =>
              c ⇐ resolve_config tenant;
              retracted ⇐ _attempt_path_c_retraction m c;
              m ⇐ (if retracted : bool then
                     again ⇐ ask (get_memory memory_id);
                     mret (Some match again with
                                | Some m' => match m_deleted m' with None => m' | Some _ => m end
                                | None => m
                                end)
                   else mret (Some m));
              detect_by_overlap m tenant fleet
          end
      | None => done_
      end
    else done_).

(** ** The system: detections among everything else that happens to the
    tables *)
Inductive request : Type :=
| PathA (memory tenant : string) (v : vector)
(** the caller has fetched the row itself *)
| PathAOf (memory tenant : string) (v : vector)
| PathC (memory tenant : string) (fleet : option string).
Definition handler (r : request) : detector unit :=
  match r with
  | PathA id tenant v => detect_contradictions_async id tenant v None
  | PathAOf id tenant v =>
      found ← ask (get_memory id);
      match found with
      | Some (Some m) => detect_contradictions_async id tenant v (Some m)
      | _ => mret tt
      end
  | PathC id tenant fleet => detect_contradictions_by_entities_async id tenant fleet
  end.
End Storage.

(** What other code does: it writes memories, changes anything but the date of
    a row, clears pointers, deletes rows, and the replica catches up. *)
Inductive other_write : Type :=
| Create (id : string) (m : Memory)
| Change (id : string) (f : Memory → Memory)
| Purge (id : string)
| CatchUp.

(** The date of every memory there will ever be: ids are never reused. *)
Section Born.
Context (born : string → Z).
Definition only_clears (m m' : Memory) : bool :=
  bool_decide (supersedes_id m' = None) || bool_decide (supersedes_id m' = supersedes_id m).
Definition others (now : Z) (e : other_write) (s : db) : db :=
  match e with
  | Create id m =>
      if bool_decide (primary s !! id = None) && bool_decide (supersedes_id m = None) && (created_at m =? born id)
      then put (id, m) s else s
  | Change id f =>
      match primary s !! id with
      | Some m => if only_clears m (f m) && (created_at (f m) =? created_at m) then put (id, f m) s else s
      | None => s
      end
  | Purge id =>
      {| primary := (λ m, if bool_decide (supersedes_id m = Some id) then with_pointer m (status m) None else m) <$>
                    delete id (primary s);
         replica := replica s |}
  | CatchUp => {| primary := primary s; replica := primary s |}
  end.
End Born.
(** ** Order of ids *)
Lemma str_lt_irrefl a : str_lt a a = false.
Proof.
  unfold str_lt, String.ltb. destruct (String.compare a a) eqn:Hc; [done| |done].
  pose proof (String.compare_antisym a a) as Ha. rewrite Hc in Ha. discriminate Ha.
Qed.
Lemma str_lt_asym a b : str_lt a b = true → str_lt b a = false.
Proof.
  unfold str_lt, String.ltb. rewrite (String.compare_antisym b a).
  destruct (String.compare a b); [done|done|done].
Qed.
Lemma str_lt_total a b : a ≠ b → str_lt a b = false → str_lt b a = true.
Proof.
  unfold str_lt, String.ltb. rewrite (String.compare_antisym b a).
  destruct (String.compare a b) eqn:Hc; [|done..]. by apply String.compare_eq_iff in Hc.
Qed.
Lemma ascii_compare_N (x y : ascii) : Ascii.compare x y = N.compare (N_of_ascii x) (N_of_ascii y).
Proof. done. Qed.
Lemma ascii_compare_eq (x : ascii) : Ascii.compare x x = Eq.
Proof. apply N.compare_refl. Qed.
Lemma str_lt_trans a b c : str_lt a b = true → str_lt b c = true → str_lt a c = true.
Proof.
  unfold str_lt, String.ltb. revert b c. induction a as [|x a IH]; intros [|y b] [|z c]; cbn; try done.
  destruct (Ascii.compare x y) eqn:Hxy; [|intros _|done].
  - apply Ascii.compare_eq_iff in Hxy. subst y. destruct (Ascii.compare x z) eqn:Hxz; [|done..]. apply IH.
  - destruct (Ascii.compare y z) eqn:Hyz; [|intros _|done].
    + apply Ascii.compare_eq_iff in Hyz. subst z. by rewrite Hxy.
    + rewrite ascii_compare_N in Hxy, Hyz |- *. apply N.compare_lt_iff in Hxy. apply N.compare_lt_iff in Hyz.
      replace (N_of_ascii x ?= N_of_ascii z)%N with Lt; [done|].
      symmetry. apply N.compare_lt_iff. by etrans.
Qed.

(** ** Attribution *)
Lemma pick_older_sym a b : mid a ≠ mid b → _pick_older a b = _pick_older b a.
Proof.
  intros Hne. unfold _pick_older.
  assert (Hid : (if str_lt (mid a) (mid b) then a else if str_lt (mid b) (mid a) then b else a) =
                (if str_lt (mid b) (mid a) then b else if str_lt (mid a) (mid b) then a else b)).
  { destruct (str_lt (mid a) (mid b)) eqn:Hab; [by rewrite (str_lt_asym _ _ Hab)|].
    by rewrite (str_lt_total _ _ Hne Hab). }
  rewrite Hid. destruct (m_created a) as [x|], (m_created b) as [y|]; try done.
  rewrite (Z.eqb_sym y x). destruct (Z.eqb_spec x y); [done|].
  destruct (Z.ltb_spec x y), (Z.ltb_spec y x); [lia|done|done|lia].
Qed.
Lemma pick_older_one a b : _pick_older a b = a ∨ _pick_older a b = b.
Proof. unfold _pick_older. repeat case_match; auto. Qed.

(** The roles of the two rows. *)
Lemma newer_is_new_true new old :
  mid new ≠ mid old → newer_is_new new old = true → _pick_older old new = old ∧ newer_of new old = new.
Proof.
  unfold newer_of. intros Hne Hn. rewrite Hn. split; [|done]. unfold newer_is_new in Hn.
  destruct (pick_older_one old new) as [H|H]; [done|]. rewrite H, String.eqb_refl in Hn. done.
Qed.
Lemma newer_is_new_false new old :
  mid new ≠ mid old → newer_is_new new old = false → _pick_older old new = new ∧ newer_of new old = old.
Proof.
  unfold newer_of. intros Hne Hn. rewrite Hn. split; [|done]. unfold newer_is_new in Hn.
  destruct (pick_older_one old new) as [H|H]; [|done]. rewrite H in Hn.
  apply negb_false_iff, String.eqb_eq in Hn. congruence.
Qed.
Lemma newer_is_new_swap a b : mid a ≠ mid b → newer_is_new a b = negb (newer_is_new b a).
Proof.
  intros Hne. unfold newer_is_new. rewrite (pick_older_sym b a) by done.
  destruct (pick_older_one a b) as [H|H]; rewrite H.
  - rewrite String.eqb_refl. destruct (String.eqb_spec (mid a) (mid b)); done.
  - rewrite String.eqb_refl. destruct (String.eqb_spec (mid b) (mid a)); [congruence|done].
Qed.

(** The updates that a confirmed conflict between two rows leads to do not
    depend on which of the two was just written: the earlier row (by date, or
    by id when a date is missing or they tie) is flagged and the later one is
    linked to it, unless it already supersedes something. *)
Theorem attribution_symmetric flag why why' (a b : mem) (Hids : mid a ≠ mid b) :
  updates (attribute_all flag why a [b]) = updates (attribute_all flag why' b [a]).
Proof.
  unfold attribute_all. cbn [foldl]. unfold attribute.
  rewrite (newer_is_new_swap b a) by done. rewrite (pick_older_sym b a) by done.
  destruct (newer_is_new a b) eqn:Hn; cbn [negb].
  - destruct (newer_is_new_true a b Hids Hn) as [Ho _]. rewrite (pick_older_sym a b) by done. rewrite Ho.
    cbn [supersedes updates newer_of]. unfold newer_of. rewrite (newer_is_new_swap b a), Hn by done. cbn [negb].
    by destruct (is_given (m_supersedes a)).
  - destruct (newer_is_new_false a b Hids Hn) as [Ho Hw]. rewrite (pick_older_sym a b) by done. rewrite Ho, Hw.
    cbn [supersedes updates]. by destruct (is_given (m_supersedes b)).
Qed.

(** What a whole batch comes to, by the roles of its conflicts. *)
Definition first_older (new : mem) (cs : list mem) : option string :=
  mid <$> head (List.filter (newer_is_new new) cs).
Definition some_newer (new : mem) (cs : list mem) : bool := existsb (λ c, negb (newer_is_new new c)) cs.
Definition expected_link (new : mem) (cs : list mem) : option string :=
  if is_given (m_supersedes new) then None else first_older new cs.
Definition expected_new (flag : string) (new : mem) (cs : list mem) : option update :=
  if some_newer new cs then Some {| u_status := flag; u_supersedes := expected_link new cs |}
  else match expected_link new cs with
       | Some o => Some {| u_status := m_status new; u_supersedes := Some o |}
       | None => None
       end.
Definition expected_of (flag : string) (new c : mem) : option update :=
  if newer_is_new new c then Some {| u_status := flag; u_supersedes := None |}
  else if is_given (m_supersedes c) then None
  else Some {| u_status := m_status c; u_supersedes := Some (mid new) |}.
Definition expected (flag : string) (new : mem) (cs : list mem) (id : string) : option update :=
  if String.eqb id (mid new) then expected_new flag new cs
  else match List.find (λ c, String.eqb id (mid c)) cs with
       | Some c => expected_of flag new c
       | None => None
       end.

Definition info_of (flag why : string) (new c : mem) : ContradictionInfo :=
  {| old_memory_id := mid c; old_status := if newer_is_new new c then flag else m_status c;
     reason := why; old_content_preview := char_take 200 (m_content c);
     info_direction := if newer_is_new new c then Canonical else Flipped |}.

Lemma dget_merge acc id u id' :
  dget (_merge_status_update acc id u) id' =
  if String.eqb id id' then
    Some (match dget acc id with Some old => merge_update old u | None => u end)
  else dget acc id'.
Proof.
  unfold _merge_status_update. destruct (String.eqb_spec id id') as [<-|Hne].
  - destruct (dget acc id); by rewrite dget_dset.
  - destruct (dget acc id); by rewrite dget_dset_ne.
Qed.

Lemma find_app {A} (f : A → bool) l l' :
  List.find f (l ++ l') = match List.find f l with Some x => Some x | None => List.find f l' end.
Proof. induction l as [|x l IH]; [done|]. cbn. by destruct (f x). Qed.
Lemma find_mid_None cs id : id ∉ mid <$> cs → List.find (λ c, String.eqb id (mid c)) cs = None.
Proof.
  induction cs as [|c cs IH]; [done|]. cbn. rewrite not_elem_of_cons. intros [Hne Hin].
  destruct (String.eqb_spec id (mid c)); [done|auto].
Qed.
Lemma head_app {A} (l l' : list A) : head (l ++ l') = match head l with Some x => Some x | None => head l' end.
Proof. by destruct l. Qed.

Lemma first_older_snoc new cs c :
  first_older new (cs ++ [c]) =
  match first_older new cs with Some o => Some o | None => if newer_is_new new c then Some (mid c) else None end.
Proof.
  unfold first_older. rewrite List.filter_app, head_app. destruct (head _); [done|]. cbn.
  by destruct (newer_is_new new c).
Qed.
Lemma first_older_given new cs o :
  Forall (λ c, mid c ≠ EmptyString) cs → first_older new cs = Some o → o ≠ EmptyString.
Proof.
  unfold first_older. induction cs as [|c cs IH]; [done|]. intros Hcs. apply Forall_cons in Hcs as [Hc Hcs].
  cbn. destruct (newer_is_new new c); [|by apply IH]. cbn. by intros [= <-].
Qed.
Lemma is_given_Some o : o ≠ EmptyString → is_given (Some o) = true.
Proof. by destruct o. Qed.

Lemma attribute_all_snoc flag why new cs c :
  attribute_all flag why new (cs ++ [c]) = attribute flag why new (attribute_all flag why new cs) c.
Proof. unfold attribute_all. by rewrite foldl_app. Qed.

Lemma attribute_contradictions flag why new st c :
  contradictions (attribute flag why new st c) = contradictions st ++ [info_of flag why new c].
Proof.
  unfold attribute, info_of. destruct (newer_is_new new c); [|done]. by destruct (is_given (supersedes st)).
Qed.
Lemma attribute_outdated flag why new st c :
  new_memory_is_outdated (attribute flag why new st c) =
  new_memory_is_outdated st || negb (newer_is_new new c).
Proof.
  unfold attribute. destruct (newer_is_new new c); cbn [negb]; rewrite ?orb_false_r, ?orb_true_r; [|done].
  by destruct (is_given (supersedes st)).
Qed.
Lemma attribute_supersedes flag why new st c :
  mid new ≠ mid c →
  supersedes (attribute flag why new st c) =
  if newer_is_new new c && negb (is_given (supersedes st)) then Some (mid c) else supersedes st.
Proof.
  intros Hne. unfold attribute. destruct (newer_is_new new c) eqn:Hn; [|done].
  destruct (newer_is_new_true new c Hne Hn) as [Hp _]. rewrite Hp.
  by destruct (is_given (supersedes st)).
Qed.
Ltac by_ids :=
  repeat match goal with
    | |- context [String.eqb ?x ?y] => destruct (String.eqb_spec x y); subst; try congruence
    end; auto.
Lemma attribute_updates flag why new st c id :
  mid new ≠ mid c → dget (updates st) (mid c) = None →
  dget (updates (attribute flag why new st c)) id =
  if String.eqb id (mid c) then expected_of flag new c
  else if String.eqb id (mid new) then
    let old := dget (updates st) (mid new) in
    let put u := Some (match old with Some o => merge_update o u | None => u end) in
    if newer_is_new new c then
      if is_given (supersedes st) then old
      else put {| u_status := if new_memory_is_outdated st then flag else m_status new;
                  u_supersedes := Some (mid c) |}
    else put {| u_status := flag; u_supersedes := None |}
  else dget (updates st) id.
Proof.
  intros Hne Hc. unfold attribute, expected_of. rewrite (String.eqb_sym id (mid c)), (String.eqb_sym id (mid new)).
  destruct (newer_is_new new c) eqn:Hn.
  - destruct (newer_is_new_true new c Hne Hn) as [Hp _]. rewrite Hp.
    destruct (is_given (supersedes st)); cbn [updates]; rewrite !dget_merge, ?Hc; by_ids.
  - destruct (newer_is_new_false new c Hne Hn) as [Hp Hw]. rewrite Hp, Hw.
    destruct (is_given (m_supersedes c)); cbn [updates]; rewrite !dget_merge, ?Hc; by_ids.
Qed.

(** The local variables of the loop. *)
Lemma attribute_all_locals flag why new cs :
  Forall (λ c, mid c ≠ EmptyString) cs → Forall (λ c, mid new ≠ mid c) cs →
  let st := attribute_all flag why new cs in
  supersedes st = (if is_given (m_supersedes new) then m_supersedes new
                   else match first_older new cs with Some o => Some o | None => m_supersedes new end) ∧
  new_memory_is_outdated st = some_newer new cs ∧
  contradictions st = info_of flag why new <$> cs.
Proof.
  intros He Hne. induction cs as [|c cs IH] using rev_ind.
  { cbn. destruct (is_given _); done. }
  apply Forall_app in He as [He Hc], Hne as [Hne Hnc].
  apply Forall_cons in Hc as [Hc _], Hnc as [Hnc _].
  specialize (IH He Hne). cbn zeta in IH |- *. destruct IH as (Hs & Ho & Hi).
  rewrite attribute_all_snoc, first_older_snoc, fmap_app, attribute_contradictions, attribute_outdated,
    attribute_supersedes, Hs, Ho, Hi by done.
  split_and!; [|unfold some_newer; rewrite existsb_app; cbn; by rewrite orb_false_r|done].
  destruct (is_given (m_supersedes new)) eqn:Hg; [by rewrite Hg, andb_false_r|].
  destruct (first_older new cs) as [o|] eqn:Hf.
  - rewrite is_given_Some by (by eapply first_older_given). by rewrite andb_false_r.
  - rewrite Hg, andb_true_r. by destruct (newer_is_new new c).
Qed.

Lemma expected_snoc flag new cs c id :
  mid new ≠ mid c → mid c ∉ mid <$> cs →
  expected flag new (cs ++ [c]) id =
  if String.eqb id (mid c) then expected_of flag new c
  else if String.eqb id (mid new) then expected_new flag new (cs ++ [c])
  else expected flag new cs id.
Proof.
  intros Hne Hin. unfold expected.
  destruct (String.eqb_spec id (mid new)) as [->|Hid].
  - destruct (String.eqb_spec (mid new) (mid c)); [congruence|done].
  - rewrite find_app. destruct (String.eqb_spec id (mid c)) as [->|Hc].
    + rewrite find_mid_None by done. cbn. by rewrite String.eqb_refl.
    + destruct (List.find _ cs); [done|]. cbn. destruct (String.eqb_spec id (mid c)); done.
Qed.
Lemma some_newer_snoc new cs c : some_newer new (cs ++ [c]) = some_newer new cs || negb (newer_is_new new c).
Proof. unfold some_newer. rewrite existsb_app. cbn. by rewrite orb_false_r. Qed.
Lemma expected_new_snoc flag new cs c :
  expected_new flag new (cs ++ [c]) =
  if newer_is_new new c then
    match expected_link new cs, expected_link new (cs ++ [c]) with
    | None, Some o => Some {| u_status := if some_newer new cs then flag else m_status new; u_supersedes := Some o |}
    | _, _ => expected_new flag new cs
    end
  else Some {| u_status := flag; u_supersedes := expected_link new cs |}.
Proof.
  unfold expected_new, expected_link. rewrite some_newer_snoc, first_older_snoc.
  destruct (newer_is_new new c); cbn [negb]; rewrite ?orb_false_r, ?orb_true_r.
  - destruct (is_given _); [by destruct (some_newer new cs)|].
    destruct (first_older new cs); by destruct (some_newer new cs).
  - destruct (is_given _); [done|]. by destruct (first_older new cs).
Qed.
Lemma expected_mid flag new cs c :
  mid new ≠ mid c → mid c ∉ mid <$> cs → expected flag new cs (mid c) = None.
Proof.
  intros Hne Hin. unfold expected. destruct (String.eqb_spec (mid c) (mid new)); [congruence|].
  by rewrite find_mid_None.
Qed.
Lemma expected_self flag new cs : expected flag new cs (mid new) = expected_new flag new cs.
Proof. unfold expected. by rewrite String.eqb_refl. Qed.

(** C14. The writes of one detection, for any confirmed conflicts with distinct
    ids, in any mixture of older and newer rows: every older row is flagged;
    every newer one is linked to the new memory unless it supersedes something
    already; the new memory is flagged if any conflict is newer, keeps its
    status otherwise, and is linked to the first older one unless it had a
    link; nothing else is written, and every conflict is reported with its
    direction. *)
Theorem attribute_all_spec flag why (new : mem) (cs : list mem)
    (Hids : NoDup (mid <$> new :: cs)) (Hgiven : Forall (λ c, mid c ≠ EmptyString) cs) :
  (∀ id, dget (updates (attribute_all flag why new cs)) id = expected flag new cs id) ∧
  contradictions (attribute_all flag why new cs) = info_of flag why new <$> cs.
Proof.
  rewrite fmap_cons in Hids. apply NoDup_cons in Hids as [Hnew Hids].
  assert (Hne : Forall (λ c, mid new ≠ mid c) cs).
  { apply Forall_forall. intros c Hc He. apply Hnew. rewrite He. by apply list_elem_of_fmap_2. }
  split; [|by apply attribute_all_locals].
  clear Hnew. induction cs as [|c cs IH] using rev_ind; intros id.
  { unfold expected, expected_new, expected_link. cbn. cbn. by destruct (String.eqb id (mid new)), (is_given (m_supersedes new)). }
  rewrite fmap_app in Hids. apply NoDup_app in Hids as (Hids & Hc & _).
  apply Forall_app in Hgiven as [Hgiven _], Hne as [Hne Hnc]. apply Forall_cons in Hnc as [Hnc _].
  assert (Hin : mid c ∉ mid <$> cs) by (intros Hin; by apply (Hc _ Hin), list_elem_of_singleton).
  specialize (IH Hids Hgiven Hne).
  destruct (attribute_all_locals flag why new cs Hgiven Hne) as (Hs & Ho & _).
  rewrite attribute_all_snoc, expected_snoc, attribute_updates by (done || by rewrite IH, expected_mid).
  destruct (String.eqb id (mid c)); [done|]. destruct (String.eqb id (mid new)); [|apply IH].
  cbn zeta. rewrite IH, expected_self, expected_new_snoc, Hs, Ho.
  destruct (newer_is_new new c) eqn:Hn; unfold expected_new.
  - unfold expected_link. rewrite first_older_snoc, Hn.
    destruct (is_given (m_supersedes new)) eqn:Hg; [by rewrite Hg; destruct (some_newer new cs)|].
    destruct (first_older new cs) as [o|] eqn:Hf.
    + rewrite is_given_Some by (by eapply first_older_given). by destruct (some_newer new cs).
    + rewrite Hg. by destruct (some_newer new cs).
  - by destruct (some_newer new cs), (expected_link new cs).
Qed.

(** ** Chains end *)
Section Chains.
Context `{PyText}.
Context (any_order : list mem → list mem).
Context (nearest : vector → list mem → list mem).
Context (overlapping : string → list mem → list mem).
Context (any_order_in : ∀ l c, c ∈ any_order l → c ∈ l).
Context (nearest_in : ∀ v l c, c ∈ nearest v l → c ∈ l).
Context (overlapping_in : ∀ i l c, c ∈ overlapping i l → c ∈ l).
Context (born : string → Z).

(** The order of attribution, on ids. *)
Definition before (a b : string) : Prop :=
  born a < born b ∨ (born a = born b ∧ str_lt a b = true).
Lemma before_irrefl a : ¬ before a a.
Proof. intros [Hl|[_ Hl]]; [lia|]. by rewrite str_lt_irrefl in Hl. Qed.
Lemma before_trans a b c : before a b → before b c → before a c.
Proof.
  intros [H1|[H1 L1]] [H2|[H2 L2]]; [left; lia..|]. right. split; [lia|]. by eapply str_lt_trans.
Qed.

Definition row_ok (id : string) (m : Memory) : Prop :=
  created_at m = born id ∧ ∀ o, supersedes_id m = Some o → before o id.
Definition tables_ok (l : log write action answer) (s : db) : Prop :=
  map_Forall row_ok (primary s) ∧ map_Forall row_ok (replica s).
Definition dated (c : mem) : Prop := m_created c = Some (born (mid c)).
Definition update_ok (e : string * update) : Prop := ∀ o, u_supersedes e.2 = Some o → before o e.1.

(** *** What a detection sends *)
Lemma attribution_before new old :
  dated new → dated old → mid new ≠ mid old → before (mid (_pick_older old new)) (mid (newer_of new old)).
Proof.
  unfold dated. intros Hn Ho Hne. assert (Hne' : mid old ≠ mid new) by congruence.
  destruct (newer_is_new new old) eqn:Hw.
  - destruct (newer_is_new_true new old Hne Hw) as [Hp Hv]. rewrite Hp, Hv. revert Hp.
    unfold _pick_older. rewrite Hn, Ho.
    destruct (Z.eqb_spec (born (mid old)) (born (mid new))) as [He|He].
    + destruct (str_lt (mid old) (mid new)) eqn:Hs; [by right|].
      rewrite (str_lt_total _ _ Hne' Hs). intros Hp. by rewrite Hp in Hne.
    + destruct (Z.ltb_spec (born (mid old)) (born (mid new))); [by left|].
      intros Hp. by rewrite Hp in Hne.
  - destruct (newer_is_new_false new old Hne Hw) as [Hp Hv]. rewrite Hp, Hv. revert Hp.
    unfold _pick_older. rewrite Hn, Ho.
    destruct (Z.eqb_spec (born (mid old)) (born (mid new))) as [He|He].
    + destruct (str_lt (mid old) (mid new)) eqn:Hs; [intros Hp; by rewrite Hp in Hne|].
      intros _. right. split; [done|]. by apply str_lt_total.
    + destruct (Z.ltb_spec (born (mid old)) (born (mid new))); [intros Hp; by rewrite Hp in Hne|].
      left. lia.
Qed.

Lemma dset_Forall {V} (P : string * V → Prop) d k v :
  Forall P d → P (k, v) → Forall P (dset d k v).
Proof.
  intros Hd Hv. induction d as [|[k' v'] d IH]; cbn; [by constructor|].
  apply Forall_cons in Hd as [Hh Hd]. destruct (String.eqb_spec k k') as [<-|]; constructor; auto.
Qed.
Lemma merge_ok acc id u :
  Forall update_ok acc → update_ok (id, u) → Forall update_ok (_merge_status_update acc id u).
Proof.
  intros Ha Hu. unfold _merge_status_update. destruct (dget acc id) as [old|] eqn:Ho; apply dset_Forall; try done.
  apply dget_Some in Ho. pose proof (proj1 (Forall_forall _ _) Ha _ Ho) as Hold.
  intros o. unfold merge_update. cbn. destruct (u_supersedes u) eqn:Hs; [intros [= <-]; by apply Hu|apply Hold].
Qed.
Lemma status_ok id s : update_ok (id, {| u_status := s; u_supersedes := None |}).
Proof. by intros o. Qed.

Section Attribute.
Context (new : mem) (new_dated : dated new).
Definition candidate (c : mem) : Prop := dated c ∧ mid new ≠ mid c.

Lemma link_ok c s : candidate c → update_ok (mid (newer_of new c), {| u_status := s; u_supersedes := Some (mid (_pick_older c new)) |}).
Proof. intros [Hc Hne] o [= <-]. by apply attribution_before. Qed.
Lemma link_new_ok c s : candidate c → newer_is_new new c = true →
  update_ok (mid new, {| u_status := s; u_supersedes := Some (mid (_pick_older c new)) |}).
Proof.
  intros Hc Hw. pose proof (link_ok c s Hc) as Hl.
  by rewrite (proj2 (newer_is_new_true new c (proj2 Hc) Hw)) in Hl.
Qed.

Lemma attribute_ok flag why st c :
  candidate c → Forall update_ok (updates st) → Forall update_ok (updates (attribute flag why new st c)).
Proof.
  intros Hc Hu. unfold attribute.
  destruct (newer_is_new new c) eqn:Hw; [destruct (is_given (supersedes st))|destruct (is_given _)]; cbn [updates];
    repeat apply merge_ok; try done; try apply status_ok; [by apply link_new_ok|by apply link_ok].
Qed.
Lemma attribute_all_ok flag why cs :
  Forall candidate cs → Forall update_ok (updates (attribute_all flag why new cs)).
Proof.
  induction cs as [|c cs IH] using rev_ind; [constructor|].
  rewrite attribute_all_snoc, Forall_app, Forall_singleton. intros [Hcs Hc]. apply attribute_ok; auto.
Qed.
Lemma attribute_all_c_ok cs :
  Forall candidate cs → Forall update_ok (c_updates (attribute_all_c new cs)).
Proof.
  unfold attribute_all_c. induction cs as [|c cs IH] using rev_ind; [constructor|].
  rewrite foldl_app, Forall_app, Forall_singleton. intros [Hcs Hc]. cbn. specialize (IH Hcs).
  destruct (c_found _); [apply merge_ok; [done|apply status_ok]|].
  destruct (newer_is_new new c) eqn:Hw; [|destruct (is_given _)];
    repeat apply merge_ok; try done; try apply status_ok; [by apply link_new_ok|by apply link_ok].
Qed.
End Attribute.

(** *** What a detection does, whatever the others do *)
Abbreviation detector := (prog db write action answer).
Abbreviation ex A := (detector (option A)).
Definition safe {A} (p : detector A) (P : A → Prop) : Prop :=
  ∀ tid acts l, wp put tables_ok tid p acts l (λ a _ _, P a).
Definition safe_tx {A} (p : tx db write A) : Prop := ∀ tid l, wptx put tables_ok tid p l (λ _ _, True).
Definition if_some {A} (P : A → Prop) (o : option A) : Prop := ∀ a, o = Some a → P a.
Abbreviation anything := (λ _, True).

Lemma safe_ret {A} (a : A) (P : A → Prop) : P a → safe (mret a) P.
Proof. intros Ha tid acts l. by apply wp_ret. Qed.
Lemma safe_bind {A B} (p : detector A) (f : A → detector B) (R : A → Prop) (P : B → Prop) :
  safe p R → (∀ a, R a → safe (f a) P) → safe (p ≫= f) P.
Proof.
  intros Hp Hf tid acts l. apply wp_bind. eapply wp_impl; [|apply Hp]. intros a ac' l' _ Ha. by apply Hf.
Qed.
Lemma safe_weaken {A} (p : detector A) (R P : A → Prop) : (∀ a, R a → P a) → safe p R → safe p P.
Proof. intros Hi Hp tid acts l. eapply wp_impl; [|apply Hp]. intros; by apply Hi. Qed.
Lemma safe_ex_bind {A B} (m : ex A) (f : A → ex B) (R : A → Prop) (P : B → Prop) :
  safe m (if_some R) → (∀ a, R a → safe (f a) (if_some P)) → safe (ex_bind m f) (if_some P).
Proof.
  intros Hm Hf. eapply safe_bind; [exact Hm|]. intros [a|] Ha; [by apply Hf, Ha|by apply safe_ret].
Qed.
Lemma safe_some {A} (a : A) (P : A → Prop) : P a → safe (mret (Some a)) (if_some P).
Proof. intros Ha. apply safe_ret. by intros a' [= <-]. Qed.
Lemma safe_none {A} (P : A → Prop) : safe (mret None) (if_some P).
Proof. by apply safe_ret. Qed.
Lemma if_anything {A} (o : option A) : if_some anything o.
Proof. done. Qed.

Lemma safe_perform act : safe (perform act) anything.
Proof. intros tid acts l. apply wp_perform. intros l' t ans _ Ht. by split. Qed.
(** A call: what it answers matters only where it is asked for. *)
Lemma safe_http {A} (server : tx db write A) : safe_tx server → safe (http server) anything.
Proof.
  intros Hs tid acts l. split; [eapply wptx_impl; [|apply Hs]; done|]. intros l' t _ Ht. by split.
Qed.
Lemma safe_ask {A} (q : db → A) (P : A → Prop) :
  (∀ s, map_Forall row_ok (replica s) → P (q s)) → safe (ask q) (if_some P).
Proof.
  intros Hq tid acts l. split.
  - intros l' t Hl Ht. cbn. split; [done|]. intros l'' _ l3 _ a [= <-]. apply Hq, Ht.
  - intros l' t Hl Ht. split; [done|]. by intros l'' _.
Qed.

Lemma safe_tx_bind {A B} (p : tx db write A) (f : A → tx db write B) :
  safe_tx p → (∀ a, safe_tx (f a)) → safe_tx (p ≫= f).
Proof. intros Hp Hf tid l. apply wptx_bind. eapply wptx_impl; [|apply Hp]. intros; apply Hf. Qed.
Lemma safe_tx_ret {A} (a : A) : safe_tx (mret a).
Proof. by intros tid l l'. Qed.

Lemma put_ok l s id m : tables_ok l s → row_ok id m → tables_ok l (put (id, m) s).
Proof. intros [Hp Hr] Hm. split; [|done]. by apply map_Forall_insert_2. Qed.

(** An update that keeps the date, and leaves or clears the pointer or sets it
    to an earlier row. *)
Lemma update_row_ok tenant id guard f :
  (∀ m, created_at (f m) = created_at m) →
  (∀ m o, supersedes_id (f m) = Some o → supersedes_id m = Some o ∨ before o id) →
  safe_tx (tsql (update_row tenant id guard f)).
Proof.
  intros Hc Hs tid l l' t Hl Ht. unfold update_row.
  destruct (primary t !! id) as [m|] eqn:Hm; cbn; [|by split; [|intros]].
  destruct (String.eqb (tenant_id m) tenant && guard m); cbn; [|by split; [|intros]].
  split; [|done]. destruct (proj1 Ht _ _ Hm) as [Hd Hp].
  apply put_ok; [exact Ht|]. split; [by rewrite Hc|]. intros o Ho. destruct (Hs m o Ho); auto.
Qed.

Lemma memory_update_status_ok tenant id st sup unset e :
  (∀ o, sup = Some o → before o id) → safe_tx (memory_update_status tenant id st sup unset e).
Proof.
  intros Hs. apply update_row_ok; [done|]. intros m o. cbn. destruct unset; [done|].
  destruct sup; [|auto]. intros [= <-]. auto.
Qed.
Lemma update_each_ok tenant ups : Forall update_ok ups → safe_tx (update_each tenant ups).
Proof.
  induction ups as [|[id u] ups IH]; cbn [update_each]; [intros _; apply safe_tx_ret|].
  intros Hu. apply Forall_cons in Hu as [Hh Hu]. apply safe_tx_bind; [by apply memory_update_status_ok, Hh|].
  intros ok. apply safe_tx_bind; [auto|]. intros sk. apply safe_tx_ret.
Qed.
Lemma batch_ok tenant ups : Forall update_ok ups → safe_tx (batch_update_status tenant ups).
Proof.
  intros Hu. unfold batch_update_status. destruct (String.eqb tenant ""); [apply safe_tx_ret|].
  apply safe_tx_bind; [by apply update_each_ok|]. intros sk. apply safe_tx_ret.
Qed.
Lemma clear_pointer_ok tenant id st e : safe_tx (clear_pointer tenant id st e).
Proof.
  apply safe_tx_bind; [by apply update_row_ok|]. intros ok. apply safe_tx_ret.
Qed.
Lemma set_status_ok tenant id st : safe_tx (set_status tenant id st None).
Proof.
  apply safe_tx_bind; [by apply memory_update_status_ok|]. intros []; apply safe_tx_ret.
Qed.

(** The candidates of a query. *)
Lemma orm_dated id m : row_ok id m → dated (orm_to_dict id m).
Proof. intros [Hd _]. unfold dated. cbn. by rewrite Hd. Qed.
Lemma rows_ok sel t c (new : mem) :
  map_Forall row_ok t → (∀ i m, sel i m = true → String.eqb i (mid new) = false) →
  c ∈ rows sel t → candidate new c.
Proof.
  intros Ht Hsel. unfold rows. rewrite list_elem_of_fmap. intros ([i m] & -> & Hin).
  apply list_elem_of_In, filter_In in Hin as [Hin Hs]. apply list_elem_of_In, elem_of_map_to_list in Hin.
  split; [by apply orm_dated, Ht|]. cbn in *. apply Hsel, String.eqb_neq in Hs. congruence.
Qed.
Lemma candidate_row_ne tenant memory_id i m : candidate_row tenant memory_id i m = true → String.eqb i memory_id = false.
Proof. unfold candidate_row. rewrite !andb_true_iff, negb_true_iff. tauto. Qed.

(** *** The detections *)
Lemma flush_safe tenant ups : Forall update_ok ups → safe (flush tenant ups) (if_some anything).
Proof.
  intros Hu. destruct ups as [|u ups]; [by apply safe_some|].
  eapply safe_ex_bind; [|intros [sk|] _; [by apply safe_some|by apply safe_none]]. eapply safe_weaken; [|by apply safe_http, batch_ok]. intros; apply if_anything.
Qed.
Lemma confirmed_safe check cs (P : mem → Prop) :
  Forall P cs → (∀ c, safe (check c) anything) → safe (confirmed check cs) (Forall P).
Proof.
  intros Hcs Hc. induction cs as [|c cs IH]; [by apply safe_ret|].
  apply Forall_cons in Hcs as [Hh Hcs]. cbn [confirmed]. eapply safe_bind; [apply Hc|]. intros r _.
  eapply safe_bind; [by apply IH|]. intros rest Hr. apply safe_ret.
  destruct r as [[[] ?]|]; [by constructor|done..].
Qed.
Lemma check_safe a b : safe (_llm_contradiction_check a b) anything.
Proof. eapply safe_bind; [apply safe_perform|]. intros; by apply safe_ret. Qed.
Lemma check_aware_safe a b es es' : safe (_llm_entity_aware_contradiction_check a b es es') anything.
Proof. eapply safe_bind; [apply safe_perform|]. intros; by apply safe_ret. Qed.

Lemma detect_rdf_safe new : dated new → safe (detect_rdf any_order new) (if_some anything).
Proof.
  intros Hd. unfold detect_rdf. do 3 (case_match; [|by apply safe_some]). case_match; [|by apply safe_some].
  eapply safe_ex_bind.
  - apply (safe_ask _ (Forall (candidate new))). intros t Ht. apply Forall_forall. intros c Hc.
    apply any_order_in in Hc. eapply rows_ok; [exact Ht| |exact Hc]. intros i m. rewrite !andb_true_iff.
    intros [[[[Hr _] _] _] _]. by eapply candidate_row_ne.
  - intros cs Hcs. eapply safe_ex_bind; [by apply flush_safe, attribute_all_ok|]. intros _ _. by apply safe_some.
Qed.
Lemma detect_semantic_safe new v : dated new → safe (detect_semantic nearest new v) (if_some anything).
Proof.
  intros Hd. unfold detect_semantic. eapply safe_ex_bind.
  - apply (safe_ask _ (Forall (candidate new))). intros t Ht. apply Forall_forall. intros c Hc.
    apply nearest_in in Hc. eapply rows_ok; [exact Ht| |exact Hc]. intros i m. rewrite !andb_true_iff.
    intros [[[Hr _] _] _]. by eapply candidate_row_ne.
  - intros cs Hcs. eapply safe_bind; [by apply confirmed_safe; [exact Hcs|intros; apply check_safe]|].
    intros conf Hconf. eapply safe_ex_bind; [by apply flush_safe, attribute_all_ok|]. intros _ _. by apply safe_some.
Qed.
Lemma detect_safe new v : dated new → safe (_detect any_order nearest new v) (if_some anything).
Proof.
  intros Hd. eapply safe_ex_bind; [by apply detect_rdf_safe|]. intros [|] _; [by apply detect_semantic_safe|by apply safe_some].
Qed.

Lemma caught_safe {A} (m : ex A) : safe m (if_some anything) → safe (caught m) anything.
Proof. intros Hm. eapply safe_bind; [exact Hm|]. intros; by apply safe_ret. Qed.
Lemma lock_safe key : safe (lock key) anything.
Proof. eapply safe_bind; [apply safe_perform|]. intros; by apply safe_ret. Qed.
Lemma resolve_config_safe tenant : safe (resolve_config tenant) (if_some anything).
Proof. eapply safe_bind; [apply safe_perform|]. intros; by apply safe_ret. Qed.
Lemma get_memory_safe id : safe (ask (get_memory id)) (if_some (if_some (λ m, dated m ∧ mid m = id))).
Proof.
  apply safe_ask. intros s Hs m. unfold get_memory. rewrite fmap_Some. intros (r & Hr & ->).
  split; [by apply orm_dated, Hs|done].
Qed.

Lemma path_a_safe id tenant v new :
  if_some dated new → safe (detect_contradictions_async any_order nearest id tenant v new) anything.
Proof.
  intros Hn. apply caught_safe. eapply safe_bind; [apply lock_safe|]. intros [] _; [|by apply safe_some].
  eapply (safe_ex_bind _ _ (if_some dated)).
  - destruct new as [m|]; [by apply safe_some|]. eapply safe_weaken; [|apply get_memory_safe].
    intros o Ho f Hf m Hm. by apply (Ho f Hf m).
  - intros [m|] Hm; [|by apply safe_some]. destruct (m_deleted m); [by apply safe_some|].
    eapply safe_ex_bind; [apply resolve_config_safe|]. intros _ _.
    eapply safe_ex_bind; [by apply detect_safe, Hm|]. intros _ _. by apply safe_some.
Qed.

Lemma hydrate_safe ls : safe (hydrate ls) anything.
Proof.
  induction ls as [|l ls IH]; [by apply safe_ret|]. cbn [hydrate]. eapply (safe_bind _ _ anything).
  - destruct (given (link_entity l)); [|by apply safe_ret].
    eapply safe_bind; [apply safe_perform|]. intros; by apply safe_ret.
  - intros here _. eapply safe_bind; [exact IH|]. intros; by apply safe_ret.
Qed.
Lemma fetch_context_safe id : safe (_fetch_entity_context id) anything.
Proof.
  eapply safe_bind; [apply safe_perform|]. intros [] _; try (by apply safe_ret). apply hydrate_safe.
Qed.
Lemma fetch_in_time_safe ids : safe (fetch_in_time ids) anything.
Proof.
  eapply (safe_bind _ _ anything).
  - induction ids as [|id ids IH]; [by apply safe_ret|]. cbn [fetch_all].
    eapply safe_bind; [apply fetch_context_safe|]. intros c _. eapply safe_bind; [exact IH|]. intros; by apply safe_ret.
  - intros cs _. eapply safe_bind; [apply safe_perform|]. intros; by apply safe_ret.
Qed.
Lemma patch_status_safe server : safe_tx server → safe (patch_status server) (if_some anything).
Proof. intros Hs. eapply safe_bind; [by apply safe_http|]. intros; by apply safe_ret. Qed.

Lemma retract_safe new c : safe (retract new c) (if_some anything).
Proof.
  unfold retract. destruct (_ || _); [by apply safe_none|].
  eapply safe_ex_bind; [apply patch_status_safe, set_status_ok|]. intros _ _.
  eapply safe_bind; [apply patch_status_safe, clear_pointer_ok|]. intros _ _. by apply safe_some.
Qed.
Lemma retraction_safe new c : safe (_attempt_path_c_retraction new c) (if_some anything).
Proof.
  unfold _attempt_path_c_retraction. destruct (negb _); [by apply safe_some|].
  destruct (given (m_supersedes new)) as [target|]; [|by apply safe_some].
  eapply safe_ex_bind; [apply get_memory_safe|]. intros [m|] _; [|by apply safe_some].
  destruct (_ && _); [|by apply safe_some].
  eapply safe_bind; [apply fetch_in_time_safe|]. intros fetched _.
  repeat case_match; try (by apply safe_some).
  eapply safe_bind; [apply check_aware_safe|]. intros r _. destruct (retracts r); [apply retract_safe|by apply safe_some].
Qed.

Lemma fetch_contexts_safe new cs : safe (fetch_contexts new cs) anything.
Proof.
  unfold fetch_contexts. destruct (too_many new cs); [by apply safe_ret|].
  eapply safe_bind; [apply fetch_in_time_safe|]. intros; by apply safe_ret.
Qed.
Lemma check_candidate_safe new fetched c : safe (check_candidate new fetched c) anything.
Proof.
  unfold check_candidate. repeat case_match; try apply check_safe. apply check_aware_safe.
Qed.
Lemma Forall_lfilter {A} (P : A → Prop) f l : Forall P l → Forall P (List.filter f l).
Proof.
  intros Hl. apply Forall_forall. intros x Hx. apply list_elem_of_In, filter_In in Hx as [Hx _].
  by apply (proj1 (Forall_forall _ _) Hl), list_elem_of_In.
Qed.
Lemma by_overlap_safe new tenant fleet :
  dated new → safe (detect_by_overlap overlapping new tenant fleet) (if_some anything).
Proof.
  intros Hd. unfold detect_by_overlap. eapply safe_ex_bind.
  - apply (safe_ask _ (Forall (candidate new))). intros t Ht. apply Forall_forall. intros c Hc.
    apply overlapping_in in Hc. eapply rows_ok; [exact Ht| |exact Hc]. intros i m. rewrite !andb_true_iff.
    intros [[Hr _] _]. by eapply candidate_row_ne.
  - intros found Hfound. cbv zeta. set (cs := List.filter _ found).
    assert (Hcs : Forall (candidate new) cs) by by apply Forall_lfilter.
    clearbody cs. destruct cs as [|c0 cs0]; [by apply safe_some|]. revert Hcs. generalize (c0 :: cs0). intros cs Hcs.
    eapply safe_bind; [apply fetch_contexts_safe|]. intros fetched _.
    eapply (safe_bind _ _ (Forall (candidate new))).
    + apply confirmed_safe; [|intros; apply check_candidate_safe].
      repeat case_match; try done. by apply Forall_lfilter.
    + intros conf Hconf. by apply flush_safe, attribute_all_c_ok.
Qed.
Lemma path_c_safe id tenant fleet :
  safe (detect_contradictions_by_entities_async overlapping id tenant fleet) anything.
Proof.
  apply caught_safe. eapply safe_bind; [apply lock_safe|]. intros [] _; [|by apply safe_some].
  eapply safe_ex_bind; [apply get_memory_safe|]. intros [m|] Hm; [|by apply safe_some].
  destruct (m_deleted m) eqn:Hdel; [by apply safe_some|]. destruct (Hm m eq_refl) as [Hd _].
  eapply safe_ex_bind; [apply resolve_config_safe|]. intros c _.
  eapply safe_ex_bind; [apply retraction_safe|]. intros retracted _.
  eapply (safe_ex_bind _ _ dated).
  - destruct retracted; [|by apply safe_some]. eapply safe_ex_bind; [apply get_memory_safe|].
    intros [m'|] Hm'; [|by apply safe_some]. apply safe_some. destruct (m_deleted m'); [done|].
    by destruct (Hm' m' eq_refl).
  - intros m' Hm'. by apply by_overlap_safe.
Qed.

Lemma handler_safe r : safe (handler any_order nearest overlapping r) anything.
Proof.
  destruct r as [id tenant v|id tenant v|id tenant fleet]; cbn [handler]; [by apply path_a_safe| |apply path_c_safe].
  eapply safe_bind; [apply get_memory_safe|]. intros [[m|]|] Hm; [|by apply safe_ret..].
  apply path_a_safe. intros m' [= <-]. by destruct (Hm _ eq_refl m eq_refl).
Qed.

Lemma others_ok l now e s : tables_ok l s → tables_ok l (others born now e s).
Proof.
  intros [Hp Hr]. destruct e as [id m|id f|id|]; cbn.
  - destruct (_ && _) eqn:Hc; [|by split]. apply andb_true_iff in Hc as [Hc Hd].
    apply andb_true_iff in Hc as [_ Hs]. apply bool_decide_eq_true in Hs. apply Z.eqb_eq in Hd.
    apply (put_ok l s); [by split|]. split; [done|]. by rewrite Hs.
  - destruct (primary s !! id) as [m|] eqn:Hm; [|by split]. destruct (_ && _) eqn:Hc; [|by split].
    apply andb_true_iff in Hc as [Hs Hd]. apply Z.eqb_eq in Hd. destruct (Hp _ _ Hm) as [Hb Ho].
    apply (put_ok l s); [by split|]. split; [congruence|]. intros o. unfold only_clears in Hs.
    apply orb_true_iff in Hs as [Hs|Hs]; apply bool_decide_eq_true in Hs; rewrite Hs; [done|apply Ho].
  - split; [|done]. cbn. intros i m. rewrite lookup_fmap_Some. intros (m' & <- & Hm').
    apply lookup_delete_Some in Hm' as [_ Hm']. destruct (Hp _ _ Hm') as [Hb Ho]. by case_bool_decide.
  - by split.
Qed.

Definition empty_db : db := {| primary := ∅; replica := ∅ |}.
Definition start : sys db write action answer request unit := Sys empty_db (Log 0 []) [].
Definition run_detections (ms : list (move answer request other_write)) :=
  run (handler any_order nearest overlapping) put (others born) ms start.

Lemma chains_ok ms : tables_ok (sys_log (run_detections ms)) (store (run_detections ms)).
Proof.
  apply (run_ok (handler any_order nearest overlapping) put (others born) tables_ok (λ _ _ _ _ _, True)).
  - split.
    + done.
    + intros l t e. apply others_ok.
    + intros i r l _. apply handler_safe.
  - split; [|by constructor]. split; apply map_Forall_empty.
Qed.
End Chains.

(** [a] points at [b] in a table. *)
Definition points (t : table) (a b : string) : Prop := ∃ m, t !! a = Some m ∧ supersedes_id m = Some b.

(** C4. Links never form a cycle, in the table or in its replica: whatever
    detections run, interleaved statement by statement with each other and
    with the writes of other code, on stale reads, with calls that fail or are
    abandoned while the server goes on, and whatever the judges say, every
    chain of [supersedes_id] leads to ever earlier memories (ties broken by
    id).  That queries answer with rows of the table is all that is asked of
    them; other code may not set a pointer or change a date. *)
Theorem supersession_acyclic `{PyText}
    (any_order : list mem → list mem) (nearest : vector → list mem → list mem)
    (overlapping : string → list mem → list mem) (born : string → Z)
    (Hany : ∀ l c, c ∈ any_order l → c ∈ l)
    (Hnear : ∀ v l c, c ∈ nearest v l → c ∈ l)
    (Hover : ∀ i l c, c ∈ overlapping i l → c ∈ l)
    (ms : list (move answer request other_write)) :
  let s := store (run_detections any_order nearest overlapping born ms) in
  (∀ a b, tc (points (primary s)) a b → before born b a) ∧
  (∀ a, ¬ tc (points (primary s)) a a) ∧ (∀ a, ¬ tc (points (replica s)) a a).
Proof.
  cbn zeta. destruct (chains_ok any_order nearest overlapping Hany Hnear Hover born ms) as [Hp Hr].
  assert (Hb : ∀ t, map_Forall (row_ok born) t → ∀ a b, tc (points t) a b → before born b a).
  { intros t Ht a b. induction 1 as [a b (m & Hm & Hs)|a b c (m & Hm & Hs) _ IH].
    - destruct (Ht _ _ Hm) as [_ Ho]. by apply Ho.
    - destruct (Ht _ _ Hm) as [_ Ho]. eapply before_trans; [exact IH|by apply Ho]. }
  split_and!; [by apply Hb|intros a Ha..].
  - by apply (before_irrefl born a), (Hb _ Hp).
  - by apply (before_irrefl born a), (Hb _ Hr).
Qed.

(** ** Examples *)
Definition ex_born (id : string) : Z := if String.eqb id "a" then 1 else 2.
Definition ex_memory (object : string) (at_ : Z) (st : string) : Memory :=
  {| tenant_id := "t"; fleet_id := None; status := st; supersedes_id := None; content := "";
     visibility := "scope_team"; subject_entity_id := Some "e"%string; predicate := Some "Status"%string;
     object_value := Some object; embedding := None; created_at := at_; deleted_at := None |}.
Definition ex_moves (others : list other_write) (n : nat) : list (move answer request other_write) :=
  [Other (Create "a" (ex_memory "red" 1 "active")); Other (Create "b" (ex_memory "blue" 2 "active"));
   Other CatchUp] ++ (Other <$> others) ++ [Arrive (PathA "b" "t" [])] ++
  repeat (Step 0 0 (AConfig {| retraction_enabled := false |})) n.
Definition ex_run (others : list other_write) (n : nat) :=
  run_detections (H := AsciiText) (λ l, l) (λ _ l, l) (λ _ l, l) ex_born (ex_moves others n).
Definition pointer_of (id : string) (s : db) : option (option string) := supersedes_id <$> primary s !! id.
Definition status_of (id : string) (s : db) : option string := status <$> primary s !! id.

Lemma supersession_acyclic_witness :
  pointer_of "b" (store (ex_run [] 12)) = Some (Some "a"%string) ∧
  status_of "a" (store (ex_run [] 12)) = Some "outdated"%string ∧
  (∀ a, ¬ tc (points (primary (store (ex_run [] 12)))) a a).
Proof.
  split; [vm_compute; reflexivity|]. split; [vm_compute; reflexivity|].
  exact (proj1 (proj2 (@supersession_acyclic AsciiText (λ l, l) (λ _ l, l) (λ _ l, l) ex_born
    (λ _ _ h, h) (λ _ _ _ h, h) (λ _ _ _ h, h) (ex_moves [] 12)))).
Defined.

(** The writes carry the status that was read: one that has changed since is
    overwritten. *)
Example stale_status_written_back :
  status_of "b" (store (ex_run [Change "b" (λ m, with_pointer m "archived" None)] 0)) = Some "archived"%string ∧
  status_of "b" (store (ex_run [Change "b" (λ m, with_pointer m "archived" None)] 12)) = Some "active"%string.
Proof. split; vm_compute; reflexivity. Qed.

(** Path C links the new memory whether it has a link or not, and the storage
    applies the batch whatever the row holds. *)
Lemma path_c_relinks new old :
  mid new ≠ mid old → newer_is_new new old = true →
  dget (c_updates (attribute_all_c new [old])) (mid new) =
  Some {| u_status := m_status new; u_supersedes := Some (mid old) |}.
Proof.
  intros Hne Hw. unfold attribute_all_c. cbn [foldl]. unfold attribute_c. rewrite Hw. cbn [c_found c_updates].
  rewrite (proj1 (newer_is_new_true new old Hne Hw)), !dget_merge, String.eqb_refl.
  by destruct (String.eqb_spec (mid old) (mid new)); [congruence|].
Qed.

(** A row of the synchronous API has no date: the later memory is taken for
    the older one when its id is smaller. *)
Example orm_direction_by_id :
  newer_is_new (normalize_orm "a" (ex_memory "red" 9 "active")) (orm_to_dict "b" (ex_memory "blue" 1 "active")) = false ∧
  newer_is_new (orm_to_dict "a" (ex_memory "red" 9 "active")) (orm_to_dict "b" (ex_memory "blue" 1 "active")) = true.
Proof. split; vm_compute; reflexivity. Qed.

(** An answer without the keys that were asked for counts as a confident "no",
    enough to retract. *)
Example malformed_retracts :
  retracts (Some (_judge_contradiction (PDict [("error"%string, PStr "unavailable")]))) = true.
Proof. vm_compute. reflexivity. Qed.

(** Witnesses. *)
Definition ex_mem (id : string) (at_ : Z) : mem := orm_to_dict id (ex_memory "red" at_ "active").
Lemma attribution_symmetric_witness :
  updates (attribute_all "outdated" "x" (ex_mem "a" 2) [ex_mem "b" 1]) =
  updates (attribute_all "outdated" "y" (ex_mem "b" 1) [ex_mem "a" 2]).
Proof. apply (attribution_symmetric "outdated" "x" "y" (ex_mem "a" 2) (ex_mem "b" 1)). discriminate. Defined.

Lemma attribute_all_spec_witness :
  dget (updates (attribute_all "outdated" "x" (ex_mem "b" 2) [ex_mem "c" 3; ex_mem "a" 1])) "b" =
  Some {| u_status := "outdated"; u_supersedes := Some "a"%string |}.
Proof.
  rewrite (proj1 (attribute_all_spec "outdated" "x" (ex_mem "b" 2) [ex_mem "c" 3; ex_mem "a" 1]
    ltac:(vm_compute; repeat constructor; set_solver) ltac:(repeat constructor; discriminate))).
  vm_compute. reflexivity.
Defined.

Lemma confidence_floor :
  flt _CONF_CLEAN RETRACTION_CONFIDENCE_THRESHOLD = false ∧
  flt _CONF_GATE2 RETRACTION_CONFIDENCE_THRESHOLD = true ∧
  flt _CONF_GATE1 RETRACTION_CONFIDENCE_THRESHOLD = true ∧
  flt _CONF_FALLBACK RETRACTION_CONFIDENCE_THRESHOLD = true.
Proof. split_and!; vm_compute; reflexivity. Qed.
Lemma retracts_some verdict confidence :
  retracts (Some (verdict, confidence)) =
  negb verdict && negb (flt confidence RETRACTION_CONFIDENCE_THRESHOLD).
Proof. reflexivity. Qed.
Lemma low_confidence_stays verdict confidence :
  flt confidence RETRACTION_CONFIDENCE_THRESHOLD = true → retracts (Some (verdict, confidence)) = false.
Proof. intros H. by rewrite retracts_some, H, andb_false_r. Qed.
Lemma judge_spec raw :
  match raw with
  | PDict (kv :: d) => contradicts (kv :: d) = false ∧ _judge_contradiction raw = (false, _CONF_CLEAN)
  | _ => False
  end ∨ retracts (Some (_judge_contradiction raw)) = false.
Proof.
  destruct confidence_floor as (Hclean & H2 & H1 & Hf).
  destruct raw as [| | | | | | |[|kv d]]; try (right; exact (low_confidence_stays _ _ Hf)).
  unfold _judge_contradiction, _parse_contradiction_response. cbv beta iota zeta.
  destruct (contradicts (kv :: d)); cbn [andb]; [right|left; split; reflexivity].
  destruct (same_subject (kv :: d)); cbn [negb]; [destruct (named_reason (kv :: d))|]; cbv beta iota;
    [exact (low_confidence_stays _ _ H2)|reflexivity|exact (low_confidence_stays _ _ H1)].
Qed.

(** Path C undoes Path A's verdict only on a model's plain "no": on a
    non-empty answer that does not claim a contradiction.  A claim that the
    gates overrule, the heuristic used when all providers fail, an answer that
    is no object and a check that raised all leave the verdict alone. *)
Theorem retraction_needs_plain_no `{PyText} new_content old_content (j : judged) :
  retracts (verdict_of new_content old_content j) = true ↔
  ∃ kv d, j = Raw (PDict (kv :: d)) ∧ contradicts (kv :: d) = false.
Proof.
  destruct confidence_floor as (Hclean & _ & _ & Hf). split.
  - destruct j as [raw| |]; cbn [verdict_of].
    + destruct (judge_spec raw) as [Hj|Hj]; [|rewrite Hj; discriminate].
      destruct raw as [| | | | | | |[|kv d]]; try contradiction. intros _. exists kv, d. split; [reflexivity|exact (proj1 Hj)].
    + rewrite (low_confidence_stays _ _ Hf). discriminate.
    + discriminate.
  - intros (kv & d & -> & Hc). cbn [verdict_of]. unfold _judge_contradiction, _parse_contradiction_response.
    cbv beta iota zeta. rewrite Hc. cbn [andb]. cbv beta iota. by rewrite retracts_some, Hclean.
Qed.
 End Contradictions.
