(* ===== verification/EmitTriple.v ===== *)
(** * Emission of triples on the write path
    ([src/core-api/.../pipeline/steps/write/emit_memory_triple.py])

    The deterministic reading of a sentence as (subject, predicate, object):
    the phrase table, the choice of the match, the inference of an identifier
    as the subject, the bounds of the object, and the gates that skip the
    step.  The theorems: an emitted predicate is one the contradiction
    detector knows, the only one the text offers, its object is not empty,
    and its subject is the caller's or an identifier that ends before the
    phrase. *)

From S2P Require Import Prelude Regex Contradictions.

Module EmitTriple.
Import Regex.

(** ** The phrase table *)

Definition phrase (pattern predicate : string) : compiled * string :=
  (re_compile IGNORECASE pattern, predicate).
Definition compound_score : string :=
  "(?<!confidence\s)(?<!sentiment\s)(?<!risk\s)" ++
  "(?<!quality\s)(?<!health\s)(?<!potential\s)(?<!f1\s)".

Definition location_phrases : list (compiled * string) := [
  phrase "\blives\s+in\b" "lives_in";
  phrase "\bis\s+located\s+in\b" "located_in";
  phrase "\bis\s+based\s+in\b" "based_in";
  phrase "\bis\s+headquartered\s+in\b" "headquartered_in";
  phrase "\breports\s+to\b" "reports_to";
  phrase "\bis\s+managed\s+by\b" "managed_by";
  phrase "\bis\s+owned\s+by\b" "owned_by";
  phrase "\bis\s+assigned\s+to\b" "assigned_to";
  phrase "\bis\s+employed\s+by\b" "employed_by";
  phrase "\bis\s+the\s+ceo\s+of\b" "ceo_of";
  phrase "\bis\s+the\s+cto\s+of\b" "cto_of";
  phrase "\bis\s+the\s+cfo\s+of\b" "cfo_of";
  phrase "\bis\s+renamed\s+to\b" "renamed_to" ].
Definition date_phrases : list (compiled * string) := [
  phrase "\bhas\s+release\s+date\b" "release_date";
  phrase "\brelease\s+date\s+is\b" "release_date";
  phrase "\bhas\s+launch\s+date\b" "launch_date";
  phrase "\blaunch\s+date\s+is\b" "launch_date";
  phrase "\bhas\s+go[- ]live\s+date\b" "go_live_date";
  phrase "\bgo[- ]live\s+date\s+is\b" "go_live_date";
  phrase "\bhas\s+target\s+date\b" "target_date";
  phrase "\btarget\s+date\s+is\b" "target_date";
  phrase "\bhas\s+due\s+date\b" "due_date";
  phrase "\bdue\s+date\s+is\b" "due_date";
  phrase "\bis\s+due\s+on\b" "due_date";
  phrase "\bis\s+due\s+by\b" "due_date";
  phrase "\bhas\s+start\s+date\b" "start_date";
  phrase "\bstart\s+date\s+is\b" "start_date";
  phrase "\bhas\s+end\s+date\b" "end_date";
  phrase "\bend\s+date\s+is\b" "end_date";
  phrase "\bexpires\s+on\b" "expiry_date";
  phrase "\bexpiry\s+date\s+is\b" "expiry_date";
  phrase "\bexpiration\s+date\s+is\b" "expiry_date";
  phrase "\bhas\s+deadline\b" "deadline";
  phrase "\bdeadline\s+is\b" "deadline";
  phrase "\beta\s+is\b" "eta";
  phrase "\bhas\s+eta\s+of\b" "eta";
  phrase "\bis\s+scheduled\s+for\b" "scheduled_for";
  phrase "\bis\s+rescheduled\s+to\b" "rescheduled_to";
  phrase "\bwas\s+born\s+on\b" "birthdate";
  phrase "\bdate\s+of\s+birth\s+is\b" "birthdate" ].
Definition status_phrases : list (compiled * string) := [
  phrase "\b(?:current\s+)?status\s+is\b" "status";
  phrase "\bis\s+in\s+(?:the\s+)?status\b" "status";
  phrase "\b(?:current\s+)?phase\s+is\b" "phase";
  phrase "\bis\s+in\s+(?:the\s+)?phase\b" "phase";
  phrase "\b(?:current\s+)?state\s+is\b" "state";
  phrase "\b(?:current\s+)?mode\s+is\b" "mode";
  phrase "\bis\s+in\s+(?:the\s+)?mode\b" "mode";
  phrase "\b(?:current\s+)?priority\s+is\b" "priority";
  phrase "\bhas\s+priority\b" "priority";
  phrase "\bseverity\s+is\b" "severity";
  phrase "\bhas\s+severity\b" "severity";
  phrase "\b(?:current\s+)?role\s+is\b" "role";
  phrase "\bhas\s+role\b" "role";
  phrase "\b(?:job\s+)?title\s+is\b" "title";
  phrase "\bhas\s+title\b" "title";
  phrase "\bsprint\s+is\b" "sprint";
  phrase "\bis\s+in\s+sprint\b" "sprint";
  phrase "\bmilestone\s+is\b" "milestone";
  phrase "\bhas\s+milestone\b" "milestone";
  phrase "\bepic\s+is\b" "epic";
  phrase "\bis\s+in\s+epic\b" "epic" ].
Definition metric_phrases : list (compiled * string) := [
  phrase "\bis\s+priced\s+at\b" "price";
  phrase "\bprice\s+is\b" "price";
  phrase "\bhas\s+(?:a\s+)?price\s+of\b" "price";
  phrase "\bcost\s+is\b" "cost";
  phrase "\bhas\s+(?:a\s+)?cost\s+of\b" "cost";
  phrase "\bsalary\s+is\b" "salary";
  phrase "\bhas\s+(?:a\s+)?salary\s+of\b" "salary";
  phrase "\bbudget\s+is\b" "budget";
  phrase "\bhas\s+(?:a\s+)?budget\s+of\b" "budget";
  phrase "\b(?:annual\s+|monthly\s+)?revenue\s+is\b" "revenue";
  phrase "\bhas\s+revenue\s+of\b" "revenue";
  phrase "\bis\s+valued\s+at\b" "valuation";
  phrase "\bvaluation\s+is\b" "valuation";
  phrase "\bhas\s+valuation\s+of\b" "valuation";
  phrase "\b(?:total\s+)?funding\s+is\b" "funding";
  phrase (compound_score ++ "\b(?:overall\s+|total\s+)?score\s+is\b") "score";
  phrase (compound_score ++ "\bhas\s+score\s+of\b") "score";
  phrase "\brating\s+is\b" "rating";
  phrase "\bhas\s+rating\s+of\b" "rating";
  phrase "\brank\s+is\b" "rank";
  phrase "\bis\s+ranked\b" "rank";
  phrase "\bconfidence\s+(?!score\s+is\b)is\b" "confidence";
  phrase "\bconfidence\s+score\s+is\b" "confidence_score";
  phrase "\bpotential\s+score\s+is\b" "potential_score";
  phrase "\brisk\s+score\s+is\b" "risk_score";
  phrase "\bquality\s+score\s+is\b" "quality_score";
  phrase "\bhealth\s+score\s+is\b" "health_score";
  phrase "\bsentiment\s+score\s+is\b" "sentiment_score";
  phrase "\bf1\s+score\s+is\b" "f1_score";
  phrase "\b(?:current\s+|latest\s+|running\s+)?version\s+is\b" "current_version";
  phrase "\bis\s+on\s+version\b" "current_version" ].
Definition infra_phrases : list (compiled * string) := [
  phrase "\bhostname\s+is\b" "hostname";
  phrase "\bhas\s+hostname\b" "hostname";
  phrase "\bcluster\s+is\b" "cluster";
  phrase "\bis\s+in\s+cluster\b" "cluster";
  phrase "\bnamespace\s+is\b" "namespace";
  phrase "\bis\s+in\s+namespace\b" "namespace";
  phrase "\bzone\s+is\b" "zone";
  phrase "\bis\s+in\s+(?:availability\s+)?zone\b" "zone";
  phrase "\bregion\s+is\b" "region";
  phrase "\bis\s+in\s+(?:the\s+)?region\b" "region";
  phrase "\bcountry\s+is\b" "country";
  phrase "\bcity\s+is\b" "city";
  phrase "\bemail\s+(?:address\s+)?is\b" "email";
  phrase "\bhas\s+email\b" "email";
  phrase "\bphone\s+(?:number\s+)?is\b" "phone";
  phrase "\bhas\s+phone\b" "phone";
  phrase "\bwebsite\s+is\b" "website";
  phrase "\bhas\s+website\b" "website";
  phrase "\bis\s+led\s+by\b" "led_by";
  phrase "\bis\s+headed\s+by\b" "headed_by";
  phrase "\bis\s+maintained\s+by\b" "maintained_by";
  phrase "\bis\s+supervised\s+by\b" "supervised_by";
  phrase "\bis\s+licensed\s+under\b" "license";
  phrase "\blicense\s+is\b" "license";
  phrase "\bis\s+on\s+(?:the\s+)?(?:subscription\s+)?plan\b" "subscription_plan";
  phrase "\bsubscription\s+plan\s+is\b" "subscription_plan";
  phrase "\btier\s+is\b" "tier" ].
Definition _PHRASE_TO_PREDICATE : list (compiled * string) :=
  location_phrases ++ date_phrases ++ status_phrases ++ metric_phrases ++ infra_phrases.

Definition _LEADING_ARTICLES : compiled := re_compile IGNORECASE "^(the|a|an)\s+".

(** The group is the token; what follows it is the end of the text. *)
Definition _IDENTIFIER_TOKEN : grouped :=
  {| g_before := empty_pattern;
     g_group := re_compile no_flags
       ("[A-Z][A-Z0-9]{1,}-[A-Z0-9][A-Z0-9-]*" ++
        "|[0-9a-fA-F]{8}-[0-9a-fA-F]{4}-[0-9a-fA-F]{4}-[0-9a-fA-F]{4}-[0-9a-fA-F]{12}" ++
        "|[a-z][a-z0-9]+(?:[._-][a-z0-9]+){2,}" ++
        "|[Bb]uild[\s-]?#?\d+" ++
        "|v\d+\.\d+(?:\.\d+)?|\d+\.\d+\.\d+");
     g_after := re_compile no_flags "\s*$" |}.

Definition _SUBJECT_STOPWORDS : list string :=
  ["the"; "a"; "an"; "it"; "this"; "that"; "these"; "those"; "they"; "them"; "he"; "she"; "we";
   "i"; "you"; "there"; "here"; "everyone"; "everything"; "someone"; "something"; "today";
   "yesterday"; "tomorrow"; "now"; "later"; "soon"; "q1"; "q2"; "q3"; "q4"]%string.

Definition WHITESPACE : compiled := re_compile no_flags "\s+".
Definition CLAUSE_END : compiled := re_compile no_flags "[.!?]\s+".
Definition SENTENCE_END : compiled := re_compile no_flags "[!?]|(?<=\w{3})\.(?=\s+[A-Z]|\s*$)".

Section Emit.
Context `{PyText}.

(** [s[:n]] and [s[n:]] *)
Definition upto (n : nat) (s : string) : string := encode_text (take n (codepoints s)).
Definition from (n : nat) (s : string) : string := encode_text (drop n (codepoints s)).

(** [re.split(CLAUSE_END, s)[-1]]: what follows the last match. *)
Fixpoint after_last (l : list gmatch) (s : list N) : list N :=
  match l with
  | [] => s
  | m :: l => after_last l (ms_rest (gm_to m))
  end.
Definition last_clause (s : string) : string :=
  let l := codepoints s in encode_text (after_last (finditer (group0 CLAUSE_END) l) l).

Definition _infer_subject_token (content : string) (start : nat) : option string :=
  let head := rstrip_chars ".,;:!" (str_rstrip (upto start content)) in
  let head := str_strip (last_clause head) in
  let head := str_strip (re_sub_delete _LEADING_ARTICLES head) in
  if String.eqb head "" || str_mem (str_lower head) _SUBJECT_STOPWORDS then None
  else
    match finditer _IDENTIFIER_TOKEN (codepoints head) with
    | [] => None
    | m :: _ =>
        let token := rstrip_chars "-" (str_strip (encode_text (gm_text m))) in
        if String.eqb token "" || (80 <? char_len token) || str_mem (str_lower token) _SUBJECT_STOPWORDS
        then None else Some token
    end.

Definition _normalize_object (raw : string) : option string :=
  let s := rstrip_chars ".!?,;" (str_strip raw) in
  let s := str_strip (re_sub_delete _LEADING_ARTICLES s) in
  if String.eqb s "" then None else Some (str_lower s).

(** ** The step *)

Inductive skip_reason : Type :=
| flag_off | already_set | no_predicate_match | ambiguous_predicate | predicate_not_in_allowlist
| ambiguous_subject | no_subject | object_unparseable | subject_upsert_failed.

(** What the phrases match, in the order of the table. *)
Definition matches_in (table : list (compiled * string)) (content : string) : list (re_match * string) :=
  omap (λ row, m ← re_search row.1 content; Some (m, row.2)) table.

(** Python's [max(l, key=...)] and [min(l, key=...)]: the first of the best. *)
Fixpoint max_by {A} (key : A → nat) (best : A) (l : list A) : A :=
  match l with
  | [] => best
  | x :: l => max_by key (if Nat.ltb (key best) (key x) then x else best) l
  end.
Fixpoint min_by {A} (key : A → nat) (best : A) (l : list A) : A :=
  match l with
  | [] => best
  | x :: l => min_by key (if Nat.ltb (key x) (key best) then x else best) l
  end.

(** An entity link: the entity and its role. *)
Definition is_subject (link : string * option string) : bool :=
  String.eqb (str_lower (default "" link.2)) "subject".

Inductive subject : Type :=
| Given (entity_id : string)
| Inferred (token : string).

Definition choose_subject (links : list (string * option string)) (content : string) (start : nat) :
    subject + skip_reason :=
  match List.filter is_subject links with
  | [link] => inl (Given link.1)
  | [] => match _infer_subject_token content start with
          | Some token => inl (Inferred token)
          | None => inr no_subject
          end
  | _ => inr ambiguous_subject
  end.

Definition object_after (content : string) (m : re_match) : option string :=
  let tail := from (m_end m) content in
  _normalize_object (match re_search SENTENCE_END tail with
                     | Some s => upto (m_start s) tail
                     | None => tail
                     end).

(** The reading of a content, up to the creation of an inferred subject. *)
Definition read_triple (links : list (string * option string)) (content : string) :
    (subject * string * string) + skip_reason :=
  let content := re_sub WHITESPACE " " content in
  match matches_in _PHRASE_TO_PREDICATE content with
  | [] => inr no_predicate_match
  | (m0 :: ms) as matches =>
      if Nat.eqb (length (remove_dups matches.*2)) 1 then
        let '(match_, predicate) := max_by (λ m, m_end m.1) m0 ms in
        let head_match := (min_by (λ m, m_start m.1) m0 ms).1 in
        if negb (str_mem predicate Contradictions.SINGLE_VALUE_PREDICATES)
        then inr predicate_not_in_allowlist
        else
          match choose_subject links content (m_start head_match) with
          | inr reason => inr reason
          | inl s =>
              match object_after content match_ with
              | None => inr object_unparseable
              | Some object_value => inl (s, predicate, object_value)
              end
          end
      else inr ambiguous_predicate
  end.
End Emit.

(** ** The patterns are within the fragment *)
Example phrases_compile :
  forallb (λ r, compiles r.1) _PHRASE_TO_PREDICATE && compiles _LEADING_ARTICLES &&
  compiles (g_group _IDENTIFIER_TOKEN) && compiles (g_after _IDENTIFIER_TOKEN) &&
  compiles WHITESPACE && compiles CLAUSE_END && compiles SENTENCE_END = true.
Proof. vm_compute. reflexivity. Qed.

(** Every row of the table has a predicate the detector knows, so the gate on
    the predicate never closes. *)
Lemma table_allowlisted :
  forallb (λ r, str_mem r.2 Contradictions.SINGLE_VALUE_PREDICATES) _PHRASE_TO_PREDICATE = true.
Proof. vm_compute. reflexivity. Qed.

Section Theorems.
Context `{PyText}.

Lemma max_by_elem {A} (key : A → nat) best l : max_by key best l ∈ best :: l.
Proof.
  revert best. induction l as [|x l IH]; intros best; cbn [max_by]; [by left|].
  specialize (IH (if Nat.ltb (key best) (key x) then x else best)).
  apply elem_of_cons in IH as [->|IH]; [destruct (Nat.ltb _ _)|]; set_solver.
Qed.

Lemma one_distinct {A} `{EqDecision A} (x : A) l :
  length (remove_dups (x :: l)) = 1%nat ↔ ∀ y, y ∈ l → y = x.
Proof.
  split.
  - intros Hlen y Hy. assert (Hx : x ∈ remove_dups (x :: l)) by (apply elem_of_remove_dups; by left).
    assert (Hy' : y ∈ remove_dups (x :: l)) by (apply elem_of_remove_dups; by right).
    destruct (remove_dups (x :: l)) as [|z [|]]; [done| |done]. set_solver.
  - intros Hall. cut (remove_dups (x :: l) ≡ₚ [x]); [intros Hp; by rewrite Hp|].
    apply NoDup_Permutation; [apply NoDup_remove_dups|apply NoDup_singleton|].
    intros z. rewrite elem_of_remove_dups, elem_of_cons, list_elem_of_singleton. naive_solver.
Qed.

(** The phrases of the table that match a text. *)
Definition offers (text : string) (predicate : string) : Prop :=
  ∃ row m, row ∈ _PHRASE_TO_PREDICATE ∧ re_search row.1 text = Some m ∧ row.2 = predicate.

Lemma matches_in_offers text p : p ∈ (matches_in _PHRASE_TO_PREDICATE text).*2 ↔ offers text p.
Proof.
  unfold offers, matches_in. rewrite list_elem_of_fmap. setoid_rewrite list_elem_of_omap. split.
  - intros ([m q] & -> & row & Hrow & Hm). destruct (re_search row.1 text) as [m'|] eqn:Hs; [|done].
    injection Hm as <- <-. by exists row, m'.
  - intros (row & m & Hrow & Hm & <-). exists (m, row.2). split; [done|]. exists row. by rewrite Hm.
Qed.

Lemma offers_allowlisted text p : offers text p → str_mem p Contradictions.SINGLE_VALUE_PREDICATES = true.
Proof.
  intros (row & m & Hrow & _ & <-). pose proof table_allowlisted as Ht.
  rewrite forallb_forall in Ht. apply Ht. by apply list_elem_of_In.
Qed.

(** The subject is the caller's only subject link, or, without one, an
    identifier of at most 80 characters that is no stop word. *)
Definition subject_ok (links : list (string * option string)) (content : string) (s : subject) : Prop :=
  match s with
  | Given e => ∃ role, List.filter is_subject links = [(e, role)]
  | Inferred t => List.filter is_subject links = [] ∧ t ≠ "" ∧ char_len t <= 80 ∧
      str_lower t ∉ _SUBJECT_STOPWORDS ∧ ∃ start, _infer_subject_token content start = Some t
  end.

Lemma infer_subject_token_ok content start t :
  _infer_subject_token content start = Some t →
  t ≠ "" ∧ char_len t <= 80 ∧ str_lower t ∉ _SUBJECT_STOPWORDS.
Proof.
  unfold _infer_subject_token. destruct (_ || _); [done|]. destruct (finditer _ _) as [|m ms]; [done|].
  set (token := rstrip_chars "-" _). destruct (String.eqb_spec token "") as [|Hne]; [done|].
  destruct (Z.ltb_spec 80 (char_len token)); [done|].
  destruct (str_mem (str_lower token) _) eqn:Hm; [done|]. intros [= <-].
  split_and!; [done|lia|]. by apply str_mem_false.
Qed.

Lemma choose_subject_ok links content start s :
  choose_subject links content start = inl s → subject_ok links content s.
Proof.
  unfold choose_subject, subject_ok. destruct (List.filter is_subject links) as [|[e role] [|]] eqn:Hl; [|  |done].
  - destruct (_infer_subject_token content start) as [t|] eqn:Ht; [|done]. intros [= <-].
    pose proof (infer_subject_token_ok _ _ _ Ht) as (? & ? & ?). split_and!; try done. by exists start.
  - intros [= <-]. by exists role.
Qed.

(** What the step emits.  The predicate is the only one the phrases
    offer for the text, and one the contradiction detector knows; the object
    is not empty before it is put in lower case; the subject is the caller's
    only subject link or an inferred identifier.  It skips for want of a
    predicate exactly when no phrase matches, as ambiguous exactly when two
    phrases disagree, and never because the detector would not know the
    predicate. *)
Theorem read_triple_sound links content :
  let text := re_sub WHITESPACE " " content in
  (∀ s p o, read_triple links content = inl (s, p, o) →
     p ∈ Contradictions.SINGLE_VALUE_PREDICATES ∧ (∀ q, offers text q ↔ q = p) ∧
     (∃ o', o' ≠ "" ∧ o = str_lower o') ∧ subject_ok links text s) ∧
  (read_triple links content = inr no_predicate_match ↔ ∀ q, ¬ offers text q) ∧
  (read_triple links content = inr ambiguous_predicate ↔ ∃ p q, offers text p ∧ offers text q ∧ p ≠ q) ∧
  read_triple links content ≠ inr predicate_not_in_allowlist.
Proof.
  intros text. pose proof (matches_in_offers text) as Hoff. unfold read_triple. fold text.
  destruct (matches_in _PHRASE_TO_PREDICATE text) as [|m0 ms].
  { assert (Hno : ∀ q, ¬ offers text q) by (intros q Hq%Hoff; by apply not_elem_of_nil in Hq).
    split_and!; [done|done| |done]. split; [done|]. intros (p & _ & Hp & _). by apply Hno in Hp. }
  assert (H0 : offers text m0.2) by (apply Hoff; by left).
  destruct (Nat.eqb_spec (length (remove_dups (m0 :: ms).*2)) 1) as [H1|H1].
  2:{ split_and!; [done| |split; [intros _|done]|done]; [split; [done|]; intros Hno; by apply Hno in H0|].
      destruct (decide (Forall (λ y, y = m0.2) ms.*2)) as [Hall|Hall%not_Forall_Exists].
      - destruct H1. apply one_distinct. by apply Forall_forall.
      - apply Exists_exists in Hall as (y & Hy & Hne). exists y, m0.2.
        split_and!; [apply Hoff; by right|done|done].
      - intros y. apply _. }
  rewrite fmap_cons in H1. rewrite one_distinct in H1.
  assert (Huniq : ∀ q, offers text q ↔ q = m0.2).
  { intros q. split; [|by intros ->]. rewrite <- Hoff, fmap_cons, elem_of_cons. intros [|Hq]; auto. }
  pose proof (max_by_elem (λ m : re_match * string, m_end m.1) m0 ms) as Hin.
  destruct (max_by _ m0 ms) as [m p]. assert (Hp : offers text p) by (apply Hoff, list_elem_of_fmap; by exists (m, p)).
  rewrite (offers_allowlisted _ _ Hp). cbn [negb].
  assert (Hrest : (∀ r : (subject * string * string) + skip_reason,
    r ≠ inr no_predicate_match → r ≠ inr ambiguous_predicate → r ≠ inr predicate_not_in_allowlist →
    (∀ s p o, r = inl (s, p, o) → p ∈ Contradictions.SINGLE_VALUE_PREDICATES ∧ (∀ q, offers text q ↔ q = p) ∧
       (∃ o', o' ≠ "" ∧ o = str_lower o') ∧ subject_ok links text s) →
    (∀ s p o, r = inl (s, p, o) → p ∈ Contradictions.SINGLE_VALUE_PREDICATES ∧ (∀ q, offers text q ↔ q = p) ∧
       (∃ o', o' ≠ "" ∧ o = str_lower o') ∧ subject_ok links text s) ∧
    (r = inr no_predicate_match ↔ ∀ q, ¬ offers text q) ∧
    (r = inr ambiguous_predicate ↔ ∃ p q, offers text p ∧ offers text q ∧ p ≠ q) ∧
    r ≠ inr predicate_not_in_allowlist)).
  { intros r Hr1 Hr2 Hr3 Hr. split_and!; [done| | |done].
    - split; [done|]. intros Hno. by apply Hno in H0.
    - split; [done|]. intros (q1 & q2 & ->%Huniq & ->%Huniq & Hne). done. }
  destruct (choose_subject links text _) as [s|reason] eqn:Hs.
  - destruct (object_after text m) as [o|] eqn:Ho; [|by apply Hrest].
    apply Hrest; [done..|]. intros s' p' o' [= <- <- <-]. split_and!.
    + apply str_mem_spec. by eapply offers_allowlisted.
    + intros q. rewrite Huniq. apply Huniq in Hp. by rewrite Hp.
    + unfold object_after, _normalize_object in Ho.
      match type of Ho with (if String.eqb ?x "" then _ else _) = _ =>
        destruct (String.eqb_spec x "") as [|Hne]; [done|]; exists x end.
      split; [done|]. by injection Ho.
    + by eapply choose_subject_ok.
  - unfold choose_subject in Hs. destruct (List.filter is_subject links) as [|? [|]];
      [destruct (_infer_subject_token _ _); [done|]|done|]; injection Hs as <-; by apply Hrest.
Qed.
End Theorems.

Section Examples.
#[local] Existing Instance AsciiText.

Example read_link :
  read_triple [("e1"%string, Some "Subject"%string)] "Ran  lives in the Hague. He also bikes." =
  inl (Given "e1", "lives_in", "hague")%string.
Proof. vm_compute. reflexivity. Qed.

Example read_inferred :
  read_triple [] "Yesterday was fine. The TOKEN-XYZ, has release date is 2027-01-31." =
  inl (Inferred "TOKEN-XYZ", "release_date", "2027-01-31")%string.
Proof. vm_compute. reflexivity. Qed.

Example read_skips :
  read_triple [] "Alice lives in Rome" = inr no_subject ∧
  read_triple [] "PR-12 status is done and its priority is low" = inr ambiguous_predicate ∧
  read_triple [] "nothing to see" = inr no_predicate_match ∧
  read_triple [] "PR-12 risk score is 0.4" = inl (Inferred "PR-12", "risk_score", "0.4")%string.
Proof. split_and!; vm_compute; reflexivity. Qed.
End Examples.
End EmitTriple.
