(* ===== verification/WriteCalls.v ===== *)
(** * What a memory write works with
    ([src/core-api/src/core_api/schemas.py], [services/governance_gate.py],
    [services/audit_service.py], [services/business_classifier.py],
    [services/dedup_judge.py], [services/dedup_identifier_filter.py])

    The request, the tenant's configuration, the calls a write makes to the
    services around it, and the helpers of the pipeline's steps: the audit
    entry point with its fallback for critical events, the audit details, the
    pre-gate classifier, the duplicate judge and the identifier filter.

    A write is a program over the trace of the calls made so far, the most
    recent first.  What each call answers, or raises, is a function of the
    call and of the trace before it, and nothing is assumed of that function:
    it stands for storage, queues, models and whatever other requests do in
    the meantime. *)

From S2P Require Import Prelude Regex Floats PiiPatterns Retry Enrichment.

Module WriteCalls.
Import Regex.
#[local] Open Scope string_scope.
#[local] Open Scope list_scope.

(** ** Data *)

Definition vec : Type := list Q.

Record EntityLinkIn : Type := { entity_id : string; role : string }.

(** [fields_set]: the fields the request body had ([model_fields_set]). *)
Record MemoryCreate : Type := {
  tenant_id : string;
  fleet_id : option string;
  agent_id : option string;
  memory_type : option string;
  content : string;
  weight : option Floats.float;
  source_uri : option string;
  run_id : option string;
  metadata : option pydict;
  entity_links : list EntityLinkIn;
  expires_at : option datetime;
  subject_entity_id : option string;
  predicate : option string;
  object_value : option string;
  ts_valid_start : option datetime;
  ts_valid_end : option datetime;
  reference_datetime : option datetime;
  status : option string;
  visibility : option string;
  persist : bool;
  write_mode : option string;
  fields_set : list string;
}.
Definition set_content (v : string) (d : MemoryCreate) : MemoryCreate :=
  {| tenant_id := tenant_id d; fleet_id := fleet_id d; agent_id := agent_id d;
     memory_type := memory_type d; content := v; weight := weight d; source_uri := source_uri d;
     run_id := run_id d; metadata := metadata d; entity_links := entity_links d;
     expires_at := expires_at d; subject_entity_id := subject_entity_id d;
     predicate := predicate d; object_value := object_value d;
     ts_valid_start := ts_valid_start d; ts_valid_end := ts_valid_end d;
     reference_datetime := reference_datetime d; status := status d; visibility := visibility d;
     persist := persist d; write_mode := write_mode d; fields_set := fields_set d |}.
Definition set_metadata (v : option pydict) (d : MemoryCreate) : MemoryCreate :=
  {| tenant_id := tenant_id d; fleet_id := fleet_id d; agent_id := agent_id d;
     memory_type := memory_type d; content := content d; weight := weight d;
     source_uri := source_uri d; run_id := run_id d; metadata := v;
     entity_links := entity_links d; expires_at := expires_at d;
     subject_entity_id := subject_entity_id d; predicate := predicate d;
     object_value := object_value d; ts_valid_start := ts_valid_start d;
     ts_valid_end := ts_valid_end d; reference_datetime := reference_datetime d;
     status := status d; visibility := visibility d; persist := persist d;
     write_mode := write_mode d; fields_set := fields_set d |}.
Definition set_subject_entity_id (v : option string) (d : MemoryCreate) : MemoryCreate :=
  {| tenant_id := tenant_id d; fleet_id := fleet_id d; agent_id := agent_id d;
     memory_type := memory_type d; content := content d; weight := weight d;
     source_uri := source_uri d; run_id := run_id d; metadata := metadata d;
     entity_links := entity_links d; expires_at := expires_at d; subject_entity_id := v;
     predicate := predicate d; object_value := object_value d;
     ts_valid_start := ts_valid_start d; ts_valid_end := ts_valid_end d;
     reference_datetime := reference_datetime d; status := status d; visibility := visibility d;
     persist := persist d; write_mode := write_mode d; fields_set := fields_set d |}.
Definition set_predicate (v : option string) (d : MemoryCreate) : MemoryCreate :=
  {| tenant_id := tenant_id d; fleet_id := fleet_id d; agent_id := agent_id d;
     memory_type := memory_type d; content := content d; weight := weight d;
     source_uri := source_uri d; run_id := run_id d; metadata := metadata d;
     entity_links := entity_links d; expires_at := expires_at d;
     subject_entity_id := subject_entity_id d; predicate := v; object_value := object_value d;
     ts_valid_start := ts_valid_start d; ts_valid_end := ts_valid_end d;
     reference_datetime := reference_datetime d; status := status d; visibility := visibility d;
     persist := persist d; write_mode := write_mode d; fields_set := fields_set d |}.
Definition set_object_value (v : option string) (d : MemoryCreate) : MemoryCreate :=
  {| tenant_id := tenant_id d; fleet_id := fleet_id d; agent_id := agent_id d;
     memory_type := memory_type d; content := content d; weight := weight d;
     source_uri := source_uri d; run_id := run_id d; metadata := metadata d;
     entity_links := entity_links d; expires_at := expires_at d;
     subject_entity_id := subject_entity_id d; predicate := predicate d; object_value := v;
     ts_valid_start := ts_valid_start d; ts_valid_end := ts_valid_end d;
     reference_datetime := reference_datetime d; status := status d; visibility := visibility d;
     persist := persist d; write_mode := write_mode d; fields_set := fields_set d |}.
Definition set_visibility (v : option string) (d : MemoryCreate) : MemoryCreate :=
  {| tenant_id := tenant_id d; fleet_id := fleet_id d; agent_id := agent_id d;
     memory_type := memory_type d; content := content d; weight := weight d;
     source_uri := source_uri d; run_id := run_id d; metadata := metadata d;
     entity_links := entity_links d; expires_at := expires_at d;
     subject_entity_id := subject_entity_id d; predicate := predicate d;
     object_value := object_value d; ts_valid_start := ts_valid_start d;
     ts_valid_end := ts_valid_end d; reference_datetime := reference_datetime d;
     status := status d; visibility := v; persist := persist d; write_mode := write_mode d;
     fields_set := fields_set d |}.

(** *** The governance policies of a configuration

    Settings are JSON objects; [.get] on anything else raises. *)
Record _GovPII : Type := {
  pii_enabled : bool;
  action : pyval;
  enabled_categories : option (list PiiPatterns.PIICategory);
}.
Record _GovNB : Type := { nb_enabled : bool; disposition : pyval }.
Record _GovNBPregate : Type := {
  pregate_enabled : bool;
  pregate_provider : option string;
  pregate_model : option string;
  min_confidence : pyval;
  fail_closed : bool;
}.

(** The resolved values the write path reads; the policies are computed from
    the organization's settings [_ts]. *)
Record ResolvedConfig : Type := {
  _ts : pydict;
  enrichment_enabled : bool;
  enrichment_provider : string;
  enrichment_model : option string;
  entity_extraction_enabled : bool;
  entity_extraction_provider : string;
  entity_extraction_model : option string;
  semantic_dedup_enabled : bool;
  auto_chunk_enabled : bool;
  triple_emission_enabled : bool;
  default_write_mode : string;
}.

(** [d.get(k, {})] and then [.get] on it *)
Definition get_dict (d : pydict) (k : string) : res pyexn pydict :=
  match dget d k with
  | None => Ok []
  | Some (PDict d) => Ok d
  | Some _ => Err AttributeError
  end.
(** [v or None] of a text; the type of the leaf is checked when settings are
    written. *)
Definition some_str (v : pyval) : option string :=
  match v with PStr s => if String.eqb s "" then None else Some s | _ => None end.
(** [v or dflt] *)
Definition py_or (v dflt : pyval) : pyval := if truthy v then v else dflt.

Definition all_categories : list PiiPatterns.PIICategory :=
  [PiiPatterns.EMAIL; PiiPatterns.PHONE; PiiPatterns.CREDIT_CARD; PiiPatterns.IBAN;
   PiiPatterns.NATIONAL_ID; PiiPatterns.API_KEY; PiiPatterns.SECRET].
(** [PIICategory(name)] where [name in _PII_CATEGORY_VALUES] *)
Definition category_named (name : string) : option PiiPatterns.PIICategory :=
  find (λ c, String.eqb (PiiPatterns.category_value c) name) all_categories.

Definition governance_pii (cfg : ResolvedConfig) : res pyexn _GovPII :=
  g ← get_dict (_ts cfg) "governance";
  g ← get_dict g "pii";
  cats ← get_dict g "categories";
  let selected := omap (λ kv, if truthy kv.2 then category_named kv.1 else None) cats in
  Ok {| pii_enabled := truthy (dgetv g "enabled");
        action := py_or (dgetv g "action") (PStr "flag");
        enabled_categories := match selected with [] => None | _ => Some selected end |}.
Definition governance_non_business (cfg : ResolvedConfig) : res pyexn _GovNB :=
  g ← get_dict (_ts cfg) "governance";
  g ← get_dict g "non_business";
  Ok {| nb_enabled := truthy (dgetv g "enabled");
        disposition := py_or (dgetv g "disposition") (PStr "store") |}.
Definition governance_non_business_pregate (cfg : ResolvedConfig) : res pyexn _GovNBPregate :=
  g ← get_dict (_ts cfg) "governance";
  g ← get_dict g "non_business";
  g ← get_dict g "pregate";
  Ok {| pregate_enabled := truthy (dgetv g "enabled");
        pregate_provider := some_str (dgetv g "provider");
        pregate_model := some_str (dgetv g "model");
        min_confidence := dgetv g "min_confidence";
        fail_closed := truthy (dgetv g "fail_closed") |}.

(** The process-wide switches ([core_api.config.settings], the service hooks). *)
Record Settings : Type := {
  use_stm : bool;
  inline_embedding : bool;
  inline_enrichment : bool;
  audit_hook : bool;
  stm_notes_ttl : Z;
  stm_bulletin_ttl : Z;
  reserved_agent_id_policy : string;
  ALWAYS_RESERVED_AGENT_IDS : list string;
}.

(** *** What is sent *)

Record audit_payload : Type := {
  a_tenant : string;
  a_agent : option string;
  a_action : string;
  a_resource_type : string;
  a_resource_id : option string;
  a_detail : pydict;
  client_event_id : string;
}.

(** The models behind one use of [call_with_fallback]: the factory and the
    fallback of the configuration, what the n-th call answers and which
    provider and model it went to, and whether the caller's own time limit
    ran out first. *)
Record models : Type := {
  provider_factory : string → option string → res Retry.llm_exn Retry.provider;
  resolve_fallback : option (res Retry.llm_exn (option string * option string));
  complete_json : nat → res Retry.llm_exn (pyval * Z);
  used : nat → string * string;
  timed_out : bool;
}.

Record candidate : Type := {
  cand_id : string;
  cand_similarity : Floats.float;
  cand_content : string;
  cand_subject : option string;
}.

Record dedup_review : Type := {
  rv_tenant : string; rv_fleet : option string; rv_agent : option string;
  rv_candidate : string;
  new_content : string;
  candidate_content : string;
  similarity : Floats.float;
  judge_verdict : option bool;
  judge_confidence : option Floats.float;
  decision_band : string;
}.

(** A row as it is sent to storage. *)
Record memory_row : Type := {
  r_tenant : string;
  r_fleet : option string;
  r_agent : option string;
  r_type : string;
  r_title : option string;
  r_content : string;
  r_embedding : option vec;
  r_weight : Floats.float;
  r_source_uri : option string;
  r_run_id : option string;
  r_metadata : pydict;
  r_content_hash : option string;
  r_expires_at : option string;
  r_subject : option string;
  r_predicate : option string;
  r_object : option string;
  r_start : option string;
  r_end : option string;
  r_status : string;
  r_visibility : string;
  r_client_request_id : option string;
}.
(** Storage's answer to a creation: the id and the row's other fields. *)
Record stored : Type := { s_id : string; s_row : pydict }.

(** A fact the chunker cut out of a content. *)
Record chunk : Type := { ch_content : string; ch_type : option string }.

(** The tasks a write leaves behind. *)
Inductive task : Type :=
| EnrichTask (memory_id content tenant : string) (fleet agent : option string)
    (agent_provided_fields : option (list string)) (reference : option datetime)
| ExtractTask (memory_id tenant : string) (fleet agent : option string) (content : string)
    (memory_type : option string)
| DetectTask (memory_id tenant : string) (fleet : option string) (content : string) (embedding : vec)
| EmbedTask (memory_id content tenant : string) (content_hash : option string).

Record stm_entry : Type := {
  e_id : string;
  e_agent : option string;
  e_content : string;
  e_type : string;
  e_metadata : pydict;
  posted_at : datetime;
}.

(** ** Calls *)

(** An exception is named after the first class a handler of the program
    tells apart that it is an instance of. *)
Inductive exn : Type :=
| HTTPException (status_code : Z) (detail : string)
| Raised (e : pyexn)
| Cancelled.

Inductive call : Type → Type :=
| ResolveConfig (tenant : string) : call ResolvedConfig
| Enqueue (payload : audit_payload) (silent : bool) : call bool
| CreateAuditLog (payload : audit_payload) : call unit
| AskModels (service provider : string) (model : option string) (texts : list string) : call models
| FindEmbedding (tenant content_hash : string) : call (option vec)
| Embed (content : string) : call (option vec)
| FindByHash (tenant : string) (content_hash : option string) (fleet agent : option string) :
    call (option string)
| FindSemanticDuplicate (tenant : string) (fleet : option string) (embedding : vec)
    (visibility : string) (min_similarity : Floats.float) : call (option candidate)
| EnqueueDedupReview (review : dedup_review) : call unit
| UpsertEntity (tenant : string) (fleet : option string) (entity_type canonical_name : string) :
    call string
| CreateMemory (row : memory_row) : call stored
| CreateMemories (rows : list memory_row) : call unit
| CreateEntityLink (memory_id entity role : string) : call unit
| AuditHook (tenant : string) (agent : option string) (action resource_id : string)
    (detail : pydict) : call unit
| ChunkContent (content : string) : call (list chunk)
| EmbedBatch (texts : list string) : call (list (option vec))
| EnterStorageSlot (tenant : string) : call unit
| PostNote (tenant : string) (agent : option string) (entry : stm_entry) : call unit
| PostBulletin (tenant fleet : string) (entry : stm_entry) : call unit
| SoftDelete (memory_id : string) : call unit
| UpdateMemory (memory_id : string) (tenant : option string) (patch : pydict) : call unit.

(** What is read of the process itself, which cannot fail. *)
Inductive reading : Type → Type :=
| ElapsedMs : reading Z
| ElapsedMs1 : reading Q
| NewUuid : reading string
| Now : reading datetime
| AuditQueueActive : reading bool
| TimedOut : reading bool.

Inductive event : Type :=
| Called {A} (c : call A)
| Read {A} (r : reading A)
| TrackTask (t : task).
Definition trace : Type := list event.

Class World := {
  answer : ∀ A, call A → trace → res exn A;
  observe : ∀ A, reading A → trace → A;
}.
Arguments answer {_ A}.
Arguments observe {_ A}.

(** What the interpreter and the libraries provide: [hashlib.sha256] of a
    text's encoding, [str] of a [datetime], and [datetime.fromisoformat]. *)
Class WriteRuntime := {
  sha256 : string → string;
  str_datetime : datetime → string;
  fromisoformat : string → option datetime;
  round4 : Floats.float → Q;
}.

Abbreviation wr A := (io trace exn A).

Section Calls.
Context `{World}.

Definition perform {A} (c : call A) : wr A := λ t, (answer c t, Called c :: t).
Definition observed {A} (r : reading A) : wr A := λ t, (Ok (observe r t), Read r :: t).
Definition track_task (k : task) : wr unit := λ t, (Ok tt, TrackTask k :: t).

(** [try: m except Exception: h] *)
Definition caught {A} (m : wr A) (h : wr A) : wr A :=
  io_try m mret (λ e, match e with Cancelled => io_raise e | _ => h end).
Definition py {A} (r : res pyexn A) : wr A := io_lift (map_err Raised r).
Definition http {A} (status_code : Z) (detail : string) : wr A :=
  io_raise (HTTPException status_code detail).
(** [ctx.data[key]] *)
Definition keyed {A} (o : option A) : wr A :=
  match o with Some a => mret a | None => io_raise (Raised KeyError) end.

(** ** The audit entry point *)

Definition log_action (tenant : string) (agent : option string) (action resource_type : string)
    (resource_id : option string) (detail : pydict) (critical : bool) : wr unit :=
  event_id ← observed NewUuid;
  let payload :=
    {| a_tenant := tenant; a_agent := agent; a_action := action; a_resource_type := resource_type;
       a_resource_id := resource_id; a_detail := detail; client_event_id := event_id |} in
  active ← observed AuditQueueActive;
  if (active : bool) then
    enqueued ← perform (Enqueue payload critical);
    if (enqueued : bool) || negb critical then mret tt
    else caught (perform (CreateAuditLog payload)) (mret tt)
  else perform (CreateAuditLog payload).

Definition emit_governance_audit (tenant : string) (agent : option string) (action : string)
    (detail : pydict) (resource_id : option string) (critical : bool) : wr unit :=
  log_action tenant agent action "memory" resource_id detail critical.
End Calls.

(** ** Audit details *)

Definition ACTION_PII_MASK : string := "pii_mask".
Definition ACTION_PII_DROP : string := "pii_drop".
Definition ACTION_PII_FLAG : string := "pii_flag".
Definition ACTION_NB_DROP : string := "nonbusiness_drop".
Definition ACTION_NB_KEEP_PRIVATE : string := "nonbusiness_keep_private".
Definition ACTION_NB_PREGATE_DROP : string := "nonbusiness_pregate_drop".
Definition ACTION_NB_PREGATE_UNAVAILABLE : string := "nonbusiness_pregate_unavailable".

Definition opt_str (o : option string) : pyval := match o with Some s => PStr s | None => PNone end.
Definition str_list (l : list string) : pyval := PList (PStr <$> l).
(** [d.update(kvs)] *)
Definition update (d kvs : pydict) : pydict := foldl (λ d kv, dset d kv.1 kv.2) d kvs.

Section Details.
Context `{WriteRuntime}.

Definition _base_audit_detail (action content : string) (write_mode : option string) : pydict :=
  [("action", PStr action); ("content_sha256", PStr (sha256 content)); ("write_mode", opt_str write_mode)].

Definition span (f : PiiPatterns.Finding) : pyval :=
  PList [PInt (Z.of_nat (PiiPatterns.f_start f)); PInt (Z.of_nat (PiiPatterns.f_end f))].
Definition categories_of (findings : list PiiPatterns.Finding) : list string :=
  sorted_set ((λ f, PiiPatterns.category_value (PiiPatterns.f_category f)) <$> findings).

Definition pii_audit_detail (action : string) (findings : list PiiPatterns.Finding) (content : string)
    (write_mode : option string) : pydict :=
  update (_base_audit_detail action content write_mode)
    [("categories", str_list (categories_of findings));
     ("severities", str_list (sorted_set
        ((λ f, PiiPatterns.severity_value (PiiPatterns.f_severity f)) <$> findings)));
     ("spans", PList (span <$> findings));
     ("finding_count", PInt (Z.of_nat (length findings)))].

Definition llm_pii_audit_detail (action : string) (pii_types : list string) (content : string)
    (write_mode : option string) (configured_action : option string) : pydict :=
  let detail := update (_base_audit_detail action content write_mode)
    [("categories", str_list (sorted_set pii_types)); ("source", PStr "llm")] in
  match configured_action with
  | Some c => if String.eqb c action then detail else dset detail "configured_action" (PStr c)
  | None => detail
  end.

Definition nonbusiness_audit_detail (action content : string) (write_mode : option string) : pydict :=
  _base_audit_detail action content write_mode.

Definition nonbusiness_pregate_audit_detail (action content : string) (write_mode : option string)
    (provider model confidence : pyval) : pydict :=
  update (_base_audit_detail action content write_mode)
    [("source", PStr "llm_pregate"); ("provider", provider); ("model", model); ("confidence", confidence)].
End Details.

Definition mark_pii_flagged (metadata : pydict) (findings : list PiiPatterns.Finding) : pydict :=
  update metadata [("contains_pii", PBool true); ("pii_types", str_list (categories_of findings));
                   ("pii_flagged_by", PStr "governance.deterministic")].

(** ** Uses of models *)

(** An exception of a model call that no fallback caught. *)
Definition of_llm_exn (e : Retry.llm_exn) : exn :=
  match e with Retry.Cancelled => Cancelled | _ => Raised (OtherExc "LLMError") end.
Definition run_models {T} (m : models) (primary : string) (fake_fn : T) (model : option string)
    (call_fn : nat → res Retry.llm_exn T) : res Retry.llm_exn T :=
  (Retry.call_with_fallback (provider_factory m) primary fake_fn model (resolve_fallback m)
     Retry.LLM_RETRY_ATTEMPTS
     {| Retry.answers := call_fn; Retry.asked := []; Retry.waits := [] |}).1.

(** *** The pre-gate classifier *)

Record BusinessClassification : Type := {
  business_relevance : string;
  confidence : Floats.float;
  bc_llm_ms : Z;
  bc_provider : option string;
  bc_model : option string;
}.
Definition _fail_open : BusinessClassification :=
  {| business_relevance := "business"; confidence := Floats.f0; bc_llm_ms := 0;
     bc_provider := None; bc_model := None |}.

Section Models.
Context `{World} `{PyText} `{Enrichment.PyParsers}.

(** [_do]: the reading of the n-th answer *)
Definition classification (m : models) (n : nat) : res Retry.llm_exn BusinessClassification :=
  '(raw, ms) ← complete_json m n;
  match raw with
  | PDict raw =>
      match Enrichment.float_or Floats.f0 (dgetv raw "confidence") with
      | Ok conf =>
          Ok {| business_relevance :=
                  Enrichment.one_of ["business"; "personal"] "business" (dgetv raw "business_relevance");
                confidence := Enrichment.py_min Enrichment.one (Enrichment.py_max Floats.f0 conf);
                bc_llm_ms := ms;
                bc_provider := Some (used m n).1;
                bc_model := Some (used m n).2 |}
      | Err _ => Err (Retry.ExceptionRaised "OverflowError")
      end
  | _ => Err (Retry.ExceptionRaised "AttributeError")
  end.

Definition classify_business_personal (content : string) (provider model : option string) :
    wr BusinessClassification :=
  let provider_name := match provider with None | Some "" => "openai" | Some p => p end in
  if String.eqb provider_name "none" then mret _fail_open
  else
    m ← perform (AskModels "business_pregate" provider_name model [content]);
    if timed_out m then mret _fail_open
    else io_lift (map_err of_llm_exn (run_models m provider_name _fail_open model (classification m))).

(** *** The judge of duplicates *)

Definition _CONF_CLEAN : Floats.float := Floats.lit 90 100.
Definition _CONF_FALLBACK : Floats.float := Floats.lit 50 100.
Definition DEDUP_JUDGE_CONFIDENCE_THRESHOLD : Floats.float := Floats.lit 60 100.

Definition _judge_dedup (raw : pyval) : bool * Floats.float :=
  match raw with
  | PDict raw =>
      match dgetv raw "is_duplicate", dgetv raw "reason" with
      | PBool is_dup, PStr reason =>
          if String.eqb (str_strip reason) "" then (false, _CONF_FALLBACK) else (is_dup, _CONF_CLEAN)
      | _, _ => (false, _CONF_FALLBACK)
      end
  | _ => (false, _CONF_FALLBACK)
  end.
Definition _fake_dedup_check (new_content old_content : string) : bool :=
  String.eqb (str_lower (join " " (str_split new_content))) (str_lower (join " " (str_split old_content))).

Definition do_check (m : models) (n : nat) : res Retry.llm_exn (bool * Floats.float) :=
  '(raw, _) ← complete_json m n; Ok (_judge_dedup raw).
Definition _llm_dedup_check (new_content old_content : string) (cfg : ResolvedConfig) :
    wr (bool * Floats.float) :=
  let provider_name := entity_extraction_provider cfg in
  m ← perform (AskModels "dedup" provider_name (entity_extraction_model cfg)
                 [char_take 500 new_content; char_take 500 old_content]);
  io_lift (map_err of_llm_exn
    (run_models m provider_name (_fake_dedup_check new_content old_content, _CONF_FALLBACK)
       (entity_extraction_model cfg) (do_check m))).

(** *** Enrichment of a content *)
Definition enrich (content : string) (cfg : ResolvedConfig) : wr Enrichment.EnrichmentResult :=
  let provider_name :=
    if String.eqb (enrichment_provider cfg) "" then "openai" else enrichment_provider cfg in
  m ← perform (AskModels "enrichment" provider_name (enrichment_model cfg) [content]);
  io_lift (map_err of_llm_exn
    (Enrichment.enrich_memory (provider_factory m) (resolve_fallback m) (complete_json m)
       provider_name (enrichment_model cfg) content)).
End Models.

(** ** The identifier filter *)

Definition _IDENTIFIER_PATTERNS : list compiled := [
  re_compile no_flags "\b[0-9a-fA-F]{8}-[0-9a-fA-F]{4}-[0-9a-fA-F]{4}-[0-9a-fA-F]{4}-[0-9a-fA-F]{12}\b";
  re_compile no_flags "\b[Pp][Rr][-#]\d+\b";
  re_compile no_flags "#\d{3,}\b";
  re_compile no_flags "\b[A-Za-z]\w*#\d+\b";
  re_compile no_flags "\b[Bb]uild[-# ]\d+\b";
  re_compile no_flags "\bv\d+\.\d+\.\d+(?:[-+][\w.]+)?\b";
  re_compile no_flags "\b\d+\.\d+\.\d+[-+][\w.]+\b";
  re_compile no_flags "\b[A-Z]{2,}-\d+\b";
  re_compile IGNORECASE "\b(?:sha\d*|md5):[0-9a-fA-F]{6,}\b";
  re_compile IGNORECASE "\b(?:commit|sha|hash|rev|ref)\s+[0-9a-f]{7,40}\b";
  re_compile IGNORECASE "\b[0-9a-f]{40}\b" ].
Definition _content_is_identifier_bearing `{PyText} (content : string) : bool :=
  if String.eqb content "" then false
  else existsb (λ pat, match re_search pat content with Some _ => true | None => false end)
         _IDENTIFIER_PATTERNS.

Example identifier_patterns_compile : forallb compiles _IDENTIFIER_PATTERNS = true.
Proof. vm_compute. reflexivity. Qed.
Section Examples.
#[local] Existing Instance AsciiText.
Example identifier_bearing :
  map _content_is_identifier_bearing ["see PR-42"; "fixed X#42"; "paid $1.99 in 2024"; "deadbeef commit deadbee"] =
  [true; true; false; true].
Proof. vm_compute. reflexivity. Qed.
End Examples.
End WriteCalls.
