(* ===== verification/WritePipeline.v ===== *)
(** * The memory write pipeline
    ([src/core-api/src/core_api/pipeline/], [services/memory_service.py])

    The steps of a write, the runner, the five compositions and
    [create_memory] with its STM, extract-only, auto-chunk, fast and strong
    branches, as programs over the trace of [WriteCalls].  The context is
    passed from step to step; a step that raises an ordinary exception stops
    the pipeline, an HTTP error or a cancellation passes through it.

    Python's [metadata] dict is shared between the request and the merged
    fields; from the merge on it is read and written through the fields only,
    so a copy per step is the same.  Log lines and the latencies that only
    they show are left out. *)

From S2P Require Import Prelude Regex Floats PiiPatterns Retry Enrichment Contradictions EmitTriple WriteCalls.

Module WritePipeline.
Import Regex WriteCalls.
#[local] Open Scope string_scope.
#[local] Open Scope list_scope.

(** ** The context *)

(** [memory_fields]: the columns after the merge of request and enrichment. *)
Record fields : Type := {
  f_type : string;
  f_weight : Floats.float;
  f_title : option string;
  f_metadata : pydict;
  f_start : option datetime;
  f_end : option datetime;
  f_status : string;
}.
Definition with_metadata (md : pydict) (f : fields) : fields :=
  {| f_type := f_type f; f_weight := f_weight f; f_title := f_title f; f_metadata := md;
     f_start := f_start f; f_end := f_end f; f_status := f_status f |}.

Record STMWriteResponse : Type := {
  stm_id : string;
  target : string;
  stm_tenant : string;
  stm_agent : option string;
  stm_content : string;
  ttl : Z;
  stm_posted_at : datetime;
  latency_ms : Z;
}.

(** [PipelineContext]: [tenant_config] and the keys of [data]; a key that is
    read with [data\[...\]] before it is set raises. *)
Record PipelineContext : Type := {
  input : MemoryCreate;
  tenant_config : option ResolvedConfig;
  resolved_write_mode : option string;
  content_hash : option (option string);
  cached_embedding : option vec;
  embedding : option (option vec);
  enrichment : option Enrichment.EnrichmentResult;
  memory_fields : option fields;
  stm_target : option string;
  stm_fleet_id : option string;
  memory : option stored;
  stm_response : option STMWriteResponse;
}.
Definition set_input (v : MemoryCreate) (c : PipelineContext) : PipelineContext :=
  {| input := v; tenant_config := tenant_config c; resolved_write_mode := resolved_write_mode c;
     content_hash := content_hash c; cached_embedding := cached_embedding c;
     embedding := embedding c; enrichment := enrichment c; memory_fields := memory_fields c;
     stm_target := stm_target c; stm_fleet_id := stm_fleet_id c; memory := memory c;
     stm_response := stm_response c |}.
Definition set_tenant_config (v : option ResolvedConfig) (c : PipelineContext) : PipelineContext :=
  {| input := input c; tenant_config := v; resolved_write_mode := resolved_write_mode c;
     content_hash := content_hash c; cached_embedding := cached_embedding c;
     embedding := embedding c; enrichment := enrichment c; memory_fields := memory_fields c;
     stm_target := stm_target c; stm_fleet_id := stm_fleet_id c; memory := memory c;
     stm_response := stm_response c |}.
Definition set_content_hash (v : option (option string)) (c : PipelineContext) : PipelineContext :=
  {| input := input c; tenant_config := tenant_config c;
     resolved_write_mode := resolved_write_mode c; content_hash := v;
     cached_embedding := cached_embedding c; embedding := embedding c;
     enrichment := enrichment c; memory_fields := memory_fields c; stm_target := stm_target c;
     stm_fleet_id := stm_fleet_id c; memory := memory c; stm_response := stm_response c |}.
Definition set_cached_embedding (v : option vec) (c : PipelineContext) : PipelineContext :=
  {| input := input c; tenant_config := tenant_config c;
     resolved_write_mode := resolved_write_mode c; content_hash := content_hash c;
     cached_embedding := v; embedding := embedding c; enrichment := enrichment c;
     memory_fields := memory_fields c; stm_target := stm_target c;
     stm_fleet_id := stm_fleet_id c; memory := memory c; stm_response := stm_response c |}.
Definition set_embedding (v : option (option vec)) (c : PipelineContext) : PipelineContext :=
  {| input := input c; tenant_config := tenant_config c;
     resolved_write_mode := resolved_write_mode c; content_hash := content_hash c;
     cached_embedding := cached_embedding c; embedding := v; enrichment := enrichment c;
     memory_fields := memory_fields c; stm_target := stm_target c;
     stm_fleet_id := stm_fleet_id c; memory := memory c; stm_response := stm_response c |}.
Definition set_enrichment (v : option Enrichment.EnrichmentResult) (c : PipelineContext) : PipelineContext :=
  {| input := input c; tenant_config := tenant_config c;
     resolved_write_mode := resolved_write_mode c; content_hash := content_hash c;
     cached_embedding := cached_embedding c; embedding := embedding c; enrichment := v;
     memory_fields := memory_fields c; stm_target := stm_target c;
     stm_fleet_id := stm_fleet_id c; memory := memory c; stm_response := stm_response c |}.
Definition set_memory_fields (v : option fields) (c : PipelineContext) : PipelineContext :=
  {| input := input c; tenant_config := tenant_config c;
     resolved_write_mode := resolved_write_mode c; content_hash := content_hash c;
     cached_embedding := cached_embedding c; embedding := embedding c;
     enrichment := enrichment c; memory_fields := v; stm_target := stm_target c;
     stm_fleet_id := stm_fleet_id c; memory := memory c; stm_response := stm_response c |}.
Definition set_stm_target (v : option string) (c : PipelineContext) : PipelineContext :=
  {| input := input c; tenant_config := tenant_config c;
     resolved_write_mode := resolved_write_mode c; content_hash := content_hash c;
     cached_embedding := cached_embedding c; embedding := embedding c;
     enrichment := enrichment c; memory_fields := memory_fields c; stm_target := v;
     stm_fleet_id := stm_fleet_id c; memory := memory c; stm_response := stm_response c |}.
Definition set_stm_fleet_id (v : option string) (c : PipelineContext) : PipelineContext :=
  {| input := input c; tenant_config := tenant_config c;
     resolved_write_mode := resolved_write_mode c; content_hash := content_hash c;
     cached_embedding := cached_embedding c; embedding := embedding c;
     enrichment := enrichment c; memory_fields := memory_fields c; stm_target := stm_target c;
     stm_fleet_id := v; memory := memory c; stm_response := stm_response c |}.
Definition set_memory (v : option stored) (c : PipelineContext) : PipelineContext :=
  {| input := input c; tenant_config := tenant_config c;
     resolved_write_mode := resolved_write_mode c; content_hash := content_hash c;
     cached_embedding := cached_embedding c; embedding := embedding c;
     enrichment := enrichment c; memory_fields := memory_fields c; stm_target := stm_target c;
     stm_fleet_id := stm_fleet_id c; memory := v; stm_response := stm_response c |}.
Definition set_stm_response (v : option STMWriteResponse) (c : PipelineContext) : PipelineContext :=
  {| input := input c; tenant_config := tenant_config c;
     resolved_write_mode := resolved_write_mode c; content_hash := content_hash c;
     cached_embedding := cached_embedding c; embedding := embedding c;
     enrichment := enrichment c; memory_fields := memory_fields c; stm_target := stm_target c;
     stm_fleet_id := stm_fleet_id c; memory := memory c; stm_response := v |}.

Inductive StepOutcome : Type :=
| SUCCESS
| SKIPPED (reason : option string).
Abbreviation step := (PipelineContext → wr (StepOutcome * PipelineContext)).

Section Steps.
Context `{World} `{PiiPatterns.PyRuntime} `{Enrichment.PyParsers} `{WriteRuntime} (settings : Settings).

Definition done (c : PipelineContext) : wr (StepOutcome * PipelineContext) := mret (SUCCESS, c).
Definition skip (c : PipelineContext) : wr (StepOutcome * PipelineContext) := mret (SKIPPED None, c).
Definition skip_for (reason : string) (c : PipelineContext) : wr (StepOutcome * PipelineContext) :=
  mret (SKIPPED (Some reason), c).
(** an attribute of [None] *)
Definition attr {A} (o : option A) : wr A :=
  match o with Some a => mret a | None => io_raise (Raised AttributeError) end.

(** ** Checks and configuration *)

Definition CRYSTALLIZER_SHORT_CONTENT_CHARS : Z := 10.
Definition too_short : string := "Memory content too short (minimum 10 characters).".
Definition rejected_pii : string := "Memory rejected by content policy: sensitive data detected".
Definition rejected_nonbusiness : string := "Memory rejected by content policy: non-business content".

Definition CheckContentLength : step := λ c,
  if (char_len (str_strip (content (input c))) <? CRYSTALLIZER_SHORT_CONTENT_CHARS)%Z
  then http 422 too_short else done c.

Definition LoadTenantConfig : step := λ c,
  cfg ← perform (ResolveConfig (tenant_id (input c)));
  done (set_tenant_config (Some cfg) c).

(** ** The deterministic gate *)

Definition scan_text (text : string) (gov : _GovPII) : res pyexn (list PiiPatterns.Finding) :=
  PiiPatterns.scan (codepoints text) (enabled_categories gov).
Definition mask_text (text : string) (findings : list PiiPatterns.Finding) : string :=
  encode_text (PiiPatterns.mask (codepoints text) findings).

Definition GovernanceScanContent : step := λ c,
  let data := input c in
  match tenant_config c with
  | None => skip c
  | Some cfg =>
      gov ← py (governance_pii cfg);
      if negb (pii_enabled gov) then skip c
      else if String.eqb (content data) "" then done c
      else
        findings ← py (scan_text (content data) gov);
        match findings with
        | [] => done c
        | _ =>
            let mode := resolved_write_mode c in
            let audit a critical :=
              emit_governance_audit (tenant_id data) (agent_id data) a
                (pii_audit_detail a findings (content data) mode) None critical in
            if py_eqb (action gov) (PStr "drop") then
              _ ← audit ACTION_PII_DROP true;
              http 422 rejected_pii
            else if py_eqb (action gov) (PStr "mask") then
              _ ← audit ACTION_PII_MASK false;
              done (set_input (set_content (mask_text (content data) findings) data) c)
            else
              let data := set_metadata (Some (mark_pii_flagged (default [] (metadata data)) findings)) data in
              _ ← audit ACTION_PII_FLAG false;
              done (set_input data c)
        end
  end.

(** ** The pre-gate *)

(** [x or 0.0], as a number to compare with *)
Definition threshold (v : pyval) : res pyexn Floats.float :=
  if negb (truthy v) then Ok Floats.f0
  else match v with
       | PFloat q => Ok (Floats.of_Q q)
       | PInt z => Ok (Floats.of_Z z)
       | PBool b => Ok (Floats.of_Z (Z.b2z b))
       | _ => Err TypeError
       end.

Definition BusinessPersonalPregate : step := λ c,
  match tenant_config c with
  | None => skip c
  | Some cfg =>
      nb ← py (governance_non_business cfg);
      pregate ← py (governance_non_business_pregate cfg);
      if negb (nb_enabled nb && pregate_enabled pregate && py_eqb (disposition nb) (PStr "drop"))
      then skip c
      else
        let data := input c in
        let mode := resolved_write_mode c in
        let provider := match pregate_provider pregate with
                        | Some p => Some p | None => Some (enrichment_provider cfg) end in
        result ← classify_business_personal (content data) provider (pregate_model pregate);
        match bc_provider result with
        | None =>
            if fail_closed pregate then
              _ ← emit_governance_audit (tenant_id data) (agent_id data) ACTION_NB_PREGATE_UNAVAILABLE
                    (nonbusiness_pregate_audit_detail ACTION_NB_PREGATE_UNAVAILABLE (content data) mode
                       (opt_str provider) (opt_str (pregate_model pregate)) PNone) None true;
              http 503 "Content policy classifier unavailable; write rejected (fail-closed)"
            else done c
        | Some _ =>
            if String.eqb (business_relevance result) "personal" then
              least ← py (threshold (min_confidence pregate));
              if Floats.fle least (confidence result) then
                _ ← emit_governance_audit (tenant_id data) (agent_id data) ACTION_NB_PREGATE_DROP
                      (nonbusiness_pregate_audit_detail ACTION_NB_PREGATE_DROP (content data) mode
                         (opt_str (bc_provider result)) (opt_str (bc_model result))
                         (PFloat (Floats.to_Q (confidence result)))) None true;
                http 422 rejected_nonbusiness
              else done c
            else done c
        end
  end.

(** ** Hash, embedding and enrichment *)

Definition _content_hash (tenant : string) (fleet : option string) (text : string) : string :=
  sha256 (tenant ++ ":" ++ default "" fleet ++ ":" ++ text)%string.

Definition ComputeContentHash : step := λ c,
  let data := input c in
  let ch := if persist data
            then Some (_content_hash (tenant_id data) (fleet_id data) (content data)) else None in
  let c := set_content_hash (Some ch) c in
  cached ← match ch with
           | Some h =>
               if negb (String.eqb h "") && inline_embedding settings
               then perform (FindEmbedding (tenant_id data) h) else mret None
           | None => mret None
           end;
  done (set_cached_embedding cached c).

(** A task of a [gather]: it runs, and its exception is kept. *)
Definition spawned {A} (m : wr A) : wr (res exn A) := λ t, let '(r, t') := m t in (Ok r, t').

Definition defer_embedding (mode : option string) (cached : option vec) : bool :=
  match mode with
  | Some "strong" => false
  | _ => negb (inline_embedding settings) && match cached with None => true | Some _ => false end
  end.
Definition defer_enrichment (mode : option string) : bool :=
  match mode with
  | Some "strong" => false
  | Some "fast" => true
  | _ => negb (inline_enrichment settings)
  end.

(** The tasks the step creates; the cached embedding is a task of its own. *)
Definition embedding_work (c : PipelineContext) : option (wr (option vec)) :=
  match cached_embedding c with
  | Some v => Some (mret (Some v))
  | None => if defer_embedding (resolved_write_mode c) None then None
            else Some (perform (Embed (content (input c))))
  end.
Definition enrichment_work (c : PipelineContext) : wr (option (wr Enrichment.EnrichmentResult)) :=
  if defer_enrichment (resolved_write_mode c) then mret None
  else
    cfg ← attr (tenant_config c);
    mret (if enrichment_enabled cfg && negb (String.eqb (enrichment_provider cfg) "none")
          then Some (enrich (content (input c)) cfg) else None).

(** [asyncio.wait_for(asyncio.gather(...))] of the tasks there are *)
Definition gather (embedding_task : option (wr (option vec)))
    (enrichment_task : option (wr Enrichment.EnrichmentResult)) :
    wr (option vec * option Enrichment.EnrichmentResult) :=
  match embedding_task, enrichment_task with
  | None, None => mret (None, None)
  | _, _ =>
      emb ← spawned (match embedding_task with Some m => m | None => mret None end);
      enr ← spawned (match enrichment_task with Some m => r ← m; mret (Some r) | None => mret None end);
      late ← observed TimedOut;
      if (late : bool) then http 504 "Memory write timed out (embedding/enrichment)"
      else
        emb ← io_lift emb;
        enr ← io_lift enr;
        mret (emb, enr)
  end.

Definition ParallelEmbedEnrich : step := λ c,
  enrichment_task ← enrichment_work c;
  '(emb, enr) ← gather (embedding_work c) enrichment_task;
  done (set_enrichment enr (set_embedding (Some emb) c)).

(** ** The merge *)

(** [s.replace("Z", "+00:00")] *)
Fixpoint replace_Z (s : string) : string :=
  match s with
  | EmptyString => ""
  | String "Z" s => ("+00:00" ++ replace_Z s)%string
  | String ch s => String ch (replace_Z s)
  end.
Definition parse_date (given : option datetime) (extracted : option string) : res pyexn (option datetime) :=
  match given, extracted with
  | Some d, _ => Ok (Some d)
  | None, (None | Some "") => Ok None
  | None, Some s => match fromisoformat (replace_Z s) with Some d => Ok (Some d) | None => Err ValueError end
  end.
Definition set_if (b : bool) (k : string) (v : pyval) (d : pydict) : pydict := if b then dset d k v else d.

Definition enriched_metadata (e : Enrichment.EnrichmentResult) (md : pydict) : pydict :=
  let md := set_if (negb (String.eqb (Enrichment.summary e) "")) "summary" (PStr (Enrichment.summary e)) md in
  let md := set_if (match Enrichment.tags e with [] => false | _ => true end)
              "tags" (str_list (Enrichment.tags e)) md in
  let md := set_if (negb (Enrichment.llm_ms e =? 0)%Z) "llm_ms" (PInt (Enrichment.llm_ms e)) md in
  let md := if Enrichment.contains_pii e
            then set_if (match Enrichment.pii_types e with [] => false | _ => true end)
                   "pii_types" (str_list (Enrichment.pii_types e)) (dset md "contains_pii" (PBool true))
            else md in
  dset md "business_relevance" (PStr (Enrichment.business_relevance e)).

Definition MergeEnrichmentFields : step := λ c,
  let data := input c in
  let e := enrichment c in
  let given_type := match memory_type data with
                    | Some t => if str_mem t Enrichment.CLASSIFIER_DEPRECATED_MEMORY_TYPES
                                then Some Enrichment.DEFAULT_MEMORY_TYPE else Some t
                    | None => None
                    end in
  let md := default [] (metadata data) in
  start ← py (parse_date (ts_valid_start data) (e ≫= Enrichment.ts_valid_start));
  end_ ← py (parse_date (ts_valid_end data) (e ≫= Enrichment.ts_valid_end));
  let md := match e with Some e => enriched_metadata e md | None => md end in
  let st := str_or (status data) (match e with Some e => Enrichment.status e | None => "" end) in
  let mode := str_or (resolved_write_mode c) "" in
  let md := set_if (negb (String.eqb mode "")) "write_mode" (PStr mode) md in
  let md := set_if (String.eqb mode "fast" && match e with None => true | Some _ => false end)
              "enrichment_pending" (PBool true) md in
  done (set_memory_fields (Some {|
    f_type := default Enrichment.DEFAULT_MEMORY_TYPE
                (match given_type with Some t => Some t | None => Enrichment.memory_type <$> e end);
    f_weight := default Enrichment.DEFAULT_MEMORY_WEIGHT
                  (match weight data with Some w => Some w | None => Enrichment.weight <$> e end);
    f_title := match e with
               | Some e => if String.eqb (Enrichment.title e) "" then None else Some (Enrichment.title e)
               | None => None
               end;
    f_metadata := md;
    f_start := start;
    f_end := end_;
    f_status := str_or (Some st) "active" |}) c).

(** ** The decision on the model's signal *)

Definition on_metadata (f : pydict → pydict) (c : PipelineContext) : PipelineContext :=
  set_memory_fields ((λ mf, with_metadata (f (f_metadata mf)) mf) <$> memory_fields c) c.

Definition configured (gov : _GovPII) : option string :=
  if py_eqb (action gov) (PStr "mask") then Some ACTION_PII_MASK else None.

(** Without merged fields the metadata is the request's own. *)
Definition note_metadata (f : pydict → pydict) (c : PipelineContext) : PipelineContext :=
  match memory_fields c with
  | Some _ => on_metadata f c
  | None => set_input (set_metadata (Some (f (default [] (metadata (input c))))) (input c)) c
  end.

Definition decision_audit (c : PipelineContext) (a : string) (detail : pydict) (critical : bool) : wr unit :=
  emit_governance_audit (tenant_id (input c)) (agent_id (input c)) a detail None critical.

(** The model's judgement on sensitive data, and on the relevance. *)
Definition decide_pii (pii : _GovPII) (e : Enrichment.EnrichmentResult) (c : PipelineContext) :
    wr PipelineContext :=
  let detail a := llm_pii_audit_detail a (Enrichment.pii_types e) (content (input c)) (resolved_write_mode c) in
  if pii_enabled pii && Enrichment.contains_pii e then
    if py_eqb (action pii) (PStr "drop") then
      _ ← decision_audit c ACTION_PII_DROP (detail ACTION_PII_DROP None) true;
      http 422 rejected_pii
    else
      let c' := note_metadata (λ md,
        set_if (match Enrichment.pii_types e with [] => false | _ => true end)
          "pii_types" (str_list (Enrichment.pii_types e)) (dset md "contains_pii" (PBool true))) c in
      _ ← decision_audit c ACTION_PII_FLAG (detail ACTION_PII_FLAG (configured pii)) false;
      mret c'
  else mret c.
Definition decide_relevance (nb : _GovNB) (e : Enrichment.EnrichmentResult) : step := λ c,
  let detail a := nonbusiness_audit_detail a (content (input c)) (resolved_write_mode c) in
  if nb_enabled nb && String.eqb (Enrichment.business_relevance e) "personal" then
    if py_eqb (disposition nb) (PStr "drop") then
      _ ← decision_audit c ACTION_NB_DROP (detail ACTION_NB_DROP) true;
      http 422 rejected_nonbusiness
    else if py_eqb (disposition nb) (PStr "keep_private") then
      let c' := note_metadata (λ md, dset md "nonbusiness_kept_private" (PBool true))
                  (set_input (set_visibility (Some "scope_agent") (input c)) c) in
      _ ← decision_audit c ACTION_NB_KEEP_PRIVATE (detail ACTION_NB_KEEP_PRIVATE) false;
      done c'
    else done c
  else done c.

(** A signal that is absent, or the heuristic's, is uncertain. *)
Definition certain (o : option Enrichment.EnrichmentResult) : option Enrichment.EnrichmentResult :=
  match o with
  | Some e => if (Enrichment.llm_ms e =? 0)%Z then None else Some e
  | None => None
  end.

Definition GovernanceDecision : step := λ c,
  match tenant_config c with
  | None => skip c
  | Some cfg =>
      pii ← py (governance_pii cfg);
      nb ← py (governance_non_business cfg);
      if negb (pii_enabled pii) && negb (nb_enabled nb) then skip c
      else
        match certain (enrichment c) with
        | None => done (note_metadata (λ md, dset md "governance_llm_uncertain" (PBool true)) c)
        | Some e => c ← decide_pii pii e c; decide_relevance nb e c
        end
  end.

(** ** The triple *)

Definition skip_text (r : EmitTriple.skip_reason) : string :=
  match r with
  | EmitTriple.flag_off => "flag_off" | EmitTriple.already_set => "already_set"
  | EmitTriple.no_predicate_match => "no_predicate_match"
  | EmitTriple.ambiguous_predicate => "ambiguous_predicate"
  | EmitTriple.predicate_not_in_allowlist => "predicate_not_in_allowlist"
  | EmitTriple.ambiguous_subject => "ambiguous_subject" | EmitTriple.no_subject => "no_subject"
  | EmitTriple.object_unparseable => "object_unparseable"
  | EmitTriple.subject_upsert_failed => "subject_upsert_failed"
  end.

Definition EmitMemoryTriple : step := λ c,
  let data := input c in
  let skip_as r := skip_for (skip_text r) c in
  if match tenant_config c with Some cfg => negb (triple_emission_enabled cfg) | None => false end
  then skip_as EmitTriple.flag_off
  else
    match subject_entity_id data, predicate data, object_value data with
    | None, None, None =>
        match EmitTriple.read_triple ((λ l, (entity_id l, Some (role l))) <$> entity_links data)
                (content data) with
        | inr reason => skip_as reason
        | inl (s, pred, obj) =>
            subject ← match s with
                      | EmitTriple.Given e => mret (Some e)
                      | EmitTriple.Inferred token =>
                          caught (e ← perform (UpsertEntity (tenant_id data) (fleet_id data)
                                                 "identifier" token); mret (Some e))
                            (mret None)
                      end;
            match subject with
            | None => skip_as EmitTriple.subject_upsert_failed
            | Some e =>
                let data := set_object_value (Some obj) (set_predicate (Some pred)
                              (set_subject_entity_id (Some e) data)) in
                emit_ms ← observed ElapsedMs1;
                done (on_metadata (λ md, dset md "triple_emission_ms" (PFloat emit_ms)) (set_input data c))
            end
        end
    | _, _, _ => skip_as EmitTriple.already_set
    end.

(** ** Duplicates *)

Definition CheckExactDuplicate : step := λ c,
  let data := input c in
  ch ← keyed (content_hash c);
  dup ← perform (FindByHash (tenant_id data) ch (fleet_id data) (agent_id data));
  match dup with
  | Some id => http 409 ("Duplicate memory exists: " ++ id)%string
  | None => done c
  end.

Definition SEMANTIC_DEDUP_AUTO_THRESHOLD : Floats.float := Floats.lit 97 100.
Definition SEMANTIC_DEDUP_JUDGE_THRESHOLD : Floats.float := Floats.lit 85 100.

Definition near_duplicate (id : string) : string := ("Near-duplicate memory exists: " ++ id)%string.
Definition review (data : MemoryCreate) (cand : candidate) (verdict : option bool)
    (conf : option Floats.float) (band : string) : dedup_review :=
  {| rv_tenant := tenant_id data; rv_fleet := fleet_id data; rv_agent := agent_id data;
     rv_candidate := cand_id cand; new_content := content data; candidate_content := cand_content cand;
     similarity := cand_similarity cand; judge_verdict := verdict; judge_confidence := conf;
     decision_band := band |}.
Definition _enqueue_dedup_review (r : dedup_review) : wr unit :=
  caught (perform (EnqueueDedupReview r)) (mret tt).

Definition float_val (x : Floats.float) : pyval := PFloat (Floats.to_Q x).

Definition CheckSemanticDuplicate : step := λ c,
  let data := input c in
  emb ← keyed (embedding c);
  _ ← keyed (memory_fields c);
  cfg ← attr (tenant_config c);
  match emb with
  | None => skip c
  | Some emb =>
      if negb (semantic_dedup_enabled cfg) then skip c
      else if _content_is_identifier_bearing (content data) then
        skip_for "identifier_prefilter"
          (on_metadata (λ md, dset md "dedup_skipped_reason" (PStr "identifier_prefilter")) c)
      else
        sem_dup ← perform (FindSemanticDuplicate (tenant_id data) (fleet_id data) emb
                             (str_or (visibility data) "scope_team") SEMANTIC_DEDUP_JUDGE_THRESHOLD);
        ms ← observed ElapsedMs1;
        let c := on_metadata (λ md, dset md "semantic_dedup_ms" (PFloat ms)) c in
        match sem_dup with
        | None => done c
        | Some cand =>
            let sim := cand_similarity cand in
            if Floats.fle SEMANTIC_DEDUP_AUTO_THRESHOLD sim then
              _ ← _enqueue_dedup_review (review data cand None None "auto_reject");
              http 409 (near_duplicate (cand_id cand))
            else if Contradictions._subjects_differ_with_certainty (subject_entity_id data) (cand_subject cand) then
              done (on_metadata (λ md, update md
                      [("dedup_subject_preflight", PStr "skipped_judge_subjects_differ");
                       ("dedup_candidate_similarity", float_val sim)]) c)
            else
              '(is_dup, conf) ← _llm_dedup_check (content data) (cand_content cand) cfg;
              ms ← observed ElapsedMs1;
              let c := on_metadata (λ md, update md
                         [("dedup_judge_ms", PFloat ms); ("dedup_judge_confidence", float_val conf);
                          ("dedup_candidate_similarity", float_val sim)]) c in
              if is_dup && Floats.fle DEDUP_JUDGE_CONFIDENCE_THRESHOLD conf then
                _ ← _enqueue_dedup_review (review data cand (Some true) (Some conf) "judge_band_reject");
                http 409 (near_duplicate (cand_id cand))
              else
                _ ← (if (is_dup : bool)
                     then _enqueue_dedup_review
                            (review data cand (Some true) (Some conf) "judge_low_conf_accept")
                     else mret tt);
                done c
        end
  end.

Definition DetectNearDuplicate : step := λ c,
  let data := input c in
  emb ← keyed (embedding c);
  _ ← keyed (memory_fields c);
  cfg ← attr (tenant_config c);
  match emb with
  | None => skip c
  | Some emb =>
      if negb (semantic_dedup_enabled cfg) then skip c
      else if _content_is_identifier_bearing (content data) then
        skip_for "identifier_prefilter"
          (on_metadata (λ md, dset md "near_dup_skipped_reason" (PStr "identifier_prefilter")) c)
      else
        sem_dup ← perform (FindSemanticDuplicate (tenant_id data) (fleet_id data) emb
                             (str_or (visibility data) "scope_team") SEMANTIC_DEDUP_JUDGE_THRESHOLD);
        ms ← observed ElapsedMs1;
        let c := on_metadata (λ md, dset md "near_dup_check_ms" (PFloat ms)) c in
        match sem_dup with
        | None => done c
        | Some cand =>
            done (on_metadata (λ md, update md
                    [("near_duplicate_of", PStr (cand_id cand));
                     ("near_duplicate_similarity", PFloat (round4 (cand_similarity cand)))]) c)
        end
  end.

(** ** The row and what follows it *)

Fixpoint for_each {A} (f : A → wr unit) (l : list A) : wr unit :=
  match l with [] => mret tt | x :: l => _ ← f x; for_each f l end.

Definition row_of (data : MemoryCreate) (mf : fields) (emb : option vec) (ch : option string) : memory_row :=
  {| r_tenant := tenant_id data; r_fleet := fleet_id data; r_agent := agent_id data;
     r_type := f_type mf; r_title := f_title mf; r_content := content data; r_embedding := emb;
     r_weight := f_weight mf; r_source_uri := source_uri data; r_run_id := run_id data;
     r_metadata := f_metadata mf; r_content_hash := ch;
     r_expires_at := str_datetime <$> expires_at data;
     r_subject := subject_entity_id data; r_predicate := predicate data; r_object := object_value data;
     r_start := str_datetime <$> f_start mf; r_end := str_datetime <$> f_end mf;
     r_status := f_status mf; r_visibility := str_or (visibility data) "scope_team";
     r_client_request_id := None |}.

Definition create_links (memory_id : string) (links : list EntityLinkIn) : wr unit :=
  for_each (λ l, perform (CreateEntityLink memory_id (entity_id l) (role l))) links.

Definition audit_create (data : MemoryCreate) (memory_id : string) (detail : pydict) : wr unit :=
  if audit_hook settings
  then caught (perform (AuditHook (tenant_id data) (agent_id data) "create" memory_id detail)) (mret tt)
  else mret tt.

Definition WriteMemoryRow : step := λ c,
  let data := input c in
  emb ← keyed (embedding c);
  ch ← keyed (content_hash c);
  mf ← keyed (memory_fields c);
  let md := set_if (match emb with None => true | Some _ => false end)
              "embedding_pending" (PBool true) (f_metadata mf) in
  write_ms ← observed ElapsedMs;
  let mf := with_metadata (dset md "write_latency_ms" (PInt write_ms)) mf in
  let c := set_memory_fields (Some mf) c in
  memory ← perform (CreateMemory (row_of data mf emb ch));
  _ ← create_links (s_id memory) (entity_links data);
  _ ← audit_create data (s_id memory)
        [("memory_type", PStr (f_type mf)); ("title", opt_str (f_title mf));
         ("content_length", PInt (char_len (content data))); ("write_latency_ms", PInt write_ms)];
  done (set_memory (Some memory) c).

Definition _ENRICHMENT_AGENT_OVERRIDE_FIELDS : list string :=
  ["memory_type"; "weight"; "status"; "ts_valid_start"; "ts_valid_end"].
Definition _agent_provided_enrichment_fields (data : MemoryCreate) : option (list string) :=
  match sorted_set (List.filter (λ f, str_mem f (fields_set data)) _ENRICHMENT_AGENT_OVERRIDE_FIELDS) with
  | [] => None
  | overlap => Some overlap
  end.

Definition enrich_task (memory_id : string) (data : MemoryCreate) : task :=
  EnrichTask memory_id (content data) (tenant_id data) (fleet_id data) (agent_id data)
    (_agent_provided_enrichment_fields data) (reference_datetime data).
Definition extract_task (memory_id : string) (data : MemoryCreate) : task :=
  ExtractTask memory_id (tenant_id data) (fleet_id data) (agent_id data) (content data) (memory_type data).
(** The detection of contradictions, or without an embedding its backfill. *)
Definition embedding_task (memory_id : string) (data : MemoryCreate) (emb : option vec)
    (ch : option string) : task :=
  match emb with
  | Some v => DetectTask memory_id (tenant_id data) (fleet_id data) (content data) v
  | None => EmbedTask memory_id (content data) (tenant_id data) ch
  end.

Definition ScheduleBackgroundTasks : step := λ c,
  let data := input c in
  memory ← keyed (memory c);
  emb ← keyed (embedding c);
  cfg ← attr (tenant_config c);
  let id := s_id memory in
  let follow :=
    _ ← (if entity_extraction_enabled cfg then track_task (extract_task id data) else mret tt);
    _ ← track_task (embedding_task id data emb (default None (content_hash c)));
    done c in
  if String.eqb (str_or (resolved_write_mode c) "") "fast" then
    _ ← (if enrichment_enabled cfg then track_task (enrich_task id data) else mret tt);
    follow
  else
    _ ← (if match enrichment c with None => true | Some _ => false end && negb (inline_enrichment settings) &&
            enrichment_enabled cfg && negb (String.eqb (enrichment_provider cfg) "none")
         then track_task (enrich_task id data) else mret tt);
    follow.

(** ** Short-term memory *)

Definition ResolveSTMTarget : step := λ c,
  let data := input c in
  if String.eqb (str_or (visibility data) "scope_agent") "scope_agent"
  then done (set_stm_target (Some "notes") c)
  else done (set_stm_fleet_id (fleet_id data) (set_stm_target (Some "bulletin") c)).

Definition WriteSTMNote : step := λ c,
  let data := input c in
  tgt ← keyed (stm_target c);
  now ← observed Now;
  id ← observed NewUuid;
  let entry := {| e_id := id; e_agent := agent_id data; e_content := content data;
                  e_type := str_or (memory_type data) "fact";
                  e_metadata := default [] (metadata data); posted_at := now |} in
  life ← (if String.eqb tgt "notes" then
            _ ← perform (PostNote (tenant_id data) (agent_id data) entry);
            mret (stm_notes_ttl settings)
          else
            let fleet := str_or (stm_fleet_id c) (str_or (fleet_id data) "default") in
            _ ← perform (PostBulletin (tenant_id data) fleet entry);
            mret (stm_bulletin_ttl settings));
  ms ← observed ElapsedMs;
  done (set_stm_response (Some {|
    stm_id := id; target := tgt; stm_tenant := tenant_id data; stm_agent := agent_id data;
    stm_content := content data; ttl := life; stm_posted_at := now; latency_ms := ms |}) c).

(** ** The runner *)

Record PipelineResult : Type := { outcomes : list StepOutcome; failed : bool }.
Definition recorded (o : StepOutcome) (r : PipelineResult) : PipelineResult :=
  {| outcomes := o :: outcomes r; failed := failed r |}.

Fixpoint run (steps : list step) (c : PipelineContext) : wr (PipelineResult * PipelineContext) :=
  match steps with
  | [] => mret ({| outcomes := []; failed := false |}, c)
  | s :: steps =>
      io_try (s c)
        (λ oc, '(r, c) ← run steps oc.2; mret (recorded oc.1 r, c))
        (λ e, match e with
              | Raised _ => mret ({| outcomes := []; failed := true |}, c)
              | _ => io_raise e
              end)
  end.

Definition build_enrichment_pipeline : list step :=
  [CheckContentLength; LoadTenantConfig; GovernanceScanContent; ComputeContentHash;
   ParallelEmbedEnrich; MergeEnrichmentFields].
Definition build_persist_pipeline : list step :=
  [EmitMemoryTriple; CheckExactDuplicate; CheckSemanticDuplicate; WriteMemoryRow; ScheduleBackgroundTasks].
Definition build_fast_write_pipeline : list step :=
  [CheckContentLength; LoadTenantConfig; GovernanceScanContent; BusinessPersonalPregate;
   ComputeContentHash; ParallelEmbedEnrich; MergeEnrichmentFields; EmitMemoryTriple;
   CheckExactDuplicate; DetectNearDuplicate; WriteMemoryRow; ScheduleBackgroundTasks].
Definition build_stm_write_pipeline : list step :=
  [CheckContentLength; GovernanceScanContent; ResolveSTMTarget; WriteSTMNote].
Definition build_strong_write_pipeline : list step :=
  [CheckContentLength; LoadTenantConfig; GovernanceScanContent; BusinessPersonalPregate;
   ComputeContentHash; ParallelEmbedEnrich; MergeEnrichmentFields; GovernanceDecision;
   EmitMemoryTriple; CheckExactDuplicate; CheckSemanticDuplicate; WriteMemoryRow;
   ScheduleBackgroundTasks].

(** ** [create_memory] *)

Inductive response : Type :=
| StoredOut (memory : stored) (links : list EntityLinkIn)
| ExtractOut (id : string) (data : MemoryCreate) (mf : fields) (created_at : datetime)
| ChunkedOut (parent : stored)
| StmOut (r : STMWriteResponse).

Definition _STRONG_TYPES : list string := ["decision"; "commitment"; "cancellation"].
Definition _resolve_write_mode (data : MemoryCreate) (cfg : ResolvedConfig) : string :=
  match write_mode data with
  | Some m => if str_mem m ["fast"; "strong"; "stm"] then m
              else if str_mem (default "" (memory_type data)) _STRONG_TYPES then "strong"
              else default_write_mode cfg
  | None => if str_mem (default "" (memory_type data)) _STRONG_TYPES then "strong"
            else default_write_mode cfg
  end.

Definition CHUNKING_THRESHOLD_CHARS : Z := 2000.

Definition context (data : MemoryCreate) (cfg : option ResolvedConfig) (mode : option string) : PipelineContext :=
  {| input := data; tenant_config := cfg; resolved_write_mode := mode; content_hash := None;
     cached_embedding := None; embedding := None; enrichment := None; memory_fields := None;
     stm_target := None; stm_fleet_id := None; memory := None; stm_response := None |}.

(** The pipeline's context, or 500 when a step failed. *)
Definition finished (steps : list step) (c : PipelineContext) (detail : string) : wr PipelineContext :=
  '(r, c) ← run steps c;
  if failed r then http 500 detail else mret c.

Definition write_failed : string := "Memory write pipeline failed unexpectedly".

(** [except (ValueError, RuntimeError, JSONDecodeError, OpenAIError, GoogleAPIError)];
    a [JSONDecodeError] is a [ValueError]. *)
Definition chunking_error (e : exn) : bool :=
  match e with
  | Raised (ValueError | RuntimeError) => true
  | Raised (OtherExc n) => str_mem n ["OpenAIError"; "GoogleAPIError"]
  | _ => false
  end.

Definition child_row (data : MemoryCreate) (mf : fields) (parent_id request_id : string)
    (fact : chunk * option vec) : memory_row :=
  {| r_tenant := tenant_id data; r_fleet := fleet_id data; r_agent := agent_id data;
     r_type := default "fact" (ch_type fact.1); r_title := None; r_content := ch_content fact.1;
     r_embedding := fact.2; r_weight := f_weight mf; r_source_uri := source_uri data;
     r_run_id := run_id data;
     r_metadata := [("parent_memory_id", PStr parent_id); ("source", PStr "auto_chunk")];
     r_content_hash := Some (_content_hash (tenant_id data) (fleet_id data) (ch_content fact.1));
     r_expires_at := Enrichment.isoformat <$> expires_at data;
     r_subject := None; r_predicate := None; r_object := None; r_start := None; r_end := None;
     r_status := f_status mf; r_visibility := str_or (visibility data) "scope_team";
     r_client_request_id := Some request_id |}.
Fixpoint child_rows (data : MemoryCreate) (mf : fields) (parent_id : string)
    (facts : list (chunk * option vec)) : wr (list memory_row) :=
  match facts with
  | [] => mret []
  | fact :: facts =>
      id ← observed NewUuid;
      rows ← child_rows data mf parent_id facts;
      mret (child_row data mf parent_id ("auto-chunk:" ++ id)%string fact :: rows)
  end.

Definition parent_row (data : MemoryCreate) (mf : fields) (emb : option vec) : memory_row :=
  let row := row_of data mf emb (Some (_content_hash (tenant_id data) (fleet_id data) (content data))) in
  {| r_tenant := r_tenant row; r_fleet := r_fleet row; r_agent := r_agent row; r_type := r_type row;
     r_title := r_title row; r_content := r_content row; r_embedding := r_embedding row;
     r_weight := r_weight row; r_source_uri := r_source_uri row; r_run_id := r_run_id row;
     r_metadata := r_metadata row; r_content_hash := r_content_hash row;
     r_expires_at := Enrichment.isoformat <$> expires_at data;
     r_subject := r_subject row; r_predicate := r_predicate row; r_object := r_object row;
     r_start := Enrichment.isoformat <$> f_start mf; r_end := Enrichment.isoformat <$> f_end mf;
     r_status := r_status row; r_visibility := r_visibility row; r_client_request_id := None |}.

(** More than one fact: the parent row and one child per fact. *)
Definition store_chunked (data : MemoryCreate) (cfg : ResolvedConfig) (mf : fields) (emb : option vec)
    (facts : list chunk) : wr response :=
  ms ← observed ElapsedMs;
  let n := Z.of_nat (length facts) in
  let mf' := with_metadata (update (f_metadata mf)
               [("auto_chunked", PBool true); ("child_count", PInt n); ("write_latency_ms", PInt ms)]) mf in
  _ ← perform (EnterStorageSlot (tenant_id data));
  parent ← perform (CreateMemory (parent_row data mf' emb));
  _ ← audit_create data (s_id parent)
        [("memory_type", PStr (f_type mf)); ("title", opt_str (f_title mf));
         ("content_length", PInt (char_len (content data))); ("auto_chunked", PBool true);
         ("child_count", PInt n)];
  embs ← perform (EmbedBatch (ch_content <$> facts));
  rows ← child_rows data mf (s_id parent) (combine facts embs);
  _ ← perform (EnterStorageSlot (tenant_id data));
  _ ← perform (CreateMemories rows);
  _ ← (if entity_extraction_enabled cfg then track_task (extract_task (s_id parent) data) else mret tt);
  mret (ChunkedOut parent).

Definition _handle_auto_chunk_from_ctx (c : PipelineContext) : wr response :=
  let data := input c in
  mf ← keyed (memory_fields c);
  emb ← keyed (embedding c);
  cfg ← attr (tenant_config c);
  facts ← io_try (perform (ChunkContent (content data))) mret
            (λ e, if chunking_error e then mret [] else io_raise e);
  match facts with
  | _ :: _ :: _ => store_chunked data cfg mf emb facts
  | _ =>
      c ← finished build_persist_pipeline c write_failed;
      memory ← keyed (memory c);
      mret (StoredOut memory (entity_links (input c)))
  end.

Definition stm_write (data : MemoryCreate) : wr response :=
  if negb (use_stm settings)
  then http 422 "STM is not enabled. Set USE_STM=true to enable short-term memory."
  else
    cfg ← perform (ResolveConfig (tenant_id data));
    c ← finished build_stm_write_pipeline (context data (Some cfg) None)
          "STM write pipeline failed unexpectedly";
    r ← keyed (stm_response c);
    mret (StmOut r).

Definition enrich_first (data : MemoryCreate) : wr response :=
  c ← finished build_enrichment_pipeline (context data None None)
        "Memory enrichment pipeline failed unexpectedly";
  mf ← keyed (memory_fields c);
  if negb (persist data) then
    id ← observed NewUuid;
    now ← observed Now;
    mret (ExtractOut id (input c) mf now)
  else _handle_auto_chunk_from_ctx c.

Definition write_row (data : MemoryCreate) (cfg : ResolvedConfig) : wr response :=
  let mode := _resolve_write_mode data cfg in
  let steps := if String.eqb mode "fast" then build_fast_write_pipeline else build_strong_write_pipeline in
  c ← finished steps (context data (Some cfg) (Some mode)) write_failed;
  memory ← keyed (memory c);
  mret (StoredOut memory (entity_links (input c))).

Definition _create_memory_pipeline (data : MemoryCreate) : wr response :=
  if String.eqb (default "" (write_mode data)) "stm" then stm_write data
  else
    cfg ← perform (ResolveConfig (tenant_id data));
    if negb (persist data) ||
       ((CHUNKING_THRESHOLD_CHARS <? char_len (content data))%Z && auto_chunk_enabled cfg)
    then enrich_first data
    else write_row data cfg.

Definition reserved_write_refusal (agent : string) : bool :=
  str_mem agent (ALWAYS_RESERVED_AGENT_IDS settings) &&
  negb (str_mem (reserved_agent_id_policy settings) ["allow"; "warn"]).

(** The beginning of [RESERVED_WRITE_ID_MESSAGE]; advice for the caller follows. *)
Definition reserved_message (agent : string) : string :=
  let q := String (ascii_of_nat 34) "" in
  ("agent_id " ++ q ++ agent ++ q ++ " is reserved and no longer accepts writes")%string.
Definition create_memory (data : MemoryCreate) : wr response :=
  match agent_id data with
  | None | Some "" => io_raise (Raised ValueError)
  | Some agent =>
      if reserved_write_refusal agent
      then http 409 (reserved_message agent)
      else _create_memory_pipeline data
  end.

(** ** Remediation of a row whose enrichment came after the write

    The row's texts as its columns hold them; the metadata is what
    [memory.get("metadata_") or memory.get("metadata") or {}] yields. *)
Record enriched_row : Type := {
  er_id : option string;
  er_tenant : string;
  er_agent : option string;
  er_content : string;
  er_metadata : pydict;
}.
(** [sorted(set(v or []))] of a list of texts, or of a text. *)
Definition label_list (v : pyval) : res pyexn (list string) :=
  if negb (truthy v) then Ok []
  else match v with
       | PList l => collect_all (λ x, match x with PStr s => Ok s | _ => Err TypeError end) l
       | PStr s => Ok (chars s)
       | _ => Err TypeError
       end.

Definition remediate_pii (pii : _GovPII) (row : enriched_row) (id : string) : wr bool :=
  let detail a types := llm_pii_audit_detail a types (er_content row) (Some "fast") in
  if pii_enabled pii && truthy (dgetv (er_metadata row) "contains_pii") then
    types ← py (label_list (dgetv (er_metadata row) "pii_types"));
    if py_eqb (action pii) (PStr "drop") then
      _ ← emit_governance_audit (er_tenant row) (er_agent row) ACTION_PII_DROP
            (detail ACTION_PII_DROP types None) (Some id) true;
      _ ← perform (SoftDelete id);
      mret true
    else
      _ ← emit_governance_audit (er_tenant row) (er_agent row) ACTION_PII_FLAG
            (detail ACTION_PII_FLAG types (configured pii)) (Some id) false;
      mret false
  else mret false.
Definition remediate_relevance (nb : _GovNB) (row : enriched_row) (id : string) : wr bool :=
  let detail a := nonbusiness_audit_detail a (er_content row) (Some "fast") in
  if nb_enabled nb && py_eqb (dgetv (er_metadata row) "business_relevance") (PStr "personal") then
    if py_eqb (disposition nb) (PStr "drop") then
      _ ← emit_governance_audit (er_tenant row) (er_agent row) ACTION_NB_DROP
            (detail ACTION_NB_DROP) (Some id) true;
      _ ← perform (SoftDelete id);
      mret true
    else if py_eqb (disposition nb) (PStr "keep_private") then
      _ ← perform (UpdateMemory id (Some (er_tenant row)) [("visibility", PStr "scope_agent")]);
      _ ← emit_governance_audit (er_tenant row) (er_agent row) ACTION_NB_KEEP_PRIVATE
            (detail ACTION_NB_KEEP_PRIVATE) (Some id) false;
      mret false
    else mret false
  else mret false.

Definition remediate_after_enrichment (row : enriched_row) (cfg : ResolvedConfig) : wr bool :=
  pii ← py (governance_pii cfg);
  nb ← py (governance_non_business cfg);
  if negb (pii_enabled pii) && negb (nb_enabled nb) then mret false
  else
    match er_id row with
    | None => mret false
    | Some id =>
        dropped ← remediate_pii pii row id;
        if (dropped : bool) then mret true else remediate_relevance nb row id
    end.
End Steps.
End WritePipeline.
