(* ===== verification/Auth.v ===== *)
(** * Who is calling
    ([src/core-api/src/core_api/auth.py], [suppression.py], the middleware of
    [mcp_server.py])

    The identity of a request, as the REST dependency [get_auth_context] and
    the MCP middleware read it from the key and the headers; the gates of
    [AuthContext]; the cached check for tenants of a deleted organization.
    Keys and headers are Python strings after decoding.  The world of a
    request holds its context variables and the cache, which other requests
    fill while this one waits for storage. *)

From S2P Require Import Prelude.

Module Auth.
#[local] Open Scope string_scope.
#[local] Open Scope Z_scope.
#[local] Open Scope list_scope.

Inductive exn : Type :=
| HTTPException (status : Z) (detail : string)
| Raised (why : string).

(** ** The context *)
Record AuthContext : Type := {
  tenant_id : option string;
  is_demo : bool;
  is_admin : bool;
  org_role : option string;
  agent_id : option string;
  is_read_only : bool;
  is_install_credential : bool;
  install_uuid : option string;
  readable_tenant_ids : list string;
  capabilities : option (list string);
}.

(** [AuthContext.__init__]: the set of readable tenants always has the home
    tenant. *)
Definition readable_or_home (tenant : option string) (readable : list string) : list string :=
  match readable with
  | [] => match given tenant with Some t => [t] | None => [] end
  | _ =>
      match given tenant with
      | Some t => if str_mem t readable then readable else t :: readable
      | None => readable
      end
  end.

Section Gates.
Context (c : AuthContext).

Definition is_cross_tenant_read : bool := bool_decide (1 < length (readable_tenant_ids c))%nat.
Definition source_tenants_for_audit : list string :=
  match given (tenant_id c) with
  | Some t => if is_cross_tenant_read then List.filter (λ r, negb (String.eqb r t)) (readable_tenant_ids c) else []
  | None => []
  end.

Definition may_write : bool :=
  match capabilities c with Some caps => str_mem "write" caps | None => true end.
Definition read_only_key : exn :=
  HTTPException 403 "This API key is read-only and cannot perform write operations.".
Definition enforce_read_only : res exn () :=
  raise_if is_demo c with HTTPException 403 "Demo sandbox is read-only.";;
  raise_if negb may_write with read_only_key;;
  Ok tt.
Definition enforce_usage_limits : res exn () :=
  raise_if is_read_only c with
    HTTPException 403 ("Organization is in read-only mode: usage exceeds plan limits. " ++
                       "Upgrade your plan or delete data to restore write access.")%string;;
  Ok tt.
Definition enforce_admin : res exn () :=
  raise_if negb (is_admin c) with HTTPException 403 "Admin access required";; Ok tt.
Definition enforce_org_admin : res exn () :=
  if is_admin c then Ok tt
  else raise_if negb (bool_decide (org_role c = Some "admin")) with
         HTTPException 403 "Org admin access required";; Ok tt.
Definition enforce_not_agent_credential (act : string) : res exn () :=
  if is_admin c then Ok tt
  else raise_if is_given (agent_id c) with
         HTTPException 403 ("Agent-scoped credentials cannot " ++ act ++ "; use an admin credential.")%string;;
       Ok tt.
Definition enforce_tenant (requested : string) : res exn () :=
  if is_admin c then Ok tt
  else raise_if negb (bool_decide (tenant_id c = Some requested)) with
         HTTPException 403 ("API key is not authorized for tenant '" ++ requested ++ "'")%string;;
       Ok tt.
Definition enforce_readable_tenant (requested : string) : res exn () :=
  if is_admin c then Ok tt
  else raise_if negb (str_mem requested (readable_tenant_ids c)) with
         HTTPException 403 ("API key is not authorized to read tenant '" ++ requested ++ "'")%string;;
       Ok tt.
Definition enforce_cross_tenant_read : res exn () :=
  if is_admin c then Ok tt
  else raise_if negb is_cross_tenant_read with
         HTTPException 403 "Cross-tenant read privileges are required for this report.";;
       Ok tt.
Definition enforce_write_scope : res exn () := raise_if negb may_write with read_only_key;; Ok tt.
End Gates.

(** ** Suppressed tenants *)

Definition _TTL_SECONDS : Z := 30 * 1000000.
Definition _ERROR_TTL_SECONDS : Z := 5 * 1000000.

(** A verdict and the reading of the monotonic clock until which it counts. *)
Abbreviation verdicts := (gmap string (bool * Z)).
Definition _prune_expired (now : Z) (c : verdicts) : verdicts := filter (λ kv, (now < kv.2.2)%Z) c.
Definition cached (tenant : string) (now : Z) (c : verdicts) : option bool :=
  match c !! tenant with
  | Some (v, expires) => if (now <? expires)%Z then Some v else None
  | None => None
  end.
(** What is remembered of storage's answer, [None] when the call raised. *)
Definition remembered (tenant : string) (now : Z) (answer : option bool) (c : verdicts) : verdicts :=
  <[tenant := match answer with
              | Some v => (v, (now + _TTL_SECONDS)%Z)
              | None => (false, (now + _ERROR_TTL_SECONDS)%Z)
              end]> (_prune_expired now c).

(** What the lookups that missed the cache left in it, in the order of their
    answers. *)
Record lookup : Type := Lookup { of_tenant : string; begun : Z; answer : option bool }.
Definition remember (c : verdicts) (l : lookup) : verdicts := remembered (of_tenant l) (begun l) (answer l) c.
Definition remember_all (c : verdicts) (ls : list lookup) : verdicts := foldl remember c ls.

(** ** Requests *)
Record settings : Type := {
  admin_api_key : option string;
  api_key : option string;
  memclaw_api_key : option string;
  gateway_shared_secret : option string;
  is_standalone : bool;
  (** set at startup by [init_standalone] *)
  standalone_tenant_id : option string;
}.
Abbreviation headers := (string → option string).

(** The context variables and [request.state]. *)
Record request_vars : Type := {
  current_tenant : option string;
  readable_tenants : list string;
  observed_tenant : option string;
}.
(** [asked] counts the storage calls of the request so far. *)
Record world : Type := World { vars : request_vars; cache : verdicts; asked : nat }.

Definition set_current_tenant (t : option string) (v : request_vars) : request_vars :=
  {| current_tenant := t; readable_tenants := readable_tenants v; observed_tenant := observed_tenant v |}.
Definition set_readable_tenants (ts : option (list string)) (v : request_vars) : request_vars :=
  {| current_tenant := current_tenant v; readable_tenants := default [] ts; observed_tenant := observed_tenant v |}.
Definition _stash_request_tenant (t : string) (v : request_vars) : request_vars :=
  {| current_tenant := current_tenant v; readable_tenants := readable_tenants v; observed_tenant := Some t |}.

Definition get_admin_key (s : settings) : option string :=
  match given (admin_api_key s) with Some k => Some k | None => api_key s end.

(** [hmac.compare_digest] refuses texts that are not ASCII. *)
Definition compare_digest (a b : string) : res exn bool :=
  raise_if negb (is_ascii a && is_ascii b) with
    Raised "TypeError: comparing strings with non-ASCII characters is not supported";;
  Ok (String.eqb a b).

Fixpoint split_on (c : ascii) (s : string) : list string :=
  match s with
  | EmptyString => [""]
  | String x s =>
      if Ascii.eqb x c then "" :: split_on c s
      else match split_on c s with w :: ws => String x w :: ws | [] => [String x ""] end
  end.
Definition _parse_csv_header (value : option string) : list string :=
  match given value with
  | None => []
  | Some v => List.filter (λ item, negb (String.eqb item "")) (str_strip <$> split_on "," v)
  end.

Section Requests.
Context `{PyText}.
(** Storage's answer to the [n]-th question of this request, the reading of
    the clock before it, and the lookups of other requests answered meanwhile. *)
Context (storage : nat → string → option bool) (clock : nat → Z) (meanwhile : nat → list lookup).
Context (s : settings).

Abbreviation M := (io world exn).
Definition lift {A} (r : res exn A) : M A := io_lift r.
Definition set_vars (f : request_vars → request_vars) : M () :=
  λ w, (Ok tt, World (f (vars w)) (cache w) (asked w)).

Definition is_tenant_suppressed (tenant : string) : M bool := λ w,
  let n := asked w in
  let now := clock n in
  match cached tenant now (cache w) with
  | Some v => (Ok v, World (vars w) (cache w) (S n))
  | None =>
      let ans := storage n tenant in
      (Ok (default false ans),
       World (vars w) (remembered tenant now ans (remember_all (cache w) (meanwhile n))) (S n))
  end.

Definition _block_if_suppressed (tenant : option string) : M () :=
  match given tenant with
  | None => mret tt
  | Some t =>
      suppressed ← is_tenant_suppressed t;
      if (suppressed : bool) then io_raise (HTTPException 403 "Organization is suspended; access denied.")
      else mret tt
  end.
Fixpoint _block_if_any_readable_suppressed (tenant : option string) (readable : list string) : M () :=
  match readable with
  | [] => mret tt
  | rt :: readable =>
      _ ← (if is_given (Some rt) && negb (bool_decide (Some rt = tenant))
           then _block_if_suppressed (Some rt) else mret tt);
      _block_if_any_readable_suppressed tenant readable
  end.

Definition get_standalone_tenant_id : M string :=
  match standalone_tenant_id s with
  | Some t => mret t
  | None => io_raise (Raised "RuntimeError: Standalone mode not initialised.")
  end.

(** [a and b and compare_digest(a, b)] *)
Definition key_matches (key expected : option string) : res exn bool :=
  match given key, given expected with
  | Some k, Some e => compare_digest k e
  | _, _ => Ok false
  end.

Definition context (tenant : option string) (admin : bool) (role agent : option string) (read_only install : bool)
    (uuid : option string) (readable : list string) (caps : option (list string)) : AuthContext :=
  {| tenant_id := tenant; is_demo := false; is_admin := admin; org_role := role; agent_id := agent;
     is_read_only := read_only; is_install_credential := install; install_uuid := uuid;
     readable_tenant_ids := readable_or_home tenant readable; capabilities := caps |}.

(** The standalone tenant, checked and noted. *)
Definition standalone_tenant : M string :=
  t ← get_standalone_tenant_id;
  _ ← _block_if_suppressed (Some t);
  _ ← set_vars (set_current_tenant (Some t));
  _ ← set_vars (_stash_request_tenant t);
  mret t.

Definition capability_set (h : headers) : option (list string) :=
  match _parse_csv_header (match given (h "x-capabilities") with Some v => Some v | None => h "x-key-scopes" end) with
  | [] => None
  | caps => Some caps
  end.
Definition header_agent (h : headers) : option string := given (h "x-agent-id").
Definition read_only_header (h : headers) : bool :=
  String.eqb (str_lower (default "" (h "x-org-read-only"))) "true".

(** A network-exposed installation with a key of its own. *)
Definition memclaw_key_path (key : option string) (mclaw_key : string) (h : headers) : M AuthContext :=
  ok ← lift (key_matches key (Some mclaw_key));
  if (ok : bool) then
    if is_standalone s then
      t ← standalone_tenant;
      mret (context (Some t) false (Some "admin") (header_agent h) false false None [] None)
    else
      match given (h "x-tenant-id") with
      | Some t =>
          _ ← _block_if_suppressed (Some t);
          _ ← _block_if_any_readable_suppressed (Some t) (_parse_csv_header (h "x-readable-tenant-ids"));
          _ ← set_vars (set_current_tenant (Some t));
          _ ← set_vars (_stash_request_tenant t);
          mret (context (Some t) false None (header_agent h) (read_only_header h) false None [] None)
      | None =>
          _ ← set_vars (set_current_tenant None);
          mret (context None false None (header_agent h) false false None [] None)
      end
  else match given key with
       | None => io_raise (HTTPException 401 "Missing API key. Include X-API-Key header.")
       | Some _ => io_raise (HTTPException 401 "Invalid API key.")
       end.

(** The headers of the gateway, behind its shared secret. *)
Definition gateway_path (t : string) (h : headers) : M AuthContext :=
  ok ← lift match given (gateway_shared_secret s) with
            | Some secret => compare_digest (str_or (h "x-gateway-secret") "") secret
            | None => Ok true
            end;
  if negb (ok : bool) then io_raise (HTTPException 401 "Direct access to this service is not permitted.")
  else
    let readable := _parse_csv_header (h "x-readable-tenant-ids") in
    _ ← _block_if_suppressed (Some t);
    _ ← _block_if_any_readable_suppressed (Some t) readable;
    _ ← set_vars (set_current_tenant (Some t));
    _ ← set_vars (_stash_request_tenant t);
    _ ← set_vars (set_readable_tenants
          match readable with
          | [] => None
          | _ => Some (t :: List.filter (λ r, negb (String.eqb r t)) readable)
          end);
    mret (context (Some t) false None (header_agent h) (read_only_header h)
            (String.eqb (str_lower (default "" (h "x-caura-credential-kind"))) "install_credential")
            (given (h "x-install-uuid")) readable (capability_set h)).

Definition get_auth_context (key : option string) (h : headers) : M AuthContext :=
  admin ← lift (key_matches key (get_admin_key s));
  if (admin : bool) then
    _ ← set_vars (set_current_tenant None);
    mret (context None true None None false false None [] None)
  else
    match given (memclaw_api_key s) with
    | Some mclaw_key => memclaw_key_path key mclaw_key h
    | None =>
        if is_standalone s then
          t ← standalone_tenant;
          mret (context (Some t) false (Some "admin") None false false None [] None)
        else
          match given (h "x-tenant-id") with
          | Some t => gateway_path t h
          | None => io_raise (HTTPException 401 "Missing API key or X-Tenant-ID header.")
          end
    end.

(** ** The MCP middleware *)
Definition _UNAUTH : string := "__unauthenticated__".
Definition _ADMIN : string := "__admin__".
Definition _NO_AUTH : string := "__no_auth__".

Record mcp_vars : Type := {
  mcp_tenant : string;
  via_gateway : bool;
  mcp_agent : option string;
  mcp_readable : option (list string);
  mcp_scopes : option (list string);
  mcp_credential_kind : option string;
  mcp_install_uuid : option string;
}.

(** The key of a direct call: [X-API-Key], or a bearer token. *)
Definition direct_key (h : headers) : option string :=
  match given (h "x-api-key") with
  | Some k => Some k
  | None =>
      let a := default "" (h "authorization") in
      if starts_with "bearer " (str_lower a) then given (Some (drop_str 7 a)) else None
  end.
Definition direct_tenant (h : headers) : res exn string :=
  let key := direct_key h in
  admin ← key_matches key (get_admin_key s);
  if (admin : bool) then Ok _ADMIN
  else if is_standalone s then
    match standalone_tenant_id s with
    | Some t => Ok t
    | None => Err (Raised "RuntimeError: Standalone mode not initialised.")
    end
  else match key with
       | None => Ok (if is_given (get_admin_key s) then _UNAUTH else _NO_AUTH)
       | Some _ => Ok _UNAUTH
       end.

(** [None] is the 401 the middleware itself answers. *)
Definition MCPAuthMiddleware (h : headers) : res exn (option mcp_vars) :=
  let tenant_header := default "" (h "x-tenant-id") in
  if String.eqb tenant_header "" then
    t ← direct_tenant h;
    Ok (Some {| mcp_tenant := t; via_gateway := false; mcp_agent := None; mcp_readable := None;
                mcp_scopes := None; mcp_credential_kind := None; mcp_install_uuid := None |})
  else
    ok ← match given (gateway_shared_secret s) with
         | Some secret => compare_digest (default "" (h "x-gateway-secret")) secret
         | None => Ok true
         end;
    if negb (ok : bool) then Ok None
    else
      let caps := match given (h "x-capabilities") with Some v => Some v | None => given (h "x-key-scopes") end in
      Ok (Some {|
        mcp_tenant := tenant_header; via_gateway := true; mcp_agent := given (h "x-agent-id");
        mcp_readable :=
          match given (h "x-readable-tenant-ids") with
          | Some v => Some (tenant_header :: List.filter (λ r, negb (String.eqb r tenant_header))
                                               (_parse_csv_header (Some v)))
          | None => None
          end;
        mcp_scopes := (λ v, _parse_csv_header (Some v)) <$> caps;
        mcp_credential_kind := given (Some (str_lower (default "" (h "x-caura-credential-kind"))));
        mcp_install_uuid := given (h "x-install-uuid") |}).

Inductive mcp_refusal : Type := AUTH_ERROR | ADMIN_ERROR | READ_ONLY_ERROR.
Definition _check_auth (v : mcp_vars) : option mcp_refusal :=
  if String.eqb (mcp_tenant v) _UNAUTH then Some AUTH_ERROR
  else if str_mem (mcp_tenant v) [_ADMIN; _NO_AUTH] then Some ADMIN_ERROR
  else None.
Definition _is_write_allowed (v : mcp_vars) : bool :=
  match mcp_scopes v with Some caps => str_mem "write" caps | None => true end.
Definition _check_write_scope (v : mcp_vars) : option mcp_refusal :=
  if _is_write_allowed v then None else Some READ_ONLY_ERROR.
Definition _get_readable_tenants (v : mcp_vars) : list string := default [] (mcp_readable v).
Definition _is_install_credential (v : mcp_vars) : bool :=
  bool_decide (mcp_credential_kind v = Some "install_credential").
End Requests.

(** ** Grounds of a context *)

Definition holds (key expected : option string) : Prop :=
  ∃ k, given key = Some k ∧ given expected = Some k.

Lemma compare_digest_true a b : compare_digest a b = Ok true → a = b.
Proof. unfold compare_digest. destruct (negb _); [done|]. by intros [= ->%String.eqb_eq]. Qed.
Lemma key_matches_true key expected : key_matches key expected = Ok true → holds key expected.
Proof.
  unfold key_matches, holds. destruct (given key) as [k|], (given expected) as [e|]; try done.
  intros ->%compare_digest_true. eauto.
Qed.

(** What a caller without the admin key must show. *)
Definition admitted (s : settings) (key : option string) (h : headers) : Prop :=
  match given (memclaw_api_key s) with
  | Some _ => holds key (memclaw_api_key s)
  | None =>
      is_standalone s = true ∨
      ∀ secret, given (gateway_shared_secret s) = Some secret → h "x-gateway-secret" = Some secret
  end.

(** Runs of the request's calls. *)
Ltac io_run H :=
  repeat first
    [ apply io_bind_Ok in H as (? & ? & ? & H)
    | progress cbn beta iota in H
    | match type of H with
      | (match ?x with _ => _ end) _ = _ => destruct x eqn:?; try discriminate H
      end ];
  unfold mret, io_ret, set_vars, lift, io_lift, io_raise in *; simplify_eq/=.

Section Grounds.
Context `{PyText} (storage : nat → string → option bool) (clock : nat → Z) (meanwhile : nat → list lookup).
Context (s : settings).
Local Notation get_auth_context := (get_auth_context storage clock meanwhile s).
Local Notation block := (_block_if_suppressed storage clock meanwhile).
Local Notation block_readable := (_block_if_any_readable_suppressed storage clock meanwhile).

(** A check changes no context variable. *)
Lemma suppressed_vars t w : vars (is_tenant_suppressed storage clock meanwhile t w).2 = vars w.
Proof. unfold is_tenant_suppressed. by destruct (cached _ _ _). Qed.
Lemma block_vars t w u w' : block t w = (Ok u, w') → vars w' = vars w.
Proof.
  unfold _block_if_suppressed. destruct (given t) as [r|]; [|by intros [= _ <-]].
  intros (b & w1 & Hs & Hr)%io_bind_Ok. destruct b; [done|]. injection Hr as _ <-.
  by rewrite <- (suppressed_vars r w), Hs.
Qed.
Lemma block_readable_vars t rs w u w' : block_readable t rs w = (Ok u, w') → vars w' = vars w.
Proof.
  revert w. induction rs as [|r rs IH]; cbn; intros w; [by intros [= _ <-]|].
  intros (b & w1 & Hb & Hr)%io_bind_Ok. rewrite (IH _ Hr).
  destruct (_ && _); [by apply block_vars in Hb|by injection Hb as _ <-].
Qed.
Lemma standalone_tenant_ok w t w' :
  standalone_tenant storage clock meanwhile s w = (Ok t, w') →
  standalone_tenant_id s = Some t ∧ current_tenant (vars w') = Some t.
Proof.
  unfold standalone_tenant, get_standalone_tenant_id. intros (t' & w1 & Ht & Hr)%io_bind_Ok.
  destruct (standalone_tenant_id s) as [t2|]; [|done]. injection Ht as -> ->. by io_run Hr.
Qed.

(** C6. A context is the administrator's, by the administrator's key, or that of
    the one tenant of a standalone installation, or of the tenant the headers
    name, and then the caller showed the installation's key, if it has one,
    or the gateway's secret, if that is configured.  Database sessions are
    bound to the same tenant. *)
Theorem auth_context_grounded key h w ctx w' (Hrun : get_auth_context key h w = (Ok ctx, w')) :
  current_tenant (vars w') = tenant_id ctx ∧
  ((is_admin ctx = true ∧ tenant_id ctx = None ∧ holds key (get_admin_key s)) ∨
   (is_admin ctx = false ∧ admitted s key h ∧
    tenant_id ctx = (if is_standalone s then standalone_tenant_id s else given (h "x-tenant-id")) ∧
    (agent_id ctx = None ∨ agent_id ctx = given (h "x-agent-id")) ∧
    (is_install_credential ctx = true → is_standalone s = false ∧ given (memclaw_api_key s) = None))).
Proof.
  unfold Auth.get_auth_context in Hrun. apply io_bind_Ok in Hrun as (adm & w1 & Hadm & Hrun).
  injection Hadm as Hadm <-. destruct adm.
  { io_run Hrun. split; [done|]. left. split_and!; [done..|by apply key_matches_true]. }
  unfold admitted. destruct (given (memclaw_api_key s)) as [mk|] eqn:Hmk.
  - unfold memclaw_key_path in Hrun. apply io_bind_Ok in Hrun as (ok & w2 & Hok & Hrun).
    injection Hok as Hok <-. destruct ok; [|by destruct (given key)].
    assert (Hadmit : holds key (memclaw_api_key s)).
    { apply key_matches_true in Hok as (k & ? & [[= <-] _]%given_Some). by exists mk. }
    destruct (is_standalone s).
    + apply io_bind_Ok in Hrun as (t & w3 & [Ht Hv]%standalone_tenant_ok & Hrun). io_run Hrun. rewrite Ht. unfold header_agent. naive_solver.
    + destruct (given (h "x-tenant-id")) as [t|]; io_run Hrun; unfold header_agent; naive_solver.
  - destruct (is_standalone s).
    + apply io_bind_Ok in Hrun as (t & w3 & [Ht Hv]%standalone_tenant_ok & Hrun). io_run Hrun. rewrite Ht. unfold header_agent. naive_solver.
    + destruct (given (h "x-tenant-id")) as [t|]; [|done].
      unfold gateway_path in Hrun. apply io_bind_Ok in Hrun as (ok & w2 & Hok & Hrun).
      injection Hok as Hok <-. destruct ok; [|done].
      assert (Hsec : ∀ secret, given (gateway_shared_secret s) = Some secret → h "x-gateway-secret" = Some secret).
      { intros secret Hg. rewrite Hg in Hok. apply compare_digest_true in Hok as <-. apply given_Some in Hg as [_ Hne].
        unfold str_or in *.
        destruct (given (h "x-gateway-secret")) as [v|] eqn:Hv; [|done]. by apply given_Some in Hv as [-> _]. }
      io_run Hrun. unfold header_agent. naive_solver.
Qed.
End Grounds.

(** ** Suppression *)
Section Suppression.
Context `{PyText} (storage : nat → string → option bool) (clock : nat → Z) (meanwhile : nat → list lookup).
Context (s : settings) (t : string) (since : Z).

(** The organization of [t] is gone [since] then: lookups begun later are told. *)
Definition told (l : lookup) : Prop := of_tenant l = t → since ≤ begun l → answer l = Some true.
(** No verdict that [t] is live outlasts [since] by more than a lifetime. *)
Definition fading (c : verdicts) : Prop := ∀ e, c !! t = Some (false, e) → e ≤ since + _TTL_SECONDS.

Lemma fading_remember c l : told l → fading c → fading (remember c l).
Proof.
  unfold fading, remember, remembered. intros Hl Hc e. destruct (decide (of_tenant l = t)) as [Ht|Hne].
  - rewrite Ht, lookup_insert_eq. intros [= He]. specialize (Hl Ht).
    destruct (decide (since ≤ begun l)) as [Hge|Hlt].
    + by rewrite Hl in He.
    + unfold _TTL_SECONDS, _ERROR_TTL_SECONDS in *. destruct (answer l) as [v|]; simplify_eq; lia.
  - rewrite lookup_insert_ne by done. unfold _prune_expired. rewrite map_lookup_filter_Some. intros [He _]. auto.
Qed.
Lemma fading_remember_all ls c : Forall told ls → fading c → fading (remember_all c ls).
Proof.
  unfold remember_all. revert c. induction ls as [|l ls IH]; cbn; [done|].
  intros c [Hl Hls]%Forall_cons Hc. by apply IH, fading_remember.
Qed.

Context (Hlate : ∀ n, since + _TTL_SECONDS ≤ clock n).
Context (Htold : ∀ n, storage n t = Some true) (Hmean : ∀ n, Forall told (meanwhile n)).
Local Notation held := (λ w : world, fading (cache w)).
Local Notation block := (_block_if_suppressed storage clock meanwhile).

Lemma suppressed_held r :
  io_spec held (is_tenant_suppressed storage clock meanwhile r) (λ v, r = t → v = true).
Proof.
  intros w Hw. unfold is_tenant_suppressed. specialize (Hlate (asked w)).
  destruct (cached r (clock (asked w)) (cache w)) as [v|] eqn:Hv; cbn.
  - split; [done|]. intros b [= <-] ->. unfold cached in Hv.
    destruct (cache w !! t) as [[[] e]|] eqn:He; [|apply Hw in He|done].
    + by destruct (_ <? e); simplify_eq.
    + destruct (Z.ltb_spec (clock (asked w)) e); [lia|done].
  - split.
    + apply (fading_remember _ (Lookup r (clock (asked w)) (storage (asked w) r))).
      * intros Hr _. cbn in *. subst r. apply Htold.
      * by apply fading_remember_all.
    + intros b [= <-] ->. by rewrite Htold.
Qed.
Lemma block_held r : io_spec held (block (Some r)) (λ _, r ≠ t ∨ r = "").
Proof.
  unfold _block_if_suppressed. destruct (given (Some r)) as [r'|] eqn:Hr.
  - apply given_Some in Hr as [[= <-] _]. eapply io_spec_bind; [apply suppressed_held|].
    intros [] Hv; [apply io_spec_raise|]. apply io_spec_ret. left. naive_solver.
  - apply io_spec_ret. right. by destruct r.
Qed.
Lemma block_readable_held tenant rs :
  io_spec held (_block_if_any_readable_suppressed storage clock meanwhile tenant rs)
    (λ _, t ≠ "" → t ∈ rs → tenant = Some t).
Proof.
  induction rs as [|r rs IH]; cbn; [apply io_spec_ret; by intros _ ?%not_elem_of_nil|].
  apply (io_spec_bind _ _ _ (λ _, t ≠ "" → r = t → tenant = Some t)).
  - destruct (is_given (Some r) && negb (bool_decide (Some r = tenant))) eqn:Hg.
    + eapply io_spec_impl; [apply block_held|]. naive_solver.
    + apply io_spec_ret. intros Hne ->. apply andb_false_iff in Hg as [Hg|Hg].
      * by destruct t.
      * apply negb_false_iff, bool_decide_eq_true in Hg. done.
  - intros _ Hr. eapply io_spec_impl; [apply IH|]. intros ? Hrs Hne [Heq|?]%elem_of_cons; [by apply Hr|by apply Hrs].
Qed.
Lemma set_vars_held f : io_spec held (set_vars f) (λ _, True).
Proof. by intros w Hw. Qed.

Definition locked_out (ctx : AuthContext) : Prop := tenant_id ctx ≠ Some t ∧ t ∉ readable_tenant_ids ctx.
Lemma context_locked r admin role agent ro inst uuid rs caps :
  t ≠ "" → r ≠ Some t → t ∉ rs → locked_out (context r admin role agent ro inst uuid rs caps).
Proof.
  intros Ht Hr Hrs. split; [done|]. cbn. unfold readable_or_home.
  assert (Hg : given r ≠ Some t) by (intros [? _]%given_Some; done).
  destruct rs as [|a rs], (given r) as [r'|]; cbn.
  - intros ->%list_elem_of_singleton. done.
  - apply not_elem_of_nil.
  - destruct (_ || _); [done|]. intros [->|?]%elem_of_cons; done.
  - done.
Qed.
Lemma standalone_held : t ≠ "" →
  io_spec held (standalone_tenant storage clock meanwhile s) (λ r, r ≠ t).
Proof.
  intros Ht. unfold standalone_tenant, get_standalone_tenant_id.
  eapply io_spec_bind with (Q := λ _, True); [destruct (standalone_tenant_id s); [by apply io_spec_ret|apply io_spec_raise]|].
  intros r _. eapply io_spec_bind; [apply block_held|]. intros ? Hr.
  eapply io_spec_bind; [apply set_vars_held|]. intros _ _.
  eapply io_spec_bind; [apply set_vars_held|]. intros _ _.
  apply io_spec_ret. naive_solver.
Qed.
(** A named tenant and the readable ones, checked one after the other. *)
Lemma tenants_held {A} r rs (k : () → io world exn A) (Q : A → Prop) : t ≠ "" → r ≠ "" →
  (r ≠ t → t ∉ rs → io_spec held (k tt) Q) →
  io_spec held (_ ← block (Some r);
                u ← _block_if_any_readable_suppressed storage clock meanwhile (Some r) rs; k u) Q.
Proof.
  intros Ht Hr Hk. eapply io_spec_bind; [apply block_held|]. intros ? Hrt.
  eapply io_spec_bind; [apply block_readable_held|]. intros [] Hrs. apply Hk; naive_solver.
Qed.
Lemma get_auth_context_held key h : t ≠ "" →
  io_spec held (get_auth_context storage clock meanwhile s key h) locked_out.
Proof.
  intros Ht. unfold get_auth_context.
  eapply io_spec_bind with (Q := λ _, True); [by apply io_spec_lift|]. intros [] _.
  { eapply io_spec_bind; [apply set_vars_held|]. intros _ _. apply io_spec_ret.
    apply context_locked; [done..|apply not_elem_of_nil]. }
  assert (Hret : ∀ r role agent ro inst uuid rs caps, r ≠ t → t ∉ rs →
    locked_out (context (Some r) false role agent ro inst uuid rs caps)).
  { intros. apply context_locked; [done|congruence|done]. }
  assert (Hnil : t ∉ (@nil string)) by apply not_elem_of_nil.
  destruct (given (memclaw_api_key s)) as [mk|].
  - unfold memclaw_key_path. eapply io_spec_bind with (Q := λ _, True); [by apply io_spec_lift|].
    intros [] _; [|destruct (given key); apply io_spec_raise].
    destruct (is_standalone s).
    { eapply io_spec_bind; [by apply standalone_held|]. intros r Hr. apply io_spec_ret. auto. }
    destruct (given (h "x-tenant-id")) as [r|] eqn:Hr.
    + apply given_Some in Hr as [_ Hr]. apply tenants_held; [done..|]. intros Hrt Hrs.
      do 2 (eapply io_spec_bind; [apply set_vars_held|]; intros _ _). apply io_spec_ret. auto.
    + eapply io_spec_bind; [apply set_vars_held|]. intros _ _. apply io_spec_ret. by apply context_locked.
  - destruct (is_standalone s).
    { eapply io_spec_bind; [by apply standalone_held|]. intros r Hr. apply io_spec_ret. auto. }
    destruct (given (h "x-tenant-id")) as [r|] eqn:Hr; [|apply io_spec_raise].
    apply given_Some in Hr as [_ Hr]. unfold gateway_path.
    eapply io_spec_bind with (Q := λ _, True); [by apply io_spec_lift|].
    intros [] _; [|apply io_spec_raise]. apply tenants_held; [done..|]. intros Hrt Hrs.
    do 3 (eapply io_spec_bind; [apply set_vars_held|]; intros _ _). apply io_spec_ret. auto.
Qed.
End Suppression.


(** ** The two surfaces *)

Lemma str_or_empty o : str_or o "" = default "" o.
Proof. by destruct o as [[|]|]. Qed.
Lemma elem_of_readable x tenant rs :
  x ∈ readable_or_home tenant rs ↔ given tenant = Some x ∨ x ∈ rs.
Proof.
  unfold readable_or_home. destruct rs as [|r rs], (given tenant) as [t|] eqn:Ht.
  - rewrite list_elem_of_singleton, elem_of_nil. naive_solver.
  - rewrite elem_of_nil. naive_solver.
  - destruct (str_mem t (r :: rs)) eqn:Hm; [apply str_mem_spec in Hm|]; rewrite ?elem_of_cons in *; naive_solver.
  - naive_solver.
Qed.
Lemma elem_of_others x t rs :
  x ∈ t :: List.filter (λ r, negb (String.eqb r t)) rs ↔ x = t ∨ x ∈ rs.
Proof.
  rewrite elem_of_cons, !list_elem_of_In, filter_In, negb_true_iff, String.eqb_neq.
  destruct (decide (x = t)); naive_solver.
Qed.
Lemma given_given o : given (given o) = given o.
Proof. by destruct o as [[|]|]. Qed.
Lemma parse_given o : _parse_csv_header (given o) = _parse_csv_header o.
Proof. unfold _parse_csv_header. by rewrite given_given. Qed.
(** The capabilities as the two surfaces read the same headers: a value of
    commas only is no restriction to the one and no capability to the other. *)
Lemma capabilities_agree h :
  let caps := match given (h "x-capabilities") with Some v => Some v | None => given (h "x-key-scopes") end in
  let scopes := (λ v, _parse_csv_header (Some v)) <$> caps in
  scopes = capability_set h ∨ (scopes = Some [] ∧ capability_set h = None).
Proof.
  unfold capability_set. cbn zeta. destruct (given (h "x-capabilities")) as [v|] eqn:Hv.
  - cbn [fmap option_fmap option_map]. destruct (_parse_csv_header (Some v)); auto.
  - assert (Hg : given (given (h "x-key-scopes")) = given (h "x-key-scopes")) by by destruct (h "x-key-scopes") as [[|]|].
    unfold _parse_csv_header. destruct (given (h "x-key-scopes")) as [v|]; cbn [fmap option_fmap option_map].
    + rewrite Hg. destruct (List.filter _ _); auto.
    + auto.
Qed.


(** ** Concrete requests *)
Module Examples.
#[local] Existing Instance AsciiText.
Definition cloud : settings := {| admin_api_key := Some "root"; api_key := None; memclaw_api_key := None;
  gateway_shared_secret := Some "s3cret"; is_standalone := false; standalone_tenant_id := None |}.
Definition from_gateway (tenant : string) : headers := λ name, dget
  [("x-tenant-id", tenant); ("x-gateway-secret", "s3cret"); ("x-agent-id", "bot"); ("x-org-read-only", "True");
   ("x-readable-tenant-ids", " acme , beta"); ("x-capabilities", "read, write");
   ("x-caura-credential-kind", "Install_Credential"); ("x-install-uuid", "u-1")]%string name.
Definition gone : nat → string → option bool := λ _ r, Some (String.eqb r "gone").
Definition start : world := World {| current_tenant := None; readable_tenants := []; observed_tenant := None |} ∅ 0.
Definition late : nat → Z := λ n, 40000000 + Z.of_nat n.
Definition quiet : nat → list lookup := λ _, [].
Definition acme : AuthContext := context (Some "acme") false None (Some "bot") true true (Some "u-1")
  ["acme"; "beta"] (Some ["read"; "write"]).

Definition authenticated := get_auth_context gone late quiet cloud None (from_gateway "acme") start.
Lemma first_of {A B} (p : A * B) a : p.1 = a → p = (a, p.2).
Proof. destruct p. cbn. by intros ->. Qed.
Lemma authenticated_acme : authenticated.1 = Ok acme.
Proof. vm_compute. reflexivity. Qed.
Lemma authenticated_run :
  get_auth_context gone late quiet cloud None (from_gateway "acme") start = (Ok acme, authenticated.2).
Proof. exact (first_of _ _ authenticated_acme). Qed.

Lemma auth_context_grounded_witness :
  authenticated.1 = Ok acme ∧ is_admin acme = false ∧ admitted cloud None (from_gateway "acme").
Proof.
  split; [exact authenticated_acme|].
  refine (match proj2 (auth_context_grounded gone late quiet cloud None (from_gateway "acme") start acme
              authenticated.2 authenticated_run) with
          | or_introl H => _
          | or_intror H => conj eq_refl (proj1 (proj2 H))
          end).
  discriminate (proj1 H).
Defined.



(** The MCP endpoint serves the tenant of a suppressed organization, and
    writes for one that is over its plan. *)
Example mcp_serves_suppressed :
  (get_auth_context gone late quiet cloud None (from_gateway "gone") start).1 =
    Err (HTTPException 403 "Organization is suspended; access denied.") ∧
  ∃ v, MCPAuthMiddleware cloud (from_gateway "gone") = Ok (Some v) ∧ _check_auth v = None ∧
    _check_write_scope v = None.
Proof. split; [vm_compute; reflexivity|]. eexists. split; [vm_compute; reflexivity|]. by split. Qed.
Example mcp_writes_over_plan :
  (∃ e, enforce_usage_limits acme = Err e) ∧
  ∃ v, MCPAuthMiddleware cloud (from_gateway "acme") = Ok (Some v) ∧ _check_write_scope v = None.
Proof. split; [by eexists|]. eexists. split; [vm_compute; reflexivity|done]. Qed.
(** A list of commas is full capability over REST and none over MCP. *)
Example capabilities_of_commas :
  let h name := if String.eqb name "x-capabilities" then Some "," else from_gateway "acme" name in
  capability_set h = None ∧ ∃ v, MCPAuthMiddleware cloud h = Ok (Some v) ∧ _is_write_allowed v = false.
Proof. split; [done|]. eexists. split; [vm_compute; reflexivity|done]. Qed.
End Examples.
End Auth.
