(* ===== verification/Agents.v ===== *)
(** * Agents, their owners and their trust
    ([services/agent_service.py], [trust_service.py], [caller_identity.py],
    [agent_ids.py], [trust_utils.py] of core-api; the agent methods, router
    and client verbs of the storage service)

    The [agents] table with its read replica, the storage transactions on it,
    and the services that register an agent, decide which agent a write is
    attributed to, and gate reads and writes on fleet and trust.  The services
    are programs of [Interleaving]: between any two of their statements other
    requests may run.  Reads go to the replica, which lags.  A row's [id]
    stands for its generated UUID; columns that nothing here reads (dates,
    report routing) are left out. *)

From S2P Require Import Prelude Interleaving Auth.

Module Agents.
Import Interleaving.
#[local] Open Scope string_scope.
#[local] Open Scope Z_scope.
#[local] Open Scope list_scope.

(** ** Agent ids *)

Definition DEFAULT_AGENT_ID : string := "mcp-agent".
Definition INSIGHTER_AGENT_ID : string := "memclaw-insighter".
Definition INSIGHTER_TRUST_LEVEL : Z := 3.
Definition RESERVED_MAIN_AGENT_ID : string := "main".
Definition ALWAYS_RESERVED_AGENT_IDS : list string := [RESERVED_MAIN_AGENT_ID].
Definition _PLACEHOLDER_BODY_AGENT_IDS : list string := [RESERVED_MAIN_AGENT_ID; DEFAULT_AGENT_ID].
Definition DEFAULT_TRUST_LEVEL : Z := 1.

Definition effective_write_agent_id (verified_id body_id : option string) : option string :=
  let fallback := match given verified_id with Some v => Some v | None => body_id end in
  let from_body :=
    match given body_id with
    | Some b => if str_mem b _PLACEHOLDER_BODY_AGENT_IDS then fallback else Some b
    | None => fallback
    end in
  match given verified_id with
  | Some v => if str_mem v ALWAYS_RESERVED_AGENT_IDS then from_body else Some v
  | None => from_body
  end.

(** ** The table *)

Record Agent : Type := {
  id : N;
  fleet_id : option string;
  display_name : option string;
  install_id : option string;
  owner_install_uuid : option string;
  trust_level : Z;
  search_profile : option pydict;
}.
(** tenant and agent id *)
Abbreviation key := (string * string)%type.
Abbreviation table := (gmap key Agent).
Record db : Type := DB { primary : table; replica : table; next_id : N }.

(** Columns of a request body or an [UPDATE]; [None] is absent or null. *)
Record columns : Type := {
  c_fleet : option string;
  c_display : option string;
  c_install : option string;
  c_owner : option string;
  c_trust : option Z;
  c_profile : option pydict;
}.
Definition no_columns : columns :=
  {| c_fleet := None; c_display := None; c_install := None; c_owner := None; c_trust := None; c_profile := None |}.
Definition is_empty (c : columns) : bool :=
  match c with
  | {| c_fleet := None; c_display := None; c_install := None; c_owner := None; c_trust := None; c_profile := None |} => true
  | _ => false
  end.
Definition set_columns (c : columns) (a : Agent) : Agent :=
  let set {A} (new old : option A) := match new with Some v => Some v | None => old end in
  {| id := id a; fleet_id := set (c_fleet c) (fleet_id a); display_name := set (c_display c) (display_name a);
     install_id := set (c_install c) (install_id a);
     owner_install_uuid := set (c_owner c) (owner_install_uuid a);
     trust_level := default (trust_level a) (c_trust c); search_profile := set (c_profile c) (search_profile a) |}.
Definition new_row (n : N) (c : columns) : Agent :=
  {| id := n; fleet_id := c_fleet c; display_name := c_display c; install_id := c_install c;
     owner_install_uuid := c_owner c; trust_level := default 1 (c_trust c); search_profile := c_profile c |}.

(** [Saw] records what a read answered; it changes nothing. *)
Inductive write : Type :=
| Insert (rows : list (key * Agent))
| Change (k : key) (c : columns)
| Remove (k : key)
| Saw (k : key) (o : option Agent).
Definition write_table (w : write) (t : table) : table :=
  match w with
  | Insert rows => list_to_map rows ∪ t
  | Change k c => alter (set_columns c) k t
  | Remove k => delete k t
  | Saw _ _ => t
  end.
Definition apply_write (w : write) (s : db) : db :=
  {| primary := write_table w (primary s); replica := replica s;
     next_id := match w with Insert rows => next_id s + N.of_nat (length rows) | _ => next_id s end%N |}.

(** ** The storage service *)

Definition agent_get_by_id (k : key) : tx db write (option Agent) :=
  tsql (λ s, let o := replica s !! k in (o, Some (Saw k o))).

(** What the conflict path changes: the fields the caller supplied, except
    that an install or owner once set stays. *)
Definition changes (a : Agent) (data : columns) : columns :=
  let differs (new old : option string) := if bool_decide (new = old) then None else new in
  let first (new old : option string) := match old with None => new | Some _ => None end in
  {| c_fleet := differs (c_fleet data) (fleet_id a); c_display := differs (c_display data) (display_name a);
     c_install := first (c_install data) (install_id a);
     c_owner := first (c_owner data) (owner_install_uuid a);
     c_trust := match c_trust data with
                | Some t => if t =? trust_level a then None else Some t
                | None => None
                end;
     c_profile := None |}.

(** [INSERT ... ON CONFLICT DO NOTHING], then [SELECT ... FOR UPDATE] with the
    [UPDATE] under its lock.  [None] is the 409 for a row that vanished in
    between.  The row of a successful insert is invisible to others until the
    commit, so insert and commit are one step. *)
Definition agent_add (k : key) (data : columns) : tx db write (option Agent) :=
  inserted ← tsql (λ s,
    match primary s !! k with
    | None => let row := new_row (next_id s) data in (Some row, Some (Insert [(k, row)]))
    | Some _ => (None, None)
    end);
  match inserted with
  | Some row => mret (Some row)
  | None =>
      tsql (λ s,
        match primary s !! k with
        | None => (None, None)
        | Some a =>
            let c := changes a data in
            (Some (set_columns c a), if is_empty c then None else Some (Change k c))
        end)
  end.

(** An ORM [UPDATE] or [DELETE] of the row that was read, by primary key;
    [false] when it matched nothing, which raises. *)
Definition by_pk (k : key) (n : N) (w : write) : tx db write bool :=
  tsql (λ s, match primary s !! k with
             | Some a => if N.eqb (id a) n then (true, Some w) else (false, None)
             | None => (false, None)
             end).
Definition read_primary (k : key) : tx db write (option Agent) := tsql (λ s, (primary s !! k, None)).

(** For each: [true] when the transaction commits. *)
Definition agent_delete (k : key) : tx db write bool :=
  o ← read_primary k;
  match o with Some a => by_pk k (id a) (Remove k) | None => mret true end.
Definition changed_columns (c : columns) (a : Agent) : columns :=
  let differs (new old : option string) := if bool_decide (new = old) then None else new in
  {| c_fleet := differs (c_fleet c) (fleet_id a); c_display := None; c_install := None; c_owner := None;
     c_trust := match c_trust c with Some t => if t =? trust_level a then None else Some t | None => None end;
     c_profile := None |}.
(** [updated_at] is set too, so there always is an [UPDATE]. *)
Definition agent_update_trust_level (k : key) (level : Z) (fleet : option string) : tx db write bool :=
  o ← read_primary k;
  match o with
  | Some a =>
      by_pk k (id a) (Change k (changed_columns
        {| c_fleet := fleet; c_display := None; c_install := None; c_owner := None;
           c_trust := Some level; c_profile := None |} a))
  | None => mret true
  end.
Definition agent_update_fleet (k : key) (fleet : string) : tx db write bool :=
  o ← read_primary k;
  match o with
  | Some a =>
      let c := changed_columns {| c_fleet := Some fleet; c_display := None; c_install := None; c_owner := None;
                                  c_trust := None; c_profile := None |} a in
      if is_empty c then mret true else by_pk k (id a) (Change k c)
  | None => mret true
  end.

(** One statement over the live memories' (tenant, agent) pairs, which are the
    argument, distinct and with the fleet of the earliest memory. *)
Definition agent_backfill_from_memories (pairs : list (key * option string)) : tx db write Z :=
  tsql (λ s,
    let missing := filter (λ kf, primary s !! kf.1 = None) pairs in
    let rows := imap (λ i kf,
      (kf.1, new_row (next_id s + N.of_nat i)
               {| c_fleet := kf.2; c_display := None; c_install := None; c_owner := None;
                  c_trust := Some 1; c_profile := None |})) missing in
    (Z.of_nat (length rows), Some (Insert rows))).

(** ** The service's programs *)

Inductive action : Type :=
| Audit (tenant : string) (agent : option string) (act : string) (detail : columns)
| ResolveConfig (tenant : string)
| Quota (tenant op : string)
| GetMemory (tenant memory : string)
| Perform (what : string).
(** A memory as its storage methods return it. *)
Record memory : Type := { visibility : option string; agent_id : option string; m_fleet : option string }.
Inductive answer : Type :=
| ADone
| AFails (e : Auth.exn)
| AApproval (required : bool)
| AMemory (m : option memory).
Abbreviation exn := Auth.exn.
Abbreviation HTTPException := Auth.HTTPException.
Abbreviation ag A := (prog db write action answer (res exn A)).

Definition ag_bind {A B} (m : ag A) (f : A → ag B) : ag B :=
  r ← m; match r with Ok a => f a | Err e => mret (Err e) end.
Definition done_ {A} (a : A) : ag A := mret (Ok a).
Definition raise {A} (e : exn) : ag A := mret (Err e).
Definition lift {A} (r : res exn A) : ag A := mret r.
(** [except Exception] *)
Definition caught (m : ag ()) : ag () := r ← m; mret (match r with Ok a => Ok a | Err _ => Ok tt end).

(** A call that got no answer, or an error status. *)
Definition StorageError : exn := Auth.Raised "httpx.HTTPError".
Definition call {A} (server : tx db write A) : ag A :=
  o ← http server; mret (match o with Some a => Ok a | None => Err StorageError end).
Definition committed (server : tx db write bool) : ag () :=
  o ← http server; mret (match o with Some true => Ok tt | _ => Err StorageError end).

Definition done_or_raised (act : action) : ag () :=
  a ← perform act; mret (match a with AFails e => Err e | _ => Ok tt end).
Definition log_action tenant agent act detail : ag () := done_or_raised (Audit tenant agent act detail).
Definition check_and_increment tenant op : ag () := done_or_raised (Quota tenant op).
Definition require_agent_approval tenant : ag bool :=
  a ← perform (ResolveConfig tenant);
  mret (match a with AApproval b => Ok b | AFails e => Err e | _ => Err (Auth.Raised "not a configuration") end).
Definition get_memory_for_tenant tenant mid : ag (option memory) :=
  a ← perform (GetMemory tenant mid);
  mret (match a with AMemory m => Ok m | AFails e => Err e | _ => Err (Auth.Raised "not a memory") end).

(** The client's verbs. *)
Definition get_agent (agent tenant : string) : ag (option Agent) := call (agent_get_by_id (tenant, agent)).
Definition create_or_update_agent (k : key) (data : columns) : ag Agent :=
  o ← http (agent_add k data);
  mret (match o with Some (Some a) => Ok a | _ => Err StorageError end).
Definition delete_agent (agent tenant : string) : ag () := committed (agent_delete (tenant, agent)).

#[local] Notation "x ⇐ m ; k" := (ag_bind m (λ x, k)) (at level 100, m at next level, right associativity).

Definition lookup_agent (tenant agent : string) : ag (option Agent) := get_agent agent tenant.

(** The fields an existing row learns from the call. *)
Definition backfill (a : Agent) (fleet display install owner : option string) : columns :=
  let first (old new : option string) := match old with None => new | Some _ => None end in
  {| c_fleet := first (fleet_id a) fleet;
     c_display := match display with
                  | Some d => if bool_decide (display_name a = Some d) then None else Some d
                  | None => None
                  end;
     c_install := first (install_id a) install; c_owner := first (owner_install_uuid a) owner;
     c_trust := None; c_profile := None |}.
(** Whether a new agent takes over the legacy ["main"] row's tuning. *)
Definition carries_main (agent : string) (install : option string) (require_approval : bool) : bool :=
  negb require_approval &&
  match install with Some i => String.eqb agent ("main-" ++ i) | None => false end.
Definition legacy_main (tenant agent : string) (fleet install : option string) (require_approval : bool) :
    ag (option Agent) :=
  if carries_main agent install require_approval then
    legacy ⇐ get_agent RESERVED_MAIN_AGENT_ID tenant;
    done_ (match legacy with
           | Some m => if bool_decide (fleet = None) || bool_decide (fleet_id m = fleet) then Some m else None
           | None => None
           end)
  else done_ None.

Definition get_or_create_agent (tenant agent : string) (fleet : option string) (require_approval : bool)
    (display install owner : option string) : ag Agent :=
  existing ⇐ get_agent agent tenant;
  match existing with
  | Some a =>
      let new := backfill a fleet display install owner in
      if is_empty new then done_ a
      else
        _ ⇐ create_or_update_agent (tenant, agent) new;
        done_ (set_columns new a)
  | None =>
      legacy ⇐ legacy_main tenant agent fleet install require_approval;
      let initial_trust := match legacy with
                           | Some m => trust_level m
                           | None => if require_approval then 0 else DEFAULT_TRUST_LEVEL
                           end in
      let data := {| c_fleet := fleet; c_display := display; c_install := install; c_owner := owner;
                     c_trust := Some initial_trust; c_profile := legacy ≫= search_profile |} in
      a ⇐ create_or_update_agent (tenant, agent) data;
      _ ⇐ log_action tenant (Some agent) "agent_registered" data;
      done_ a
  end.

(** ** Whose write it is *)

Definition _BROKER_LABEL_PREFIX : string := "broker:".
Definition broker_label (install_uuid : option string) : string :=
  (_BROKER_LABEL_PREFIX ++ str_or install_uuid "unknown")%string.
Definition _owned_by_other_install (owner install_uuid : option string) : bool :=
  match owner with Some _ => negb (bool_decide (owner = install_uuid)) | None => false end.

Definition broker_owned_agent_id (chosen : string) (install_uuid : option string) (tenant : string) : ag string :=
  match install_uuid with
  | None => done_ chosen
  | Some _ =>
      let fallback := broker_label install_uuid in
      if String.eqb chosen fallback then done_ chosen
      else if starts_with _BROKER_LABEL_PREFIX chosen then done_ fallback
      else
        owner ⇐ lookup_agent tenant chosen;
        done_ (match owner with
               | Some a => if _owned_by_other_install (owner_install_uuid a) install_uuid then fallback else chosen
               | None => chosen
               end)
  end.

Definition resolve_write_agent (chosen tenant : string) (fleet : option string) (is_install_credential : bool)
    (install_uuid : option string) (require_approval : bool) : ag (Agent * string) :=
  chosen ⇐ (if is_install_credential then broker_owned_agent_id chosen install_uuid tenant else done_ chosen);
  a ⇐ get_or_create_agent tenant chosen fleet require_approval None None
        (if is_install_credential then install_uuid else None);
  if is_install_credential && is_given install_uuid && _owned_by_other_install (owner_install_uuid a) install_uuid
  then
    let chosen := broker_label install_uuid in
    a ⇐ get_or_create_agent tenant chosen fleet require_approval None None install_uuid;
    done_ (a, chosen)
  else done_ (a, chosen).

(** ** Fleets and trust *)

Definition fleet_refusal (verb : string) (fleet : option string) (a : Agent) : exn :=
  HTTPException 403 ("fleet-scope policy: fleet '" ++ default "None" fleet ++ "' is not " ++ verb ++
                     " by principals of fleet '" ++ str_or (fleet_id a) "none" ++ "'.")%string.
(** The home fleet, or no fleet at all. *)
Definition at_home (fleet : option string) (a : Agent) : bool :=
  bool_decide (fleet = None) || bool_decide (fleet = fleet_id a).

Definition enforce_fleet_write (tenant agent : string) (fleet : option string) : ag Agent :=
  a ⇐ get_or_create_agent tenant agent fleet false None None None;
  if at_home fleet a then done_ a
  else if trust_level a <? 3 then raise (fleet_refusal "writable" fleet a)
  else done_ a.
Definition enforce_fleet_read (tenant agent : string) (fleet : option string) : ag () :=
  o ⇐ lookup_agent tenant agent;
  match o with
  | None => done_ tt
  | Some a =>
      if at_home fleet a then done_ tt
      else if trust_level a <? 2 then raise (fleet_refusal "readable" fleet a)
      else done_ tt
  end.

Definition memory_access_allowed_for_agent (o : option Agent) (caller : string) (m : memory) (write : bool) : bool :=
  if bool_decide (visibility m = Some "scope_agent") then bool_decide (agent_id m = Some caller)
  else if bool_decide (visibility m = Some "scope_org") then true
  else match o with
       | None => true
       | Some a => at_home (m_fleet m) a || ((if write then 3 else 2) <=? trust_level a)
       end.
Definition authorize_memory_access (tenant : string) (caller : option string) (m : memory) (write : bool) : ag bool :=
  match given caller with
  | None => done_ true
  | Some c =>
      if bool_decide (visibility m = Some "scope_agent") || bool_decide (visibility m = Some "scope_org")
      then done_ (memory_access_allowed_for_agent None c m write)
      else o ⇐ lookup_agent tenant c; done_ (memory_access_allowed_for_agent o c m write)
  end.
Definition enforce_memory_read (tenant : string) (caller : option string) (m : memory) : ag () :=
  allowed ⇐ authorize_memory_access tenant caller m false;
  if (allowed : bool) then done_ tt else raise (HTTPException 404 "Memory not found").

Definition enforce_delete (tenant agent : string) : ag () :=
  o ⇐ lookup_agent tenant agent;
  match o with
  | None => raise (HTTPException 403 ("Agent '" ++ agent ++ "' is not registered and cannot delete memories.")%string)
  | Some a =>
      if trust_level a <? 3 then
        raise (HTTPException 403 ("access policy: principals of fleet '" ++ str_or (fleet_id a) "none" ++
                                  "' are not permitted to delete memories.")%string)
      else done_ tt
  end.
Definition enforce_update (tenant agent : string) (owner : option string) : ag () :=
  o ⇐ lookup_agent tenant agent;
  match o with
  | None => raise (HTTPException 403 ("Agent '" ++ agent ++ "' is not registered and cannot update memories.")%string)
  | Some a =>
      if trust_level a =? 0 then
        raise (HTTPException 403 ("access policy: agent '" ++ agent ++ "' is restricted from updates.")%string)
      else if (trust_level a <? 3) && negb (bool_decide (owner = Some agent)) then
        raise (HTTPException 403 ("access policy: agent '" ++ agent ++ "' may only update its own memories.")%string)
      else done_ tt
  end.

Definition update_trust_level (tenant agent : string) (level : Z) (fleet : option string) : ag Agent :=
  o ⇐ lookup_agent tenant agent;
  match o with
  | None => raise (HTTPException 404 ("Agent '" ++ agent ++ "' not found")%string)
  | Some a =>
      _ ⇐ committed (agent_update_trust_level (tenant, agent) level fleet);
      updated ⇐ get_agent agent tenant;
      done_ (default a updated)
  end.

(** *** The trust gate *)
Definition _MCP_ERROR_PREFIX : string := "Error (403): ".
Definition trust_error (detail : string) : option string := Some (_MCP_ERROR_PREFIX ++ detail)%string.
(** Trust, whether no row exists, and the error. *)
Definition trust_verdict (o : option Agent) (agent : string) (min_level : Z) : Z * bool * option string :=
  match o with
  | None =>
      if min_level <=? DEFAULT_TRUST_LEVEL then (DEFAULT_TRUST_LEVEL, true, None)
      else (DEFAULT_TRUST_LEVEL, true,
            trust_error ("Agent '" ++ agent ++ "' is not registered (no row; effective trust " ++
                         str_of_Z DEFAULT_TRUST_LEVEL ++ " < required " ++ str_of_Z min_level ++
                         "). Register the agent by writing one memory first.")%string)
  | Some a =>
      if trust_level a <? min_level then
        (trust_level a, false,
         trust_error ("Agent '" ++ agent ++ "' (trust_level=" ++ str_of_Z (trust_level a) ++ ") < required " ++
                      str_of_Z min_level ++ ".")%string)
      else (trust_level a, false, None)
  end.
Definition require_trust (tenant agent : string) (min_level : Z) : ag (Z * bool * option string) :=
  o ⇐ lookup_agent tenant agent; done_ (trust_verdict o agent min_level).
Definition removeprefix (p s : string) : string :=
  if starts_with p s then drop_str (String.length p) s else s.
Definition parse_trust_error (terr : string) : string := removeprefix _MCP_ERROR_PREFIX terr.

Definition resolve_caller_and_gate (is_standalone : bool) (auth : Auth.AuthContext) (tenant : string)
    (body_agent_id : option string) (scope : string) : ag string :=
  let caller := match given (Auth.agent_id auth) with
                | Some v => v
                | None => str_or body_agent_id DEFAULT_AGENT_ID
                end in
  if Auth.is_admin auth then done_ caller
  else if is_standalone && negb (is_given (Auth.agent_id auth)) && negb (is_given body_agent_id) then done_ caller
  else
    caller ⇐ (if Auth.is_install_credential auth
              then broker_owned_agent_id caller (Auth.install_uuid auth) tenant else done_ caller);
    let min_level := if String.eqb scope "agent" then 1 else 2 in
    verdict ⇐ require_trust tenant caller min_level;
    let '(_, not_found, terr) := (verdict : Z * bool * option string) in
    if (not_found : bool) then
      raise (HTTPException 403 ("Agent '" ++ caller ++ "' is not registered in tenant '" ++ tenant ++ "'.")%string)
    else match terr with
         | Some e => raise (HTTPException 403 (parse_trust_error e))
         | None => done_ caller
         end.

(** *** Keystones *)
Definition keystone_min_trust (scope : string) (target : option string) (caller : string) : Z :=
  if String.eqb scope "agent" && bool_decide (target = Some caller) then 1 else 2.
Definition effective_keystone_min_trust (new_scope : string) (new_target stored_scope stored_target : option string)
    (caller : string) : Z :=
  let new_floor := keystone_min_trust new_scope new_target caller in
  match stored_scope with
  | None => new_floor
  | Some sc => Z.max new_floor (keystone_min_trust sc stored_target caller)
  end.
End Agents.
