(* ===== verification/AgentRoutes.v ===== *)
(** * Routes and tools that act for an agent
    ([routes/memories.py], [agents.py], [fleet.py], [evolve.py],
    [insights.py], [stm.py] and [mcp_server.py] of core-api, the registration
    step of [services/lifecycle_audit.py])

    For each route or tool, the part that establishes who acts and what it may
    touch: the gates of the credential, the agent a write is attributed to,
    the fleets a search is confined to, the authorization of access by id.
    The work behind the gates is [Perform].  A tool's error envelope is
    [Raised] with its code. *)

From S2P Require Import Prelude Interleaving Auth Agents.

Module AgentRoutes.
Import Interleaving Agents.
#[local] Open Scope string_scope.
#[local] Open Scope Z_scope.
#[local] Open Scope list_scope.
#[local] Notation "x ⇐ m ; k" := (ag_bind m (λ x, k)) (at level 100, m at next level, right associativity).
Import Auth (AuthContext).

Record deployment : Type := { is_standalone : bool; bind_write_identity_to_auth : bool }.

Section Routes.
Context (d : deployment).

(** ** Writes *)
Definition _missing_agent_id_error : exn := HTTPException 422
  "agent_id is required; only the standalone single-tenant deployment may omit it.".
(** The verified identity, when writes are bound to it. *)
Definition bound_agent (auth : AuthContext) (agent : string) : string :=
  if bind_write_identity_to_auth d then str_or (Auth.agent_id auth) agent else agent.
Definition home_if_missing (fleet : option string) (a : Agent) : option string :=
  match given fleet with
  | Some f => Some f
  | None => match given (fleet_id a) with Some f => Some f | None => fleet end
  end.
Definition enforced_write (auth : AuthContext) (tenant agent : string) (fleet : option string) (op : string) : ag () :=
  if is_given (Auth.tenant_id auth) then
    _ ⇐ enforce_fleet_write tenant agent fleet; check_and_increment tenant op
  else done_ tt.

Definition _write_memory_inner (auth : AuthContext) (tenant agent : string) (fleet : option string) :
    ag (string * option string) :=
  approval ⇐ require_agent_approval tenant;
  r ⇐ resolve_write_agent (bound_agent auth agent) tenant fleet (Auth.is_install_credential auth)
        (Auth.install_uuid auth) approval;
  let '(row, agent) := (r : Agent * string) in
  if trust_level row =? 0 then
    raise (HTTPException 403 ("Agent '" ++ agent ++
             "' is not approved. Contact tenant admin to set trust_level >= 1.")%string)
  else
    let fleet := home_if_missing fleet row in
    _ ⇐ enforced_write auth tenant agent fleet "write";
    done_ (agent, fleet).

Definition write_gates (auth : AuthContext) (tenant : string) : res exn () :=
  _ ← Auth.enforce_read_only auth; _ ← Auth.enforce_usage_limits auth; Auth.enforce_tenant auth tenant.
Definition default_agent (agent : option string) : res exn string :=
  match given agent with
  | Some a => Ok a
  | None => if is_standalone d then Ok DEFAULT_AGENT_ID else Err _missing_agent_id_error
  end.

Definition write_memory (auth : AuthContext) (tenant : string) (agent fleet : option string) :
    ag (string * option string) :=
  _ ⇐ lift (write_gates auth tenant);
  agent ⇐ lift (default_agent agent);
  _write_memory_inner auth tenant agent fleet.

(** The agent the items of a batch name, if they name one. *)
Definition item_agents (items : list pydict) : list string :=
  remove_dups (omap (λ md, match dgetv md "agent_id" with PStr a => given (Some a) | _ => None end) items).
Definition _broker_write_agent_id (items : list pydict) (install_uuid : option string) : string :=
  match item_agents items with [a] => a | _ => broker_label install_uuid end.

Definition _write_memories_bulk_inner (auth : AuthContext) (tenant agent : string) (fleet : option string) :
    ag (string * option string) :=
  r ⇐ resolve_write_agent (bound_agent auth agent) tenant fleet (Auth.is_install_credential auth)
        (Auth.install_uuid auth) false;
  let '(row, agent) := (r : Agent * string) in
  let fleet := home_if_missing fleet row in
  _ ⇐ enforced_write auth tenant agent fleet "bulk_write";
  done_ (agent, fleet).

(** [items]: the metadata of each. *)
Definition write_memories_bulk (auth : AuthContext) (tenant : string) (agent fleet : option string)
    (items : list pydict) : ag (string * option string) :=
  _ ⇐ lift (write_gates auth tenant);
  let agent := if Auth.is_install_credential auth && negb (is_given agent)
               then Some (_broker_write_agent_id items (Auth.install_uuid auth)) else agent in
  agent ⇐ lift (default_agent agent);
  _write_memories_bulk_inner auth tenant agent fleet.

(** *** Over MCP *)
Definition envelope (code : string) : exn := Auth.Raised code.
Definition checked (o : option Auth.mcp_refusal) : res exn () :=
  match o with Some _ => Err (envelope "FORBIDDEN") | None => Ok tt end.
Definition _refuse_default_agent_on_gateway (v : Auth.mcp_vars) (agent : string) : res exn () :=
  if Auth.via_gateway v && bool_decide (Auth.mcp_agent v = None) && String.eqb agent DEFAULT_AGENT_ID
  then Err (envelope "MISSING_AGENT_ID") else Ok tt.

Definition memclaw_write (v : Auth.mcp_vars) (agent_arg : string) (fleet : option string) :
    ag (string * option string) :=
  _ ⇐ lift (checked (Auth._check_auth v));
  _ ⇐ lift (checked (Auth._check_write_scope v));
  let tenant := Auth.mcp_tenant v in
  let agent := default "" (effective_write_agent_id (Auth.mcp_agent v) (Some agent_arg)) in
  _ ⇐ lift (_refuse_default_agent_on_gateway v agent);
  approval ⇐ require_agent_approval tenant;
  r ⇐ resolve_write_agent agent tenant fleet (Auth._is_install_credential v) (Auth.mcp_install_uuid v) approval;
  let '(row, agent) := (r : Agent * string) in
  if trust_level row =? 0 then raise (envelope "AGENT_NOT_APPROVED")
  else
    a ⇐ enforce_fleet_write tenant agent fleet;
    _ ⇐ check_and_increment tenant "write";
    done_ (agent, home_if_missing fleet a).

(** *** Promotion and ingestion *)
Definition owned_agent (auth : AuthContext) (tenant agent : string) : ag string :=
  if Auth.is_install_credential auth && is_given (Some agent)
  then broker_owned_agent_id agent (Auth.install_uuid auth) tenant else done_ agent.

(** [resolve_caller_and_gate] behind the gates of evolve and insights *)
Definition report_outcome_endpoint (auth : AuthContext) (tenant : string) (agent : option string) (scope : string) :
    ag string :=
  _ ⇐ lift (_ ← Auth.enforce_tenant auth tenant; _ ← Auth.enforce_read_only auth; Auth.enforce_usage_limits auth);
  caller ⇐ resolve_caller_and_gate (is_standalone d) auth tenant agent scope;
  _ ⇐ check_and_increment tenant "evolve";
  done_ caller.

(** ** Searches *)

(** The identity and the fleets a search runs with. *)
Definition only_fleet (fleets : list string) : option string := match fleets with [f] => Some f | _ => None end.
(** An agent of little trust that names no fleet stays in its own. *)
Definition confined (fleets : list string) (a : Agent) : list string :=
  match fleets, given (fleet_id a) with
  | [], Some home => if trust_level a <? 2 then [home] else []
  | _, _ => fleets
  end.
Definition fleet_scope (tenant agent : string) (fleets : list string) : ag (list string) :=
  a ⇐ get_or_create_agent tenant agent (only_fleet fleets) false None None None;
  let fleets := confined fleets a in
  _ ⇐ match only_fleet fleets with
      | Some f => enforce_fleet_read tenant agent (Some f)
      | None => done_ tt
      end;
  done_ fleets.

Definition search_as (auth : AuthContext) (tenant : string) (fleets : list string) (caller : option string) :
    ag (option string * list string) :=
  _ ⇐ lift (Auth.enforce_readable_tenant auth tenant);
  fleets ⇐ (if is_given (Auth.tenant_id auth) then
              fleets ⇐ match given caller with Some c => fleet_scope tenant c fleets | None => done_ fleets end;
              _ ⇐ check_and_increment tenant "search";
              done_ fleets
            else done_ fleets);
  done_ (caller, fleets).
Definition search (auth : AuthContext) (tenant : string) (fleets : list string) (filter_agent_id : option string) :=
  search_as auth tenant fleets (match given filter_agent_id with Some f => Some f | None => Auth.agent_id auth end).
Definition recall (auth : AuthContext) (tenant : string) (fleets : list string) (filter_agent_id : option string) :=
  search_as auth tenant fleets filter_agent_id.

(** An unknown agent is not confined. *)
Definition memclaw_recall (v : Auth.mcp_vars) (agent_arg : string) (fleets : list string) :
    ag (option string * list string) :=
  _ ⇐ lift (checked (Auth._check_auth v));
  let tenant := Auth.mcp_tenant v in
  let agent := str_or (Auth.mcp_agent v) agent_arg in
  _ ⇐ lift (_refuse_default_agent_on_gateway v agent);
  _ ⇐ check_and_increment tenant "search";
  o ⇐ get_agent agent tenant;
  let fleets := match o with Some a => confined fleets a | None => fleets end in
  _ ⇐ match only_fleet fleets with
      | Some f => enforce_fleet_read tenant agent (Some f)
      | None => done_ tt
      end;
  done_ (Some agent, fleets).

(** ** Access by id *)
Definition missing : exn := HTTPException 404 "Memory not found".
Definition denied (verb agent : string) (m : memory) : exn :=
  HTTPException 403 ("Agent '" ++ agent ++ "' cannot " ++ verb ++ " memory in fleet '" ++
                     default "None" (m_fleet m) ++ "'.")%string.

Definition get_memory (auth : AuthContext) (tenant mid : string) : ag memory :=
  _ ⇐ lift (Auth.enforce_readable_tenant auth tenant);
  o ⇐ get_memory_for_tenant tenant mid;
  match o with
  | None => raise missing
  | Some m =>
      allowed ⇐ authorize_memory_access tenant (Auth.agent_id auth) m false;
      if (allowed : bool) then done_ m else raise missing
  end.

(** [update_memory] up to its first change *)
Definition update_memory (tenant mid : string) (agent : option string) : ag () :=
  o ⇐ get_memory_for_tenant tenant mid;
  match o with
  | None => raise missing
  | Some m =>
      match given agent with
      | None => done_ tt
      | Some a =>
          _ ⇐ enforce_update tenant a (agent_id m);
          allowed ⇐ authorize_memory_access tenant (Some a) m true;
          if (allowed : bool) then done_ tt else raise (denied "modify" a m)
      end
  end.
Definition patch_memory (auth : AuthContext) (tenant mid : string) (agent_param : option string) : ag () :=
  _ ⇐ lift (Auth.enforce_tenant auth tenant);
  _ ⇐ (if is_given (Auth.tenant_id auth) then check_and_increment tenant "write" else done_ tt);
  _ ⇐ update_memory tenant mid
        (if is_given (Auth.tenant_id auth)
         then match given (Auth.agent_id auth) with Some a => Some a | None => agent_param end else None);
  done_or_raised (Perform "update").

Definition delete_memory (auth : AuthContext) (tenant mid : string) (agent_param : option string) : ag () :=
  _ ⇐ lift (_ ← Auth.enforce_read_only auth; Auth.enforce_tenant auth tenant);
  _ ⇐ match is_given (Auth.tenant_id auth),
            given (match given (Auth.agent_id auth) with Some a => Some a | None => agent_param end) with
      | true, Some a =>
          _ ⇐ enforce_delete tenant a;
          o ⇐ get_memory_for_tenant tenant mid;
          match o with
          | Some m =>
              allowed ⇐ authorize_memory_access tenant (Some a) m true;
              if (allowed : bool) then done_ tt else raise (denied "delete" a m)
          | None => done_ tt
          end
      | _, _ => done_ tt
      end;
  done_or_raised (Perform "soft_delete").

Definition update_memory_status (auth : AuthContext) (tenant mid : string) : ag () :=
  _ ⇐ lift (write_gates auth tenant);
  o ⇐ get_memory_for_tenant tenant mid;
  match o with
  | None => raise missing
  | Some m =>
      _ ⇐ match given (Auth.agent_id auth) with
          | Some a =>
              allowed ⇐ authorize_memory_access tenant (Some a) m true;
              if (allowed : bool) then done_ tt else raise (denied "modify" a m)
          | None => done_ tt
          end;
      done_or_raised (Perform "status")
  end.

(** ** Administration of agents *)
Definition patch_agent_trust (auth : AuthContext) (tenant agent : string) (level : Z) (fleet : option string) :
    ag Agent :=
  _ ⇐ lift (_ ← Auth.enforce_tenant auth tenant;
            Auth.enforce_not_agent_credential auth "change agent trust levels");
  update_trust_level tenant agent level fleet.
Definition no_agent (agent : string) : exn := HTTPException 404 ("Agent '" ++ agent ++ "' not found")%string.
Definition update_agent_fleet (auth : AuthContext) (tenant agent : string) (fleet : option string) : ag () :=
  _ ⇐ lift (write_gates auth tenant);
  _ ⇐ lift (Auth.enforce_not_agent_credential auth "reassign agent fleets");
  match given fleet with
  | None => raise (HTTPException 400 "fleet_id is required")
  | Some f =>
      o ⇐ get_agent agent tenant;
      match o with
      | None => raise (no_agent agent)
      | Some _ => committed (agent_update_fleet (tenant, agent) f)
      end
  end.
Definition remove_agent (auth : AuthContext) (tenant agent : string) : ag () :=
  _ ⇐ lift (_ ← Auth.enforce_read_only auth; _ ← Auth.enforce_tenant auth tenant;
            Auth.enforce_not_agent_credential auth "delete agents");
  o ⇐ get_agent agent tenant;
  match o with
  | None => raise (no_agent agent)
  | Some _ =>
      _ ⇐ log_action tenant None "delete" no_columns;
      delete_agent agent tenant
  end.

(** The agents of a heartbeat; one that fails does not stop the others. *)
Fixpoint heartbeat_agents (tenant : string) (fleet install : option string) (agents : list (string * option string)) :
    ag () :=
  match agents with
  | [] => done_ tt
  | (agent, display) :: agents =>
      _ ⇐ (if is_given (Some agent)
           then caught (_ ⇐ get_or_create_agent tenant agent fleet false display install None; done_ tt)
           else done_ tt);
      heartbeat_agents tenant fleet install agents
  end.
Definition heartbeat (auth : AuthContext) (tenant : string) (fleet install : option string)
    (agents : list (string * option string)) : ag () :=
  _ ⇐ lift (Auth.enforce_tenant auth tenant);
  _ ⇐ done_or_raised (Perform "upsert_node");
  heartbeat_agents tenant fleet install agents.

(** The nightly job registers the identity its insights are written under. *)
Definition register_insighter (tenant : string) : ag () :=
  caught (
    o ⇐ get_agent INSIGHTER_AGENT_ID tenant;
    match o with
    | Some _ => done_ tt
    | None =>
        _ ⇐ create_or_update_agent (tenant, INSIGHTER_AGENT_ID)
              {| c_fleet := None; c_display := Some "MemClaw Insighter"; c_install := None; c_owner := None;
                 c_trust := Some INSIGHTER_TRUST_LEVEL; c_profile := None |};
        done_ tt
    end).

(** ** The requests of a running system *)
Inductive request : Type :=
| WriteMemory (auth : AuthContext) (tenant : string) (agent fleet : option string)
| WriteBulk (auth : AuthContext) (tenant : string) (agent fleet : option string) (items : list pydict)
| McpWrite (v : Auth.mcp_vars) (agent : string) (fleet : option string)
| OwnedWrite (auth : AuthContext) (tenant agent : string)
| Report (auth : AuthContext) (tenant : string) (agent : option string) (scope : string)
| Search (auth : AuthContext) (tenant : string) (fleets : list string) (filter_agent_id : option string)
| Recall (auth : AuthContext) (tenant : string) (fleets : list string) (filter_agent_id : option string)
| McpRecall (v : Auth.mcp_vars) (agent : string) (fleets : list string)
| GetMemoryById (auth : AuthContext) (tenant mid : string)
| PatchMemory (auth : AuthContext) (tenant mid : string) (agent : option string)
| DeleteMemory (auth : AuthContext) (tenant mid : string) (agent : option string)
| PatchStatus (auth : AuthContext) (tenant mid : string)
| PatchTrust (auth : AuthContext) (tenant agent : string) (level : Z) (fleet : option string)
| PatchFleet (auth : AuthContext) (tenant agent : string) (fleet : option string)
| DeleteAgent (auth : AuthContext) (tenant agent : string)
| Heartbeat (auth : AuthContext) (tenant : string) (fleet install : option string) (agents : list (string * option string))
| RegisterInsighter (tenant : string)
| BackfillAgents (pairs : list (key * option string)).

(** Who a write is attributed to and in which fleet; who searches and where;
    or just that the request went through. *)
Inductive outcome : Type :=
| Attributed (agent : string) (fleet : option string)
| Searches (caller : option string) (fleets : list string)
| Through.

Definition attributed (m : ag (string * option string)) : ag outcome := r ⇐ m; done_ (Attributed r.1 r.2).
Definition as_agent (m : ag string) : ag outcome := r ⇐ m; done_ (Attributed r None).
Definition searches (m : ag (option string * list string)) : ag outcome := r ⇐ m; done_ (Searches r.1 r.2).
Definition through {A} (m : ag A) : ag outcome := _ ⇐ m; done_ Through.

Definition handler (r : request) : ag outcome :=
  match r with
  | WriteMemory auth tenant agent fleet => attributed (write_memory auth tenant agent fleet)
  | WriteBulk auth tenant agent fleet items => attributed (write_memories_bulk auth tenant agent fleet items)
  | McpWrite v agent fleet => attributed (memclaw_write v agent fleet)
  | OwnedWrite auth tenant agent => as_agent (owned_agent auth tenant agent)
  | Report auth tenant agent scope => as_agent (report_outcome_endpoint auth tenant agent scope)
  | Search auth tenant fleets f => searches (search auth tenant fleets f)
  | Recall auth tenant fleets f => searches (recall auth tenant fleets f)
  | McpRecall v agent fleets => searches (memclaw_recall v agent fleets)
  | GetMemoryById auth tenant mid => through (get_memory auth tenant mid)
  | PatchMemory auth tenant mid agent => through (patch_memory auth tenant mid agent)
  | DeleteMemory auth tenant mid agent => through (delete_memory auth tenant mid agent)
  | PatchStatus auth tenant mid => through (update_memory_status auth tenant mid)
  | PatchTrust auth tenant agent level fleet => through (patch_agent_trust auth tenant agent level fleet)
  | PatchFleet auth tenant agent fleet => through (update_agent_fleet auth tenant agent fleet)
  | DeleteAgent auth tenant agent => through (remove_agent auth tenant agent)
  | Heartbeat auth tenant fleet install agents => through (heartbeat auth tenant fleet install agents)
  | RegisterInsighter tenant => through (register_insighter tenant)
  | BackfillAgents pairs => through (call (agent_backfill_from_memories pairs))
  end.
End Routes.
End AgentRoutes.
