(* ===== verification/AgentSystem.v ===== *)
(** * The agents of a running system

    Any number of the requests of [AgentRoutes] at once, over the [agents]
    table and a replica that catches up now and then.  The table is the replay
    of the logged writes, and whatever a read answered was there at some
    moment.  On top of that: whose name an install writes under, where a trust
    level comes from, and what access by id has been checked against. *)

From S2P Require Import Prelude Interleaving Auth Agents AgentRoutes.

Module AgentSystem.
Import Interleaving Agents AgentRoutes.
#[local] Open Scope string_scope.
#[local] Open Scope Z_scope.
#[local] Open Scope list_scope.

Lemma prefix_snoc_inv {A} (p l : list A) x : p `prefix_of` l ++ [x] → p `prefix_of` l ∨ p = l ++ [x].
Proof.
  intros [q Hq]. destruct q as [|y q _] using rev_ind; [right; by rewrite app_nil_r in Hq|].
  left. rewrite app_assoc in Hq. apply app_inj_tail in Hq as [-> _]. by exists q.
Qed.

(** ** Runs *)

(** The environment is the replica catching up. *)
Definition catch_up (_ : Z) (_ : ()) (s : db) : db := DB (primary s) (primary s) (next_id s).
Abbreviation history := (list (event write action answer)).
Abbreviation wlog := (log write action answer).

Section System.
Context (d : deployment) (init : table).
(** The levels the administrators give out, and those of the first rows. *)
Context (granted : key → Z → Prop).

Definition start : sys db write action answer request (res exn outcome) :=
  Sys (DB init init (N.of_nat (size init))) (Log 0 []) [].
Definition runs (ms : list (move answer request ())) : sys db write action answer request (res exn outcome) :=
  run (handler d) apply_write catch_up ms start.

(** The table after a history. *)
Definition replay (t : table) (ev : event write action answer) : table :=
  match ev_what ev with Wrote w => write_table w t | _ => t end.
Definition table_of (evs : history) : table := foldl replay init evs.
Lemma table_of_snoc evs ev : table_of (evs ++ [ev]) = replay (table_of evs) ev.
Proof. unfold table_of. by rewrite foldl_app. Qed.

(** *** What every row ever satisfies *)

(** A reserved name belongs to its install. *)
Definition reserved (k : key) (owner : option string) : Prop :=
  ∀ u, owner = Some u → starts_with _BROKER_LABEL_PREFIX k.2 = true → k.2 = broker_label (Some u).
(** Trust above the default was granted, to the agent or to the ["main"] it
    took over from, or is the insighter's. *)
Definition sourced (k : key) (level : Z) : Prop :=
  level ≤ DEFAULT_TRUST_LEVEL ∨ (k.2 = INSIGHTER_AGENT_ID ∧ level = INSIGHTER_TRUST_LEVEL) ∨ granted k level ∨
  ∃ i, k.2 = ("main-" ++ i)%string ∧ granted (k.1, RESERVED_MAIN_AGENT_ID) level.
Definition good (k : key) (a : Agent) : Prop := reserved k (owner_install_uuid a) ∧ sourced k (trust_level a).
Definition good_table (t : table) : Prop := map_Forall good t.
(** The same of the columns of a write. *)
Definition good_columns (k : key) (c : columns) : Prop :=
  reserved k (c_owner c) ∧ ∀ z, c_trust c = Some z → sourced k z.

Lemma sourced_default k : sourced k 1.
Proof. by left. Qed.
Lemma good_new k n c : good_columns k c → good k (new_row n c).
Proof.
  intros [Ho Ht]. split; [done|]. cbn. destruct (c_trust c); [by apply Ht|apply sourced_default].
Qed.
Lemma good_set k a c : good_columns k c → good k a → good k (set_columns c a).
Proof.
  intros [Ho Ht] [Ho' Ht']. split; cbn.
  - by destruct (c_owner c).
  - destruct (c_trust c); [by apply Ht|done].
Qed.
Lemma good_changes k a data : good_columns k data → good_columns k (changes a data).
Proof.
  intros [Ho Ht]. split; cbn.
  - destruct (owner_install_uuid a); [by intros u|done].
  - destruct (c_trust data) as [z|]; [|done]. destruct (z =? _); [done|]. intros ? [= <-]. by apply Ht.
Qed.
Lemma good_changed k a c : good_columns k c → good_columns k (changed_columns c a).
Proof.
  intros [Ho Ht]. split; cbn; [by intros u|].
  destruct (c_trust c) as [z|]; [|done]. destruct (z =? _); [done|]. intros ? [= <-]. by apply Ht.
Qed.

(** ** The invariant *)

(** An owner stays until the row is deleted. *)
Definition keeps (ev : event write action answer) (t : table) : Prop :=
  ∀ k a u, t !! k = Some a → owner_install_uuid a = Some u →
    ev_what ev = Wrote (Remove k) ∨ ∃ a', replay t ev !! k = Some a' ∧ owner_install_uuid a' = Some u.
Record Inv (l : wlog) (s : db) : Prop := {
  inv_primary : primary s = table_of (events l);
  inv_replica : ∃ p, p `prefix_of` events l ∧ replica s = table_of p;
  inv_good : ∀ p, p `prefix_of` events l → good_table (table_of p);
  inv_keeps : ∀ p ev, p ++ [ev] `prefix_of` events l → keeps ev (table_of p);
}.

(** A row was there at some moment, or its absence. *)
Definition once (k : key) (o : option Agent) (l : wlog) : Prop :=
  ∃ p, p `prefix_of` events l ∧ table_of p !! k = o.
(** Thread [i] read it. *)
Definition saw (i : nat) (k : key) (o : option Agent) (l : wlog) : Prop :=
  ∃ ev, ev ∈ events l ∧ ev_tid ev = i ∧ ev_what ev = Wrote (Saw k o).
Lemma once_later k o l l' : later l l' → once k o l → once k o l'.
Proof. intros [_ Hl] (p & Hp & Ho). exists p. split; [by etrans|done]. Qed.
Lemma saw_later i k o l l' : later l l' → saw i k o l → saw i k o l'.
Proof.
  intros [_ Hl] (ev & Hev & ?). exists ev. split; [|done]. destruct Hl as [x ->]. rewrite elem_of_app. auto.
Qed.

Lemma inv_snoc i w l s s' :
  Inv l s → replica s' = replica s → primary s' = replay (primary s) (Event i (now l) w) →
  good_table (primary s') → keeps (Event i (now l) w) (primary s) → Inv (logged i w l) s'.
Proof.
  intros [Hp [q [Hq Hr]] Hg Hk] Hr' Hp' Hg' Hk'. split; cbn.
  - by rewrite table_of_snoc, Hp', Hp.
  - exists q. split; [|by rewrite Hr']. etrans; [exact Hq|]. by apply prefix_app_r.
  - intros p' [Hpre| ->]%prefix_snoc_inv; [by apply Hg|]. by rewrite table_of_snoc, <- Hp, <- Hp'.
  - intros p' ev [Hpre|[-> [= ->]]%app_inj_tail]%prefix_snoc_inv; [by apply Hk|]. by rewrite <- Hp.
Qed.
Lemma inv_good_now l s : Inv l s → good_table (primary s).
Proof. intros Hi. rewrite (inv_primary _ _ Hi). by apply (inv_good _ _ Hi). Qed.
Lemma inv_quiet i w l s : (∀ x, w ≠ Wrote x) → Inv l s → Inv (logged i w l) s.
Proof.
  intros Hw Hi. assert (Hrep : ∀ t, replay t (Event i (now l) w) = t).
  { intros t. unfold replay. cbn. destruct w; [by edestruct Hw|done..]. }
  eapply inv_snoc; [done|done|by rewrite Hrep|by eapply inv_good_now|].
  intros k a u Ha Hu. right. exists a. by rewrite Hrep.
Qed.
Lemma inv_once_primary l s k : Inv l s → once k (primary s !! k) l.
Proof. intros Hi. exists (events l). by rewrite (inv_primary _ _ Hi). Qed.

(** ** Specifications of programs *)

(** [m], run by thread [i] from log [l], keeps the invariant, and what it
    returns satisfies [P]. *)
Definition spec {A} (i : nat) (m : ag A) (l : wlog) (P : A → wlog → Prop) : Prop :=
  ∀ ac, wp apply_write Inv i m ac l (λ r _ l', match r with Ok a => P a l' | Err _ => True end).
Definition safe {A} (m : ag A) : Prop := ∀ i l, spec i m l (λ _ _, True).

Lemma spec_ret {A} i (a : A) l (P : A → wlog → Prop) : (∀ l', later l l' → P a l') → spec i (done_ a) l P.
Proof. intros HP ac l' Hl'. by apply HP. Qed.
Lemma spec_err {A} i e l (P : A → wlog → Prop) : spec i (raise e) l P.
Proof. by intros ac l' Hl'. Qed.
Lemma spec_lift {A} i (r : res exn A) l (P : A → wlog → Prop) :
  (∀ a l', r = Ok a → later l l' → P a l') → spec i (lift r) l P.
Proof. intros HP ac l' Hl'. destruct r; [by apply HP|done]. Qed.
Lemma spec_bind {A B} i (m : ag A) (f : A → ag B) l P Q :
  spec i m l P → (∀ a l', later l l' → P a l' → spec i (f a) l' Q) → spec i (ag_bind m f) l Q.
Proof.
  intros Hm Hf ac. apply wp_bind. eapply wp_impl; [|exact (Hm ac)].
  intros [a|e] ac' l' Hl' HP; [by apply Hf|by intros l2 Hl2].
Qed.
Lemma spec_impl {A} i (m : ag A) l (P Q : A → wlog → Prop) :
  spec i m l P → (∀ a l', later l l' → P a l' → Q a l') → spec i m l Q.
Proof.
  intros Hm HPQ ac. eapply wp_impl; [|exact (Hm ac)]. intros [a|e] ac' l' Hl'; [by apply HPQ|done].
Qed.
Lemma spec_caught i m l : spec i m l (λ _ _, True) → spec i (caught m) l (λ _ _, True).
Proof. intros Hm ac. apply wp_bind. eapply wp_impl; [|exact (Hm ac)]. by intros [a|e] ac' l' Hl' _ l2 Hl2. Qed.
(** What holds of the log keeps holding. *)
Lemma spec_frame {A} i (m : ag A) l (P : A → wlog → Prop) (F : wlog → Prop) :
  (∀ l l', later l l' → F l → F l') → F l → spec i m l P → spec i m l (λ a l', F l' ∧ P a l').
Proof. intros HF Hl Hm. eapply spec_impl; [exact Hm|]. eauto. Qed.

(** ** The storage calls *)

Lemma wp_did {B} i act (k : answer → prog db write action answer B) ac l (Q : B → list (action * answer) → wlog → Prop) :
  (∀ l' ans, later l l' → wp apply_write Inv i (k ans) (ac ++ [(act, ans)]) (logged i (Did act ans) l') Q) →
  wp apply_write Inv i (perform act ≫= k) ac l Q.
Proof.
  intros Hk. cbn. intros l' t ans Hl' Ht. split; [by apply inv_quiet|]. apply Hk. done.
Qed.
(** A call: the server's transaction, and the case that no answer comes. *)
Lemma spec_http {X A} i (server : tx db write X) (k : option X → res exn A) l (P : A → wlog → Prop) (R : X → wlog → Prop) :
  k None = Err StorageError →
  (∀ x l1 l2, R x l1 → later l1 l2 → match k (Some x) with Ok a => P a l2 | Err _ => True end) →
  wptx apply_write Inv i server l R →
  spec i (o ← http server; mret (k o)) l P.
Proof.
  intros Hnone HR Hs ac. cbn. split.
  - eapply wptx_impl; [|exact Hs]. intros x l1 _ Hx l2 Hl2. by eapply HR.
  - intros l' t Hl' Ht. split; [by apply inv_quiet|]. intros l2 _. by rewrite Hnone.
Qed.

(** A write that leaves rows good and owners alone. *)
Definition lawful (w : write) (t : table) : Prop :=
  good_table (write_table w t) ∧
  ∀ k a u, t !! k = Some a → owner_install_uuid a = Some u →
    w = Remove k ∨ ∃ a', write_table w t !! k = Some a' ∧ owner_install_uuid a' = Some u.
Lemma inv_write i w l s : Inv l s → lawful w (primary s) → Inv (logged i (Wrote w) l) (apply_write w s).
Proof.
  intros Hi [Hg Hk]. eapply inv_snoc; [done..|]. intros k a u Ha Hu.
  destruct (Hk k a u Ha Hu) as [->|?]; [by left|by right].
Qed.
Lemma lawful_saw k o t : good_table t → lawful (Saw k o) t.
Proof. intros Hg. split; [done|]. intros k' a u Ha Hu. right. by exists a. Qed.
Lemma wptx_sql {X} i (stmt : db → X * option write) l (R : X → wlog → Prop) :
  (∀ l' s, later l l' → Inv l' s →
     match (stmt s).2 with Some w => lawful w (primary s) | None => True end ∧
     ∀ l2, later (ran i (stmt s).2 l') l2 → R (stmt s).1 l2) →
  wptx apply_write Inv i (tsql stmt) l R.
Proof.
  intros Hs l' s Hl Hi. destruct (Hs l' s Hl Hi) as [Hg HR]. destruct (stmt s) as [x [w|]]; cbn in *.
  - split; [by apply inv_write|]. done.
  - done.
Qed.

Lemma lawful_insert rows t :
  Forall (λ kr : key * Agent, good kr.1 kr.2 ∧ t !! kr.1 = None) rows → good_table t → lawful (Insert rows) t.
Proof.
  intros Hrows Ht. assert (Hin : ∀ k a, (list_to_map rows : table) !! k = Some a → good k a ∧ t !! k = None).
  { intros k a Ha. apply elem_of_list_to_map_2 in Ha. by apply (proj1 (Forall_forall _ _) Hrows (k, a)). }
  split; cbn.
  - intros k a [Ha|[_ Ha]]%lookup_union_Some_raw; [by apply Hin|by apply Ht].
  - intros k a u Ha Hu. right. exists a. split; [|done]. apply lookup_union_Some_raw. right. split; [|done].
    destruct (list_to_map rows !! k) as [b|] eqn:Hb; [|done]. apply Hin in Hb as [_ Hb]. congruence.
Qed.
Lemma lawful_change k c t :
  (∀ a, t !! k = Some a → good k a → good k (set_columns c a) ∧ (is_Some (owner_install_uuid a) → c_owner c = None)) →
  good_table t → lawful (Change k c) t.
Proof.
  intros Hc Ht. split; cbn.
  - intros k' a. destruct (decide (k = k')) as [<-|Hne].
    + rewrite lookup_alter_eq, fmap_Some. intros (a' & Ha' & ->). by apply Hc, Ht.
    + rewrite lookup_alter_ne by done. apply Ht.
  - intros k' a u Ha Hu. right. destruct (decide (k = k')) as [<-|Hne].
    + rewrite lookup_alter_eq, Ha. eexists. split; [done|]. cbn.
      destruct (Hc a Ha (Ht _ _ Ha)) as [_ Hn]. by rewrite Hn by by eexists.
    + rewrite lookup_alter_ne by done. eauto.
Qed.
Lemma lawful_remove k t : good_table t → lawful (Remove k) t.
Proof.
  intros Ht. split; cbn; [by apply map_Forall_delete|]. intros k' a u Ha Hu.
  destruct (decide (k = k')) as [<-|Hne]; [by left|right]. exists a. by rewrite lookup_delete_ne.
Qed.
Lemma once_written i k a w l s :
  Inv l s → write_table w (primary s) !! k = Some a → once k (Some a) (logged i (Wrote w) l).
Proof.
  intros Hi Hw. exists (events (logged i (Wrote w) l)). split; [done|]. cbn.
  rewrite table_of_snoc, <- (inv_primary _ _ Hi). exact Hw.
Qed.

(** What a lookup answered was there once, and good. *)
Record found (i : nat) (k : key) (o : option Agent) (l : wlog) : Prop := {
  found_saw : saw i k o l;
  found_once : once k o l;
  found_good : ∀ a, o = Some a → good k a;
}.
Lemma found_later i k o l l' : later l l' → found i k o l → found i k o l'.
Proof. intros Hl [H1 H2 H3]. split; [by eapply saw_later|by eapply once_later|done]. Qed.
Lemma spec_get_agent i a tn l : spec i (get_agent a tn) l (found i (tn, a)).
Proof.
  eapply (spec_http i _ (λ o, match o with Some x => Ok x | None => Err StorageError end)); [done| |].
  { intros x l1 l2 Hx Hl. exact (found_later _ _ _ _ _ Hl Hx). }
  apply wptx_sql. intros l' s Hl Hi. cbn beta iota delta [fst snd ran write_table].
  split; [by eapply lawful_saw, inv_good_now|].
  intros l2 Hl2. destruct (inv_replica _ _ Hi) as (p & Hp & Hr). split.
  - eapply saw_later; [exact Hl2|]. eexists. cbn. rewrite elem_of_app, list_elem_of_singleton. eauto.
  - eapply once_later; [etrans; [apply later_logged|exact Hl2]|]. exists p. by rewrite Hr.
  - intros b Hb. eapply (inv_good _ _ Hi); [exact Hp|]. by rewrite <- Hr.
Qed.

Lemma set_no_change a data : is_empty (changes a data) = true → set_columns (changes a data) a = a.
Proof.
  unfold set_columns. destruct (changes a data) as [[] [] [] [] [] []]; try done. by destruct a.
Qed.
Lemma owner_after_changes a data :
  is_Some (c_owner data) → is_Some (owner_install_uuid (set_columns (changes a data) a)).
Proof. cbn. destruct (owner_install_uuid a); [by eexists|]. intros [u ->]. by eexists. Qed.

Lemma spec_create_or_update i k data l : good_columns k data →
  spec i (create_or_update_agent k data) l
    (λ a l', once k (Some a) l' ∧ (is_Some (c_owner data) → is_Some (owner_install_uuid a))).
Proof.
  intros Hdata.
  eapply (spec_http i _ (λ o, match o with Some (Some a) => Ok a | _ => Err StorageError end) _ _
    (λ o l', ∀ a, o = Some a → once k (Some a) l' ∧ (is_Some (c_owner data) → is_Some (owner_install_uuid a)))); [done| |].
  { intros [a|] l1 l2 Hx Hl; [|done]. destruct (Hx a eq_refl) as [Ho ?]. split; [by eapply once_later|done]. }
  apply wptx_bind, wptx_sql. intros l1 s Hl1 Hi.
  destruct (primary s !! k) as [b|] eqn:Hk; cbn beta iota zeta delta [fst snd ran write_table].
  - split; [done|]. intros l2 Hl2. apply wptx_sql. intros l3 s3 Hl3 Hi3.
    destruct (primary s3 !! k) as [a|] eqn:Ha; cbn beta iota zeta delta [fst snd ran write_table]; [|by split].
    destruct (is_empty (changes a data)) eqn:He; cbn beta iota.
    + split; [done|]. intros l4 Hl4 a' [= <-]. split; [|apply owner_after_changes].
      rewrite set_no_change by done. eapply once_later; [exact Hl4|]. rewrite <- Ha. by apply inv_once_primary.
    + split.
      * apply lawful_change; [|by eapply inv_good_now]. intros a2 Ha2 Hg2. rewrite Ha in Ha2. injection Ha2 as <-.
        split; [by apply good_set; [apply good_changes|]|]. cbn. by intros [u ->].
      * intros l4 Hl4 a' [= <-]. split; [|apply owner_after_changes].
        eapply once_later; [exact Hl4|]. eapply once_written; [done|]. cbn. by rewrite lookup_alter_eq, Ha.
  - split.
    + apply lawful_insert; [|by eapply inv_good_now]. constructor; [by split; [apply good_new|]|constructor].
    + intros l2 Hl2. apply wptx_ret. intros l3 Hl3 a [= <-]. split; [|done].
      eapply once_later; [etrans; [exact Hl2|exact Hl3]|]. eapply once_written; [done|]. cbn.
      apply lookup_union_Some_l. by rewrite lookup_insert_eq.
Qed.

(** ** The services *)

Lemma spec_done_or_raised i act l (P : wlog → Prop) :
  (∀ l', later l l' → P l') → spec i (done_or_raised act) l (λ _ l', P l').
Proof.
  intros HP ac. apply wp_did. intros l' ans Hl'. apply wp_ret. intros l2 Hl2.
  destruct ans; [|done|..]; apply HP; (etrans; [exact Hl'|]; etrans; [apply later_logged|exact Hl2]).
Qed.
Lemma spec_approval i tn l : spec i (require_agent_approval tn) l (λ _ _, True).
Proof.
  intros ac. apply wp_did. intros l' ans Hl'. apply wp_ret. intros l2 Hl2. by destruct ans.
Qed.

(** The carried trust comes from a level given to ["main"]. *)
Lemma sourced_carried tn a inst appr z :
  carries_main a inst appr = true → sourced (tn, RESERVED_MAIN_AGENT_ID) z → sourced (tn, a) z.
Proof.
  unfold carries_main. intros [_ Ha]%andb_true_iff Hz. destruct inst as [i|]; [|done].
  apply String.eqb_eq in Ha. destruct Hz as [Hz|[[Hm _]|[Hg|(j & Hj & _)]]]; [by left|done| |done].
  right; right; right. by exists i.
Qed.
Lemma spec_legacy_main i tn a fleet inst appr l :
  spec i (legacy_main tn a fleet inst appr) l (λ o _, ∀ m, o = Some m → sourced (tn, a) (trust_level m)).
Proof.
  unfold legacy_main. destruct (carries_main a inst appr) eqn:Hc; [|by apply spec_ret].
  eapply spec_bind; [apply spec_get_agent|]. intros o l1 _ Ho. apply spec_ret. intros l2 _ m Hm.
  eapply sourced_carried; [exact Hc|]. destruct o as [m'|]; [|done]. destruct (_ || _); [|done].
  injection Hm as <-. by apply (found_good _ _ _ _ Ho).
Qed.

Definition owned_once (u : string) (k : key) (l : wlog) : Prop :=
  ∃ a, once k (Some a) l ∧ owner_install_uuid a = Some u.
Definition saw_unclaimed (i : nat) (k : key) (l : wlog) : Prop :=
  ∃ a, saw i k (Some a) l ∧ owner_install_uuid a = None.
(** Whose name the returned row is, when the caller claims it for [owner]. *)
Definition claimed (i : nat) (k : key) (owner : option string) (a : Agent) (l : wlog) : Prop :=
  ∀ u, owner = Some u →
    ∃ w, owner_install_uuid a = Some w ∧ (owned_once w k l ∨ w = u ∧ saw_unclaimed i k l).
Lemma owned_once_later u k l l' : later l l' → owned_once u k l → owned_once u k l'.
Proof. intros Hl (a & Ha & ?). exists a. split; [by eapply once_later|done]. Qed.
Lemma saw_unclaimed_later i k l l' : later l l' → saw_unclaimed i k l → saw_unclaimed i k l'.
Proof. intros Hl (a & Ha & ?). exists a. split; [by eapply saw_later|done]. Qed.
Lemma claim_spec_later i k o a l l' : later l l' → claimed i k o a l → claimed i k o a l'.
Proof.
  intros Hl Hc u Hu. destruct (Hc u Hu) as (w & Hw & [Ho|[Hwu Hs]]); exists w; split; [done| |done|].
  - left. by eapply owned_once_later.
  - right. split; [done|]. by eapply saw_unclaimed_later.
Qed.
Lemma once_claimed i k owner a l :
  once k (Some a) l → (is_Some owner → is_Some (owner_install_uuid a)) → claimed i k owner a l.
Proof.
  intros Ho Hs u ->. destruct Hs as [w Hw]; [by eexists|]. exists w. split; [done|]. left. by exists a.
Qed.
Lemma good_backfill k a fleet disp inst owner : reserved k owner → good_columns k (backfill a fleet disp inst owner).
Proof.
  intros Ho. split; [|done]. cbn. destruct (owner_install_uuid a); [by intros u|done].
Qed.
Lemma empty_backfill a fleet disp inst owner :
  is_empty (backfill a fleet disp inst owner) = true → is_Some owner → is_Some (owner_install_uuid a).
Proof.
  intros He [u ->]. unfold backfill in He. destruct (owner_install_uuid a); [by eexists|].
  exfalso. revert He. cbn. repeat case_match; done.
Qed.

Lemma spec_get_or_create i tn a fleet appr disp inst owner l :
  reserved (tn, a) owner →
  spec i (get_or_create_agent tn a fleet appr disp inst owner) l (claimed i (tn, a) owner).
Proof.
  intros Hres. unfold get_or_create_agent. eapply spec_bind; [apply spec_get_agent|]. intros [b|] l1 _ Hf.
  - destruct (is_empty (backfill b fleet disp inst owner)) eqn:He.
    + apply spec_ret. intros l2 Hl2. apply once_claimed; [by eapply once_later, found_once|].
      by eapply empty_backfill.
    + eapply spec_bind; [apply spec_create_or_update; by apply good_backfill|]. intros a' l2 Hl2 _.
      apply spec_ret. intros l3 Hl3 u ->. cbn. destruct (owner_install_uuid b) as [w|] eqn:Hw.
      * exists w. split; [done|]. left. exists b. split; [|done].
        eapply once_later; [etrans; [exact Hl2|exact Hl3]|]. by eapply found_once.
      * exists u. split; [done|]. right. split; [done|]. exists b. split; [|done].
        eapply saw_later; [etrans; [exact Hl2|exact Hl3]|]. by eapply found_saw.
  - eapply spec_bind; [apply spec_legacy_main|]. intros o l2 _ Ho.
    eapply spec_bind; [apply spec_create_or_update|].
    + split; [done|]. cbn. intros z [= <-]. destruct o as [m|]; [by apply Ho|].
      left. by destruct appr.
    + intros a' l3 _ [Ha' Hs]. eapply spec_bind; [apply (spec_done_or_raised _ _ _ (λ l', later l3 l')); done|].
      intros [] l4 _ Hl4. apply spec_ret. intros l5 Hl5.
      eapply claim_spec_later; [exact Hl5|]. eapply claim_spec_later; [exact Hl4|]. by apply once_claimed.
Qed.

Lemma starts_with_label u : starts_with _BROKER_LABEL_PREFIX (broker_label u) = true.
Proof. unfold broker_label. by destruct (str_or u "unknown"). Qed.
Lemma reserved_label tn u : u ≠ "" → reserved (tn, broker_label (Some u)) (Some u).
Proof. by intros Hu v [= ->]. Qed.
Lemma reserved_unless tn a owner :
  (starts_with _BROKER_LABEL_PREFIX a = true → a = broker_label owner) → reserved (tn, a) owner.
Proof. intros Ha u ->. exact Ha. Qed.
Lemma reserved_None k : reserved k None.
Proof. by intros u. Qed.

Lemma spec_broker_owned i chosen inst tn l :
  spec i (broker_owned_agent_id chosen inst tn) l
    (λ a _, is_Some inst → starts_with _BROKER_LABEL_PREFIX a = true → a = broker_label inst).
Proof.
  unfold broker_owned_agent_id. destruct inst as [u|]; [|apply spec_ret; by intros ? _ []].
  destruct (String.eqb_spec chosen (broker_label (Some u))) as [->|Hne]; [by apply spec_ret|].
  destruct (starts_with _BROKER_LABEL_PREFIX chosen) eqn:Hp; [by apply spec_ret|].
  eapply spec_bind; [apply spec_get_agent|]. intros o l1 _ _. apply spec_ret. intros l2 _ _.
  destruct o as [b|]; [|by rewrite Hp]. destruct (_owned_by_other_install _ _); [done|by rewrite Hp].
Qed.

(** Whose name an install's write goes under: its own fallback, an agent whose
    row was this install's at some moment, or one that the thread itself saw
    with no owner. *)
Definition may_write_as (i : nat) (u : string) (k : key) (l : wlog) : Prop :=
  k.2 = broker_label (Some u) ∨ owned_once u k l ∨ saw_unclaimed i k l.
Lemma may_write_as_later i u k l l' : later l l' → may_write_as i u k l → may_write_as i u k l'.
Proof.
  intros Hl [Hb|[Ho|Hs]]; [by left|right; left; by eapply owned_once_later|right; right; by eapply saw_unclaimed_later].
Qed.
Definition attributed_to (i : nat) (inst : option string) (tn a : string) (l : wlog) : Prop :=
  ∀ u, inst = Some u → u ≠ "" → may_write_as i u (tn, a) l.

Lemma spec_resolve_write_agent i chosen tn fleet install uuid appr l :
  spec i (resolve_write_agent chosen tn fleet install uuid appr) l
    (λ r l', attributed_to i (if install then uuid else None) tn r.2 l').
Proof.
  unfold resolve_write_agent. set (inst := if install then uuid else None).
  eapply spec_bind with (P := λ a _, is_Some inst → starts_with _BROKER_LABEL_PREFIX a = true → a = broker_label inst).
  { destruct install; [apply spec_broker_owned|]. apply spec_ret. by intros ? _ []. }
  intros a l1 _ Ha.
  assert (Hres : reserved (tn, a) inst).
  { intros u Hu Hp. rewrite <- Hu. apply Ha; [by eexists|exact Hp]. }
  eapply spec_bind; [by apply spec_get_or_create|]. intros row l2 _ Hrow.
  destruct (install && is_given uuid && _owned_by_other_install (owner_install_uuid row) uuid) eqn:Hother.
  - apply andb_true_iff in Hother as [[-> Hg]%andb_true_iff _]. subst inst.
    eapply spec_bind; [apply spec_get_or_create|].
    + apply reserved_unless. done.
    + intros row2 l3 _ _. apply spec_ret. intros l4 _ u -> Hu. by left.
  - apply spec_ret. intros l3 Hl3 u Hu Hne. eapply may_write_as_later; [exact Hl3|].
    destruct (Hrow u Hu) as (w & Hw & [Ho|[-> Hs]]); [|by right; right].
    destruct (decide (w = u)) as [->|Hwu]; [by right; left|]. exfalso. subst inst.
    destruct install; [|done]. subst uuid. rewrite Hw in Hother. cbn in Hother.
    rewrite bool_decide_eq_false_2 in Hother by congruence. destruct u; done.
Qed.

(** ** The other storage calls *)

Lemma spec_committed i server l :
  wptx apply_write Inv i server l (λ _ _, True) → spec i (committed server) l (λ _ _, True).
Proof.
  intros Hs. eapply (spec_http i _ (λ o, match o with Some true => Ok tt | _ => Err StorageError end)); [done| |exact Hs].
  by intros [] l1 l2.
Qed.
Lemma wptx_by_pk i k n w l :
  (∀ t, good_table t → lawful w t) →
  wptx apply_write Inv i (by_pk k n w) l (λ _ _, True).
Proof.
  intros Hw. apply wptx_sql. intros l' s Hl Hi. destruct (primary s !! k) as [a|] eqn:Ha; cbn; [|done].
  destruct (N.eqb _ _); cbn; [|done]. split; [|done]. by eapply Hw, inv_good_now.
Qed.
Lemma wptx_read_primary {X} i k (f : option Agent → tx db write X) l R :
  (∀ o l', wptx apply_write Inv i (f o) l' R) → wptx apply_write Inv i (read_primary k ≫= f) l R.
Proof. intros Hf. apply wptx_bind, wptx_sql. intros l' s _ _. split; [done|]. intros l2 _. apply Hf. Qed.
Lemma wptx_change i k n c a l :
  good_columns k c → wptx apply_write Inv i (by_pk k n (Change k (changed_columns c a))) l (λ _ _, True).
Proof.
  intros Hc. apply wptx_by_pk. intros t Ht. apply lawful_change; [|done]. intros b _ Hb.
  split; [|done]. by apply good_set; [apply good_changed|].
Qed.

Lemma spec_delete i k l : spec i (committed (agent_delete k)) l (λ _ _, True).
Proof.
  apply spec_committed, wptx_read_primary. intros [a|] l'; [|by apply wptx_ret].
  apply wptx_by_pk. apply lawful_remove.
Qed.
Lemma spec_update_trust i k level fleet l :
  sourced k level → spec i (committed (agent_update_trust_level k level fleet)) l (λ _ _, True).
Proof.
  intros Hs. apply spec_committed, wptx_read_primary. intros [a|] l'; [|by apply wptx_ret].
  apply wptx_change. split; [done|]. by intros z [= <-].
Qed.
Lemma spec_update_fleet i k fleet l : spec i (committed (agent_update_fleet k fleet)) l (λ _ _, True).
Proof.
  apply spec_committed, wptx_read_primary. intros [a|] l'; [|by apply wptx_ret].
  cbn zeta. destruct (is_empty (changed_columns _ _)); [by apply wptx_ret|]. apply wptx_change. by split.
Qed.
Lemma spec_backfill i pairs l : spec i (call (agent_backfill_from_memories pairs)) l (λ _ _, True).
Proof.
  apply (spec_http i _ (λ o, match o with Some x => Ok x | None => Err StorageError end) _ _ (λ _ _, True)); [done..|].
  apply wptx_sql. intros l' s Hl Hi. split; [|done]. apply lawful_insert; [|by eapply inv_good_now].
  apply Forall_lookup. intros j kr. rewrite list_lookup_imap, fmap_Some. intros (x & Hx & ->).
  apply list_elem_of_lookup_2, list_elem_of_filter in Hx as [Hx _]. split; [|done]. apply (good_new x.1). split; [apply reserved_None|]. by intros z [= <-]; left.
Qed.

(** ** The gates *)

Definition admin_credential (auth : Auth.AuthContext) (tenant : string) : Prop :=
  Auth.is_admin auth = true ∨ Auth.tenant_id auth = Some tenant ∧ given (Auth.agent_id auth) = None.
Lemma enforce_tenant_ok auth tn : Auth.enforce_tenant auth tn = Ok tt →
  Auth.is_admin auth = true ∨ Auth.tenant_id auth = Some tn.
Proof.
  unfold Auth.enforce_tenant. destruct (Auth.is_admin auth); [by left|].
  destruct (bool_decide _) eqn:Hb; [|done]. apply bool_decide_eq_true in Hb. by right.
Qed.
Lemma not_agent_ok auth act : Auth.enforce_not_agent_credential auth act = Ok tt →
  Auth.is_admin auth = true ∨ given (Auth.agent_id auth) = None.
Proof.
  unfold Auth.enforce_not_agent_credential, is_given. destruct (Auth.is_admin auth); [by left|].
  destruct (given (Auth.agent_id auth)); [done|by right].
Qed.
Lemma spec_patch_agent_trust i auth tn a level fleet l :
  (admin_credential auth tn → granted (tn, a) level) →
  spec i (patch_agent_trust auth tn a level fleet) l (λ _ _, True).
Proof.
  intros Hg. unfold patch_agent_trust.
  eapply spec_bind with (P := λ _ _, admin_credential auth tn).
  { apply spec_lift. intros [] l' Hok _. destruct (Auth.enforce_tenant auth tn) as [[]|] eqn:Ht; [|done].
    apply enforce_tenant_ok in Ht. apply not_agent_ok in Hok. unfold admin_credential. naive_solver. }
  intros [] l1 _ Hadm. unfold update_trust_level.
  eapply spec_bind; [apply spec_get_agent|]. intros [b|] l2 _ _; [|apply spec_err].
  eapply spec_bind; [apply spec_update_trust; right; right; left; by apply Hg|]. intros _ l3 _ _.
  eapply spec_bind; [apply spec_get_agent|]. intros o l4 _ _. by apply spec_ret.
Qed.

(** Storage's answer to thread [i] about a memory. *)
Definition told (i : nat) (tn mid : string) (o : option memory) (l : wlog) : Prop :=
  ∃ ev, ev ∈ events l ∧ ev_tid ev = i ∧ ev_what ev = Did (GetMemory tn mid) (AMemory o).
Lemma told_later i tn mid o l l' : later l l' → told i tn mid o l → told i tn mid o l'.
Proof.
  intros [_ Hl] (ev & Hev & ?). exists ev. split; [|done]. destruct Hl as [x ->]. rewrite elem_of_app. auto.
Qed.
Lemma spec_get_memory i tn mid l : spec i (get_memory_for_tenant tn mid) l (told i tn mid).
Proof.
  intros ac. apply wp_did. intros l' ans Hl'. apply wp_ret. intros l2 Hl2.
  destruct ans as [|e|b|o]; [done..|]. eapply told_later; [exact Hl2|].
  eexists. cbn. rewrite elem_of_app, list_elem_of_singleton. eauto.
Qed.

(** What the ladder asks of agent [a] for a memory: its author for a private
    one; for a team's, a row thread [i] saw that is at home in the memory's
    fleet or trusted enough, or no row. *)
Definition may_access (i : nat) (tn a : string) (m : memory) (need : Z) (l : wlog) : Prop :=
  if decide (visibility m = Some "scope_agent") then agent_id m = Some a
  else visibility m = Some "scope_org" ∨
       ∃ o, saw i (tn, a) o l ∧ ∀ row, o = Some row →
         m_fleet m = None ∨ m_fleet m = fleet_id row ∨ need ≤ trust_level row.
Lemma may_access_later i tn a m need l l' : later l l' → may_access i tn a m need l → may_access i tn a m need l'.
Proof.
  unfold may_access. intros Hl. destruct (decide _); [done|]. intros [?|(o & Hs & ?)]; [by left|].
  right. exists o. split; [by eapply saw_later|done].
Qed.
Lemma at_home_true fleet a : at_home fleet a = true → fleet = None ∨ fleet = fleet_id a.
Proof. unfold at_home. rewrite orb_true_iff, !bool_decide_eq_true. done. Qed.
Lemma spec_authorize i tn a m write l : a ≠ "" →
  spec i (authorize_memory_access tn (Some a) m write) l
    (λ b l', b = true → may_access i tn a m (if write then 3 else 2) l').
Proof.
  intros Ha. unfold authorize_memory_access. destruct (given (Some a)) as [c|] eqn:Hc; [|by destruct a].
  apply given_Some in Hc as [[= <-] _]. unfold may_access, memory_access_allowed_for_agent.
  destruct (decide (visibility m = Some "scope_agent")) as [Hv|Hv].
  { rewrite !(bool_decide_eq_true_2 _ Hv). cbn. apply spec_ret. intros l' _ Hb. by apply bool_decide_eq_true in Hb. }
  rewrite !(bool_decide_eq_false_2 _ Hv). cbn [orb].
  destruct (bool_decide (visibility m = Some "scope_org")) eqn:Ho.
  { apply bool_decide_eq_true in Ho. apply spec_ret. by left. }
  eapply spec_bind; [apply spec_get_agent|]. intros o l1 _ Hf. apply spec_ret. intros l2 Hl2 Hb. right.
  exists o. split; [eapply saw_later; [exact Hl2|by eapply found_saw]|]. intros row ->.
  apply orb_true_iff in Hb as [Hb%at_home_true|Hb%Z.leb_le]; [naive_solver|by right; right].
Qed.

(** The rules of updates and deletes. *)
Definition may_update (i : nat) (tn a : string) (author : option string) (l : wlog) : Prop :=
  ∃ row, saw i (tn, a) (Some row) l ∧ trust_level row ≠ 0 ∧ (3 ≤ trust_level row ∨ author = Some a).
Definition may_delete (i : nat) (tn a : string) (l : wlog) : Prop :=
  ∃ row, saw i (tn, a) (Some row) l ∧ 3 ≤ trust_level row.
Lemma may_update_later i tn a au l l' : later l l' → may_update i tn a au l → may_update i tn a au l'.
Proof. intros Hl (row & ? & ?). exists row. split; [by eapply saw_later|done]. Qed.
Lemma may_delete_later i tn a l l' : later l l' → may_delete i tn a l → may_delete i tn a l'.
Proof. intros Hl (row & ? & ?). exists row. split; [by eapply saw_later|done]. Qed.
Lemma spec_enforce_update i tn a au l : spec i (enforce_update tn a au) l (λ _, may_update i tn a au).
Proof.
  unfold enforce_update. eapply spec_bind; [apply spec_get_agent|]. intros [row|] l1 _ Hf; [|apply spec_err].
  destruct (Z.eqb_spec (trust_level row) 0); [apply spec_err|].
  destruct ((trust_level row <? 3) && negb _) eqn:Ht; [apply spec_err|]. apply spec_ret. intros l2 Hl2.
  exists row. split_and!; [eapply saw_later; [exact Hl2|by eapply found_saw]|done|].
  apply andb_false_iff in Ht as [?%Z.ltb_ge|Ht%negb_false_iff]; [by left|right]. by apply bool_decide_eq_true in Ht.
Qed.
Lemma spec_enforce_delete i tn a l : spec i (enforce_delete tn a) l (λ _, may_delete i tn a).
Proof.
  unfold enforce_delete. eapply spec_bind; [apply spec_get_agent|]. intros [row|] l1 _ Hf; [|apply spec_err].
  destruct (Z.ltb_spec (trust_level row) 3); [apply spec_err|]. apply spec_ret. intros l2 Hl2.
  exists row. split; [eapply saw_later; [exact Hl2|by eapply found_saw]|done].
Qed.

(** ** The requests *)

(** The tenant a write goes to and the install that makes it. *)
Definition writes_for (r : request) : option (string * option string) :=
  match r with
  | WriteMemory auth tn _ _ | WriteBulk auth tn _ _ _ =>
      Some (tn, if Auth.is_install_credential auth then Auth.install_uuid auth else None)
  | McpWrite v _ _ => Some (Auth.mcp_tenant v, if Auth._is_install_credential v then Auth.mcp_install_uuid v else None)
  | _ => None
  end.
Definition owns_its_write (i : nat) (r : request) (out : outcome) (l : wlog) : Prop :=
  ∀ tn inst a f, writes_for r = Some (tn, inst) → out = Attributed a f → attributed_to i inst tn a l.

(** The agent an update or a delete acts for: the verified one, or the one the
    request names. *)
Definition acting (auth : Auth.AuthContext) (param : option string) : option string :=
  if is_given (Auth.tenant_id auth)
  then given (match given (Auth.agent_id auth) with Some a => Some a | None => param end) else None.
Definition was_checked (i : nat) (r : request) (l : wlog) : Prop :=
  match r with
  | GetMemoryById auth tn mid => ∀ a, given (Auth.agent_id auth) = Some a →
      ∃ m, told i tn mid (Some m) l ∧ may_access i tn a m 2 l
  | PatchMemory auth tn mid p => ∀ a, acting auth p = Some a →
      ∃ m, told i tn mid (Some m) l ∧ may_update i tn a (agent_id m) l ∧ may_access i tn a m 3 l
  | DeleteMemory auth tn mid p => ∀ a, acting auth p = Some a →
      may_delete i tn a l ∧ ∃ o, told i tn mid o l ∧ ∀ m, o = Some m → may_access i tn a m 3 l
  | PatchStatus auth tn mid => ∀ a, given (Auth.agent_id auth) = Some a →
      ∃ m, told i tn mid (Some m) l ∧ may_access i tn a m 3 l
  | _ => True
  end.

(** A program about which only the invariant is claimed. *)
Ltac safe_step :=
  lazymatch goal with
  | |- spec _ (ag_bind _ _) _ _ => eapply spec_bind with (P := λ _ _, True); [|intros ? ? _ _]
  | |- spec _ (done_ _) _ _ => by apply spec_ret
  | |- spec _ (raise _) _ _ => apply spec_err
  | |- spec _ (lift _) _ _ => by apply spec_lift
  | |- spec _ (get_agent _ _) _ _ => eapply spec_impl; [apply spec_get_agent|done]
  | |- spec _ (lookup_agent _ _) _ _ => eapply spec_impl; [apply spec_get_agent|done]
  | |- spec _ (get_or_create_agent _ _ _ _ _ _ None) _ _ =>
      eapply spec_impl; [apply spec_get_or_create, reserved_None|done]
  | |- spec _ (log_action _ _ _ _) _ _ => by apply (spec_done_or_raised _ _ _ (λ _, True))
  | |- spec _ (check_and_increment _ _) _ _ => by apply (spec_done_or_raised _ _ _ (λ _, True))
  | |- spec _ (done_or_raised _) _ _ => by apply (spec_done_or_raised _ _ _ (λ _, True))
  | |- spec _ (require_agent_approval _) _ _ => apply spec_approval
  | |- spec _ (get_memory_for_tenant _ _) _ _ => eapply spec_impl; [apply spec_get_memory|done]
  | |- spec _ (broker_owned_agent_id _ _ _) _ _ => eapply spec_impl; [apply spec_broker_owned|done]
  | |- spec _ (committed (agent_delete _)) _ _ => apply spec_delete
  | |- spec _ (committed (agent_update_fleet _ _)) _ _ => apply spec_update_fleet
  | |- spec _ (call (agent_backfill_from_memories _)) _ _ => apply spec_backfill
  | |- spec _ (caught _) _ _ => apply spec_caught
  | |- spec _ (match ?x with _ => _ end) _ _ => destruct x
  end.
Ltac safe := repeat safe_step.

Lemma spec_fleet_write i tn a fleet l : spec i (enforce_fleet_write tn a fleet) l (λ _ _, True).
Proof. unfold enforce_fleet_write. safe. Qed.
Lemma spec_fleet_read i tn a fleet l : spec i (enforce_fleet_read tn a fleet) l (λ _ _, True).
Proof. unfold enforce_fleet_read. safe. Qed.
Lemma spec_enforced_write i auth tn a fleet op l : spec i (enforced_write auth tn a fleet op) l (λ _ _, True).
Proof. unfold enforced_write. safe. apply spec_fleet_write. Qed.
Lemma spec_fleet_scope i tn a fleets l : spec i (fleet_scope tn a fleets) l (λ _ _, True).
Proof. unfold fleet_scope. safe. apply spec_fleet_read. Qed.
Lemma spec_search_as i auth tn fleets caller l : spec i (search_as auth tn fleets caller) l (λ _ _, True).
Proof. unfold search_as. safe. apply spec_fleet_scope. Qed.
Lemma spec_memclaw_recall i v a fleets l : spec i (memclaw_recall v a fleets) l (λ _ _, True).
Proof. unfold memclaw_recall. safe; apply spec_fleet_read. Qed.
Lemma spec_report i auth tn a scope l : spec i (report_outcome_endpoint d auth tn a scope) l (λ _ _, True).
Proof. unfold report_outcome_endpoint, resolve_caller_and_gate, require_trust. safe. Qed.
Lemma spec_heartbeat_agents i tn fleet inst ags l : spec i (heartbeat_agents tn fleet inst ags) l (λ _ _, True).
Proof. revert l. induction ags as [|[a disp] ags IH]; intros l; cbn [heartbeat_agents]; safe; apply IH. Qed.
Lemma spec_insighter i tn l : spec i (register_insighter tn) l (λ _ _, True).
Proof.
  unfold register_insighter. safe. eapply spec_impl; [apply spec_create_or_update|done].
  split; [apply reserved_None|]. cbn. intros z [= <-]. right; left. done.
Qed.

(** *** Writes *)
(** A program after the attribution leaves it as it is. *)
Lemma spec_keep {A B} i (m : ag A) (b : B) l (F : wlog → Prop) (P : B → wlog → Prop) :
  (∀ l l', later l l' → F l → F l') → (∀ l', F l' → P b l') → F l → spec i m l (λ _ _, True) →
  spec i (ag_bind m (λ _, done_ b)) l P.
Proof.
  intros HF HP Hl Hm. eapply spec_bind with (P := λ _ l', F l').
  - eapply spec_impl; [exact (spec_frame _ _ _ _ F HF Hl Hm)|]. naive_solver.
  - intros a l1 _ H1. apply spec_ret. eauto.
Qed.
Lemma attributed_to_later i inst tn a l l' : later l l' → attributed_to i inst tn a l → attributed_to i inst tn a l'.
Proof. intros Hl Ha u Hu Hne. eapply may_write_as_later; [exact Hl|]. by apply Ha. Qed.
Abbreviation writes_as i inst tn := (λ (r : string * option string) l', attributed_to i inst tn r.1 l').

Lemma spec_write_inner i auth tn a fleet l :
  spec i (_write_memory_inner d auth tn a fleet) l
    (writes_as i (if Auth.is_install_credential auth then Auth.install_uuid auth else None) tn).
Proof.
  unfold _write_memory_inner. eapply spec_bind; [apply spec_approval|]. intros appr l1 _ _.
  eapply spec_bind; [apply spec_resolve_write_agent|]. intros [row c] l2 _ Hc.
  destruct (trust_level row =? 0); [apply spec_err|].
  eapply (spec_keep i _ _ _ (attributed_to i _ tn c)); [apply attributed_to_later|done|exact Hc|apply spec_enforced_write].
Qed.
Lemma spec_bulk_inner i auth tn a fleet l :
  spec i (_write_memories_bulk_inner d auth tn a fleet) l
    (writes_as i (if Auth.is_install_credential auth then Auth.install_uuid auth else None) tn).
Proof.
  unfold _write_memories_bulk_inner.
  eapply spec_bind; [apply spec_resolve_write_agent|]. intros [row c] l2 _ Hc.
  eapply (spec_keep i _ _ _ (attributed_to i _ tn c)); [apply attributed_to_later|done|exact Hc|apply spec_enforced_write].
Qed.
Lemma spec_lifted {A B} i (r : res exn A) (f : A → ag B) l P :
  (∀ a l', spec i (f a) l' P) → spec i (ag_bind (lift r) f) l P.
Proof. intros Hf. eapply spec_bind with (P := λ _ _, True); [by apply spec_lift|]. intros a l' _ _. apply Hf. Qed.
Lemma spec_mcp_write i v a fleet l :
  spec i (memclaw_write v a fleet) l
    (writes_as i (if Auth._is_install_credential v then Auth.mcp_install_uuid v else None) (Auth.mcp_tenant v)).
Proof.
  unfold memclaw_write. do 2 (apply spec_lifted; intros ? ?). cbn zeta. apply spec_lifted; intros ? ?.
  eapply spec_bind; [apply spec_approval|]. intros appr l1 _ _.
  eapply spec_bind; [apply spec_resolve_write_agent|]. intros [row c] l2 _ Hc.
  destruct (trust_level row =? 0); [apply spec_err|].
  eapply spec_bind with (P := λ _ l', attributed_to i _ _ c l').
  - eapply spec_impl; [exact (spec_frame _ _ _ _ _ (attributed_to_later i _ _ c) Hc (spec_fleet_write _ _ _ _ _))|].
    naive_solver.
  - intros row2 l3 _ H3. eapply (spec_keep i _ _ _ (attributed_to i _ _ c)); [apply attributed_to_later|done|exact H3|].
    safe.
Qed.

(** *** Access by id *)
Lemma spec_get_memory_by_id i auth tn mid l :
  spec i (get_memory auth tn mid) l (λ _ l', was_checked i (GetMemoryById auth tn mid) l').
Proof.
  unfold get_memory. apply spec_lifted. intros _ l1.
  eapply spec_bind; [apply spec_get_memory|]. intros [m|] l2 _ Hm; [|apply spec_err].
  destruct (given (Auth.agent_id auth)) as [a|] eqn:Ha; cycle 1.
  { eapply spec_bind with (P := λ _ _, True).
    - unfold authorize_memory_access. rewrite Ha. by apply spec_ret.
    - intros [] l3 _ _; [|apply spec_err]. apply spec_ret. intros l4 _ b Hb. by rewrite Ha in Hb. }
  apply given_Some in Ha as [Ha Hne]. rewrite Ha.
  eapply spec_bind; [exact (spec_frame _ _ _ _ _ (told_later i tn mid (Some m)) Hm (spec_authorize i tn a m false _ Hne))|].
  intros [] l3 _ [Ht Hac]; [|apply spec_err]. apply spec_ret. intros l4 Hl4 b [Hb _]%given_Some.
  rewrite Ha in Hb. injection Hb as <-. exists m. split; [by eapply told_later|].
  eapply may_access_later; [exact Hl4|]. by apply Hac.
Qed.
Lemma acting_given auth p a : acting auth p = Some a → a ≠ "".
Proof. unfold acting. destruct (is_given _); [|done]. by intros [_ ?]%given_Some. Qed.

(** Authorized for a change, with what was known before. *)
Lemma spec_authorized {B} i tn a m (F : wlog → Prop) (k : ag B) e l P : a ≠ "" →
  (∀ l l', later l l' → F l → F l') → F l →
  (∀ l', F l' → may_access i tn a m 3 l' → spec i k l' P) →
  spec i (ag_bind (authorize_memory_access tn (Some a) m true) (λ b : bool, if b then k else raise e)) l P.
Proof.
  intros Hne HF Hl Hk.
  eapply spec_bind; [exact (spec_frame _ _ _ _ F HF Hl (spec_authorize i tn a m true _ Hne))|].
  intros [] l1 _ [H1 Hac]; [|apply spec_err]. apply Hk; [exact H1|by apply Hac].
Qed.

Definition update_checked i tn mid a (l : wlog) : Prop :=
  ∃ m, told i tn mid (Some m) l ∧ may_update i tn a (agent_id m) l ∧ may_access i tn a m 3 l.
Lemma update_checked_later i tn mid a l l' : later l l' → update_checked i tn mid a l → update_checked i tn mid a l'.
Proof.
  intros Hl (m & ? & ? & ?). exists m.
  split_and!; [by eapply told_later|by eapply may_update_later|by eapply may_access_later].
Qed.
Lemma spec_update_memory i tn mid o l :
  spec i (update_memory tn mid o) l (λ _ l', ∀ a, given o = Some a → update_checked i tn mid a l').
Proof.
  unfold update_memory. eapply spec_bind; [apply spec_get_memory|]. intros [m|] l1 _ Hm; [|apply spec_err].
  destruct (given o) as [a|] eqn:Ha; [|by apply spec_ret]. apply given_Some in Ha as [_ Hne].
  eapply spec_bind; [exact (spec_frame _ _ _ _ _ (told_later i tn mid (Some m)) Hm (spec_enforce_update i tn a _ _))|].
  intros [] l2 _ Hu.
  apply (spec_authorized i tn a m (λ l, told i tn mid (Some m) l ∧ may_update i tn a (agent_id m) l)); [done| |exact Hu|].
  - intros l3 l4 Hl [? ?]. split; [by eapply told_later|by eapply may_update_later].
  - intros l3 [? ?] ?. apply spec_ret. intros l4 Hl4 b [= <-].
    eapply update_checked_later; [exact Hl4|]. by exists m.
Qed.
(** The last effect, after which nothing more is known. *)
Lemma spec_last i act l (F : wlog → Prop) :
  (∀ l l', later l l' → F l → F l') → F l → spec i (done_or_raised act) l (λ _, F).
Proof. intros HF Hl. apply (spec_done_or_raised _ _ _ F). eauto. Qed.

Lemma spec_patch_memory i auth tn mid p l :
  spec i (patch_memory auth tn mid p) l (λ _ l', was_checked i (PatchMemory auth tn mid p) l').
Proof.
  unfold patch_memory. apply spec_lifted. intros _ l1.
  eapply spec_bind with (P := λ _ _, True); [safe|]. intros _ l2 _ _.
  eapply spec_bind; [apply spec_update_memory|]. intros [] l3 _ Hu.
  apply (spec_last _ _ _ (λ l, ∀ a, acting auth p = Some a → update_checked i tn mid a l)).
  - intros l4 l5 Hl H4 a Ha. eapply update_checked_later; [exact Hl|]. by apply H4.
  - intros a Ha. apply Hu. unfold acting in Ha. by destruct (is_given _).
Qed.
Lemma spec_patch_status i auth tn mid l :
  spec i (update_memory_status auth tn mid) l (λ _ l', was_checked i (PatchStatus auth tn mid) l').
Proof.
  unfold update_memory_status. apply spec_lifted. intros _ l1.
  eapply spec_bind; [apply spec_get_memory|]. intros [m|] l2 _ Hm; [|apply spec_err].
  assert (HF : ∀ l l', later l l' →
    (∀ a, given (Auth.agent_id auth) = Some a → told i tn mid (Some m) l ∧ may_access i tn a m 3 l) →
    ∀ a, given (Auth.agent_id auth) = Some a → told i tn mid (Some m) l' ∧ may_access i tn a m 3 l').
  { intros l3 l4 Hl H3 a Ha. destruct (H3 a Ha). split; [by eapply told_later|by eapply may_access_later]. }
  eapply spec_bind with (P := λ _ l,
    ∀ a, given (Auth.agent_id auth) = Some a → told i tn mid (Some m) l ∧ may_access i tn a m 3 l).
  - destruct (given (Auth.agent_id auth)) as [a|] eqn:Ha; [|by apply spec_ret]. apply given_Some in Ha as [_ Hne].
    apply (spec_authorized i tn a m (told i tn mid (Some m))); [done|apply told_later|exact Hm|].
    intros l3 H3 Hac. apply spec_ret. intros l4 Hl4 b [= <-].
    split; [by eapply told_later|by eapply may_access_later].
  - intros [] l3 _ H3. eapply spec_impl; [by apply (spec_last _ _ _ _ HF)|]. intros [] l4 _ H4 a Ha.
    destruct (H4 a Ha). by exists m.
Qed.
Definition delete_checked i tn mid a (l : wlog) : Prop :=
  may_delete i tn a l ∧ ∃ o, told i tn mid o l ∧ ∀ m, o = Some m → may_access i tn a m 3 l.
Lemma delete_checked_later i tn mid a l l' : later l l' → delete_checked i tn mid a l → delete_checked i tn mid a l'.
Proof.
  intros Hl (? & o & ? & Hm). split; [by eapply may_delete_later|]. exists o.
  split; [by eapply told_later|]. intros m Ho. eapply may_access_later; [exact Hl|]. by apply Hm.
Qed.
Lemma spec_delete_memory i auth tn mid p l :
  spec i (delete_memory auth tn mid p) l (λ _ l', was_checked i (DeleteMemory auth tn mid p) l').
Proof.
  unfold delete_memory. apply spec_lifted. intros _ l1.
  set (F := λ l, ∀ a, acting auth p = Some a → delete_checked i tn mid a l).
  assert (HF : ∀ l l', later l l' → F l → F l').
  { intros l3 l4 Hl H3 a Ha. eapply delete_checked_later; [exact Hl|]. by apply H3. }
  eapply spec_bind with (P := λ _, F); [|intros [] l2 _ H2; by apply (spec_last _ _ _ F)].
  unfold F, acting. destruct (is_given (Auth.tenant_id auth)); [|by apply spec_ret].
  destruct (given (match given (Auth.agent_id auth) with Some a => Some a | None => p end)) as [a|] eqn:Ha;
    [|by apply spec_ret].
  apply given_Some in Ha as [_ Hne].
  eapply spec_bind; [apply spec_enforce_delete|]. intros [] l2 _ Hd.
  eapply spec_bind; [exact (spec_frame _ _ _ _ _ (may_delete_later i tn a) Hd (spec_get_memory i tn mid _))|].
  intros [m|] l3 _ [Hd3 Hm].
  - apply (spec_authorized i tn a m (λ l, may_delete i tn a l ∧ told i tn mid (Some m) l)); [done| |done|].
    + intros l4 l5 Hl [? ?]. split; [by eapply may_delete_later|by eapply told_later].
    + intros l4 [? ?] ?. apply spec_ret. intros l5 Hl5 b [= <-].
      eapply delete_checked_later; [exact Hl5|]. split; [done|]. exists (Some m). split; [done|]. by intros ? [= <-].
  - apply spec_ret. intros l4 Hl4 b [= <-]. eapply delete_checked_later; [exact Hl4|].
    split; [done|]. by exists None.
Qed.

(** ** The system *)

(** A grant of trust that the gates let through is one of [granted]. *)
Definition within (r : request) : Prop :=
  match r with
  | PatchTrust auth tn a level _ => admin_credential auth tn → granted (tn, a) level
  | _ => True
  end.
Definition outcome_ok (i : nat) (r : request) (res : res exn outcome) (_ : list (action * answer)) (l : wlog) : Prop :=
  match res with Ok out => owns_its_write i r out l ∧ was_checked i r l | Err _ => True end.

Lemma spec_attributed i r tn inst (m : ag (string * option string)) l :
  writes_for r = Some (tn, inst) → was_checked i r = (λ _, True) →
  spec i m l (writes_as i inst tn) →
  spec i (attributed m) l (λ out l', owns_its_write i r out l' ∧ was_checked i r l').
Proof.
  intros Hr Hc Hm. eapply spec_bind; [exact Hm|]. intros [a f] l1 _ Ha. apply spec_ret. intros l2 Hl2.
  rewrite Hc. split; [|done]. intros tn' inst' a' f' Hr' [= <- <-]. rewrite Hr in Hr'. injection Hr' as <- <-.
  by eapply attributed_to_later.
Qed.
Lemma spec_other {A} i r (m : ag A) (f : A → outcome) l :
  writes_for r = None → was_checked i r = (λ _, True) → spec i m l (λ _ _, True) →
  spec i (ag_bind m (λ a, done_ (f a))) l (λ out l', owns_its_write i r out l' ∧ was_checked i r l').
Proof.
  intros Hr Hc Hm. eapply spec_bind; [exact Hm|]. intros a l1 _ _. apply spec_ret. intros l2 _.
  rewrite Hc. split; [|done]. intros tn inst a' f' Hr'. by rewrite Hr in Hr'.
Qed.
Lemma spec_checked {A} i r (m : ag A) l :
  writes_for r = None → (∀ l l', later l l' → was_checked i r l → was_checked i r l') →
  spec i m l (λ _ l', was_checked i r l') →
  spec i (through m) l (λ out l', owns_its_write i r out l' ∧ was_checked i r l').
Proof.
  intros Hr Hl Hm. eapply spec_bind; [exact Hm|]. intros a l1 _ H1. apply spec_ret. intros l2 Hl2.
  split; [|by eapply Hl]. intros tn inst a' f' Hr'. by rewrite Hr in Hr'.
Qed.
Lemma was_checked_later i r l l' : later l l' → was_checked i r l → was_checked i r l'.
Proof.
  intros Hl. destruct r; cbn; try done.
  - intros H a Ha. destruct (H a Ha) as (m & ? & ?). exists m. split; [by eapply told_later|by eapply may_access_later].
  - intros H a Ha. eapply update_checked_later; [exact Hl|]. by apply H.
  - intros H a Ha. eapply delete_checked_later; [exact Hl|]. by apply H.
  - intros H a Ha. destruct (H a Ha) as (m & ? & ?). exists m. split; [by eapply told_later|by eapply may_access_later].
Qed.

Lemma handler_spec i r l : within r →
  spec i (handler d r) l (λ out l', owns_its_write i r out l' ∧ was_checked i r l').
Proof.
  intros Hw. destruct r; cbn [handler].
  - eapply spec_attributed; [done..|]. unfold write_memory. apply spec_lifted; intros _ ?.
    apply spec_lifted; intros ? ?. apply spec_write_inner.
  - eapply spec_attributed; [done..|]. unfold write_memories_bulk. apply spec_lifted; intros _ ?. cbn zeta.
    apply spec_lifted; intros ? ?. apply spec_bulk_inner.
  - eapply spec_attributed; [done..|]. apply spec_mcp_write.
  - apply (spec_other i _ _ (λ r, Attributed r None)); [done..|]. unfold owned_agent. safe.
  - apply (spec_other i _ _ (λ r, Attributed r None)); [done..|]. apply spec_report.
  - apply (spec_other i _ _ (λ r, Searches r.1 r.2)); [done..|]. apply spec_search_as.
  - apply (spec_other i _ _ (λ r, Searches r.1 r.2)); [done..|]. apply spec_search_as.
  - apply (spec_other i _ _ (λ r, Searches r.1 r.2)); [done..|]. apply spec_memclaw_recall.
  - apply spec_checked; [done|apply was_checked_later|]. apply spec_get_memory_by_id.
  - apply spec_checked; [done|apply was_checked_later|]. apply spec_patch_memory.
  - apply spec_checked; [done|apply was_checked_later|]. apply spec_delete_memory.
  - apply spec_checked; [done|apply was_checked_later|]. apply spec_patch_status.
  - apply (spec_other i _ _ (λ _, Through)); [done..|]. by apply spec_patch_agent_trust.
  - apply (spec_other i _ _ (λ _, Through)); [done..|]. unfold update_agent_fleet. safe.
  - apply (spec_other i _ _ (λ _, Through)); [done..|]. unfold remove_agent, delete_agent. safe.
  - apply (spec_other i _ _ (λ _, Through)); [done..|]. unfold heartbeat. safe. apply spec_heartbeat_agents.
  - apply (spec_other i _ _ (λ _, Through)); [done..|]. apply spec_insighter.
  - apply (spec_other i _ _ (λ _, Through)); [done..|]. apply spec_backfill.
Qed.

Lemma runs_ok ms : good_table init → Forall (arrives within) ms → sys_ok apply_write Inv outcome_ok (runs ms).
Proof.
  intros Hinit Hms. apply (run_ok_for _ _ _ _ _ within); [|done|].
  - split.
    + by intros l s n [].
    + intros l s e [Hp (p & Hpre & Hr) Hg Hk]. split; [done| |done..]. exists (events l). by split.
    + intros i r l Hw. exact (handler_spec i r l Hw []).
  - split; [|constructor]. split; [done|by exists []|..].
    + cbn. intros p Hp. by apply prefix_nil_inv in Hp as ->.
    + cbn. intros p ev Hp. apply prefix_nil_inv in Hp. by destruct p.
Qed.

(** ** Owners persist *)
Lemma owner_persists l s p q k u :
  Inv l s → p ++ q `prefix_of` events l → (∀ ev, ev ∈ events l → ev_what ev ≠ Wrote (Remove k)) →
  (∃ a, table_of p !! k = Some a ∧ owner_install_uuid a = Some u) →
  ∃ a, table_of (p ++ q) !! k = Some a ∧ owner_install_uuid a = Some u.
Proof.
  intros Hi Hpre Hno Hp. revert Hpre. induction q as [|ev q IH] using rev_ind; [by rewrite app_nil_r|].
  rewrite app_assoc. intros Hpre. destruct IH as (a & Ha & Hu); [by etrans; [apply prefix_app_r|]|].
  destruct (inv_keeps _ _ Hi _ _ Hpre k a u Ha Hu) as [Hr|Hk]; [|by rewrite table_of_snoc].
  exfalso. eapply Hno; [|exact Hr]. destruct Hpre as [x Hx]. rewrite Hx, !elem_of_app, list_elem_of_singleton. auto.
Qed.
Lemma one_owner l s k u v :
  Inv l s → (∀ ev, ev ∈ events l → ev_what ev ≠ Wrote (Remove k)) →
  owned_once u k l → owned_once v k l → u = v.
Proof.
  intros Hi Hno (a & (p & Hp & Ha) & Hu) (b & (q & Hq & Hb) & Hv).
  destruct (prefix_weak_total _ _ _ Hp Hq) as [[x ->]|[x ->]].
  - destruct (owner_persists l s p x k u Hi Hq Hno) as (c & Hc & Hcu); [by exists a|]. congruence.
  - destruct (owner_persists l s q x k v Hi Hp Hno) as (c & Hc & Hcv); [by exists b|]. congruence.
Qed.
(** A reserved name is not owned by another install. *)
Lemma label_owner l s tn u v : Inv l s → u ≠ "" → v ≠ "" → owned_once v (tn, broker_label (Some u)) l → u = v.
Proof.
  intros Hi Hu Hv (a & (p & Hp & Ha) & Ho). destruct (inv_good _ _ Hi _ Hp _ _ Ha) as [Hr _].
  specialize (Hr v Ho (starts_with_label (Some u))). unfold broker_label, str_or in Hr. cbn in Hr.
  destruct u, v; try done. by injection Hr as -> ->.
Qed.
End System.

(** ** What holds of every run *)

Section Properties.
Context (d : deployment).
Abbreviation moves := (list (move answer request ())).
(** From an empty table; whatever rows there are were written by requests. *)
Abbreviation reached ms := (runs d ∅ ms).

Lemma reached_ok granted (ms : moves) :
  Forall (arrives (within granted)) ms → sys_ok apply_write (Inv ∅ granted) (outcome_ok ∅) (reached ms).
Proof. apply runs_ok. apply map_Forall_empty. Qed.
Lemma any_within (ms : moves) : Forall (arrives (within (λ _ _, True))) ms.
Proof. apply Forall_forall. intros [r| | | |] _; cbn; [by destruct r|done..]. Qed.

(** Thread [j] has answered request [r] with [out]. *)
Definition answered (ms : moves) j i r out : Prop :=
  ∃ th, threads (reached ms) !! j = Some th ∧ tid th = i ∧ req th = r ∧ run_code th = Client (Ret (Ok out)).
Lemma answered_ok ms j i r out : answered ms j i r out →
  owns_its_write ∅ i r out (sys_log (reached ms)) ∧ was_checked i r (sys_log (reached ms)).
Proof.
  intros (th & Hth & <- & <- & Hc).
  exact (finished_ok _ _ _ _ _ _ _ (reached_ok (λ _ _, True) ms (any_within ms)) Hth Hc).
Qed.


(** A level given out by a credential that may. *)
Definition given_out (ms : moves) (k : key) (level : Z) : Prop :=
  ∃ auth fleet, Arrive (PatchTrust auth k.1 k.2 level fleet) ∈ ms ∧ admin_credential auth k.1.

(** C5. Trust above the default comes from outside the agents: an administrator's
    or tenant's credential, never an agent's own, gave this level to the
    agent, or to the ["main"] agent that it replaced, or it is the fixed level
    of the insighter. *)
Theorem trust_is_given_out ms k a (Ha : primary (store (reached ms)) !! k = Some a) (Hz : 1 < trust_level a) :
  given_out ms k (trust_level a) ∨
  (∃ i, k.2 = ("main-" ++ i)%string ∧ given_out ms (k.1, RESERVED_MAIN_AGENT_ID) (trust_level a)) ∨
  (k.2 = INSIGHTER_AGENT_ID ∧ trust_level a = INSIGHTER_TRUST_LEVEL).
Proof.
  destruct (reached_ok (given_out ms) ms) as [Hi _].
  - apply Forall_forall. intros [r| | | |] Hr; cbn; [|done..]. destruct r; try done. cbn. intros Hadm. by eexists _, _.
  - apply (inv_good_now _ _ _ _ Hi) in Ha as [_ [Hle|[Hin|[Hg|Hm]]]]; [unfold DEFAULT_TRUST_LEVEL in Hle; lia|auto..].
Qed.

(** C11. Nothing is answered for an agent by memory id without the ladder: a memory
    that storage returned to the request, read only as the author, an
    organization-wide or home memory, or with trust two; changed only with
    trust three across fleets; updated only by a registered agent that is not
    restricted, its own memories or with trust three; deleted only with trust
    three.  The rows and the memory are those the request itself saw. *)
Theorem access_by_id_is_checked ms j i r out (H : answered ms j i r out) :
  was_checked i r (sys_log (reached ms)).
Proof. exact (proj2 (answered_ok _ _ _ _ _ H)). Qed.
End Properties.

(** ** Runs *)
Module Runs.
Definition hosted : deployment := {| is_standalone := false; bind_write_identity_to_auth := false |}.
Definition tenant_key : Auth.AuthContext := Auth.context (Some "acme") false None None false false None [] None.
Definition broker (u : string) : Auth.AuthContext :=
  Auth.context (Some "acme") false None None false true (Some u) [] None.
Definition agent_key (a : string) : Auth.AuthContext :=
  Auth.context (Some "acme") false None (Some a) false false None [] None.
Definition go (i n : nat) : list (move answer request ()) := replicate n (Step i 0 ADone).
Definition reply (i : nat) (ans : answer) : list (move answer request ()) := [Step i 0 ans].
Definition answer_of (ms : list (move answer request ())) (i : nat) : option (res exn outcome) :=
  th ← threads (runs hosted ∅ ms) !! i; match run_code th with Client (Ret o) => Some o | _ => None end.
Definition row (ms : list (move answer request ())) (a : string) : option (option string * option string * Z) :=
  (λ b, (owner_install_uuid b, fleet_id b, trust_level b)) <$> primary (store (runs hosted ∅ ms)) !! ("acme", a).
Definition write_as (auth : Auth.AuthContext) (a : string) : request := WriteBulk auth "acme" (Some a) None [].

(** Two installs claim an agent that exists without an owner.  Both read it
    unclaimed, storage keeps the first claim, and each goes on with its own
    copy of the row. *)
Definition race : list (move answer request ()) :=
  [Arrive (write_as tenant_key "bot")] ++ go 0 30 ++ [Other ()] ++
  [Arrive (write_as (broker "u") "bot"); Arrive (write_as (broker "v") "bot")] ++
  go 1 4 ++ go 2 4 ++ go 1 30 ++ go 2 30.
Example race_shares_the_agent :
  answer_of race 1 = Some (Ok (Attributed "bot" None)) ∧ answer_of race 2 = Some (Ok (Attributed "bot" None)) ∧
  row race "bot" = Some (Some "u", None, 1).
Proof. vm_compute. auto. Qed.
(** With the row claimed, or not there at all, the second install gets its own
    fallback. *)
Example later_install_falls_back :
  let ms := [Arrive (write_as (broker "u") "bot"); Arrive (write_as (broker "v") "bot")] ++
            go 0 4 ++ go 1 4 ++ go 0 30 ++ go 1 30 in
  answer_of ms 0 = Some (Ok (Attributed "bot" None)) ∧ answer_of ms 1 = Some (Ok (Attributed "broker:v" None)).
Proof. vm_compute. auto. Qed.


Definition promote : list (move answer request ()) :=
  [Arrive (write_as tenant_key "bot")] ++ go 0 30 ++ [Other ()] ++
  [Arrive (PatchTrust tenant_key "acme" "bot" 3 None)] ++ go 1 30.
Lemma trust_is_given_out_witness :
  ∃ a, primary (store (runs hosted ∅ promote)) !! ("acme", "bot") = Some a ∧ 1 < trust_level a ∧
    (given_out promote ("acme", "bot") (trust_level a) ∨
     (∃ i, "bot" = ("main-" ++ i)%string ∧ given_out promote ("acme", RESERVED_MAIN_AGENT_ID) (trust_level a)) ∨
     ("bot" = INSIGHTER_AGENT_ID ∧ trust_level a = INSIGHTER_TRUST_LEVEL)).
Proof.
  eexists. split; [vm_compute; reflexivity|]. split; [vm_compute; reflexivity|].
  apply (trust_is_given_out hosted promote ("acme", "bot")); vm_compute; reflexivity.
Defined.

Definition team_memory : memory :=
  {| visibility := Some "scope_team"; agent_id := Some "peer"; m_fleet := Some "home" |}.
Definition at_home_fleet : list (move answer request ()) :=
  [Arrive (Heartbeat tenant_key "acme" (Some "home") None [("bot", None)])] ++ go 0 30 ++ [Other ()].
Definition read_it : list (move answer request ()) :=
  at_home_fleet ++ [Arrive (GetMemoryById (agent_key "bot") "acme" "m1")] ++
  reply 1 (AMemory (Some team_memory)) ++ go 1 30.
Lemma access_by_id_is_checked_witness :
  answered hosted read_it 1 1 (GetMemoryById (agent_key "bot") "acme" "m1") Through ∧
  was_checked 1 (GetMemoryById (agent_key "bot") "acme" "m1") (sys_log (runs hosted ∅ read_it)).
Proof.
  assert (H : answered hosted read_it 1 1 (GetMemoryById (agent_key "bot") "acme" "m1") Through).
  { eexists. split_and!; vm_compute; reflexivity. }
  split; [exact H|]. exact (access_by_id_is_checked hosted read_it 1 1 _ Through H).
Defined.

(** A suspension is undone by a first write that was under way: the insert
    finds the row and writes its own default trust over the administrator's. *)
Example suspension_undone :
  let ms := [Arrive (write_as tenant_key "bot"); Arrive (write_as tenant_key "bot")] ++ go 0 2 ++ go 1 30 ++
            [Other (); Arrive (PatchTrust tenant_key "acme" "bot" 0 None)] ++ go 2 30 in
  row ms "bot" = Some (None, None, 0) ∧ row (ms ++ go 0 30) "bot" = Some (None, None, 1).
Proof. vm_compute. auto. Qed.

(** A search registers an unknown agent in the fleet it asks for, and so may
    read it. *)
Example search_joins_fleet :
  let ms := [Arrive (Search (agent_key "bot") "acme" ["secret"] None)] ++ go 0 30 in
  answer_of ms 0 = Some (Ok (Searches (Some "bot") ["secret"])) ∧ row ms "bot" = Some (None, Some "secret", 1).
Proof. vm_compute. auto. Qed.
(** An agent of the home fleet may not read one other fleet, but two. *)
Example search_two_fleets :
  let ms q := at_home_fleet ++ [Arrive (Search (agent_key "bot") "acme" q None)] ++ go 1 30 in
  (∃ detail, answer_of (ms ["secret"]) 1 = Some (Err (HTTPException 403 detail))) ∧
  answer_of (ms ["secret"; "other"]) 1 = Some (Ok (Searches (Some "bot") ["secret"; "other"])).
Proof. split; [eexists; vm_compute; reflexivity|vm_compute; reflexivity]. Qed.
(** An agent's credential searches as a peer, or through recall as nobody. *)
Example search_as_peer :
  answer_of (at_home_fleet ++ [Arrive (Search (agent_key "bot") "acme" [] (Some "peer"))] ++ go 1 30) 1 =
    Some (Ok (Searches (Some "peer") [])) ∧
  answer_of (at_home_fleet ++ [Arrive (Recall (agent_key "bot") "acme" [] None)] ++ go 1 30) 1 =
    Some (Ok (Searches None [])).
Proof. vm_compute. auto. Qed.
(** A key with the read capability alone updates memories and trust. *)
Example read_only_key_writes :
  let reader := Auth.context (Some "acme") false None None false false None [] (Some ["read"]) in
  (∃ e, Auth.enforce_read_only reader = Err e) ∧
  answer_of ([Arrive (PatchMemory reader "acme" "m1" None)] ++ go 0 1 ++ reply 0 (AMemory (Some team_memory)) ++ go 0 30) 0 =
    Some (Ok Through) ∧
  answer_of (at_home_fleet ++ [Arrive (PatchTrust reader "acme" "bot" 3 None)] ++ go 1 30) 1 = Some (Ok Through).
Proof. split; [by eexists|]. vm_compute. auto. Qed.
End Runs.
End AgentSystem.
