(* ===== verification/Chunking.v ===== *)
(** * Chunking of documents for ingestion
    ([src/core-api/src/core_api/services/ingest_chunking.py])
    The block parsers for Markdown and plain text, the detection of the
    format, and the packing of blocks into sections under token caps.  A text
    is the list of its code points.  The tokenizer, the sentence segmenter
    and the Markdown tokenizer are libraries the module calls: arguments.
    The theorems: on the tokens of any Markdown tree the parser answers the
    blocks the tree has; the sections are the one greedy cut of the blocks,
    each under the headings that enclose its end; and a plain text keeps
    every character that is not white space. *)
From S2P Require Import Prelude Regex.
Module Chunking.
Import Regex.

Definition text : Type := list N.
Definition lits (s : string) : text := codepoints s.
Definition newline : string := String "010" "".

(** A token of markdown-it: its type, its HTML tag and its content. *)
Record md_token : Type := Token { t_type : string; t_tag : string; t_content : text }.

(** tiktoken's [encode], pysbd's [segment] ([None] when it raises, on import
    too) and markdown-it's [parse]. *)
Class IngestLibs := {
  encode : text → list N;
  segment : text → option (list text);
  md_parse : text → list md_token;
}.

Definition SECTION_SOFT_TOKENS : Z := 2000.
Definition SECTION_HARD_TOKENS : Z := 3000.
Definition DOC_HARD_TOKEN_LIMIT : Z := 100000.

Inductive BlockType : Type := HEADING | PARAGRAPH | LIST | CODE | TABLE | BLOCKQUOTE.
#[global] Instance block_type_eq_dec : EqDecision BlockType.
Proof. solve_decision. Defined.

Record Block : Type := { b_type : BlockType; b_text : text; b_depth : Z }.
Definition block (ty : BlockType) (body : text) : Block := {| b_type := ty; b_text := body; b_depth := 0 |}.

Record Section_ : Type :=
  { s_text : text; breadcrumb : text; token_count : Z; block_types : list BlockType }.

(** ** [str.strip], [str.rstrip] and [str.join] on code points *)
Fixpoint lstrip (t : text) : text :=
  match t with [] => [] | x :: t' => if is_space x then lstrip t' else t end.
Definition rstrip (t : text) : text := reverse (lstrip (reverse t)).
Definition strip (t : text) : text := rstrip (lstrip t).
Fixpoint text_join (sep : text) (l : list text) : text :=
  match l with [] => [] | [t] => t | t :: l => t ++ sep ++ text_join sep l end.

(** ** Markdown *)

(** [(inline.content or "").strip()], and the block a non-empty body gives. *)
Definition inline_body (tok : md_token) : text := strip (t_content tok).
Definition when_text (body : text) (b : Block) : list Block := match body with [] => [] | _ => [b] end.

(** [int(tok.tag[1])].  Tags are ASCII. *)
Definition heading_depth (tok : md_token) : res pyexn Z :=
  match String.get 1 (t_tag tok) with
  | None => Err (OtherExc "IndexError")
  | Some c => if is_digit_char c then Ok (Z.of_N (byte_of c) - 48) else Err ValueError
  end.
(** [tokens[i + 1]], where [rest] is what follows token [i]. *)
Definition next_token (rest : list md_token) : res pyexn md_token :=
  match rest with [] => Err (OtherExc "IndexError") | tok :: _ => Ok tok end.

(** The walk from an opening token to the one that closes it: what [keep]
    makes of the inline contents between them, and the tokens after. *)
Fixpoint to_close (opening close : string) (keep : text → list text) (depth_stack : nat)
    (toks : list md_token) : list text * list md_token :=
  match toks with
  | [] => ([], [])
  | inner :: toks =>
      if String.eqb (t_type inner) opening then to_close opening close keep (S depth_stack) toks
      else if String.eqb (t_type inner) close then
        match depth_stack with
        | S (S _ as depth_stack) => to_close opening close keep depth_stack toks
        | _ => ([], toks)
        end
      else if String.eqb (t_type inner) "inline" then
        let '(kept, rest) := to_close opening close keep depth_stack toks in
        (keep (inline_body inner) ++ kept, rest)
      else to_close opening close keep depth_stack toks
  end.
Definition list_item (body : text) : list text :=
  match body with [] => [] | _ => [lits "- " ++ body] end.
Definition quoted (body : text) : list text := [body].

(** The walk to the end of a table, with the rows so far and the current one. *)
Fixpoint table_rows (rows : list text) (current_row : list text) (toks : list md_token) :
    list text * list md_token :=
  match toks with
  | [] => (rows, [])
  | inner :: toks =>
      if String.eqb (t_type inner) "table_close" then (rows, toks)
      else if String.eqb (t_type inner) "tr_open" then table_rows rows [] toks
      else if String.eqb (t_type inner) "tr_close" then
        table_rows (match current_row with [] => rows | _ => rows ++ [text_join (lits " | ") current_row] end)
          current_row toks
      else if String.eqb (t_type inner) "inline" then
        table_rows rows (current_row ++ [inline_body inner]) toks
      else table_rows rows current_row toks
  end.

Definition close_of (opening : string) : string :=
  if String.eqb opening "bullet_list_open" then "bullet_list_close" else "ordered_list_close".

(** The loop over the tokens.  Each round consumes one at least, so their
    number is enough fuel. *)
Fixpoint read_tokens (fuel : nat) (toks : list md_token) : res pyexn (list Block) :=
  match fuel, toks with
  | O, _ | _, [] => Ok []
  | S fuel, tok :: rest =>
      let ttype := t_type tok in
      if String.eqb ttype "heading_open" then
        depth ← heading_depth tok;
        inline ← next_token rest;
        let body := inline_body inline in
        blocks ← read_tokens fuel (drop 2 rest);
        mret (when_text body {| b_type := HEADING; b_text := body; b_depth := depth |} ++ blocks)
      else if String.eqb ttype "paragraph_open" then
        inline ← next_token rest;
        let body := inline_body inline in
        blocks ← read_tokens fuel (drop 2 rest);
        mret (when_text body (block PARAGRAPH body) ++ blocks)
      else if String.eqb ttype "bullet_list_open" || String.eqb ttype "ordered_list_open" then
        let '(items, rest) := to_close ttype (close_of ttype) list_item 1 rest in
        blocks ← read_tokens fuel rest;
        mret (match items with [] => [] | _ => [block LIST (text_join (lits newline) items)] end ++ blocks)
      else if String.eqb ttype "fence" || String.eqb ttype "code_block" then
        let body := rstrip (t_content tok) in
        blocks ← read_tokens fuel rest;
        mret (when_text body (block CODE body) ++ blocks)
      else if String.eqb ttype "table_open" then
        let '(rows, rest) := table_rows [] [] rest in
        blocks ← read_tokens fuel rest;
        mret (match rows with [] => [] | _ => [block TABLE (text_join (lits newline) rows)] end ++ blocks)
      else if String.eqb ttype "blockquote_open" then
        let '(parts, rest) := to_close ttype "blockquote_close" quoted 1 rest in
        blocks ← read_tokens fuel rest;
        mret (match parts with [] => [] | _ => [block BLOCKQUOTE (text_join (lits newline) parts)] end ++ blocks)
      else read_tokens fuel rest
  end.
Definition read_all (toks : list md_token) : res pyexn (list Block) := read_tokens (length toks) toks.

(** ** Plain text *)

(** [pattern.split(text)]: the pieces between the matches.  [piece] is the
    current one, backwards.  Each round consumes a character, so one more
    than the length of the text is enough fuel. *)
Section Split.
Context `{PyText}.

Fixpoint split_from (c : compiled) (fuel : nat) (piece : text) (s : mstate) : list text :=
  match fuel with
  | O => [reverse piece]
  | S fuel =>
      let keep_one piece :=
        match ms_rest s with
        | [] => [reverse piece]
        | x :: rest => split_from c fuel (x :: piece) (advance s x rest)
        end in
      match c_run c s with
      | e :: _ => if Nat.eqb (ms_pos e) (ms_pos s) then reverse piece :: keep_one []
                  else reverse piece :: split_from c fuel [] e
      | [] => keep_one piece
      end
  end.
Definition re_split (c : compiled) (t : text) : list text := split_from c (S (length t)) [] (start_of t).
Definition found_in (c : compiled) (t : text) : bool :=
  match search_from c 0 [] t with Some _ => true | None => false end.

Definition _PARAGRAPH_SPLIT_RE : compiled := re_compile no_flags "\n{2,}".
Definition ATX_HEADING_RE : compiled := re_compile MULTILINE "^#{1,6}\s+\S".
Definition FENCE_RE : compiled := re_compile MULTILINE "^```[a-zA-Z0-9_-]*\s*$".

Definition parse_plaintext (t : text) : list Block :=
  flat_map (λ chunk, let body := strip chunk in when_text body (block PARAGRAPH body))
    (re_split _PARAGRAPH_SPLIT_RE t).

Inductive Format : Type := Markdown | Plaintext.
Definition detect_format (t : text) : Format :=
  if found_in ATX_HEADING_RE t then Markdown
  else if found_in FENCE_RE t then Markdown
  else Plaintext.
End Split.

(** ** Sections *)
Section Chunker.
Context `{PyText} `{IngestLibs}.

Definition parse_markdown (t : text) : res pyexn (list Block) := read_all (md_parse t).
Definition parse (t : text) : res pyexn (list Block) :=
  match detect_format t with Markdown => parse_markdown t | Plaintext => Ok (parse_plaintext t) end.

Definition _count_tokens (t : text) : Z := Z.of_nat (length (encode t)).
Definition doc_token_count (t : text) : Z := _count_tokens t.

(** [text.split(". ")] *)
Fixpoint split_dots (piece t : text) : list text :=
  match t with
  | [] => [reverse piece]
  | x :: t' =>
      match t' with
      | y :: rest => if ((x =? 46) && (y =? 32))%N then reverse piece :: split_dots [] rest
                     else split_dots (x :: piece) t'
      | [] => split_dots (x :: piece) t'
      end
  end.
Definition sentences (t : text) : list text :=
  match segment t with
  | Some segs => filter (λ s, s ≠ []) (map strip segs)
  | None => flat_map (λ s, match strip s with [] => [] | s => [s ++ lits "."] end) (split_dots [] t)
  end.

Record splitter : Type := { out : list text; current : text; current_tokens : Z }.
Definition add_sentence (hard_tokens : Z) (st : splitter) (sent : text) : splitter :=
  let sent_tokens := _count_tokens sent in
  if (hard_tokens <? current_tokens st + sent_tokens)%Z && negb (bool_decide (current st = []))
  then {| out := out st ++ [strip (current st)]; current := sent; current_tokens := sent_tokens |}
  else {| out := out st;
          current := match current st with [] => sent | cur => strip (cur ++ lits " " ++ sent) end;
          current_tokens := current_tokens st + sent_tokens |}.
Definition _split_oversized_paragraph (t : text) (hard_tokens : Z) : list text :=
  let st := foldl (add_sentence hard_tokens) {| out := []; current := []; current_tokens := 0 |} (sentences t) in
  match current st with [] => out st | cur => out st ++ [strip cur] end.

Context (soft_tokens hard_tokens : Z).

(** The state of [chunk_blocks]; the breadcrumb stack has its top first. *)
Record chunker : Type :=
  { sections : list Section_; current_text_parts : list text; c_tokens : Z;
    current_types : list BlockType; breadcrumb_stack : list (Z * text) }.

Definition _current_breadcrumb (stack : list (Z * text)) : text :=
  text_join (lits " > ") (reverse stack).*2.

Definition _flush (st : chunker) : chunker :=
  match current_text_parts st with
  | [] => st
  | parts =>
      let joined := strip (text_join (lits (newline ++ newline)%string) parts) in
      {| sections := sections st ++
           match joined with
           | [] => []
           | _ => [{| s_text := joined; breadcrumb := _current_breadcrumb (breadcrumb_stack st);
                      token_count := c_tokens st; block_types := current_types st |}]
           end;
         current_text_parts := []; c_tokens := 0; current_types := [];
         breadcrumb_stack := breadcrumb_stack st |}
  end.

Fixpoint pop_deeper (depth : Z) (stack : list (Z * text)) : list (Z * text) :=
  match stack with
  | (d, _) :: below => if depth <=? d then pop_deeper depth below else stack
  | [] => []
  end.

Definition with_sections (st : chunker) (l : list Section_) : chunker :=
  {| sections := sections st ++ l; current_text_parts := current_text_parts st; c_tokens := c_tokens st;
     current_types := current_types st; breadcrumb_stack := breadcrumb_stack st |}.
Definition with_stack (st : chunker) (stack : list (Z * text)) : chunker :=
  {| sections := sections st; current_text_parts := current_text_parts st; c_tokens := c_tokens st;
     current_types := current_types st; breadcrumb_stack := stack |}.
Definition append (st : chunker) (part : text) (n : Z) (ty : BlockType) : chunker :=
  {| sections := sections st; current_text_parts := current_text_parts st ++ [part];
     c_tokens := c_tokens st + n; current_types := current_types st ++ [ty];
     breadcrumb_stack := breadcrumb_stack st |}.

Definition is_atomic (ty : BlockType) : bool := match ty with LIST | TABLE | CODE => true | _ => false end.
Definition own_section (stack : list (Z * text)) (ty : BlockType) (body : text) : Section_ :=
  {| s_text := body; breadcrumb := _current_breadcrumb stack; token_count := _count_tokens body;
     block_types := [ty] |}.
Definition rendered (b : Block) : text :=
  if bool_decide (b_type b = HEADING) then replicate (Z.to_nat (b_depth b)) 35%N ++ lits " " ++ b_text b
  else b_text b.
Definition nonempty (st : chunker) : bool := match current_text_parts st with [] => false | _ => true end.

Definition add_block (st : chunker) (b : Block) : chunker :=
  let block_tokens := _count_tokens (b_text b) in
  if bool_decide (b_type b = HEADING) then
    let st := if (b_depth b <=? 2) && nonempty st then _flush st else st in
    let st := with_stack st ((b_depth b, b_text b) :: pop_deeper (b_depth b) (breadcrumb_stack st)) in
    append st (rendered b) block_tokens (b_type b)
  else if is_atomic (b_type b) && (hard_tokens <? block_tokens) then
    let st := _flush st in
    with_sections st [own_section (breadcrumb_stack st) (b_type b) (b_text b)]
  else if bool_decide (b_type b = PARAGRAPH) && (hard_tokens <? block_tokens) then
    let st := _flush st in
    with_sections st (map (own_section (breadcrumb_stack st) PARAGRAPH)
                        (_split_oversized_paragraph (b_text b) hard_tokens))
  else
    let st := if (soft_tokens <? c_tokens st + block_tokens) && nonempty st then _flush st else st in
    append st (b_text b) block_tokens (b_type b).

Definition empty_chunker : chunker :=
  {| sections := []; current_text_parts := []; c_tokens := 0; current_types := []; breadcrumb_stack := [] |}.
Definition chunk_blocks (blocks : list Block) : list Section_ :=
  sections (_flush (foldl add_block empty_chunker blocks)).

End Chunker.

(** ** Markdown trees

    What markdown-it's preset produces: a heading or a paragraph is an opening
    token, an [inline] with the text, and a closing token; lists, quotes and
    tables nest. *)
Inductive hlevel : Type := H1 | H2 | H3 | H4 | H5 | H6.
Inductive md : Type :=
| Heading (level : hlevel) (content : text)
| Paragraph (content : text)
| Items (ordered : bool) (items : list (list md))
| CodeBlock (fenced : bool) (content : text)
| Table (head : list text) (rows : list (list text))
| Quote (body : list md)
| Rule.

Section MdInd.
Context (P : md → Prop).
Context (Phead : ∀ l c, P (Heading l c)) (Ppar : ∀ c, P (Paragraph c)).
Context (Pitems : ∀ o items, Forall (Forall P) items → P (Items o items)).
Context (Pcode : ∀ f c, P (CodeBlock f c)) (Ptable : ∀ h rows, P (Table h rows)).
Context (Pquote : ∀ body, Forall P body → P (Quote body)) (Prule : P Rule).

Fixpoint md_ind' (m : md) : P m :=
  let fix all (l : list md) : Forall P l :=
    match l with [] => Forall_nil_2 P | m :: l => Forall_cons_2 P m l (md_ind' m) (all l) end in
  match m with
  | Heading l c => Phead l c
  | Paragraph c => Ppar c
  | Items o items =>
      Pitems o items
        ((fix alls (ls : list (list md)) : Forall (Forall P) ls :=
            match ls with
            | [] => Forall_nil_2 (Forall P)
            | l :: ls => Forall_cons_2 (Forall P) l ls (all l) (alls ls)
            end) items)
  | CodeBlock f c => Pcode f c
  | Table h rows => Ptable h rows
  | Quote body => Pquote body (all body)
  | Rule => Prule
  end.
End MdInd.

Definition level_depth (l : hlevel) : Z :=
  match l with H1 => 1 | H2 => 2 | H3 => 3 | H4 => 4 | H5 => 5 | H6 => 6 end.
Definition level_tag (l : hlevel) : string :=
  match l with H1 => "h1" | H2 => "h2" | H3 => "h3" | H4 => "h4" | H5 => "h5" | H6 => "h6" end.

Definition plain (ty : string) : md_token := Token ty "" [].
Definition cells (opening close : string) (row : list text) : list md_token :=
  plain "tr_open" ::
  flat_map (λ c, [plain opening; Token "inline" "" c; plain close]) row ++ [plain "tr_close"].

Definition table_body (head : list text) (rows : list (list text)) : list md_token :=
  plain "thead_open" :: cells "th_open" "th_close" head ++ plain "thead_close" ::
  match rows with
  | [] => []
  | _ => plain "tbody_open" :: flat_map (cells "td_open" "td_close") rows ++ [plain "tbody_close"]
  end.

(** The tokens of a tree.  Only the tags of headings are read. *)
Fixpoint tokens (m : md) : list md_token :=
  match m with
  | Heading l c => [Token "heading_open" (level_tag l) []; Token "inline" "" c; Token "heading_close" (level_tag l) []]
  | Paragraph c => [plain "paragraph_open"; Token "inline" "" c; plain "paragraph_close"]
  | Items ordered items =>
      plain (if ordered then "ordered_list_open" else "bullet_list_open") ::
      flat_map (λ item, plain "list_item_open" :: flat_map tokens item ++ [plain "list_item_close"]) items ++
      [plain (if ordered then "ordered_list_close" else "bullet_list_close")]
  | CodeBlock fenced c => [Token (if fenced then "fence" else "code_block") "" c]
  | Table head rows =>
      plain "table_open" :: table_body head rows ++ [plain "table_close"]
  | Quote body => plain "blockquote_open" :: flat_map tokens body ++ [plain "blockquote_close"]
  | Rule => [plain "hr"]
  end.

(** The inline contents of a tree in order; code has none. *)
Fixpoint inlines (m : md) : list text :=
  match m with
  | Heading _ c | Paragraph c => [strip c]
  | Items _ items => flat_map (flat_map inlines) items
  | CodeBlock _ _ | Rule => []
  | Table head rows => map strip (head ++ concat rows)
  | Quote body => flat_map inlines body
  end.

(** The blocks of a tree: one for each element of the top level with any
    content, a list by its items with text, a table by its rows with cells. *)
Definition lines_block (ty : BlockType) (lines : list text) : list Block :=
  match lines with [] => [] | _ => [block ty (text_join (lits newline) lines)] end.
Definition row_line (row : list text) : list text :=
  match row with [] => [] | _ => [text_join (lits " | ") (map strip row)] end.
Definition blocks_of (m : md) : list Block :=
  match m with
  | Heading l c => when_text (strip c) {| b_type := HEADING; b_text := strip c; b_depth := level_depth l |}
  | Paragraph c => when_text (strip c) (block PARAGRAPH (strip c))
  | Items _ _ => lines_block LIST (map (app (lits "- ")) (filter (λ t, t ≠ []) (inlines m)))
  | CodeBlock _ c => when_text (rstrip c) (block CODE (rstrip c))
  | Table head rows => lines_block TABLE (flat_map row_line (head :: rows))
  | Quote _ => lines_block BLOCKQUOTE (inlines m)
  | Rule => []
  end.

(** *** Walking over a tree *)

(** The token types a walk reacts to. *)
Definition walked : list string :=
  ["bullet_list_open"; "bullet_list_close"; "ordered_list_open"; "ordered_list_close";
   "blockquote_open"; "blockquote_close"; "inline"]%string.
Definition walkable (opening close : string) : Prop :=
  (opening, close) ∈ [("bullet_list_open", "bullet_list_close"); ("ordered_list_open", "ordered_list_close");
                      ("blockquote_open", "blockquote_close")]%string.

Lemma walkable_cases o c :
  walkable o c →
  o = "bullet_list_open"%string ∧ c = "bullet_list_close"%string ∨
  o = "ordered_list_open"%string ∧ c = "ordered_list_close"%string ∨
  o = "blockquote_open"%string ∧ c = "blockquote_close"%string.
Proof. unfold walkable. rewrite !elem_of_cons, elem_of_nil. naive_solver. Qed.
Ltac walk_cases H := apply walkable_cases in H as [[? ?]|[[? ?]|[? ?]]]; subst.

Lemma walk_enter opening close keep o c k toks :
  walkable opening close → walkable o c →
  to_close opening close keep (S k) (plain o :: toks) =
  to_close opening close keep (S (if String.eqb o opening then S k else k)) toks.
Proof. intros H1 H2. by walk_cases H1; walk_cases H2. Qed.
Lemma walk_leave opening close keep o c k toks :
  walkable opening close → walkable o c →
  to_close opening close keep (S (if String.eqb o opening then S k else k)) (plain c :: toks) =
  to_close opening close keep (S k) toks.
Proof. intros H1 H2. by walk_cases H1; walk_cases H2. Qed.

Section Walk.
Context (opening close : string) (keep : text → list text) (Hw : walkable opening close).
Local Notation walk := (to_close opening close keep).
Local Notation prepend xs p := (flat_map keep xs ++ fst p, snd p).

(** What the walk does with the pieces of a tree. *)
Definition crosses (toks : list md_token) (xs : list text) : Prop :=
  ∀ n rest, walk (S n) (toks ++ rest) = prepend xs (walk (S n) rest).

Lemma crosses_nil : crosses [] [].
Proof. intros n rest. cbn. by destruct (walk _ _). Qed.
Lemma crosses_app t1 x1 t2 x2 : crosses t1 x1 → crosses t2 x2 → crosses (t1 ++ t2) (x1 ++ x2).
Proof.
  intros H1 H2 n rest. rewrite <- app_assoc, H1, H2. cbn. by rewrite flat_map_app, app_assoc.
Qed.
Lemma crosses_flat_map {A} (f : A → list md_token) (g : A → list text) l :
  Forall (λ a, crosses (f a) (g a)) l → crosses (flat_map f l) (flat_map g l).
Proof. induction 1; [apply crosses_nil|]. by apply crosses_app. Qed.
Lemma crosses_inline tag c : crosses [Token "inline" tag c] [strip c].
Proof.
  intros n rest. walk_cases Hw; cbn; destruct (to_close _ _ _ _ _); cbn; by rewrite ?app_nil_r.
Qed.
Lemma crosses_plain ty tag c :
  str_mem ty walked = false →
  crosses [Token ty tag c] [].
Proof.
  intros Hty%str_mem_false n rest. unfold walked in Hty. rewrite !not_elem_of_cons in Hty. destruct_and! Hty.
  walk_cases Hw; cbn;
    rewrite ?(proj2 (String.eqb_neq ty _)) by done; by destruct (to_close _ _ _ _ _).
Qed.

(** Tokens around a piece that the walk passes over. *)
Lemma crosses_between (o c : md_token) body xs :
  str_mem (t_type o) walked = false → str_mem (t_type c) walked = false →
  crosses body xs → crosses (o :: body ++ [c]) xs.
Proof.
  destruct o as [o to co], c as [c tc cc]. cbn [t_type].
  intros Ho Hc Hb. change (?o :: body ++ ?l) with ([o] ++ body ++ l).
  rewrite <- (app_nil_l xs), <- (app_nil_r xs).
  apply crosses_app; [by apply crosses_plain|]. apply crosses_app; [done|by apply crosses_plain].
Qed.
Lemma crosses_around o c body xs :
  str_mem o walked = false → str_mem c walked = false →
  crosses body xs → crosses (plain o :: body ++ [plain c]) xs.
Proof. apply (crosses_between (plain o) (plain c)). Qed.
(** A list or quote inside is entered and left again. *)
Lemma crosses_nested o c body xs :
  walkable o c → crosses body xs → crosses (plain o :: body ++ [plain c]) xs.
Proof.
  intros Ho Hb n rest. change ((plain o :: body ++ [plain c]) ++ rest) with (plain o :: (body ++ [plain c]) ++ rest).
  rewrite <- app_assoc. change ([plain c] ++ rest) with (plain c :: rest).
  by rewrite (walk_enter _ _ _ _ c), Hb, walk_leave.
Qed.
Lemma crosses_cells o c row :
  str_mem o walked = false → str_mem c walked = false → crosses (cells o c row) (map strip row).
Proof.
  intros Ho Hc. apply crosses_around; [done..|].
  replace (map strip row) with (flat_map (λ c, [strip c]) row) by (induction row as [|x row IH]; [done|]; cbn in *; by rewrite IH).
  apply crosses_flat_map, Forall_true. intros x. apply (crosses_around o c [_]), crosses_inline; done.
Qed.
Lemma crosses_rows rows : crosses (flat_map (cells "td_open" "td_close") rows) (map strip (concat rows)).
Proof.
  rewrite concat_map, <- flat_map_concat_map. apply crosses_flat_map, Forall_true. intros row.
  by apply crosses_cells.
Qed.
Lemma crosses_table head rows :
  crosses (plain "table_open" :: table_body head rows ++ [plain "table_close"]) (map strip (head ++ concat rows)).
Proof.
  apply crosses_around; [done..|]. unfold table_body. rewrite map_app.
  change (plain "thead_open" :: ?l ++ plain "thead_close" :: ?l') with ((plain "thead_open" :: l) ++ [plain "thead_close"] ++ l').
  rewrite app_assoc. apply crosses_app; [apply crosses_around; [done..|]; by apply crosses_cells|].
  destruct rows as [|row rows]; [apply crosses_nil|]. apply crosses_around; [done..|]. apply crosses_rows.
Qed.
Lemma crosses_md m : crosses (tokens m) (inlines m).
Proof.
  induction m as [l c|c|o items IH|f c|head rows|body IH|] using md_ind'; cbn [tokens inlines].
  - by apply (crosses_between _ _ [_]), crosses_inline.
  - by apply (crosses_between _ _ [_]), crosses_inline.
  - apply crosses_nested; [unfold walkable; destruct o; set_solver|]. apply crosses_flat_map.
    eapply Forall_impl; [exact IH|]. intros item Hitem. apply crosses_around; [done..|].
    by apply crosses_flat_map.
  - apply crosses_plain. by destruct f.
  - apply crosses_table.
  - apply crosses_nested; [unfold walkable; set_solver|]. by apply crosses_flat_map.
  - by apply crosses_plain.
Qed.
Lemma crosses_items items :
  crosses (flat_map (λ item, plain "list_item_open" :: flat_map tokens item ++ [plain "list_item_close"]) items)
    (flat_map (flat_map inlines) items).
Proof.
  apply crosses_flat_map, Forall_true. intros item. apply crosses_around; [done..|].
  apply crosses_flat_map, Forall_true, crosses_md.
Qed.
End Walk.

(** *** The walks at the top level *)
Lemma walk_body o c keep body xs rest :
  walkable o c → crosses o c keep body xs →
  to_close o c keep 1 (body ++ plain c :: rest) = (flat_map keep xs, rest).
Proof. intros Hw Hb. rewrite Hb. walk_cases Hw; cbn; by rewrite app_nil_r. Qed.

Lemma list_item_filter xs : flat_map list_item xs = map (app (lits "- ")) (filter (λ t, t ≠ []) xs).
Proof.
  induction xs as [|x xs IH]; [done|]. rewrite filter_cons. cbn [flat_map]. rewrite IH.
  destruct x; cbn; [by rewrite decide_False by tauto|]. by rewrite decide_True.
Qed.
Lemma quoted_id xs : flat_map quoted xs = xs.
Proof. induction xs as [|x xs IH]; [done|]. cbn in *. by rewrite IH. Qed.

Lemma table_rows_cells o c rows current row rest :
  (o, c) ∈ [("th_open", "th_close"); ("td_open", "td_close")]%string →
  table_rows rows current (cells o c row ++ rest) = table_rows (rows ++ row_line row) (map strip row) rest.
Proof.
  intros Hoc. unfold cells. cbn [app table_rows plain t_type String.eqb Ascii.eqb Bool.eqb].
  assert (Hrow : ∀ row cur rest',
    table_rows rows cur (flat_map (λ x, [plain o; Token "inline" "" x; plain c]) row ++ rest') =
    table_rows rows (cur ++ map strip row) rest').
  { clear current row rest. intros row. induction row as [|x row IH]; intros cur rest'; [by rewrite app_nil_r|].
    rewrite !elem_of_cons, elem_of_nil in Hoc.
    destruct Hoc as [Hp|[Hp|[]]]; simplify_eq; cbn; cbn in IH; by rewrite IH, <- app_assoc. }
  rewrite <- app_assoc, Hrow. destruct row; cbn; by rewrite ?app_nil_r.
Qed.
Lemma table_rows_body rows current body rest :
  table_rows rows current (flat_map (cells "td_open" "td_close") body ++ rest) =
  table_rows (rows ++ flat_map row_line body) (default current (map strip <$> last body)) rest.
Proof.
  revert rows current. induction body as [|row body IH]; intros rows current; [by rewrite app_nil_r|].
  cbn [flat_map]. rewrite <- app_assoc, table_rows_cells, IH by set_solver. rewrite <- app_assoc.
  rewrite last_cons. by destruct (last body).
Qed.
Lemma table_rows_table head rows rest :
  table_rows [] [] (table_body head rows ++ plain "table_close" :: rest) = (flat_map row_line (head :: rows), rest).
Proof.
  unfold table_body. cbn [app table_rows plain t_type String.eqb Ascii.eqb Bool.eqb].
  rewrite <- app_assoc. rewrite table_rows_cells by set_solver. cbn [app table_rows plain t_type String.eqb Ascii.eqb Bool.eqb].
  destruct rows as [|row rows]; [cbn; by rewrite app_nil_r|].
  cbn [app]. cbn [table_rows plain t_type String.eqb Ascii.eqb Bool.eqb].
  rewrite <- app_assoc, table_rows_body. done.
Qed.

(** Reading a tree leaves its blocks and goes on behind it. *)
Lemma read_tree m n rest :
  (length (tokens m ++ rest) ≤ n)%nat →
  ∃ n', (length rest ≤ n')%nat ∧
    read_tokens n (tokens m ++ rest) = (bs ← read_tokens n' rest; mret (blocks_of m ++ bs)).
Proof.
  intros Hn. assert (∃ k, n = S k) as [k ->]. { destruct n; [|by eauto]. destruct m; cbn in Hn; lia. }
  exists k. rewrite length_app in Hn.
  destruct m as [l c|c|o items|f c|head rows|body|]; (split; [cbn in Hn; rewrite ?length_app in Hn; lia|]).
  - by destruct l.
  - done.
  - assert (Hw : walkable (if o then "ordered_list_open" else "bullet_list_open")
                          (if o then "ordered_list_close" else "bullet_list_close")) by (unfold walkable; destruct o; set_solver).
    assert (Hread : ∀ toks, read_tokens (S k) (plain (if o then "ordered_list_open" else "bullet_list_open") :: toks) =
      let '(items, rest) := to_close (if o then "ordered_list_open" else "bullet_list_open")
                              (if o then "ordered_list_close" else "bullet_list_close") list_item 1 toks in
      blocks ← read_tokens k rest; mret (lines_block LIST items ++ blocks)) by by destruct o.
    cbn [tokens app]. rewrite <- app_assoc, Hread. cbn [app].
    rewrite (walk_body _ _ _ _ _ _ Hw (crosses_items _ _ _ Hw items)). by rewrite list_item_filter.
  - by destruct f.
  - cbn [tokens app]. rewrite <- app_assoc.
    change (read_tokens (S k) (plain "table_open" :: ?toks)) with
      (let '(rows, rest) := table_rows [] [] toks in blocks ← read_tokens k rest; mret (lines_block TABLE rows ++ blocks)).
    cbn [app]. by rewrite table_rows_table.
  - cbn [tokens app]. rewrite <- app_assoc.
    change (read_tokens (S k) (plain "blockquote_open" :: ?toks)) with
      (let '(parts, rest) := to_close "blockquote_open" "blockquote_close" quoted 1 toks in
       blocks ← read_tokens k rest; mret (lines_block BLOCKQUOTE parts ++ blocks)).
    assert (Hw : walkable "blockquote_open" "blockquote_close") by (unfold walkable; set_solver).
    cbn [app]. rewrite (walk_body _ _ _ _ (flat_map inlines body) _ Hw); [by rewrite quoted_id|].
    apply crosses_flat_map, Forall_true. intros m. by apply crosses_md.
  - cbn. by destruct (read_tokens k rest).
Qed.

Lemma read_trees ms n :
  (length (flat_map tokens ms) ≤ n)%nat → read_tokens n (flat_map tokens ms) = Ok (flat_map blocks_of ms).
Proof.
  revert n. induction ms as [|m ms IH]; intros n Hn; [by destruct n|]. cbn [flat_map] in *.
  destruct (read_tree m n _ Hn) as (n' & Hn' & ->). by rewrite IH.
Qed.

(** C21. On the tokens of any Markdown document the parser answers, without an
    exception, the blocks its tree has: every heading with its depth,
    paragraph, list, code block, table and quote of the top level that has any
    content, in order, lists and quotes with the text of everything nested in
    them but code. *)
Theorem read_all_tree ms : read_all (flat_map tokens ms) = Ok (flat_map blocks_of ms).
Proof. by apply read_trees. Qed.

(** ** The cut of the blocks

    What [chunk_blocks] is to answer, without its state: the blocks are cut
    into runs, each becomes a section (or several, for a split paragraph), and
    a section stands under the headings that enclose the end of its run. *)
Inductive run : Type := Packed (bs : list Block) | Whole (b : Block) | Divided (b : Block).
Definition run_blocks (r : run) : list Block :=
  match r with Packed bs => bs | Whole b | Divided b => [b] end.

Definition is_heading (b : Block) : bool := bool_decide (b_type b = HEADING).
(** The headings of [bs] that no later heading of the same or a smaller depth
    has closed. *)
Fixpoint enclosing (bs : list Block) : list (Z * text) :=
  match bs with
  | [] => []
  | b :: bs =>
      if is_heading b && forallb (λ h, negb (is_heading h) || (b_depth b <? b_depth h)) bs
      then (b_depth b, b_text b) :: enclosing bs else enclosing bs
  end.
Definition trail (bs : list Block) : text := text_join (lits " > ") (enclosing bs).*2.

Section Cut.
Context `{PyText} `{IngestLibs} (soft_tokens hard_tokens : Z).

Definition block_tokens (b : Block) : Z := _count_tokens (b_text b).
Definition tokens_of (bs : list Block) : Z := foldr (λ b n, block_tokens b + n) 0 bs.
Definition run_text (bs : list Block) : text :=
  strip (text_join (lits (newline ++ newline)%string) (map rendered bs)).

Definition own (under : text) (ty : BlockType) (body : text) : Section_ :=
  {| s_text := body; breadcrumb := under; token_count := _count_tokens body; block_types := [ty] |}.
Definition run_sections (under : text) (r : run) : list Section_ :=
  match r with
  | Packed bs =>
      match run_text bs with
      | [] => []
      | joined => [{| s_text := joined; breadcrumb := under; token_count := tokens_of bs;
                      block_types := map b_type bs |}]
      end
  | Whole b => [own under (b_type b) (b_text b)]
  | Divided b => map (own under PARAGRAPH) (_split_oversized_paragraph (b_text b) hard_tokens)
  end.
Fixpoint emit (before : list Block) (runs : list run) : list Section_ :=
  match runs with
  | [] => []
  | r :: runs => run_sections (trail (before ++ run_blocks r)) r ++ emit (before ++ run_blocks r) runs
  end.

(** A block that never shares a section. *)
Definition too_big (b : Block) : bool :=
  (is_atomic (b_type b) || bool_decide (b_type b = PARAGRAPH)) && (hard_tokens <? block_tokens b).
Definition top_heading (b : Block) : bool := is_heading b && (b_depth b <=? 2).
(** Why [b] cannot join the blocks [bs]. *)
Definition must_cut (bs : list Block) (b : Block) : bool :=
  top_heading b || too_big b || (negb (is_heading b) && (soft_tokens <? tokens_of bs + block_tokens b)).

(** A packed run was filled block by block without a reason to cut. *)
Definition run_ok (r : run) : Prop :=
  match r with
  | Packed bs => bs ≠ [] ∧ Forall (λ b, too_big b = false) bs ∧
                 ∀ pre b post, bs = pre ++ b :: post → pre ≠ [] → must_cut pre b = false
  | Whole b => too_big b = true ∧ is_atomic (b_type b) = true
  | Divided b => too_big b = true ∧ b_type b = PARAGRAPH
  end.
(** And it ends where there was one. *)
Fixpoint cut_where_needed (runs : list run) (next : option Block) : Prop :=
  match runs with
  | [] => True
  | r :: runs =>
      (∀ bs b, r = Packed bs → head (concat (map run_blocks runs) ++ option_list next) = Some b →
               must_cut bs b = true) ∧
      cut_where_needed runs next
  end.
Definition greedy_cut (blocks : list Block) (runs : list run) : Prop :=
  concat (map run_blocks runs) = blocks ∧ Forall run_ok runs ∧ cut_where_needed runs None.

(** *** The headings that enclose a place *)
Definition deeper (d : Z) (h : Z * text) : bool := d <? h.1.

Lemma enclosing_snoc bs b :
  enclosing (bs ++ [b]) =
  if is_heading b then List.filter (λ h, h.1 <? b_depth b) (enclosing bs) ++ [(b_depth b, b_text b)]
  else enclosing bs.
Proof.
  induction bs as [|a bs IH]; cbn [app enclosing]; [cbn; by destruct (is_heading b)|].
  rewrite forallb_app, IH. cbn [forallb]. rewrite andb_true_r.
  destruct (is_heading a) eqn:Ha; cbn; [|by destruct (is_heading b)].
  destruct (forallb _ bs), (is_heading b); cbn; try done. by destruct (b_depth a <? b_depth b).
Qed.
Lemma enclosing_elem h bs : h ∈ enclosing bs → ∃ b, b ∈ bs ∧ is_heading b = true ∧ h = (b_depth b, b_text b).
Proof.
  induction bs as [|b bs IH]; cbn; [by intros ?%not_elem_of_nil|].
  destruct (is_heading b) eqn:Hb; cbn; [destruct (forallb _ bs)|].
  - intros [->|Hh]%elem_of_cons; [exists b; repeat split; [by left|done]|].
    destruct (IH Hh) as (c & Hc & Hx). exists c. split; [by right|done].
  - intros Hh. destruct (IH Hh) as (c & Hc & Hx). exists c. split; [by right|done].
  - intros Hh. destruct (IH Hh) as (c & Hc & Hx). exists c. split; [by right|done].
Qed.
Lemma enclosing_sorted bs : StronglySorted (λ a b, a.1 < b.1) (enclosing bs).
Proof.
  induction bs as [|b bs IH]; cbn; [constructor|].
  destruct (is_heading b && _) eqn:Hb; [|done]. apply andb_true_iff in Hb as [Hb Hall].
  constructor; [done|]. apply List.Forall_forall. intros h Hh%list_elem_of_In.
  destruct (enclosing_elem _ _ Hh) as (c & Hc & Hcb & ->). rewrite forallb_forall in Hall.
  apply list_elem_of_In in Hc. specialize (Hall c Hc). rewrite Hcb in Hall. cbn in *. lia.
Qed.
Lemma pop_deeper_sorted d (l : list (Z * text)) :
  StronglySorted (λ a b, a.1 < b.1) l →
  pop_deeper d (reverse l) = reverse (List.filter (λ h, h.1 <? d) l).
Proof.
  induction l as [|[k t] l IH] using rev_ind; intros Hs; [done|].
  apply StronglySorted_app in Hs as (Hlast & Hs & _). rewrite reverse_snoc, List.filter_app. cbn.
  destruct (Z.ltb_spec k d); destruct (Z.leb_spec d k); try lia.
  - rewrite reverse_snoc. f_equal. f_equal. symmetry. apply forallb_filter_id, forallb_forall.
    intros h Hh%list_elem_of_In. apply Z.ltb_lt. specialize (Hlast h (k, t) Hh). cbn in Hlast.
    assert (h.1 < k) by (apply Hlast; by left). lia.
  - rewrite app_nil_r. auto.
Qed.

(** *** Cuts *)
Lemma tokens_of_app bs1 bs2 : tokens_of (bs1 ++ bs2) = tokens_of bs1 + tokens_of bs2.
Proof. 
  induction bs1 as [|b bs1 IH]; [done|]. cbn [app tokens_of foldr] in *.
  fold (tokens_of (bs1 ++ bs2)) (tokens_of bs1) in *. lia.
Qed.
Lemma emit_app before rs1 rs2 :
  emit before (rs1 ++ rs2) = emit before rs1 ++ emit (before ++ concat (map run_blocks rs1)) rs2.
Proof.
  revert before. induction rs1 as [|r rs1 IH]; intros before; cbn; [by rewrite app_nil_r|].
  by rewrite IH, <- !app_assoc.
Qed.
Lemma cut_snoc runs r next b :
  head (run_blocks r) = Some b → cut_where_needed runs (Some b) →
  (∀ bs b', r = Packed bs → next = Some b' → must_cut bs b' = true) →
  cut_where_needed (runs ++ [r]) next.
Proof.
  intros Hb Hruns Hr. induction runs as [|r' runs IH]; cbn in *.
  - split; [|done]. intros bs b' -> Hn. apply (Hr bs); [done|]. by destruct next; simplify_eq/=.
  - destruct Hruns as [Hc Hruns]. split; [|by apply IH]. intros bs b' -> Hn. apply (Hc bs); [done|].
    rewrite map_app, concat_app in Hn. cbn in Hn. rewrite app_nil_r in Hn.
    destruct (concat (map run_blocks runs)) as [|x l]; cbn in *; [|done].
    destruct (run_blocks r); cbn in *; congruence.
Qed.
(** *** The state of the packer

    [cur] is what the packer has gathered since the last section, [runs] the
    cut of what comes before. *)
Record packing (runs : list run) (cur : list Block) (st : chunker) : Prop := {
  p_sections : sections st = emit [] runs;
  p_parts : current_text_parts st = map rendered cur;
  p_tokens : c_tokens st = tokens_of cur;
  p_types : current_types st = map b_type cur;
  p_stack : breadcrumb_stack st = reverse (enclosing (concat (map run_blocks runs) ++ cur));
  p_runs : Forall (run_ok) runs;
  p_cur : cur ≠ [] → run_ok (Packed cur);
}.
Definition packed (cur : list Block) : list run := match cur with [] => [] | _ => [Packed cur] end.

Lemma packed_blocks cur : concat (map run_blocks (packed cur)) = cur.
Proof. destruct cur; cbn; by rewrite ?app_nil_r. Qed.

Lemma packing_flush runs cur st :
  packing runs cur st → packing (runs ++ packed cur) [] (_flush st) ∧ current_text_parts (_flush st) = [].
Proof.
  intros [Hs Hp Ht Hty Hst Hr Hc]. unfold _flush. rewrite Hp.
  assert (Hall : concat (map run_blocks (runs ++ packed cur)) ++ [] = concat (map run_blocks runs) ++ cur).
  { by rewrite app_nil_r, map_app, concat_app, packed_blocks. }
  destruct cur as [|b cur]; cbn [map].
  - split; [|by rewrite Hp]. cbn [packed]. rewrite app_nil_r. by split.
  - split; [|done]. split; try done.
    + cbn [sections]. rewrite Hs, emit_app. cbn [emit packed run_sections run_blocks]. f_equal.
      rewrite app_nil_r, Ht, Hty. unfold _current_breadcrumb, run_text, trail. rewrite Hst, reverse_involutive.
      cbn [map app]. by destruct (strip _).
    + cbn [breadcrumb_stack]. by rewrite Hall.
    + apply Forall_app. split; [done|]. constructor; [by apply Hc|constructor].
Qed.

(** A block of its own, after a flush. *)
Lemma packing_own runs cur st b r ss :
  packing runs cur st → run_blocks r = [b] → is_heading b = false → run_ok r →
  ss = run_sections (trail (concat (map run_blocks runs) ++ cur)) r →
  packing (runs ++ packed cur ++ [r]) [] (with_sections (_flush st) ss).
Proof.
  intros Hpack Hb Hh Hr ->. destruct (packing_flush _ _ _ Hpack) as [[Hs Hp Ht Hty Hst Hruns _] _].
  assert (Hall : concat (map run_blocks (runs ++ packed cur ++ [r])) = (concat (map run_blocks runs) ++ cur) ++ [b]).
  { by rewrite !map_app, !concat_app, packed_blocks, app_assoc; cbn; rewrite Hb. }
  assert (Henc : enclosing ((concat (map run_blocks runs) ++ cur) ++ [b]) = enclosing (concat (map run_blocks runs) ++ cur)).
  { by rewrite enclosing_snoc, Hh. }
  split; try done.
  - cbn [with_sections sections]. rewrite Hs, (app_assoc runs), (emit_app _ (runs ++ packed cur)). f_equal.
    cbn. rewrite app_nil_r, map_app, concat_app, packed_blocks, Hb. f_equal. unfold trail. by rewrite Henc.
  - cbn [with_sections breadcrumb_stack]. rewrite Hst, !app_nil_r, Hall, Henc.
    by rewrite map_app, concat_app, packed_blocks.
  - rewrite app_assoc. apply Forall_app. by repeat constructor.
Qed.

(** A block that joins the current run. *)
Lemma packing_join runs cur st b stack :
  packing runs cur st → too_big b = false → (cur ≠ [] → must_cut cur b = false) →
  stack = reverse (enclosing (concat (map run_blocks runs) ++ cur ++ [b])) →
  packing runs (cur ++ [b]) (append (with_stack st stack) (rendered b) (block_tokens b) (b_type b)).
Proof.
  intros [Hs Hp Ht Hty _ Hr Hc] Hbig Hcut ->. split; cbn [append with_stack sections current_text_parts c_tokens current_types breadcrumb_stack];
    try done.
  - by rewrite Hp, map_app.
  - rewrite Ht, tokens_of_app. cbn. lia.
  - by rewrite Hty, map_app.
  - intros _. split; [by destruct cur|]. split.
    + apply Forall_app. split; [|by repeat constructor]. destruct cur; [constructor|]. by apply Hc.
    + intros pre b' post Heq Hpre. destruct post as [|p post _] using rev_ind.
      * apply app_inj_tail in Heq as [<- <-]. auto.
      * rewrite app_comm_cons, app_assoc in Heq. apply app_inj_tail in Heq as [-> _].
        destruct Hc as (_ & _ & Hc); [by destruct pre|]. by apply (Hc _ _ post).
Qed.

Definition packs (done : list Block) (st : chunker) : Prop :=
  ∃ runs cur, packing runs cur st ∧ concat (map run_blocks runs) ++ cur = done ∧
              ∀ next, cut_where_needed runs (head (cur ++ option_list next)).

Lemma packed_cut runs cur b :
  (∀ next, cut_where_needed runs (head (cur ++ option_list next))) →
  (cur ≠ [] → must_cut cur b = true) →
  cut_where_needed (runs ++ packed cur) (Some b).
Proof.
  intros Hcut Hb. destruct cur as [|c cur]; cbn [packed].
  - rewrite app_nil_r. apply (Hcut (Some b)).
  - apply (cut_snoc _ _ _ c); [done|apply (Hcut None)|]. intros bs b' [= <-] [= <-]. by apply Hb.
Qed.

(** A block that joins what is left after the flush, if there was a reason
    for one. *)
Lemma packs_join runs cur st b (cut : bool) stack :
  packing runs cur st → (∀ next, cut_where_needed runs (head (cur ++ option_list next))) →
  too_big b = false → (cur ≠ [] → must_cut cur b = cut) →
  stack = reverse (enclosing (concat (map run_blocks runs) ++ cur ++ [b])) →
  packs (concat (map run_blocks runs) ++ cur ++ [b])
    (append (with_stack (if cut && nonempty st then _flush st else st) stack)
       (rendered b) (block_tokens b) (b_type b)).
Proof.
  intros Hpack Hcut Hbig Hb Hstack. unfold nonempty. rewrite (p_parts _ _ _ Hpack).
  assert (Hall : concat (map run_blocks (runs ++ packed cur)) = concat (map run_blocks runs) ++ cur).
  { by rewrite map_app, concat_app, packed_blocks. }
  destruct (cut && _) eqn:Hc.
  - apply andb_true_iff in Hc as [-> Hne]. exists (runs ++ packed cur), [b]. split.
    + apply (packing_join _ []); [by apply packing_flush|done|done|]. by rewrite Hstack, Hall, <- app_assoc.
    + rewrite Hall, <- app_assoc. split; [done|]. intros next. by apply packed_cut.
  - exists runs, (cur ++ [b]). split; [|split; [done|]].
    + apply packing_join; try done. intros Hne. rewrite Hb by done. destruct cut, cur; done.
    + intros next. specialize (Hcut (Some b)). by destruct cur.
Qed.

Lemma packs_own runs cur st b r ss :
  packing runs cur st → (∀ next, cut_where_needed runs (head (cur ++ option_list next))) →
  too_big b = true → (∀ bs, r ≠ Packed bs) →
  run_blocks r = [b] → is_heading b = false → run_ok r →
  ss = run_sections (trail (concat (map run_blocks runs) ++ cur)) r →
  packs (concat (map run_blocks runs) ++ cur ++ [b]) (with_sections (_flush st) ss).
Proof.
  intros Hpack Hcut Hbig Hr Hb Hh Hok ->. exists (runs ++ packed cur ++ [r]), []. split; [by eapply packing_own|].
  split; [by rewrite !map_app, !concat_app, packed_blocks; cbn; rewrite Hb, !app_nil_r|].
  intros next. rewrite app_assoc. apply (cut_snoc _ _ _ b); [by rewrite Hb| |].
  - apply packed_cut; [done|]. intros _. unfold must_cut. by rewrite Hbig, orb_true_r.
  - intros bs b' ->. by destruct (Hr bs).
Qed.

Lemma packs_add bs st b : packs bs st → packs (bs ++ [b]) (add_block soft_tokens hard_tokens st b).
Proof.
  intros (runs & cur & Hpack & <- & Hcut). rewrite <- app_assoc. unfold add_block.
  change (_count_tokens (b_text b)) with (block_tokens b).
  assert (Hst : breadcrumb_stack st = reverse (enclosing (concat (map run_blocks runs) ++ cur))) by apply Hpack.
  assert (Hflush : breadcrumb_stack (_flush st) = breadcrumb_stack st) by (unfold _flush; by destruct (current_text_parts st)).
  pose proof (enclosing_snoc (concat (map run_blocks runs) ++ cur) b) as Henc. rewrite <- app_assoc in Henc.
  unfold is_heading in Henc. case_bool_decide as Hh.
  - assert (Hbig : too_big b = false) by (unfold too_big; by rewrite Hh).
    apply packs_join; try done.
    + intros _. unfold must_cut, top_heading, is_heading. rewrite Hbig, bool_decide_eq_true_2 by done. by destruct (_ <=? _).
    + rewrite Henc, reverse_snoc. f_equal.
      transitivity (pop_deeper (b_depth b) (breadcrumb_stack st)); [destruct (_ && _); by rewrite ?Hflush|].
      rewrite Hst. apply pop_deeper_sorted, enclosing_sorted.
  - destruct (is_atomic (b_type b) && _) eqn:Ha; [|destruct (bool_decide (b_type b = PARAGRAPH) && _) eqn:Hpar].
    + pose proof Ha as [Hat Hlt]%andb_true_iff.
      assert (Hbig : too_big b = true) by (unfold too_big; by rewrite Hat, Hlt).
      apply (packs_own _ _ _ _ (Whole b)); try done; [by apply bool_decide_eq_false_2|].
      cbn. unfold own_section, _current_breadcrumb. by rewrite Hflush, Hst, reverse_involutive.
    + pose proof Hpar as [Hty%bool_decide_eq_true Hlt]%andb_true_iff.
      assert (Hbig : too_big b = true) by (unfold too_big; by rewrite Hty, Hlt).
      apply (packs_own _ _ _ _ (Divided b)); try done; [by apply bool_decide_eq_false_2|].
      cbn. unfold own_section, _current_breadcrumb. by rewrite Hflush, Hst, reverse_involutive.
    + assert (Hbig : too_big b = false).
      { unfold too_big. destruct (hard_tokens <? block_tokens b); [|by rewrite andb_false_r].
        rewrite andb_true_r in *. by rewrite Ha, Hpar. }
      assert (Hhd : is_heading b = false) by by apply bool_decide_eq_false_2.
      assert (Hkeep : ∀ st', breadcrumb_stack st' = breadcrumb_stack st → with_stack st' (breadcrumb_stack st) = st').
      { intros [] Heq. cbn in Heq. by rewrite <- Heq. }
      pose proof (packs_join _ _ _ b (soft_tokens <? c_tokens st + block_tokens b) (breadcrumb_stack st) Hpack Hcut Hbig) as Hj.
      rewrite Hkeep in Hj by (by case_match).
      unfold rendered in Hj. rewrite bool_decide_eq_false_2 in Hj by done. apply Hj.
      * intros _. unfold must_cut, top_heading. by rewrite Hhd, Hbig, (p_tokens _ _ _ Hpack).
      * by rewrite Hst, Henc.
Qed.

Lemma packs_all bs : packs bs (foldl (add_block soft_tokens hard_tokens) empty_chunker bs).
Proof.
  induction bs as [|b bs IH] using rev_ind.
  - exists [], []. split; [split; try done; constructor|]. split; [done|]. by intros next.
  - rewrite foldl_app. by apply packs_add.
Qed.

(** There is only one such cut. *)
Lemma longer_run bs1 bs2 b runs1 t :
  concat (map run_blocks runs1) = b :: t → run_ok (Packed bs1) → run_ok (Packed (bs1 ++ b :: bs2)) →
  ¬ cut_where_needed (Packed bs1 :: runs1) None.
Proof.
  intros Hb (Hne & _) (_ & _ & Hjoin) [Hcut _]. rewrite Hb in Hcut. cbn in Hcut.
  specialize (Hcut _ b eq_refl eq_refl). by rewrite (Hjoin bs1 b bs2) in Hcut.
Qed.
Lemma packed_not_big bs b bs' : run_ok (Packed bs) → bs ++ bs' = b :: tail (bs ++ bs') → too_big b = false.
Proof.
  intros (Hne & Hbig & _) Hb. destruct bs as [|b' bs]; [done|]. cbn in Hb. injection Hb as <-.
  by apply Forall_cons in Hbig as [Hbig _].
Qed.
Lemma first_run r1 r2 runs1 runs2 :
  concat (map run_blocks (r1 :: runs1)) = concat (map run_blocks (r2 :: runs2)) →
  run_ok r1 → run_ok r2 → cut_where_needed (r1 :: runs1) None → cut_where_needed (r2 :: runs2) None → r1 = r2.
Proof.
  intros Heq H1 H2 Hc1 Hc2. cbn in Heq.
  destruct r1 as [bs1|b1|b1], r2 as [bs2|b2|b2]; cbn in Heq;
    try (exfalso; destruct H2 as [H2 _]; by rewrite (packed_not_big bs1 b2 _ H1) in H2 by by rewrite Heq);
    try (exfalso; destruct H1 as [H1 _]; by rewrite (packed_not_big bs2 b1 _ H2) in H1 by by rewrite <- Heq);
    try (injection Heq as <- _; done).
  - destruct (app_eq_inv _ _ _ _ Heq) as [(k & -> & Hk)|(k & -> & Hk)]; destruct k as [|b k];
      rewrite ?app_nil_r; try done; exfalso.
    + by apply (longer_run bs2 k b runs2 _ Hk H2 H1).
    + by apply (longer_run bs1 k b runs1 _ Hk H1 H2).
  - injection Heq as <- _. destruct H1 as [_ H1], H2 as [_ H2]. by rewrite H2 in H1.
  - injection Heq as <- _. destruct H1 as [_ H1], H2 as [_ H2]. by rewrite H1 in H2.
Qed.
Lemma greedy_cut_unique blocks runs1 runs2 :
  greedy_cut blocks runs1 → greedy_cut blocks runs2 → runs1 = runs2.
Proof.
  assert (Hnil : ∀ r runs, run_ok r → concat (map run_blocks (r :: runs)) ≠ []).
  { intros [[]| |] runs Hr; try done. by destruct Hr. }
  intros (<- & Hok1 & Hc1) (Heq & Hok2 & Hc2). revert runs2 Heq Hok2 Hc2.
  induction runs1 as [|r1 runs1 IH]; intros [|r2 runs2] Heq Hok2 Hc2.
  - done.
  - apply Forall_cons in Hok2 as [H2 _]. by destruct (Hnil _ _ H2 Heq).
  - apply Forall_cons in Hok1 as [H1 _]. by destruct (Hnil _ _ H1 (eq_sym Heq)).
  - apply Forall_cons in Hok1 as [H1 Hok1], Hok2 as [H2 Hok2].
    assert (r1 = r2) as <- by by apply (first_run _ _ runs1 runs2).
    f_equal. cbn in Heq. apply app_inv_head in Heq. apply IH; try done; [apply Hc1|apply Hc2].
Qed.

(** C20. The sections are those of the one greedy cut of the blocks: nothing is
    lost, doubled or moved; a list, table, code block or paragraph of more
    than the hard cap stands alone; other blocks share a section until one
    would exceed the soft cap or is a heading of the first two levels; and
    each section stands under the headings open at its end. *)
Theorem chunk_blocks_cut blocks :
  ∃ runs, (∀ runs', greedy_cut blocks runs' ↔ runs' = runs) ∧
          chunk_blocks soft_tokens hard_tokens blocks = emit [] runs.
Proof.
  destruct (packs_all blocks) as (runs & cur & Hpack & Hall & Hcut). exists (runs ++ packed cur).
  destruct (packing_flush _ _ _ Hpack) as [[Hs _ _ _ _ Hruns _] _]. split; [|exact Hs].
  assert (Hgreedy : greedy_cut blocks (runs ++ packed cur)).
  { split; [by rewrite map_app, concat_app, packed_blocks|]. split; [done|].
    destruct cur as [|b cur]; cbn [packed]; [rewrite app_nil_r; apply (Hcut None)|].
    apply (cut_snoc _ _ _ b); [done|apply (Hcut None)|done]. }
  intros runs'. split; [|by intros ->]. intros Hr. by apply (greedy_cut_unique blocks).
Qed.
End Cut.

(** ** What is kept *)
#[local] Arguments is_space : simpl never.
Definition squeeze (t : text) : text := List.filter (λ x, negb (is_space x)) t.
Definition blank (t : text) : Prop := Forall (λ x, is_space x = true) t.

Lemma squeeze_app s t : squeeze (s ++ t) = squeeze s ++ squeeze t.
Proof. apply List.filter_app. Qed.
Lemma squeeze_blank t : blank t → squeeze t = [].
Proof. induction 1 as [|x t Hx _ IH]; [done|]. cbn in *. by rewrite Hx. Qed.
Lemma squeeze_reverse t : squeeze (reverse t) = reverse (squeeze t).
Proof.
  induction t as [|x t IH]; [done|]. rewrite reverse_cons, squeeze_app, IH. cbn [squeeze List.filter].
  destruct (is_space x); cbn [negb]; [by rewrite app_nil_r|]. by rewrite reverse_cons.
Qed.
Lemma squeeze_lstrip t : squeeze (lstrip t) = squeeze t.
Proof. induction t as [|x t IH]; [done|]. cbn. destruct (is_space x) eqn:Hx; cbn; by rewrite ?Hx. Qed.
Lemma squeeze_strip t : squeeze (strip t) = squeeze t.
Proof. unfold strip, rstrip. by rewrite squeeze_reverse, squeeze_lstrip, squeeze_reverse, reverse_involutive, squeeze_lstrip. Qed.
Lemma squeeze_join sep l : blank sep → squeeze (text_join sep l) = squeeze (concat l).
Proof.
  intros Hsep. induction l as [|t l IH]; [done|]. destruct l as [|t' l]; [by cbn; rewrite app_nil_r|].
  change (text_join sep (t :: t' :: l)) with (t ++ sep ++ text_join sep (t' :: l)).
  change (concat (t :: t' :: l)) with (t ++ concat (t' :: l)).
  by rewrite !squeeze_app, (squeeze_blank _ Hsep), IH.
Qed.
Lemma squeeze_concat (l : list text) : squeeze (concat l) = concat (map squeeze l).
Proof. induction l as [|t l IH]; [done|]. cbn. by rewrite squeeze_app, IH. Qed.
#[export] Hint Rewrite squeeze_app squeeze_reverse squeeze_strip squeeze_concat : squeeze.

Section Kept.
Context `{PyText} `{IngestLibs}.

Lemma split_from_kept c t fuel piece i :
  rx_over (c_flags c) (λ x, is_space x = true) (c_rx c) → (i ≤ length t < i + fuel)%nat →
  squeeze (concat (split_from c fuel piece (at_pos t i))) = squeeze (reverse piece ++ drop i t).
Proof.
  intros Hover. revert piece i. induction fuel as [|fuel IH]; intros piece i Hfuel; [lia|]. cbn [split_from].
  assert (Hkeep : ∀ piece,
    squeeze (concat match ms_rest (at_pos t i) with
                    | [] => [reverse piece]
                    | x :: rest => split_from c fuel (x :: piece) (advance (at_pos t i) x rest)
                    end) = squeeze (reverse piece ++ drop i t)).
  { intros p. destruct (ms_rest (at_pos t i)) as [|x rest] eqn:Hr; [by cbn in *; rewrite Hr|].
    destruct (advance_at_pos _ _ _ _ Hr) as [Hlt ->]. rewrite IH by lia. cbn in Hr.
    rewrite reverse_cons, <- app_assoc. cbn. rewrite Hr. f_equal. f_equal. f_equal.
    by rewrite <- Nat.add_1_r, <- drop_drop, Hr. }
  destruct (c_run c (at_pos t i)) as [|e es] eqn:Hrun; [apply Hkeep|].
  assert (He : c_sem c (at_pos t i) e) by (apply rx_run_sem; unfold c_run in Hrun; rewrite Hrun; by left).
  destruct (rx_sem_at_pos _ _ t i e ltac:(lia) He) as (j & Hj & ->). cbn [at_pos ms_pos].
  destruct (Nat.eqb_spec j i) as [->|Hne]; cbn [concat]; rewrite squeeze_app.
  - rewrite Hkeep. by rewrite <- squeeze_app.
  - rewrite IH, reverse_nil, squeeze_app by lia. cbn [app squeeze List.filter].
    rewrite <- (take_drop (j - i) (drop i t)), !squeeze_app, drop_drop.
    replace (i + (j - i))%nat with j by lia. rewrite (squeeze_blank (take _ _)); [done|].
    apply (c_sem_over c); [lia|done|done].
Qed.
Lemma re_split_kept c t :
  rx_over (c_flags c) (λ x, is_space x = true) (c_rx c) → squeeze (concat (re_split c t)) = squeeze t.
Proof. intros Hc. unfold re_split. rewrite <- at_pos_0. by rewrite split_from_kept by (done || lia). Qed.

Lemma when_text_kept body b : b_text b = body → concat (map b_text (when_text body b)) = body.
Proof. intros <-. unfold when_text. destruct (b_text b) eqn:Hb; [done|]. cbn. by rewrite Hb, app_nil_r. Qed.
Lemma parse_plaintext_kept t : squeeze (concat (map b_text (parse_plaintext t))) = squeeze t.
Proof.
  rewrite <- (re_split_kept _PARAGRAPH_SPLIT_RE t).
  - unfold parse_plaintext. induction (re_split _ t) as [|p ps IH]; [done|]. cbn [flat_map concat].
    rewrite map_app, concat_app, !squeeze_app, IH, when_text_kept by done. by rewrite squeeze_strip.
  - apply (rx_items_over _ (λ it, match it with CChar c => (c =? 10)%N | _ => false end)); [|by vm_compute].
    intros [c| | | | | | |] x; try done. intros ->%N.eqb_eq. by intros ->%N.eqb_eq.
Qed.

Context (soft_tokens hard_tokens : Z).

(** A segmenter that only cuts: with [clean=False] pysbd gives its input back
    in pieces. *)
Definition cuts_only : Prop := ∀ t, ∃ segs, segment t = Some segs ∧ squeeze (concat segs) = squeeze t.

Lemma add_sentence_kept st s :
  squeeze (concat (out (add_sentence hard_tokens st s)) ++ current (add_sentence hard_tokens st s)) =
  squeeze (concat (out st) ++ current st ++ s).
Proof.
  unfold add_sentence. destruct (_ && _); cbn [out current]; rewrite !squeeze_app.
  - rewrite concat_app, squeeze_app. cbn. by rewrite app_nil_r, squeeze_strip, <- app_assoc.
  - destruct (current st) eqn:Hc; [done|]. rewrite <- Hc. by rewrite squeeze_strip, !squeeze_app.
Qed.
Lemma stripped_kept segs : squeeze (concat (filter (λ s, s ≠ []) (map strip segs))) = squeeze (concat segs).
Proof.
  induction segs as [|s segs IH]; [done|]. cbn [map concat]. rewrite filter_cons.
  rewrite squeeze_app, <- (squeeze_strip s), <- IH.
  destruct (strip s); [by rewrite decide_False by tauto|]. rewrite decide_True by done. by rewrite <- squeeze_app.
Qed.
Lemma split_kept t : cuts_only → squeeze (concat (_split_oversized_paragraph t hard_tokens)) = squeeze t.
Proof.
  intros Hcuts. destruct (Hcuts t) as (segs & Hsegs & <-). unfold _split_oversized_paragraph, sentences.
  rewrite Hsegs.
  assert (Hfold : ∀ l st, squeeze (concat (out (foldl (add_sentence hard_tokens) st l)) ++
                                   current (foldl (add_sentence hard_tokens) st l)) =
                          squeeze (concat (out st) ++ current st ++ concat l)).
  { intros l. induction l as [|s l IH]; intros st; [by cbn; rewrite app_nil_r|]. cbn [foldl concat].
    rewrite IH, app_assoc, (squeeze_app _ (concat l)), add_sentence_kept, <- squeeze_app. by rewrite <- !app_assoc. }
  set (st := foldl _ _ _). transitivity (squeeze (concat (out st) ++ current st)).
  { destruct (current st) eqn:Hc; [by rewrite app_nil_r|]. rewrite <- Hc, concat_app, !squeeze_app.
    cbn. by rewrite app_nil_r, squeeze_strip. }
  unfold st. rewrite Hfold. apply stripped_kept.
Qed.

Lemma run_kept r under :
  cuts_only → run_ok soft_tokens hard_tokens r →
  squeeze (concat (map s_text (run_sections hard_tokens under r))) = squeeze (concat (map rendered (run_blocks r))).
Proof.
  intros Hcuts Hr. destruct r as [bs|b|b]; cbn [run_sections run_blocks map concat].
  - transitivity (squeeze (run_text bs)).
    + destruct (run_text bs) eqn:Ht; [done|]. cbn. by rewrite app_nil_r.
    + unfold run_text. rewrite squeeze_strip. apply squeeze_join. by repeat constructor.
  - rewrite !app_nil_r. unfold rendered. destruct Hr as [_ Hr]. by destruct (b_type b).
  - rewrite app_nil_r, map_map. cbn [own s_text]. rewrite map_id, split_kept by done.
    unfold rendered. destruct Hr as [_ Hr]. by rewrite Hr.
Qed.
Lemma emit_kept before runs :
  cuts_only → Forall (run_ok soft_tokens hard_tokens) runs →
  squeeze (concat (map s_text (emit hard_tokens before runs))) =
  squeeze (concat (map rendered (concat (map run_blocks runs)))).
Proof.
  intros Hcuts Hruns. revert before. induction Hruns as [|r runs Hr _ IH]; intros before; [done|].
  cbn [emit map concat]. rewrite !map_app, !concat_app, !squeeze_app, run_kept by done. by rewrite IH.
Qed.

(** Of a plain text every character that is not white space reaches a
    section, in order and once. *)
Theorem plain_text_kept t :
  cuts_only →
  squeeze (concat (map s_text (chunk_blocks soft_tokens hard_tokens (parse_plaintext t)))) = squeeze t.
Proof.
  intros Hcuts. destruct (chunk_blocks_cut soft_tokens hard_tokens (parse_plaintext t)) as (runs & Hruns & ->).
  destruct (proj2 (Hruns runs) eq_refl) as (Hall & Hok & _). rewrite emit_kept, Hall, <- (parse_plaintext_kept t) by done.
  f_equal. f_equal. unfold parse_plaintext. induction (re_split _ t) as [|p ps IH]; [done|].
  cbn [flat_map]. rewrite !map_app, IH. f_equal. by destruct (strip p).
Qed.

(** *** Sizes *)
Definition heading_tokens (bs : list Block) : Z := tokens_of (filter (λ b, is_heading b = true) bs).

(** A section of several blocks stays under the caps but for its headings,
    unless it holds a quote over them. *)
Lemma packed_bound bs :
  0 ≤ hard_tokens → run_ok soft_tokens hard_tokens (Packed bs) →
  (∀ b, b ∈ bs → b_type b = BLOCKQUOTE → block_tokens b ≤ hard_tokens) →
  tokens_of bs ≤ Z.max soft_tokens hard_tokens + heading_tokens bs.
Proof.
  assert (Hpos : ∀ l, 0 ≤ tokens_of l).
  { intros l. induction l as [|b l IH]; [done|]. change (0 ≤ block_tokens b + tokens_of l).
    unfold block_tokens, _count_tokens. lia. }
  induction bs as [|b bs IH] using rev_ind; intros Hhard (Hne & Hbig & Hjoin) Hquote; [done|].
  apply Forall_app in Hbig as [Hbig [Hb _]%Forall_cons]. unfold heading_tokens in *.
  rewrite filter_app, !tokens_of_app, filter_cons, filter_nil.
  destruct (is_heading b) eqn:Hh.
  - rewrite decide_True by done. destruct bs as [|a bs]; [cbn; lia|].
    assert (Hrun : run_ok soft_tokens hard_tokens (Packed (a :: bs))).
    { split; [done|]. split; [done|]. intros pre c post Heq. apply (Hjoin _ _ (post ++ [b])).
      rewrite Heq. by rewrite <- app_assoc. }
    specialize (IH Hhard Hrun (λ c Hc, Hquote c (proj2 (elem_of_app _ _ _) (or_introl Hc)))). lia.
  - rewrite decide_False by done. cbn [tokens_of foldr]. pose proof (Hpos (filter (λ b, is_heading b = true) bs)).
    destruct bs as [|a bs].
    + cbn. specialize (Hquote b ltac:(by left)). unfold too_big in Hb.
      unfold is_heading in Hh. apply bool_decide_eq_false in Hh.
      assert (block_tokens b ≤ hard_tokens); [|lia].
      destruct (b_type b); cbn in Hb; try congruence; first [by apply Hquote|apply Z.ltb_ge; exact Hb].
    + specialize (Hjoin (a :: bs) b [] eq_refl ltac:(done)). unfold must_cut in Hjoin.
      rewrite Hh, Hb in Hjoin. cbn [negb andb] in Hjoin. rewrite !orb_false_iff in Hjoin. lia.
Qed.

Lemma emit_elem before runs sec :
  sec ∈ emit hard_tokens before runs →
  ∃ r pre post, runs = pre ++ r :: post ∧
    sec ∈ run_sections hard_tokens (trail (before ++ concat (map run_blocks pre) ++ run_blocks r)) r.
Proof.
  revert before. induction runs as [|r runs IH]; intros before; cbn [emit]; [by intros ?%not_elem_of_nil|].
  intros [Hs|Hs]%elem_of_app; [by exists r, [], runs|].
  destruct (IH _ Hs) as (r' & pre & post & -> & Hr). exists r', (r :: pre), post. split; [done|].
  cbn [map concat]. by rewrite <- app_assoc in Hr; rewrite <- app_assoc.
Qed.

(** Every section counts at most the larger cap and its headings, but for a
    list, table or code block over the hard cap, which stands alone, and the
    pieces of a paragraph over it. *)
Theorem sections_bounded blocks sec :
  0 ≤ hard_tokens → (∀ b, b ∈ blocks → b_type b = BLOCKQUOTE → block_tokens b ≤ hard_tokens) →
  sec ∈ chunk_blocks soft_tokens hard_tokens blocks →
  (∃ bs pre post, blocks = pre ++ bs ++ post ∧ block_types sec = map b_type bs ∧
     token_count sec ≤ Z.max soft_tokens hard_tokens + heading_tokens bs) ∨
  (∃ b, b ∈ blocks ∧ is_atomic (b_type b) = true ∧ hard_tokens < token_count sec ∧ s_text sec = b_text b) ∨
  (∃ b, b ∈ blocks ∧ b_type b = PARAGRAPH ∧ hard_tokens < block_tokens b ∧
     s_text sec ∈ _split_oversized_paragraph (b_text b) hard_tokens).
Proof.
  intros Hhard Hquote. destruct (chunk_blocks_cut soft_tokens hard_tokens blocks) as (runs & Hruns & ->).
  destruct (proj2 (Hruns runs) eq_refl) as (<- & Hok & _). intros Hs.
  destruct (emit_elem _ _ _ Hs) as (r & pre & post & -> & Hr).
  apply Forall_app in Hok as [_ [Hrun _]%Forall_cons].
  rewrite map_app, concat_app in Hquote |- *. cbn [map concat] in Hquote |- *.
  assert (Hin : ∀ b, b ∈ run_blocks r → b ∈ concat (map run_blocks pre) ++ run_blocks r ++ concat (map run_blocks post)).
  { intros b Hb. rewrite !elem_of_app. tauto. }
  destruct r as [bs|b|b]; cbn [run_sections run_blocks] in *.
  - left. exists bs, (concat (map run_blocks pre)), (concat (map run_blocks post)). split; [done|].
    destruct (run_text bs); [by apply not_elem_of_nil in Hr|]. apply list_elem_of_singleton in Hr as ->.
    split; [done|]. apply packed_bound; auto.
  - right. left. apply list_elem_of_singleton in Hr as ->. exists b. destruct Hrun as [Hbig Hat].
    unfold too_big in Hbig. apply andb_true_iff in Hbig as [_ Hlt%Z.ltb_lt].
    split; [apply Hin; by left|]. by repeat split.
  - right. right. exists b. destruct Hrun as [Hbig Hp]. apply andb_true_iff in Hbig as [_ Hlt%Z.ltb_lt].
    split; [apply Hin; by left|]. repeat split; [done..|]. apply list_elem_of_In, in_map_iff in Hr as (t & <- & Ht).
    by apply list_elem_of_In.
Qed.
End Kept.

(** ** Evaluated *)
Module Examples.

(** A token per character, no segmentation. *)
#[local] Instance text_instance : PyText := AsciiText.
#[local] Instance libs_instance : IngestLibs :=
  {| encode := λ t, t; segment := λ t, Some [t]; md_parse := λ _, [] |}.

Definition two_paragraphs : text := lits ("Hello there" ++ newline ++ " " ++ newline ++ newline ++ "second one")%string.

Lemma plain_text_kept_witness :
  cuts_only ∧
  squeeze (concat (map s_text (chunk_blocks 8 12 (parse_plaintext two_paragraphs)))) = squeeze two_paragraphs.
Proof.
  assert (Hcuts : cuts_only) by (intros t; exists [t]; split; [reflexivity|]; cbn [concat]; by rewrite app_nil_r).
  split; [exact Hcuts|]. exact (plain_text_kept 8 12 two_paragraphs Hcuts).
Defined.

Definition quoted_text : Block := block BLOCKQUOTE (lits "a long quote").
Definition titles : list Block :=
  [{| b_type := HEADING; b_text := lits "Title"; b_depth := 1 |}; {| b_type := HEADING; b_text := lits "Part"; b_depth := 2 |};
   block PARAGRAPH (lits "text")].

Lemma sections_bounded_witness :
  0 ≤ 12 ∧ (∀ b, b ∈ titles → b_type b = BLOCKQUOTE → block_tokens b ≤ 12) ∧
  ((∃ bs pre post, titles = pre ++ bs ++ post ∧ [HEADING] = map b_type bs ∧ 5 ≤ Z.max 8 12 + heading_tokens bs) ∨
   (∃ b, b ∈ titles ∧ is_atomic (b_type b) = true ∧ 12 < 5 ∧ lits "# Title" = b_text b) ∨
   (∃ b, b ∈ titles ∧ b_type b = PARAGRAPH ∧ 12 < block_tokens b ∧
      lits "# Title" ∈ _split_oversized_paragraph (b_text b) 12)).
Proof.
  assert (Hq : ∀ b, b ∈ titles → b_type b = BLOCKQUOTE → block_tokens b ≤ 12).
  { intros b. unfold titles. rewrite !elem_of_cons, elem_of_nil. by intros [->|[->|[->|[]]]]. }
  split; [lia|]. split; [exact Hq|].
  apply (sections_bounded 8 12 titles
           {| s_text := lits "# Title"; breadcrumb := lits "Title"; token_count := 5; block_types := [HEADING] |});
    [lia|exact Hq|vm_compute; left].
Defined.

(** A quote over the hard cap is neither divided nor alone. *)
Example quote_over_cap :
  map (λ s, (token_count s, block_types s)) (chunk_blocks 4 8 (quoted_text :: titles)) =
  [(12, [BLOCKQUOTE]); (5, [HEADING]); (4, [HEADING]); (4, [PARAGRAPH])].
Proof. vm_compute. reflexivity. Qed.
(** A sentence over it stays whole. *)
Example sentence_over_cap : _split_oversized_paragraph (lits "one long sentence") 8 = [lits "one long sentence"].
Proof. vm_compute. reflexivity. Qed.
(** Code inside a list item is not in the block of the list. *)
Example nested_code_dropped :
  read_all (tokens (Items false [[Paragraph (lits "run"); CodeBlock true (lits "make")]])) = Ok [block LIST (lits "- run")].
Proof. vm_compute. reflexivity. Qed.
End Examples.

End Chunking.
