(* ===== verification/Trace.v ===== *)
(** * Programs over the trace of their calls
    A request of a service calls other services and reads clocks; what a call
    answers or raises is any function of the call and of the calls made
    before, so it stands for storage, models and whatever other requests do
    in the meantime.  Exceptions are those of [WriteCalls]. *)
From S2P Require Import Prelude WriteCalls.
Module Trace.

Abbreviation exn := WriteCalls.exn.
Abbreviation HTTPException := WriteCalls.HTTPException.
Abbreviation Raised := WriteCalls.Raised.
Abbreviation Cancelled := WriteCalls.Cancelled.

Section Programs.
Context {call reading : Type → Type}.

Inductive event : Type :=
| Called {A} (c : call A)
| Read {A} (r : reading A).
Definition trace : Type := list event.

(** [observe] is what a process reads of itself, which cannot fail. *)
Class World := {
  answer : ∀ A, call A → trace → res exn A;
  observe : ∀ A, reading A → trace → A;
}.
End Programs.
Arguments event : clear implicits.
Arguments trace : clear implicits.
Arguments World : clear implicits.
Arguments answer {_ _ _ A}.
Arguments observe {_ _ _ A}.

Section Steps.
Context {call reading : Type → Type} `{World call reading}.
Abbreviation prog A := (io (trace call reading) exn A).

Definition perform {A} (c : call A) : prog A := λ t, (answer c t, Called c :: t).
Definition observed {A} (r : reading A) : prog A := λ t, (Ok (observe r t), Read r :: t).
Definition py {A} (r : res pyexn A) : prog A := io_lift (map_err Raised r).
Definition http {A} (status_code : Z) (detail : string) : prog A := io_raise (HTTPException status_code detail).
(** [try: m except Exception: h] *)
Definition caught {A} (m : prog A) (h : exn → prog A) : prog A :=
  io_try m mret (λ e, match e with Cancelled => io_raise e | _ => h e end).

(** ** Programs by the events they add *)
Definition leaves_at {A} (m : prog A) (t : trace call reading) (Q : list (event call reading) → res exn A → Prop) : Prop :=
  ∃ new, (m t).2 = new ++ t ∧ Q new (m t).1.
Definition leaves {A} (m : prog A) (Q : list (event call reading) → res exn A → Prop) : Prop := ∀ t, leaves_at m t Q.

Lemma at_bind {A B} (m : prog A) (f : A → prog B) t Q R :
  leaves_at m t Q → (∀ new a, Q new (Ok a) → leaves_at (f a) (new ++ t) (λ new' r, R (new' ++ new) r)) →
  (∀ new e, Q new (Err e) → R new (Err e)) → leaves_at (m ≫= f) t R.
Proof.
  intros (n1 & Hw1 & Hq) Hf He. unfold leaves_at, mbind, io_bind.
  destruct (m t) as [[a|e] t1]; cbn in *; subst t1; [|exists n1; auto].
  destruct (Hf _ a Hq) as (n2 & Hw2 & Hr). exists (n2 ++ n1). by rewrite Hw2, <- app_assoc.
Qed.
Lemma at_perform {A} (c : call A) t : leaves_at (perform c) t (λ new r, new = [Called c] ∧ r = answer c t).
Proof. by exists [Called c]. Qed.
Lemma leaves_bind {A B} (m : prog A) (f : A → prog B) Q R :
  leaves m Q → (∀ new a, Q new (Ok a) → leaves (f a) (λ new' r, R (new' ++ new) r)) →
  (∀ new e, Q new (Err e) → R new (Err e)) → leaves (m ≫= f) R.
Proof. intros Hm Hf He t. eapply at_bind; [apply Hm| |exact He]. intros new a Ha. by apply Hf. Qed.
Lemma leaves_try {A B} (m : prog A) (k : A → prog B) h Q R :
  leaves m Q → (∀ new a, Q new (Ok a) → leaves (k a) (λ new' r, R (new' ++ new) r)) →
  (∀ new e, Q new (Err e) → leaves (h e) (λ new' r, R (new' ++ new) r)) → leaves (io_try m k h) R.
Proof.
  intros Hm Hk Hh t. destruct (Hm t) as (n1 & Hw1 & Hq). unfold leaves_at, io_try.
  destruct (m t) as [[a|e] t1]; cbn in *; subst t1;
    [destruct (Hk _ a Hq (n1 ++ t)) as (n2 & Hw2 & Hr)|destruct (Hh _ e Hq (n1 ++ t)) as (n2 & Hw2 & Hr)];
    exists (n2 ++ n1); by rewrite Hw2, <- app_assoc.
Qed.
Lemma leaves_lift {A} (r : res exn A) (Q : list (event call reading) → res exn A → Prop) :
  Q [] r → leaves (io_lift r) Q.
Proof. intros Hr t. by exists []. Qed.
Lemma leaves_ret {A} (a : A) (Q : list (event call reading) → res exn A → Prop) : Q [] (Ok a) → leaves (mret a) Q.
Proof. intros Ha t. by exists []. Qed.
Lemma leaves_raise {A} e (Q : list (event call reading) → res exn A → Prop) : Q [] (Err e) → leaves (io_raise e) Q.
Proof. intros He t. by exists []. Qed.
Lemma leaves_perform {A} (c : call A) Q : (∀ r, Q [Called c] r) → leaves (perform c) Q.
Proof. intros Hq t. exists [Called c]. by split. Qed.
Lemma leaves_observed {A} (r : reading A) (Q : list (event call reading) → res exn A → Prop) :
  (∀ a, Q [Read r] (Ok a)) → leaves (observed r) Q.
Proof. intros Hq t. exists [Read r]. split; [done|]. apply Hq. Qed.
Lemma leaves_impl {A} (m : prog A) (Q R : list (event call reading) → res exn A → Prop) :
  leaves m Q → (∀ new r, Q new r → R new r) → leaves m R.
Proof. intros Hm Hq t. destruct (Hm t) as (new & Ht & Hnew). exists new. auto. Qed.

(** A program that adds nothing [see] shows. *)
Section Mute.
Context {X : Type} (see : event call reading → option X).
Definition mute {A} (m : prog A) : Prop := leaves m (λ new _, omap see new = []).
Lemma mute_bind {A B} (m : prog A) (f : A → prog B) : mute m → (∀ a, mute (f a)) → mute (m ≫= f).
Proof.
  intros Hm Hf. eapply leaves_bind; [exact Hm| |auto]. intros new a Hnew. eapply leaves_impl; [apply Hf|].
  intros new' ? Hnew'. by rewrite omap_app, Hnew, Hnew'.
Qed.
Lemma mute_try {A B} (m : prog A) (k : A → prog B) h :
  mute m → (∀ a, mute (k a)) → (∀ e, mute (h e)) → mute (io_try m k h).
Proof.
  intros Hm Hk Hh. eapply leaves_try; [exact Hm| |]; intros new x Hnew; (eapply leaves_impl; [first [apply Hk|apply Hh]|]);
    intros new' ? Hnew'; by rewrite omap_app, Hnew, Hnew'.
Qed.
Lemma mute_lift {A} (r : res exn A) : mute (io_lift r).
Proof. by apply leaves_lift. Qed.
Lemma mute_ret {A} (a : A) : mute (mret a).
Proof. by apply leaves_ret. Qed.
Lemma mute_raise {A} e : mute (io_raise e : prog A).
Proof. by apply leaves_raise. Qed.
Lemma mute_perform {A} (c : call A) : see (Called c) = None → mute (perform c).
Proof. intros Hc. apply leaves_perform. intros r. cbn. by rewrite Hc. Qed.
Lemma mute_observed {A} (r : reading A) : see (Read r) = None → mute (observed r).
Proof. intros Hc. apply leaves_observed. intros a. cbn. by rewrite Hc. Qed.
Lemma mute_caught {A} (m : prog A) h : mute m → (∀ e, mute (h e)) → mute (caught m h).
Proof.
  intros Hm Hh. apply mute_try; [exact Hm|intros; apply mute_ret|]. intros []; [apply Hh..|apply mute_raise].
Qed.
(** Before something else, it does not show. *)
Lemma mute_before {A B} (m : prog A) (k : A → prog B) (Q : list X → res exn B → Prop) :
  mute m → (∀ a, leaves (k a) (λ new r, Q (omap see new) r)) → (∀ e, Q [] (Err e)) →
  leaves (m ≫= k) (λ new r, Q (omap see new) r).
Proof.
  intros Hm Hk He. eapply leaves_bind; [exact Hm| |].
  - intros new a Hnew. eapply leaves_impl; [apply Hk|]. intros new' r Hr. by rewrite omap_app, Hnew, app_nil_r.
  - intros new e ->. apply He.
Qed.
End Mute.

(** Programs all of whose events satisfy [ok]. *)
Section Only.
Context (ok : event call reading → Prop).
Definition only {A} (m : prog A) : Prop := leaves m (λ new _, Forall ok new).
Lemma only_bind {A B} (m : prog A) (f : A → prog B) : only m → (∀ a, only (f a)) → only (m ≫= f).
Proof.
  intros Hm Hf. eapply leaves_bind; [exact Hm| |auto]. intros new a Hnew.
  eapply leaves_impl; [apply Hf|]. intros new' ? Hnew'. by apply Forall_app.
Qed.
Lemma only_try {A B} (m : prog A) (k : A → prog B) h :
  only m → (∀ a, only (k a)) → (∀ e, only (h e)) → only (io_try m k h).
Proof.
  intros Hm Hk Hh. eapply leaves_try; [exact Hm| |]; intros new x Hnew; (eapply leaves_impl; [first [apply Hk|apply Hh]|]);
    intros new' ? Hnew'; by apply Forall_app.
Qed.
Lemma only_lift {A} (r : res exn A) : only (io_lift r).
Proof. by apply leaves_lift. Qed.
Lemma only_ret {A} (a : A) : only (mret a).
Proof. by apply leaves_ret. Qed.
Lemma only_raise {A} e : only (io_raise e : prog A).
Proof. by apply leaves_raise. Qed.
Lemma only_perform {A} (c : call A) : ok (Called c) → only (perform c).
Proof. intros Hc. apply leaves_perform. intros r. by apply Forall_singleton. Qed.
Lemma only_observed {A} (r : reading A) : ok (Read r) → only (observed r).
Proof. intros Hc. apply leaves_observed. intros a. by apply Forall_singleton. Qed.
Lemma only_caught {A} (m : prog A) h : only m → (∀ e, only (h e)) → only (caught m h).
Proof.
  intros Hm Hh. apply only_try; [exact Hm|intros; apply only_ret|]. intros []; [apply Hh..|apply only_raise].
Qed.
End Only.

(** What holds of the events and the value of a program that returns. *)
Definition returns {A} (m : prog A) (Q : list (event call reading) → A → Prop) : Prop :=
  leaves m (λ new r, ∀ a, r = Ok a → Q new a).
Lemma returns_bind {A B} (m : prog A) (f : A → prog B) Q R :
  returns m Q → (∀ new a, Q new a → returns (f a) (λ new' b, R (new' ++ new) b)) → returns (m ≫= f) R.
Proof.
  intros Hm Hf. eapply leaves_bind; [exact Hm| |done]. intros new a Ha. by apply Hf, Ha.
Qed.
Lemma returns_try {A B} (m : prog A) (k : A → prog B) h Q R :
  leaves m Q → (∀ new a, Q new (Ok a) → returns (k a) (λ new' b, R (new' ++ new) b)) →
  (∀ new e, Q new (Err e) → returns (h e) (λ new' b, R (new' ++ new) b)) → returns (io_try m k h) R.
Proof. intros Hm Hk Hh. eapply leaves_try; [exact Hm|exact Hk|exact Hh]. Qed.
Lemma returns_ret {A} (a : A) (Q : list (event call reading) → A → Prop) : Q [] a → returns (mret a) Q.
Proof. intros Ha. apply leaves_ret. by intros ? [= <-]. Qed.
Lemma returns_lift {A} (r : res exn A) (Q : list (event call reading) → A → Prop) :
  (∀ a, r = Ok a → Q [] a) → returns (io_lift r) Q.
Proof. intros Hr. by apply leaves_lift. Qed.
Lemma returns_raise {A} e (Q : list (event call reading) → A → Prop) : returns (io_raise e) Q.
Proof. by apply leaves_raise. Qed.
Lemma returns_impl {A} (m : prog A) (Q R : list (event call reading) → A → Prop) :
  returns m Q → (∀ new a, Q new a → R new a) → returns m R.
Proof. intros Hm Hq. eapply leaves_impl; [exact Hm|]. intros new r Hr a ->. by apply Hq, Hr. Qed.
Lemma leaves_returns {A} (m : prog A) Q : leaves m (λ new _, Q new) → returns m (λ new _, Q new).
Proof. intros Hm. eapply leaves_impl; [exact Hm|]. by intros new r Hr a _. Qed.
End Steps.
End Trace.
