(* ===== verification/Ingest.v ===== *)
(** * Ingestion of documents
    ([src/core-api/src/core_api/services/ingest_service.py] and the ingest
    routes of [routes/memories.py])
    Fetching a page behind the check of its addresses, the decoding of text
    bodies, the validation of the facts a model extracts, the preview of a
    document and the commit of its facts.  A request is a program over the
    trace of its calls, the most recent first; what a call answers or raises
    is any function of the call and of the trace before it.  A preview's
    extractions run a few at a time; each is one model call whose answer may
    depend on anything, so they are made in the order of the sections here.
    The text of the prompt around its variable parts and the log lines are
    left out. *)
From S2P Require Import Prelude Regex Floats Enrichment WriteCalls WritePipeline Auth Trace Chunking.
Module Ingest.
Import Regex Trace.
#[local] Open Scope string_scope.
#[local] Open Scope list_scope.

(** ** Requests and answers *)
Record IngestRequest : Type := {
  tenant_id : string;
  fleet_id : option string;
  url : option string;
  content : option string;
  focus : option string;
  source_uri : option string;
}.
(** A fact of a preview or of a commit. *)
Record IngestFact : Type := {
  f_content : string;
  suggested_type : string;
  f_source_uri : option string;
  salience : option Floats.float;
}.
Record IngestCommitRequest : Type := {
  c_tenant_id : string;
  c_fleet_id : option string;
  c_agent_id : string;
  c_url : option string;
  c_facts : list IngestFact;
  c_run_id : option string;
  c_doc_hash : option string;
}.

(** The memory of a prior ingest, as storage returns it. *)
Record prior_memory : Type := {
  m_run_id : option string;
  m_content : string;
  m_memory_type : string;
  m_source_uri : option string;
  m_salience : option Floats.float;
}.
Record BulkMemoryItem : Type := {
  memory_type : string;
  i_content : string;
  i_source_uri : string;
  run_id : string;
  metadata : pydict;
}.
Record BulkMemoryCreate : Type := {
  b_tenant_id : string;
  b_fleet_id : option string;
  b_agent_id : string;
  items : list BulkMemoryItem;
}.
Record BulkMemoryResponse : Type := { created : Z; duplicates : Z; errors : Z }.

(** What a server answers to a GET after redirects: a body of decompressed
    pieces, under a status that [raise_for_status] lets pass. *)
Record response : Type := {
  resp_url : string;
  content_type : string;
  content_length_header : string;
  aiter_bytes : list string;
  charset_encoding : option string;
}.
(** What Kreuzberg makes of a document. *)
Inductive extraction : Type :=
| Extracted (is_encrypted : bool) (text : string)
| ParsingError (msg : string)
| KreuzbergError (msg : string).

(** The parts of the extraction prompt that vary. *)
Record prompt : Type := { breadcrumb_instruction : string; focus_instruction : string; p_content : string }.

Inductive call : Type → Type :=
| ResolveConfig (tenant : string) : call WriteCalls.ResolvedConfig
| GetAddrInfo (host : string) : call (list string)
| HttpGet (url : string) : call response
| ExtractBytes (body mime : string) : call extraction
| FindPriorIngest (tenant doc_hash : string) : call (list prior_memory)
| ExtractFacts (provider : string) (p : prompt) : call pyval
| FindByContentHashes (tenant : string) (hashes : list string) (fleet : option string) (agent : string) :
    call (list string)
| CreateMemoriesBulk (data : BulkMemoryCreate) (bulk_attempt_id : string) : call BulkMemoryResponse
| UpsertDocument (tenant : string) (fleet : option string) (collection doc_id : string) (data : pydict) : call unit
| SoftDeleteByRun (tenant run_id source : string) : call Z
| DeleteDocument (tenant collection doc_id : string) : call unit
| LogAction (tenant action resource_type : string) (detail : pydict) : call unit.
(** What is read of the process itself, which cannot fail. *)
Inductive reading : Type → Type :=
| NewUuid : reading string
| ElapsedMs : reading Z
| UtcNow : reading string.

(** What the standard library provides: [urlparse(url).hostname], the ranges
    of [ipaddress.ip_address(addr)] ([None]: not an address), [bytes.decode]
    with replacement, [int] of a string, and [repr]. *)
Record ip_ranges : Type := {
  is_private : bool; is_loopback : bool; is_link_local : bool;
  is_multicast : bool; is_reserved : bool; is_unspecified : bool;
}.
Class NetLibrary := {
  url_hostname : string → res pyexn (option string);
  ip_address : string → option ip_ranges;
  decode_bytes : string → string → res pyexn string;
  int_of_str : string → option Z;
  py_repr : string → string;
  exn_text : WriteCalls.exn → string;
  kreuzberg_installed : bool;
}.

Abbreviation event := (Trace.event call reading).
Abbreviation trace := (Trace.trace call reading).
Abbreviation World := (Trace.World call reading).
Abbreviation ig A := (io trace exn A).

Section Service.
Context `{World}.
(** [str] of a list of texts, and of a number with commas between the
    thousands. *)
Definition list_repr `{NetLibrary} (l : list string) : string := ("[" ++ join ", " (map py_repr l) ++ "]")%string.
Fixpoint commas (fuel : nat) (digits : string) : string :=
  match fuel with
  | O => digits
  | S fuel =>
      let n := String.length digits in
      if Nat.leb n 3 then digits
      else (commas fuel (String.substring 0 (n - 3) digits) ++ "," ++ String.substring (n - 3) 3 digits)%string
  end.
Definition with_commas (z : Z) : string := commas (String.length (str_of_Z z)) (str_of_Z z).

(** ** Fetching a page *)
Definition TEXT_INGEST_MIME_TYPES : list string :=
  ["text/html"; "text/plain"; "text/markdown"; "text/x-markdown"; "text/csv"; "application/xhtml+xml"].
Definition BINARY_INGEST_MIME_TYPES : list string :=
  ["application/pdf"; "application/msword";
   "application/vnd.openxmlformats-officedocument.wordprocessingml.document";
   "application/vnd.ms-powerpoint";
   "application/vnd.openxmlformats-officedocument.presentationml.presentation";
   "application/vnd.ms-excel";
   "application/vnd.openxmlformats-officedocument.spreadsheetml.sheet";
   "application/epub+zip"; "application/rtf"; "application/vnd.oasis.opendocument.text"].
Definition ALLOWED_INGEST_MIME_TYPES : list string := TEXT_INGEST_MIME_TYPES ++ BINARY_INGEST_MIME_TYPES.
Definition INGEST_MAX_INPUT_BYTES : Z := 3000000.
Definition MAX_INGEST_CONTENT_BYTES : Z := INGEST_MAX_INPUT_BYTES.
Definition _CLOUD_METADATA_IPS : list string := ["169.254.169.254"; "fd00:ec2::254"].

Context `{PyText} `{NetLibrary} `{Enrichment.PyParsers} `{WriteCalls.WriteRuntime} `{Chunking.IngestLibs}.

Definition _is_blocked_ip (addr : string) : bool :=
  match ip_address addr with
  | None => false
  | Some ip => is_private ip || is_loopback ip || is_link_local ip || is_multicast ip || is_reserved ip ||
               is_unspecified ip
  end.

Fixpoint check_addresses (host : string) (addrs : list string) : ig () :=
  match addrs with
  | [] => mret ()
  | addr :: addrs =>
      if _is_blocked_ip addr || str_mem addr _CLOUD_METADATA_IPS
      then http 400 ("Blocked: " ++ host ++ " resolves to " ++ addr ++ " (private/loopback/link-local/metadata)")%string
      else check_addresses host addrs
  end.
Definition dns_failure (host : string) (e : WriteCalls.exn) : ig (list string) :=
  match e with
  | Raised (OtherExc "gaierror") => http 400 ("DNS resolution failed for " ++ host ++ ": " ++ exn_text e)%string
  | _ => io_raise e
  end.
Definition _check_hostname_safe (u : string) : ig () :=
  host ← py (url_hostname u);
  match given host with
  | None => http 400 ("Invalid URL: no hostname in " ++ py_repr u)%string
  | Some host =>
      infos ← io_try (perform (GetAddrInfo host)) mret (dns_failure host);
      check_addresses host infos
  end.

(** *** Text bodies

    [re.DOTALL] is written out in the class that stands for the dot. *)
Definition SCRIPT_RE : compiled := re_compile IGNORECASE "<script[^>]*>[\s\S]*?</script>".
Definition STYLE_RE : compiled := re_compile IGNORECASE "<style[^>]*>[\s\S]*?</style>".
Definition TAG_RE : compiled := re_compile no_flags "<[^>]+>".
Definition SPACES_RE : compiled := re_compile no_flags "\s+".
(** [.replace("\r\n", "\n").replace("\r", "\n")] *)
Fixpoint unify_newlines (s : string) : string :=
  match s with
  | "" => ""
  | String c s' =>
      if Ascii.eqb c "013" then
        match s' with
        | String d _ => if Ascii.eqb d "010" then unify_newlines s' else String "010" (unify_newlines s')
        | "" => String "010" ""
        end
      else String c (unify_newlines s')
  end.
Definition decode_text_body (body mime : string) (encoding : option string) : res pyexn string :=
  decoded ← decode_bytes body (str_or encoding "utf-8");
  mret (if str_mem mime ["text/html"; "application/xhtml+xml"] then
          let text := re_sub STYLE_RE "" (re_sub SCRIPT_RE "" decoded) in
          str_strip (re_sub SPACES_RE " " (re_sub TAG_RE " " text))
        else str_strip (unify_newlines decoded)).

Definition _extract_with_kreuzberg (body mime : string) : ig string :=
  if negb kreuzberg_installed then
    http 501 "Document ingest is not available in this build — install the 'ingest' extra (kreuzberg)."
  else
    result ← perform (ExtractBytes body mime);
    match result with
    | ParsingError detail =>
        http 422 (if str_contains "encrypted" (str_lower detail) || str_contains "password" (str_lower detail)
                  then "Encrypted PDF: password-protected documents are not supported." else detail)
    | KreuzbergError detail => http 422 ("Document extraction failed: " ++ detail)%string
    | Extracted is_encrypted text =>
        if is_encrypted && String.eqb (str_strip text) "" then
          http 422 "Encrypted PDF: password-protected documents are not supported."
        else if String.eqb (str_strip text) "" then
          http 422 ("Extracted document has no text content (mime=" ++ mime ++ "). If this is a scanned/image PDF, OCR is required and is not currently enabled.")%string
        else mret (str_strip text)
    end.

(** [header.split(";")[0].strip().lower()] *)
Definition before_semicolon (s : string) : string :=
  match String.index 0 ";" s with Some n => String.substring 0 n s | None => s end.
Definition mime_of (header : string) : string := str_lower (str_strip (before_semicolon header)).

(** The stream is read until it exceeds the cap. *)
Fixpoint read_body (total : Z) (chunks : list string) : res WriteCalls.exn string :=
  match chunks with
  | [] => Ok ""
  | chunk :: chunks =>
      let total := total + bytes_len chunk in
      if (MAX_INGEST_CONTENT_BYTES <? total)%Z then
        Err (HTTPException 413 ("Content too large: exceeded " ++ str_of_Z MAX_INGEST_CONTENT_BYTES ++
                                " bytes after decompression")%string)
      else rest ← read_body total chunks; Ok (chunk ++ rest)%string
  end.
Definition check_length_header (header : string) : ig () :=
  if String.eqb header "" then mret ()
  else match int_of_str header with
       | Some n => if (MAX_INGEST_CONTENT_BYTES <? n)%Z
                   then http 413 ("Content too large: " ++ header ++ " bytes (max " ++
                                  str_of_Z MAX_INGEST_CONTENT_BYTES ++ ")")%string
                   else mret ()
       | None => mret ()
       end.
Definition unsupported (mime : string) : string :=
  ("Unsupported content type: " ++ mime ++ ". Allowed: " ++ list_repr (sort_strings ALLOWED_INGEST_MIME_TYPES))%string.

(** What follows the check of the final host. *)
Definition read_response (resp : response) : ig string :=
  let mime := mime_of (content_type resp) in
  if negb (String.eqb mime "") && negb (str_mem mime ALLOWED_INGEST_MIME_TYPES) then http 422 (unsupported mime)
  else
    _ ← check_length_header (content_length_header resp);
    body ← io_lift (read_body 0 (aiter_bytes resp));
    if str_mem mime BINARY_INGEST_MIME_TYPES then _extract_with_kreuzberg body mime
    else py (decode_text_body body mime (Some (str_or (charset_encoding resp) "utf-8"))).
Definition _fetch_url_text (u : string) : ig string :=
  _ ← _check_hostname_safe u;
  resp ← perform (HttpGet u);
  _ ← _check_hostname_safe (resp_url resp);
  read_response resp.

(** ** The facts of a model's answer *)
Definition _SALIENCE_FLOOR : Floats.float := Floats.lit 1 2.
Definition _MIN_FACT_WORDS : nat := 5.
Definition _META_FACT_RE : compiled := re_compile IGNORECASE
  "^\s*(?:the\s+(?:provided|user|input)\s+(?:content|text|document)|this\s+(?:content|text|document)|the\s+content\s+(?:begins|starts|consists|is)|the\s+(?:document|text)\s+(?:provided|given|describes|is))".

(** What is iterated: a list, or the first list of a wrapping object, or the
    keys of an object and the characters of a text, which are no objects. *)
Definition first_list (d : pydict) : option (list pyval) :=
  head (omap (λ kv, match kv.2 with PList l => Some l | _ => None end) d).
Definition raw_items (raw : pyval) : res pyexn (list pyval) :=
  match raw with
  | PDict d => Ok (default [] (first_list d))
  | PList l => Ok l
  | PStr _ => Ok []
  | _ => Err TypeError
  end.

(** [float(salience_raw)] where [TypeError] and [ValueError] are caught. *)
Definition salience_of (v : pyval) : res pyexn (option Floats.float) :=
  match v with
  | PFloat q => Ok (Some (Floats.of_Q q))
  | PInt z => if Floats.is_finite (Floats.of_Z z) then Ok (Some (Floats.of_Z z))
              else Err (OtherExc "OverflowError")
  | PBool b => Ok (Some (Floats.of_Z (Z.b2z b)))
  | PStr s => Ok (Enrichment.float_of_str s)
  | _ => Ok None
  end.
Definition low_salience (o : option Floats.float) : bool :=
  match o with Some s => Floats.flt s _SALIENCE_FLOOR | None => false end.
Definition known_type (v : pyval) : string :=
  match v with
  | PStr st => if str_mem st Enrichment.MEMORY_TYPES then st else "fact"
  | _ => "fact"
  end.

Definition fact_of (item : pyval) : res pyexn (option IngestFact) :=
  match item with
  | PDict d =>
      if negb (truthy (dgetv d "content")) then Ok None
      else
        let body := str_strip (Enrichment.py_str (dgetv d "content")) in
        if found _META_FACT_RE body then Ok None
        else if Nat.ltb (length (str_split body)) _MIN_FACT_WORDS then Ok None
        else
          salience ← salience_of (dgetv d "salience");
          if low_salience salience then Ok None
          else Ok (Some {| f_content := body;
                           suggested_type := known_type (default (PStr "fact") (dget d "suggested_type"));
                           f_source_uri := None; salience := salience |})
  | _ => Ok None
  end.
Definition read_facts (raw : pyval) : res pyexn (list IngestFact) :=
  items ← raw_items raw; collect fact_of items.

(** [settings.entity_extraction_provider] *)
Context (default_provider : string).

Definition _chunk_content (text : string) (focus : option string) (cfg : WriteCalls.ResolvedConfig)
    (breadcrumb : option string) : ig (list IngestFact) :=
  let provider := str_or (Some (WriteCalls.enrichment_provider cfg)) default_provider in
  let focus_instruction :=
    match given focus with
    | Some focus => ("Focus on facts relevant to " ++ focus ++ ". Deprioritize unrelated details.")%string
    | None => ""
    end in
  let breadcrumb_instruction :=
    match given breadcrumb with
    | Some breadcrumb =>
        (Chunking.newline ++ "## Document context" ++ Chunking.newline ++ Chunking.newline ++
         "This section appears under: " ++ breadcrumb ++ Chunking.newline ++
         "Use this trail to resolve ambiguous references (e.g. 'this version', 'the migration') when extracting facts." ++
         Chunking.newline)%string
    | None => ""
    end in
  raw ← perform (ExtractFacts provider
                   {| breadcrumb_instruction := breadcrumb_instruction;
                      focus_instruction := focus_instruction; p_content := text |});
  py (read_facts raw).

(** ** Preview *)
Definition _INGEST_MIN_CONTENT_CHARS : Z := 20.
Definition _doc_hash (tenant text : string) : string := WriteCalls.sha256 (tenant ++ ":" ++ text)%string.

Record preview : Type := {
  p_url : option string;
  content_length : Z;
  p_facts : list IngestFact;
  chunk_ms : Z;
  doc_hash : option string;
  p_sections : option Z;
  skipped_reason : option string;
  cached : bool;
  p_run_id : option string;
}.
Definition cached_fact (source_uri_default : string) (m : prior_memory) : IngestFact :=
  {| f_content := m_content m; suggested_type := m_memory_type m;
     f_source_uri := Some (str_or (m_source_uri m) source_uri_default); salience := m_salience m |}.
Definition stamp (source_uri_default : string) (f : IngestFact) : IngestFact :=
  {| f_content := f_content f; suggested_type := suggested_type f;
     f_source_uri := Some source_uri_default; salience := salience f |}.

Definition fetch_content (request : IngestRequest) : ig string :=
  match given (url request) with
  | Some u =>
      caught (_fetch_url_text u)
        (λ e, match e with
              | WriteCalls.HTTPException _ _ => io_raise e
              | _ => http 400 ("Failed to fetch URL: " ++ exn_text e)%string
              end)
  | None =>
      match given (content request) with
      | Some text => mret text
      | None => http 400 "Either url or content is required"
      end
  end.

Definition _extract_section (request : IngestRequest) (cfg : WriteCalls.ResolvedConfig) (sec : Chunking.Section_) :
    ig (list IngestFact) :=
  caught (_chunk_content (encode_text (Chunking.s_text sec)) (focus request) cfg
            (given (Some (encode_text (Chunking.breadcrumb sec)))))
    (λ _, mret []).
Fixpoint extract_all (request : IngestRequest) (cfg : WriteCalls.ResolvedConfig) (sections : list Chunking.Section_) :
    ig (list IngestFact) :=
  match sections with
  | [] => mret []
  | sec :: sections =>
      facts ← _extract_section request cfg sec;
      rest ← extract_all request cfg sections;
      mret (facts ++ rest)
  end.

Definition source_uri_default (request : IngestRequest) : string :=
  str_or (source_uri request) (str_or (url request) "text-input").

Definition preview_sections (request : IngestRequest) (cfg : WriteCalls.ResolvedConfig) (text : string) : ig preview :=
  let total_tokens := Chunking.doc_token_count (codepoints text) in
  if (Chunking.DOC_HARD_TOKEN_LIMIT <? total_tokens)%Z then
    http 413 ("Document too large: " ++ str_of_Z total_tokens ++ " tokens (max " ++
              str_of_Z Chunking.DOC_HARD_TOKEN_LIMIT ++ "). Split the doc and ingest in pieces.")%string
  else
    blocks ← py (Chunking.parse (codepoints text));
    let sections := Chunking.chunk_blocks Chunking.SECTION_SOFT_TOKENS Chunking.SECTION_HARD_TOKENS blocks in
    let answer facts ms :=
      {| p_url := url request; content_length := char_len text; p_facts := facts; chunk_ms := ms;
         doc_hash := Some (_doc_hash (tenant_id request) text); p_sections := Some (Z.of_nat (length sections));
         skipped_reason := None; cached := false; p_run_id := None |} in
    match sections with
    | [] => mret (answer [] 0)
    | _ =>
        facts ← extract_all request cfg sections;
        ms ← observed ElapsedMs;
        mret (answer (map (stamp (source_uri_default request)) facts) ms)
    end.

Definition ingest_preview (request : IngestRequest) : ig preview :=
  cfg ← perform (ResolveConfig (tenant_id request));
  text ← fetch_content request;
  cached_memories ← perform (FindPriorIngest (tenant_id request) (_doc_hash (tenant_id request) text));
  match cached_memories with
  | m :: _ =>
      mret {| p_url := url request; content_length := char_len text;
              p_facts := map (cached_fact (source_uri_default request)) cached_memories; chunk_ms := 0;
              doc_hash := None; p_sections := None; skipped_reason := None; cached := true;
              p_run_id := m_run_id m |}
  | [] =>
      if (char_len (str_strip text) <? _INGEST_MIN_CONTENT_CHARS)%Z then
        mret {| p_url := url request; content_length := char_len text; p_facts := []; chunk_ms := 0; doc_hash := None;
                p_sections := None; skipped_reason := Some "content_too_short"; cached := false; p_run_id := None |}
      else preview_sections request cfg text
  end.

(** ** Commit *)
Definition INGEST_DOCUMENTS_COLLECTION : string := "ingest-sources".
Definition _PARENT_DOC_SUMMARY_CAP : Z := 500.
(** The bounds of [BulkMemoryItem.content] and [BulkMemoryCreate.items]. *)
Definition MAX_CONTENT_LENGTH : Z := 10000.
Definition BULK_MAX_ITEMS : nat := 100.
Definition ValidationError : WriteCalls.exn := Raised (OtherExc "ValidationError").

Fixpoint summary_parts (cap total : Z) (facts : list IngestFact) : list string :=
  match facts with
  | [] => []
  | f :: facts =>
      let text := str_strip (f_content f) in
      if String.eqb text "" then summary_parts cap total facts
      else let total := (total + (char_len text + 1))%Z in
           if (cap <=? total)%Z then [text] else text :: summary_parts cap total facts
  end.
Definition _summarize_batch_for_embedding (survivors : list IngestFact) (cap : Z) : option string :=
  match summary_parts cap 0 survivors with
  | [] => None
  | parts =>
      let summary := str_strip (join " " parts) in
      if String.eqb summary "" then None else Some (char_take cap summary)
  end.

Definition opt_value (o : option string) : pyval := match o with Some s => PStr s | None => PNone end.
Definition source_label (request : IngestCommitRequest) (survivors : list IngestFact) : string :=
  str_or (c_url request) (str_or (f ← head survivors; f_source_uri f) "text-input").
Definition upload_name (label : string) : option string :=
  if starts_with "upload:" label then Some (drop_str 7 label) else None.

Definition _write_parent_ingest_document (request : IngestCommitRequest) (run : string)
    (survivors : list IngestFact) (created errored skipped ms : Z) : ig () :=
  if (created <=? 0)%Z then mret ()
  else
    let label := source_label request survivors in
    uploaded_at ← observed UtcNow;
    let data :=
      [("source_uri", PStr label); ("filename", opt_value (upload_name label)); ("url", opt_value (c_url request));
       ("memory_count", PInt created); ("errored", PInt errored); ("skipped_duplicates", PInt skipped);
       ("doc_hash", opt_value (c_doc_hash request)); ("uploaded_at", PStr uploaded_at); ("ingest_ms", PInt ms);
       ("agent_id", PStr (c_agent_id request))] in
    let data := match _summarize_batch_for_embedding survivors _PARENT_DOC_SUMMARY_CAP with
                | Some summary => dset data "summary" (PStr summary)
                | None => data
                end in
    caught (perform (UpsertDocument (c_tenant_id request) (c_fleet_id request) INGEST_DOCUMENTS_COLLECTION run data))
      (λ _, mret ()).

Definition item_of (request : IngestCommitRequest) (run : string) (f : IngestFact) : BulkMemoryItem :=
  let effective_source := str_or (c_url request) (str_or (f_source_uri f) "text-input") in
  let metadata :=
    [("source", PStr "ingest");
     ("ingest_url", opt_value (match given (c_url request) with Some u => Some u | None => given (f_source_uri f) end))] in
  let metadata := match given (c_doc_hash request) with Some h => dset metadata "doc_hash" (PStr h) | None => metadata end in
  let metadata := match salience f with Some s => dset metadata "salience" (PFloat (Floats.to_Q s)) | None => metadata end in
  {| memory_type := suggested_type f; i_content := f_content f; i_source_uri := effective_source; run_id := run;
     metadata := metadata |}.
(** What pydantic accepts as an item; the type was checked before. *)
Definition valid_item (i : BulkMemoryItem) : bool :=
  (1 <=? char_len (i_content i))%Z && (char_len (i_content i) <=? MAX_CONTENT_LENGTH)%Z &&
  str_mem (memory_type i) Enrichment.MEMORY_TYPES.
Definition bulk_create (request : IngestCommitRequest) (run : string) (survivors : list IngestFact) :
    res WriteCalls.exn BulkMemoryCreate :=
  let bulk_items := map (item_of request run) survivors in
  raise_if negb (forallb valid_item bulk_items) with ValidationError;;
  raise_if negb (Nat.leb (length bulk_items) BULK_MAX_ITEMS) with ValidationError;;
  Ok {| b_tenant_id := c_tenant_id request; b_fleet_id := c_fleet_id request;
        b_agent_id := c_agent_id request; items := bulk_items |}.

Record commit_result : Type := {
  r_url : option string;
  facts_extracted : Z;
  memories_created : Z;
  skipped_duplicates : Z;
  errored : Z;
  r_run_id : string;
  ingest_ms : Z;
}.

Definition bad_facts (facts : list IngestFact) : list (nat * string) :=
  List.filter (λ b, negb (str_mem b.2 Enrichment.MEMORY_TYPES)) (imap (λ i f, (i, suggested_type f)) facts).
Definition bad_detail (bad : list (nat * string)) : string :=
  ("Invalid suggested_type on facts [" ++ join ", " (map (λ b, str_of_Z (Z.of_nat b.1)) bad) ++ "]: " ++
   list_repr bad.*2 ++ ". Allowed: " ++ list_repr (sort_strings Enrichment.MEMORY_TYPES))%string.
Definition fact_hash (request : IngestCommitRequest) (f : IngestFact) : string :=
  WritePipeline._content_hash (c_tenant_id request) (c_fleet_id request) (f_content f).

Definition find_existing (request : IngestCommitRequest) : ig (list string) :=
  match c_facts request with
  | [] => mret []
  | facts =>
      caught (perform (FindByContentHashes (c_tenant_id request) (map (fact_hash request) facts)
                         (c_fleet_id request) (c_agent_id request)))
        (λ _, mret [])
  end.

(** The batch of the survivors: how many were created, found to be
    duplicates, and in error. *)
Definition write_survivors (request : IngestCommitRequest) (run : string) (survivors : list IngestFact) :
    ig (Z * Z * Z) :=
  match survivors with
  | [] => mret (0, 0, 0)%Z
  | _ =>
      data ← io_lift (bulk_create request run survivors);
      io_try (perform (CreateMemoriesBulk data run))
        (λ r, mret (created r, duplicates r, errors r))
        (λ e, match e with
              | WriteCalls.HTTPException _ _ => mret (0, 0, Z.of_nat (length survivors))%Z
              | _ => io_raise e
              end)
  end.

Definition ingest_commit (request : IngestCommitRequest) : ig commit_result :=
  run ← match given (c_run_id request) with Some run => mret run | None => observed NewUuid end;
  let facts := c_facts request in
  match bad_facts facts with
  | _ :: _ as bad => http 422 (bad_detail bad)
  | [] =>
    _ ← perform (ResolveConfig (c_tenant_id request));
    existing ← find_existing request;
    let survivors := List.filter (λ f, negb (str_mem (fact_hash request f) existing)) facts in
    let pre_dedup_skipped := Z.of_nat (length facts - length survivors) in
    '(created, skipped_in_loop, errored) ← write_survivors request run survivors;
    let skipped := (pre_dedup_skipped + skipped_in_loop)%Z in
    ms ← observed ElapsedMs;
    _ ← _write_parent_ingest_document request run survivors created errored skipped ms;
    mret {| r_url := c_url request; facts_extracted := Z.of_nat (length facts); memories_created := created;
            skipped_duplicates := skipped; errored := errored; r_run_id := run; ingest_ms := ms |}
  end.

(** ** Routes *)
Definition gate (r : res Auth.exn ()) : ig () :=
  io_lift (map_err (λ e, match e with Auth.HTTPException s d => HTTPException s d | Auth.Raised why => Raised (OtherExc why) end) r).

Definition ingest_preview_endpoint (auth : Auth.AuthContext) (body : IngestRequest) : ig preview :=
  _ ← gate (Auth.enforce_read_only auth);
  _ ← gate (Auth.enforce_usage_limits auth);
  _ ← gate (Auth.enforce_tenant auth (tenant_id body));
  ingest_preview body.

Definition ingest_file_endpoint (auth : Auth.AuthContext) (body : string) (file_type file_name : option string)
    (tenant : string) (focus fleet : option string) : ig preview :=
  _ ← gate (Auth.enforce_read_only auth);
  _ ← gate (Auth.enforce_usage_limits auth);
  _ ← gate (Auth.enforce_tenant auth tenant);
  if (INGEST_MAX_INPUT_BYTES <? bytes_len body)%Z then
    http 413 ("File must be 3 MB or under (got " ++ with_commas (bytes_len body) ++ " bytes).")%string
  else
    let mime := mime_of (default "" file_type) in
    text ← (if str_mem mime BINARY_INGEST_MIME_TYPES then _extract_with_kreuzberg body mime
            else if str_mem mime TEXT_INGEST_MIME_TYPES then py (decode_text_body body mime None)
            else http 422 (unsupported mime));
    let label := match given (Some (str_strip (default "" file_name))) with
                 | Some name => ("upload:" ++ name)%string
                 | None => "upload"
                 end in
    ingest_preview {| tenant_id := tenant; fleet_id := fleet; url := None; content := Some text; focus := focus;
                      source_uri := Some label |}.

Definition ingest_undo_endpoint (auth : Auth.AuthContext) (run tenant : string) : ig Z :=
  _ ← gate (Auth.enforce_read_only auth);
  _ ← gate (Auth.enforce_tenant auth tenant);
  deleted ← perform (SoftDeleteByRun tenant run "ingest");
  _ ← caught (perform (DeleteDocument tenant INGEST_DOCUMENTS_COLLECTION run)) (λ _, mret ());
  _ ← perform (LogAction tenant "ingest_undo" "memory" [("run_id", PStr run); ("count", PInt deleted)]);
  mret deleted.

(** ** What holds of the facts of a preview *)
Definition extracted_ok (f : IngestFact) : Prop :=
  suggested_type f ∈ Enrichment.MEMORY_TYPES ∧ found _META_FACT_RE (f_content f) = false ∧
  (_MIN_FACT_WORDS ≤ length (str_split (f_content f)))%nat ∧ low_salience (salience f) = false.

Lemma known_type_in v : known_type v ∈ Enrichment.MEMORY_TYPES.
Proof.
  assert (Hf : "fact" ∈ Enrichment.MEMORY_TYPES) by (apply str_mem_spec; reflexivity).
  destruct v as [| | | |s| | |]; cbn [known_type]; try done.
  destruct (str_mem s Enrichment.MEMORY_TYPES) eqn:Hs; [by apply str_mem_spec|done].
Qed.
Lemma fact_of_ok item f : fact_of item = Ok (Some f) → extracted_ok f.
Proof.
  destruct item as [| | | | | | |d]; try done. cbn [fact_of].
  destruct (truthy _); [|done]. cbn [negb]. destruct (found _ _) eqn:Hmeta; [done|].
  destruct (Nat.ltb _ _) eqn:Hwords; [done|]. intros (sal & Hsal & Hf)%res_bind_Ok.
  destruct (low_salience sal) eqn:Hlow; [done|]. injection Hf as <-. repeat split; cbn; try done.
  - apply known_type_in.
  - by apply Nat.ltb_ge in Hwords.
Qed.
Lemma read_facts_ok raw facts : read_facts raw = Ok facts → Forall extracted_ok facts.
Proof.
  intros (items & _ & Hc)%res_bind_Ok. apply Forall_forall. intros f Hf.
  destruct (collect_elem _ _ _ f Hc) as [Hin _]. destruct (Hin Hf) as (item & _ & Hi). by apply (fact_of_ok item).
Qed.
(** ** Model calls *)

(** The prompts a model was asked. *)
Definition asked (ev : event) : option prompt :=
  match ev with Called (ExtractFacts _ p) => Some p | _ => None end.
Definition asks (new : list event) : nat := length (omap asked new).
Lemma asks_app n1 n2 : asks (n1 ++ n2) = (asks n1 + asks n2)%nat.
Proof. unfold asks. by rewrite omap_app, length_app. Qed.


Lemma check_addresses_mute host addrs : mute asked (check_addresses host addrs).
Proof. induction addrs as [|a addrs IH]; cbn [check_addresses]; [apply mute_ret|]. destruct (_ || _); [apply mute_raise|exact IH]. Qed.
Lemma dns_failure_raises host e : ∃ e', dns_failure host e = io_raise e'.
Proof. unfold dns_failure. repeat case_match; by eexists. Qed.
Lemma check_hostname_mute u : mute asked (_check_hostname_safe u).
Proof.
  apply mute_bind; [apply mute_lift|]. intros host. destruct (given host); [|apply mute_raise].
  apply mute_bind; [|intros; apply check_addresses_mute].
  apply mute_try; [by apply mute_perform|intros; apply mute_ret|].
  intros e. destruct (dns_failure_raises s e) as [e' ->]. apply mute_raise.
Qed.
Lemma kreuzberg_mute body mime : mute asked (_extract_with_kreuzberg body mime).
Proof.
  unfold _extract_with_kreuzberg. destruct (negb _); [apply mute_raise|].
  apply mute_bind; [by apply mute_perform|]. intros r. repeat case_match; first [apply mute_ret|apply mute_raise].
Qed.
Lemma fetch_mute u : mute asked (_fetch_url_text u).
Proof.
  apply mute_bind; [apply check_hostname_mute|]. intros _. apply mute_bind; [by apply mute_perform|]. intros resp.
  apply mute_bind; [apply check_hostname_mute|]. intros _. unfold read_response. cbv zeta.
  destruct (_ && _); [apply mute_raise|].
  apply mute_bind; [unfold check_length_header; repeat case_match; first [apply mute_ret|apply mute_raise]|]. intros _.
  apply mute_bind; [apply mute_lift|]. intros body. destruct (str_mem _ _); [apply kreuzberg_mute|apply mute_lift].
Qed.
Lemma fetch_content_mute request : mute asked (fetch_content request).
Proof.
  unfold fetch_content. destruct (given (url request)).
  - apply mute_try; [apply fetch_mute|intros; apply mute_ret|]. intros []; apply mute_raise.
  - destruct (given (content request)); [apply mute_ret|apply mute_raise].
Qed.

(** One model call for each section, and facts that pass the filters. *)
Definition section_answer (new : list event) (n : nat) (r : res WriteCalls.exn (list IngestFact)) : Prop :=
  match r with
  | Ok facts => asks new = n ∧ Forall extracted_ok facts
  | Err e => e = Cancelled
  end.
Lemma extract_section_leaves request cfg sec :
  leaves (_extract_section request cfg sec) (λ new r, section_answer new 1 r).
Proof.
  unfold _extract_section, caught. eapply leaves_try with
    (Q := λ new r, asks new = 1%nat ∧ match r with Ok facts => Forall extracted_ok facts | Err _ => True end).
  - eapply leaves_bind with (Q := λ new _, asks new = 1%nat); [by apply leaves_perform|..].
    + intros new raw Hnew. apply leaves_lift. cbn. split; [done|].
      destruct (read_facts raw) eqn:Hr; cbn; [by apply (read_facts_ok raw)|done].
    + by intros.
  - intros new facts [Hnew Hok]. by apply leaves_ret.
  - intros new e [Hnew _]. destruct e; [apply leaves_ret|apply leaves_ret|by apply leaves_raise]; by split.
Qed.
Lemma extract_all_leaves request cfg sections :
  leaves (extract_all request cfg sections) (λ new r, section_answer new (length sections) r).
Proof.
  induction sections as [|sec sections IH]; cbn [extract_all]; [by apply leaves_ret|].
  eapply leaves_bind; [apply extract_section_leaves| |by intros].
  intros new facts [Hnew Hok]. eapply leaves_bind; [exact IH| |].
  - intros new' rest [Hnew' Hrest]. apply leaves_ret. cbn [app length]. split; [rewrite asks_app; lia|].
    by apply Forall_app.
  - intros new' e He. exact He.
Qed.

Definition preview_answer (request : IngestRequest) (prompts : list prompt) (r : res WriteCalls.exn preview) : Prop :=
  match r with
  | Ok p =>
      if cached p then prompts = []
      else Forall (λ f, extracted_ok f ∧ f_source_uri f = Some (source_uri_default request)) (p_facts p) ∧
           Z.of_nat (length prompts) = default 0%Z (p_sections p)
  | Err e => e = Cancelled ∨ prompts = []
  end.

(** A preview's facts are those that pass the filters, under the source of
    the request, and cost one model call for each section.  No model is asked
    when the document was ingested before, is too short, or is refused. *)
Theorem preview_facts request :
  leaves (ingest_preview request) (λ new r, preview_answer request (omap asked new) r).
Proof.
  apply mute_before; [by apply mute_perform| |by right]. intros cfg.
  apply mute_before; [apply fetch_content_mute| |by right]. intros text.
  apply mute_before; [by apply mute_perform| |by right]. intros [|m memories]; [|by apply leaves_ret].
  destruct (Z.ltb _ _); [by apply leaves_ret|]. unfold preview_sections. cbv zeta.
  destruct (Z.ltb _ _); [apply leaves_raise; by right|].
  apply mute_before; [apply mute_lift| |by right]. intros blocks.
  destruct (Chunking.chunk_blocks _ _ blocks) as [|sec sections]; [by apply leaves_ret|].
  eapply leaves_bind; [apply extract_all_leaves| |by intros new e ->; left].
  intros new facts [Hnew Hok].
  eapply leaves_bind with (Q := λ new r, match r with Ok _ => omap asked new = [] | Err _ => False end);
    [by apply leaves_observed| |done].
  intros new' ms Hms. apply leaves_ret. cbn [preview_answer app p_facts p_sections cached]. split.
  - apply Forall_map. eapply Forall_impl; [exact Hok|]. by intros f Hf.
  - rewrite omap_app, Hms. unfold asks in Hnew. by rewrite app_nil_l, Hnew.
Qed.

(** ** Fetching is guarded *)
Definition public (addr : string) : Prop := _is_blocked_ip addr = false ∧ addr ∉ _CLOUD_METADATA_IPS.
(** At the trace [t] the host of [u] resolved to public addresses only. *)
Definition reachable (u : string) (t : trace) : Prop :=
  ∃ host addrs, url_hostname u = Ok (Some host) ∧ host ≠ "" ∧
    answer (GetAddrInfo host) t = Ok addrs ∧ Forall public addrs.
Definition gets (ev : event) : option string := match ev with Called (HttpGet u) => Some u | _ => None end.

Lemma check_addresses_ok host addrs t :
  (check_addresses host addrs t).2 = t ∧ ((check_addresses host addrs t).1 = Ok tt → Forall public addrs).
Proof.
  induction addrs as [|a addrs IH]; cbn [check_addresses]; [by split|].
  destruct (_is_blocked_ip a || str_mem a _CLOUD_METADATA_IPS) eqn:Ha; [by split|].
  destruct IH as [Ht Hok]. split; [done|]. intros Hr. apply orb_false_iff in Ha as [Hb Hm%str_mem_false].
  constructor; [by split|auto].
Qed.
Lemma check_hostname_ok u t :
  leaves_at (_check_hostname_safe u) t (λ new r, omap gets new = [] ∧ (r = Ok tt → reachable u t)).
Proof.
  unfold _check_hostname_safe, reachable.
  destruct (url_hostname u) as [host|e]; [|by exists []].
  change (py (Ok host) ≫= ?k) with (k host). cbv beta.
  destruct (given host) as [h|] eqn:Hh; [|by exists []]. apply given_Some in Hh as [-> Hne].
  exists [Called (GetAddrInfo h)]. unfold io_try, perform, mbind, io_bind.
  destruct (answer (GetAddrInfo h) t) as [addrs|e] eqn:Ha.
  - destruct (check_addresses_ok h addrs (Called (GetAddrInfo h) :: t)) as [Ht Hok]. cbn.
    split; [exact Ht|]. split; [done|]. intros Hr. exists h, addrs. auto.
  - destruct (dns_failure_raises h e) as [e' ->]. by cbn.
Qed.

Definition total_bytes (chunks : list string) : Z := foldr (λ c n, bytes_len c + n)%Z 0%Z chunks.
Lemma read_body_ok total chunks body :
  (total ≤ MAX_INGEST_CONTENT_BYTES)%Z → read_body total chunks = Ok body →
  (total + total_bytes chunks ≤ MAX_INGEST_CONTENT_BYTES)%Z.
Proof.
  revert total body. induction chunks as [|c chunks IH]; intros total body Hle; cbn [read_body total_bytes foldr]; [lia|].
  destruct (Z.ltb_spec MAX_INGEST_CONTENT_BYTES (total + bytes_len c)) as [|Hfit]; [done|].
  intros (rest & Hrest & _)%res_bind_Ok. specialize (IH _ _ Hfit Hrest). unfold total_bytes in IH. lia.
Qed.

Definition fetched (u : string) (t : trace) : Prop :=
  ∃ resp, answer (HttpGet u) t = Ok resp ∧ reachable (resp_url resp) (Called (HttpGet u) :: t) ∧
    (mime_of (content_type resp) = "" ∨ mime_of (content_type resp) ∈ ALLOWED_INGEST_MIME_TYPES) ∧
    (total_bytes (aiter_bytes resp) ≤ MAX_INGEST_CONTENT_BYTES)%Z.

Lemma read_response_ok resp :
  leaves (read_response resp) (λ new r, omap gets new = [] ∧ ∀ text, r = Ok text →
    (mime_of (content_type resp) = "" ∨ mime_of (content_type resp) ∈ ALLOWED_INGEST_MIME_TYPES) ∧
    (total_bytes (aiter_bytes resp) ≤ MAX_INGEST_CONTENT_BYTES)%Z).
Proof.
  unfold read_response. cbv zeta. destruct (negb _ && negb _) eqn:Hmime; [by apply leaves_raise|].
  assert (Hm : mime_of (content_type resp) = "" ∨ mime_of (content_type resp) ∈ ALLOWED_INGEST_MIME_TYPES).
  { destruct (String.eqb_spec (mime_of (content_type resp)) ""); [by left|right]. apply str_mem_spec. by destruct (str_mem _ _). }
  eapply leaves_bind with (Q := λ new _, new = []);
    [unfold check_length_header; repeat case_match; first [by apply leaves_ret|by apply leaves_raise]| |by intros new e ->].
  intros ? _ ->. eapply leaves_bind with (Q := λ new r, new = [] ∧ r = read_body 0 (aiter_bytes resp));
    [by apply leaves_lift| |by intros new e [-> _]].
  intros ? body [-> Hbody]. symmetry in Hbody. apply read_body_ok in Hbody; [|by vm_compute].
  destruct (str_mem _ BINARY_INGEST_MIME_TYPES); [|by apply leaves_lift].
  unfold _extract_with_kreuzberg. destruct (negb kreuzberg_installed); [by apply leaves_raise|].
  eapply leaves_bind with (Q := λ new _, omap gets new = []); 
    [by apply leaves_perform| |by intros new e Hnew; rewrite !app_nil_r].
  intros new ex Hnew. repeat case_match; first [apply leaves_ret|apply leaves_raise]; cbn [app]; rewrite !app_nil_r; by split.
Qed.

(** ** What a commit writes, and its accounts *)
Definition survivors_of (request : IngestCommitRequest) (existing : list string) : list IngestFact :=
  List.filter (λ f, negb (str_mem (fact_hash request f) existing)) (c_facts request).
Definition batch_of (ev : event) : option (BulkMemoryCreate * string) :=
  match ev with Called (CreateMemoriesBulk data run) => Some (data, run) | _ => None end.
Definition batches (new : list event) : list (BulkMemoryCreate * string) := omap batch_of new.
(** Storage is asked for nothing but one batch of the survivors. *)
Definition one_batch (request : IngestCommitRequest) (run : string) (existing : list string) :
    list (BulkMemoryCreate * string) :=
  match survivors_of request existing, bulk_create request run (survivors_of request existing) with
  | _ :: _, Ok data => [(data, run)]
  | _, _ => []
  end.

Lemma survivors_fewer request existing : (length (survivors_of request existing) ≤ length (c_facts request))%nat.
Proof. apply sublist_length, List_filter_sublist. Qed.

(** The batch path answers for every item. *)
Definition bulk_accounts : Prop := ∀ data run t r,
  answer (CreateMemoriesBulk data run) t = Ok r →
  (created r + duplicates r + errors r = Z.of_nat (length (items data)))%Z.

Definition committed_to (request : IngestCommitRequest) (written : list (BulkMemoryCreate * string))
    (r : res WriteCalls.exn commit_result) : Prop :=
  match r with
  | Ok c =>
      ∃ existing, bad_facts (c_facts request) = [] ∧ written = one_batch request (r_run_id c) existing ∧
        facts_extracted c = Z.of_nat (length (c_facts request)) ∧
        (memories_created c + skipped_duplicates c + errored c = facts_extracted c)%Z
  | Err _ => (length written ≤ 1)%nat
  end.
Definition committed (request : IngestCommitRequest) (new : list event) (r : res WriteCalls.exn commit_result) : Prop :=
  committed_to request (batches new) r.

Lemma bulk_create_items request run fs data : bulk_create request run fs = Ok data → length (items data) = length fs.
Proof.
  unfold bulk_create. destruct (negb (forallb _ _)); [done|]. destruct (negb _); [done|]. intros [= <-]. cbn.
  by rewrite length_map.
Qed.

Lemma write_survivors_leaves request run existing :
  bulk_accounts →
  leaves (write_survivors request run (survivors_of request existing)) (λ new r,
    batches new = one_batch request run existing ∧
    ∀ c s e, r = Ok (c, s, e) → (c + s + e = Z.of_nat (length (survivors_of request existing)))%Z).
Proof.
  intros Hacc t. unfold write_survivors, one_batch.
  destruct (survivors_of request existing) as [|f fs] eqn:Hs; [exists []; split_and!; [done..|]; by intros ??? [= <- <- <-]|].
  change (io_lift ?r ≫= ?k) with (λ w : trace, match r with Ok a => k a w | Err e => (Err e, w) end).
  destruct (bulk_create request run (f :: fs)) as [data|e] eqn:Hd; [|by exists []].
  exists [Called (CreateMemoriesBulk data run)]. unfold io_try, perform.
  destruct (answer (CreateMemoriesBulk data run) t) as [r|e] eqn:Hr; cbn.
  - split_and!; [done..|]. intros c s e [= <- <- <-]. rewrite (Hacc _ _ _ _ Hr).
    by rewrite (bulk_create_items _ _ _ _ Hd).
  - destruct e as [| |]; cbn; split_and!; try done. intros c s e [= <- <- <-]. cbn. lia.
Qed.

Lemma one_batch_short request run existing : (length (one_batch request run existing) ≤ 1)%nat.
Proof. unfold one_batch. repeat case_match; cbn; lia. Qed.
Lemma parent_document_mute request run fs c e s ms :
  mute batch_of (_write_parent_ingest_document request run fs c e s ms).
Proof.
  unfold _write_parent_ingest_document. destruct (c <=? 0)%Z; [apply mute_ret|].
  apply mute_bind; [by apply mute_observed|]. intros at_.
  apply mute_caught; [by apply mute_perform|intros; apply mute_ret].
Qed.

(** C22. A commit sends storage at most one batch, of the facts whose content
    storage did not say it has, all valid; and what it reports adds up to the
    facts it was given. *)
Theorem commit_accounts request :
  bulk_accounts → leaves (ingest_commit request) (committed request).
Proof.
  intros Hacc. unfold ingest_commit.
  change (committed request) with (λ new r, committed request new r).
  eapply (mute_before batch_of _ _ (λ l r, committed_to request l r)); [destruct (given _); [apply mute_ret|by apply mute_observed]| |cbn; lia].
  intros run. cbv zeta. destruct (bad_facts (c_facts request)) eqn:Hbad; [|apply leaves_raise; cbn; lia].
  apply mute_before; [by apply mute_perform| |cbn; lia]. intros _.
  apply mute_before; [unfold find_existing; destruct (c_facts request); [apply mute_ret|]; apply mute_caught; [by apply mute_perform|intros; apply mute_ret]| |cbn; lia].
  intros existing. fold (survivors_of request existing).
  eapply leaves_bind; [by apply write_survivors_leaves| |].
  - intros new [[c s] e] [Hb Hsum]. specialize (Hsum _ _ _ eq_refl).
    eapply leaves_impl with (Q := λ new' r, committed_to request (omap batch_of new' ++ one_batch request run existing) r).
    2: { intros new' r. unfold batches. by rewrite omap_app, <- Hb. }
    apply (mute_before batch_of _ _ (λ l r, committed_to request (l ++ one_batch request run existing) r));
      [by apply mute_observed| |intros; apply one_batch_short].
    intros ms. apply (mute_before batch_of _ _ (λ l r, committed_to request (l ++ one_batch request run existing) r));
      [apply parent_document_mute| |intros; apply one_batch_short].
    intros _. apply leaves_ret. exists existing. pose proof (survivors_fewer request existing).
    split_and!; try done. cbn. lia.
  - intros new e [Hb _]. cbn. unfold batches in Hb. rewrite Hb. apply one_batch_short.
Qed.
End Service.

(** ** Evaluated *)
Module Examples.
#[local] Instance text_instance : PyText := AsciiText.
#[local] Instance chunk_instance : Chunking.IngestLibs :=
  {| Chunking.encode := λ t, t; Chunking.segment := λ t, Some [t]; Chunking.md_parse := λ _, [] |}.
#[local] Existing Instance Enrichment.ExampleParsers.
#[local] Instance runtime_instance : WriteCalls.WriteRuntime :=
  {| WriteCalls.sha256 := λ s, s; WriteCalls.str_datetime := λ _, ""; WriteCalls.fromisoformat := λ _, None;
     WriteCalls.round4 := λ _, 0%Q |}.
Definition nowhere : ip_ranges :=
  {| is_private := false; is_loopback := false; is_link_local := false; is_multicast := false;
     is_reserved := false; is_unspecified := false |}.
Definition local_net : ip_ranges :=
  {| is_private := true; is_loopback := false; is_link_local := false; is_multicast := false;
     is_reserved := false; is_unspecified := false |}.
#[local] Instance net_instance : NetLibrary :=
  {| url_hostname := λ u, Ok (Some u); ip_address := λ a, Some (if starts_with "10." a then local_net else nowhere);
     decode_bytes := λ b _, Ok b; int_of_str := λ _, None; py_repr := λ s, s; exn_text := λ _, "error";
     kreuzberg_installed := false |}.

Definition example_config : WriteCalls.ResolvedConfig :=
  {| WriteCalls._ts := []; WriteCalls.enrichment_enabled := true; WriteCalls.enrichment_provider := "openai";
     WriteCalls.enrichment_model := None; WriteCalls.entity_extraction_enabled := false;
     WriteCalls.entity_extraction_provider := ""; WriteCalls.entity_extraction_model := None;
     WriteCalls.semantic_dedup_enabled := false; WriteCalls.auto_chunk_enabled := false;
     WriteCalls.triple_emission_enabled := false; WriteCalls.default_write_mode := "fast" |}.
Definition said (text type : string) (salience : pyval) : pyval :=
  PDict [("content", PStr text); ("suggested_type", PStr type); ("salience", salience)].
Definition example_reply : pyval :=
  PDict [("facts", PList
    [said "This document describes the release of version two" "fact" PNone; said "Learn more" "fact" PNone;
     said "Bob shipped version two of the SDK in March" "event" (PFloat (9 # 10));
     said "The cafeteria had soup on the day of it" "fact" (PFloat (3 # 10))])].

(** Storage knows nothing yet; every page is at the host it names and leads
    to one in a private network. *)
#[local] Instance world : World := {|
  answer := λ A c t,
    match c in call A return res WriteCalls.exn A with
    | ResolveConfig _ => Ok example_config
    | GetAddrInfo host => Ok [if String.eqb host "inside" then "10.0.0.1" else "93.184.216.34"]
    | HttpGet u => Ok {| resp_url := "inside"; content_type := "text/html"; content_length_header := "";
                         aiter_bytes := ["secret"]; charset_encoding := None |}
    | ExtractBytes _ _ => Ok (KreuzbergError "")
    | FindPriorIngest _ _ => Ok []
    | ExtractFacts _ _ => Ok example_reply
    | FindByContentHashes _ _ _ _ => Ok []
    | CreateMemoriesBulk data _ => Ok {| created := Z.of_nat (length (items data)); duplicates := 0; errors := 0 |}
    | UpsertDocument _ _ _ _ _ => Ok tt
    | SoftDeleteByRun _ _ _ => Ok 0%Z
    | DeleteDocument _ _ _ => Ok tt
    | LogAction _ _ _ _ => Ok tt
    end;
  observe := λ A r t, match r in reading A return A with NewUuid => "run" | ElapsedMs => 1%Z | UtcNow => "now" end;
|}.

Definition a_fact (text : string) : IngestFact :=
  {| f_content := text; suggested_type := "fact"; f_source_uri := None; salience := None |}.
Definition commit_of (facts : list IngestFact) : IngestCommitRequest :=
  {| c_tenant_id := "t"; c_fleet_id := None; c_agent_id := "ingest-agent"; c_url := None; c_facts := facts;
     c_run_id := None; c_doc_hash := None |}.

Lemma commit_accounts_witness :
  bulk_accounts ∧ leaves (ingest_commit (commit_of [a_fact "Bob shipped version two"])) (committed (commit_of [a_fact "Bob shipped version two"])).
Proof.
  assert (Hacc : bulk_accounts).
  { intros data run t r [= <-]. cbn. lia. }
  split; [exact Hacc|]. exact (commit_accounts (commit_of [a_fact "Bob shipped version two"]) Hacc).
Defined.

(** More facts than a batch may hold, as a preview of a long document has
    them, or a fact without content, end the commit with an exception no
    handler expects. *)
Example commit_of_many_fails :
  (ingest_commit (commit_of (replicate 101 (a_fact "Bob shipped version two"))) []).1 = Err ValidationError.
Proof. vm_compute. reflexivity. Qed.
Example commit_of_empty_fails :
  (ingest_commit (commit_of [a_fact "Bob shipped version two"; a_fact ""]) []).1 = Err ValidationError.
Proof. vm_compute. reflexivity. Qed.

(** A redirect into a private network is followed before it is refused. *)
Example redirect_is_followed :
  let '(r, t) := _fetch_url_text "outside" [] in
  r = Err (HTTPException 400 "Blocked: inside resolves to 10.0.0.1 (private/loopback/link-local/metadata)") ∧
  omap gets t = ["outside"].
Proof. vm_compute. split; reflexivity. Qed.

(** Of four offered facts one is neither about the document, nor too short,
    nor of low salience. *)
Example preview_filters :
  match (ingest_preview "openai"
           {| tenant_id := "t"; fleet_id := None; url := None; content := Some "Bob shipped version two of the SDK in March.";
              focus := None; source_uri := None |} []).1 with
  | Ok p => map (λ f, (f_content f, suggested_type f)) (p_facts p) = [("Bob shipped version two of the SDK in March", "fact")]
  | Err _ => False
  end.
Proof. vm_compute. reflexivity. Qed.
End Examples.

End Ingest.
