(* ===== verification/Evolve.v ===== *)
(** * Evolution of memories by reported outcomes
    ([src/core-api/src/core_api/services/evolve_service.py],
    [utils/sanitize.py], the evolve routes of core-api and of
    core-storage-api, and the two evolve passes of [postgres_service.py])
    The reading of identifiers, the redaction of texts that reach a prompt,
    the storage table with its scope filter and its clamped update, and the
    report of an outcome as a program over the trace of its calls.  A
    prompt's memories are fetched at the same time; each fetch may answer
    anything, so they are made in order here.  The fixed text of the prompt
    and the log lines are left out. *)
From S2P Require Import Prelude Regex Floats Retry Enrichment WriteCalls Trace.
Module Evolve.
Import Regex Trace.
#[local] Open Scope string_scope.
#[local] Open Scope list_scope.

(** ** Identifiers: [uuid.UUID]

    A UUID is its integer. *)
Definition uuid : Type := N.
(** The value of a decimal digit beyond ASCII, from the interpreter's tables. *)
Class Decimals := { uni_decimal : N → option N }.

Definition lower_hex (d : N) : N := if (d <? 10)%N then (48 + d)%N else (87 + d)%N.
Fixpoint hex_digits (n : nat) (u : N) : list N :=
  match n with O => [] | S n => hex_digits n (u / 16) ++ [lower_hex (u mod 16)] end.
Definition dash : N := 45.
(** [str(u)] *)
Definition uuid_text (u : uuid) : list N :=
  let h := hex_digits 32 u in
  take 8 h ++ dash :: take 4 (drop 8 h) ++ dash :: take 4 (drop 12 h) ++ dash ::
  take 4 (drop 16 h) ++ dash :: drop 20 h.
Definition str_uuid (u : uuid) : string := encode_text (uuid_text u).

Fixpoint starts (p l : list N) : bool :=
  match p, l with
  | [], _ => true
  | x :: p, y :: l => N.eqb x y && starts p l
  | _, _ => false
  end.
(** [s.replace(p, "")] for a non-empty [p]; [skip] counts the characters of
    a removed occurrence that are still to pass. *)
Fixpoint remove_all (p : list N) (skip : nat) (l : list N) : list N :=
  match l with
  | [] => []
  | x :: l' =>
      match skip with
      | S skip => remove_all p skip l'
      | O => if starts p l then remove_all p (pred (length p)) l' else x :: remove_all p 0 l'
      end
  end.
Fixpoint lstrip (f : N → bool) (l : list N) : list N :=
  match l with x :: l' => if f x then lstrip f l' else l | [] => [] end.
Definition strip (f : N → bool) (l : list N) : list N := reverse (lstrip f (reverse (lstrip f l))).

Section Uuids.
Context `{Decimals}.
Definition hex_value (c : N) : option N :=
  if ((48 <=? c) && (c <=? 57))%N then Some (c - 48)%N
  else if ((97 <=? c) && (c <=? 102))%N then Some (c - 87)%N
  else if ((65 <=? c) && (c <=? 70))%N then Some (c - 55)%N
  else if (c <? 128)%N then None else uni_decimal c.
(** Digits with single underscores between them. *)
Fixpoint int_digits (acc : N) (bare : bool) (l : list N) : option N :=
  match l with
  | [] => if bare then None else Some acc
  | c :: l =>
      if N.eqb c 95 then if bare then None else int_digits acc true l
      else d ← hex_value c; int_digits (16 * acc + d) false l
  end.
(** The blanks around a number: those of C, and beyond ASCII those of [\s]. *)
Definition int_blank (c : N) : bool :=
  ((9 <=? c) && (c <=? 13) || (c =? 32) || (128 <=? c) && is_space c)%N.
(** [int(s, 16)] of a text without a minus sign *)
Definition int16 (l : list N) : option N :=
  let l := strip int_blank l in
  let l := match l with x :: l' => if N.eqb x 43 then l' else l | [] => [] end in
  let l := match l with
           | x :: y :: l' =>
               if N.eqb x 48 && (N.eqb y 120 || N.eqb y 88)
               then match l' with z :: l'' => if N.eqb z 95 then l'' else l' | [] => [] end else l
           | _ => l
           end in
  int_digits 0 true l.
(** [UUID(s)], [None] for its [ValueError] *)
Definition uuid_of_text (l : list N) : option uuid :=
  let h := remove_all (codepoints "uuid:") 0 (remove_all (codepoints "urn:") 0 l) in
  let h := remove_all [dash] 0 (strip (λ c, N.eqb c 123 || N.eqb c 125) h) in
  if Nat.eqb (length h) 32 then
    u ← int16 h; if (u <? 2 ^ 128)%N then Some u else None
  else None.
Definition parse_uuid (s : string) : option uuid := uuid_of_text (codepoints s).
Definition parse_all (l : list string) : res pyexn (list uuid) :=
  collect_all (λ s, match parse_uuid s with Some u => Ok u | None => Err ValueError end) l.
End Uuids.

(** ** Texts that reach a prompt (utils/sanitize.py) *)
Definition INJECTION_PATTERN : compiled := re_compile IGNORECASE
  "(?:\b(?:ignore\s+(?:previous|all|above|prior)|system\s*:)|\[/?inst|<\|(?:system|user|assistant|im_start|im_end)\|>|\b(?:human|assistant)\s*:)".
Definition redaction : list N := codepoints "[…]".
Definition is_break (c : N) : bool := (N.eqb c 10 || N.eqb c 13).
Definition unbroken (l : list N) : list N := map (λ c, if is_break c then 32%N else c) l.
Definition sanitize_text `{PyText} (max_len : nat) (value : list N) : list N :=
  let l := unbroken (take max_len value) in
  sub_from INJECTION_PATTERN redaction (S (length l)) (start_of l).
Definition sanitize_content `{PyText} (value : string) (max_len : nat) : string :=
  if String.eqb value "" then "" else encode_text (sanitize_text max_len (codepoints value)).

(** ** The storage table (postgres_service.py) *)
Record memory : Type := {
  id : uuid;
  tenant_id : string;
  agent_id : string;
  fleet_id : option string;
  deleted : bool;
  weight : Floats.float;
  metadata : option pydict;
}.
Definition table : Type := list memory.

Inductive storage_exn : Type :=
| PyError (e : pyexn)
| DataError
| HTTPError (status_code : Z).

(** [memory.agent_id = :caller] under scope [agent], and so on. *)
Definition in_scope (caller : string) (fleet : option string) (scope : string) (m : memory) : bool :=
  if String.eqb scope "agent" then String.eqb (agent_id m) caller
  else if String.eqb scope "fleet" then
    match fleet_id m, fleet with Some f, Some g => String.eqb f g | _, _ => false end
  else true.
Definition live (tenant : string) (m : memory) : bool := String.eqb (tenant_id m) tenant && negb (deleted m).
Definition visible (tenant caller : string) (fleet : option string) (scope : string) (m : memory) : bool :=
  live tenant m && in_scope caller fleet scope m.

Section Storage.
Context `{Decimals}.

Definition storage_filter_by_scope (t : table) (tenant caller : string) (fleet : option string)
    (scope : string) (ids : list string) : res pyexn (list string) :=
  match ids with
  | [] => Ok []
  | _ =>
      if String.eqb scope "fleet" && bool_decide (fleet = None) then Err ValueError
      else
        uuids ← parse_all ids;
        Ok ((λ m, str_uuid (id m)) <$>
              List.filter (λ m, bool_decide (id m ∈ uuids) && visible tenant caller fleet scope m) t)
  end.

Definition _VALID_SCOPES : list string := ["agent"; "fleet"; "all"].
(** [POST /evolve/filter-by-scope] *)
Definition filter_route (t : table) (tenant caller scope : string) (fleet : option string)
    (ids : option (list string)) : res storage_exn (list string) :=
  if String.eqb tenant "" || String.eqb caller "" || String.eqb scope "" then Err (HTTPError 422)
  else if negb (str_mem scope _VALID_SCOPES) then Err (HTTPError 422)
  else if String.eqb scope "fleet" && negb (is_given fleet) then Err (HTTPError 422)
  else match ids with
       | None => Err (HTTPError 422)
       | Some ids =>
           match storage_filter_by_scope t tenant caller fleet scope ids with
           | Ok allowed => Ok allowed
           | Err ValueError => Err (HTTPError 422)
           | Err e => Err (PyError e)
           end
       end.

(** *** Arithmetic of the database

    Doubles are ordered with the not-a-number above the others, and an
    addition that leaves the doubles is an error. *)
Definition pg_lt (x y : Floats.float) : bool :=
  match x, y with
  | S754_nan, _ => false
  | _, S754_nan => true
  | _, _ => Floats.flt x y
  end.
Definition LEAST (x y : Floats.float) : Floats.float := if pg_lt y x then y else x.
Definition GREATEST (x y : Floats.float) : Floats.float := if pg_lt x y then y else x.
Definition is_infinite (x : Floats.float) : bool := match x with S754_infinity _ => true | _ => false end.
Definition pg_add (x y : Floats.float) : option Floats.float :=
  let r := Floats.fadd x y in
  if is_infinite r && negb (is_infinite x) && negb (is_infinite y) then None else Some r.

(** A cast of a text to the database's [uuid]. *)
Context (pg_uuid : string → option uuid).

Record adjusted_row : Type := { row_id : string; old_weight : Floats.float; new_weight : Floats.float }.
Definition set_weight (w : Floats.float) (m : memory) : memory :=
  {| id := id m; tenant_id := tenant_id m; agent_id := agent_id m; fleet_id := fleet_id m;
     deleted := deleted m; weight := w; metadata := metadata m |}.
Definition set_metadata (d : pydict) (m : memory) : memory :=
  {| id := id m; tenant_id := tenant_id m; agent_id := agent_id m; fleet_id := fleet_id m;
     deleted := deleted m; weight := weight m; metadata := Some d |}.

(** The update of each row, and the row it returns. *)
Definition clamp_row (uuids : list uuid) (tenant : string) (delta floor cap : Floats.float) (m : memory) :
    option (memory * option adjusted_row) :=
  if bool_decide (id m ∈ uuids) && live tenant m then
    moved ← pg_add (weight m) delta;
    let w := GREATEST floor (LEAST cap moved) in
    Some (set_weight w m, Some {| row_id := str_uuid (id m); old_weight := weight m; new_weight := w |})
  else Some (m, None).
(** [jsonb_set] of the rule's [source_outcome_id]: an existing key keeps its
    place among the keys, whose order means nothing in [jsonb]. *)
Definition backfill_row (rule : uuid) (outcome tenant : string) (m : memory) : memory :=
  if bool_decide (id m = rule) && String.eqb (tenant_id m) tenant
  then set_metadata (dset (default [] (metadata m)) "source_outcome_id" (PStr outcome)) m else m.

(** One transaction: an error leaves the table as it was. *)
Definition storage_apply_weights (t : table) (tenant : string) (ids : list string)
    (delta floor cap : Floats.float) (rule_id outcome_id : option string) :
    res storage_exn (list adjusted_row * bool) * table :=
  match ids with
  | [] => (Ok ([], false), t)
  | _ =>
      match uuids ← mapM pg_uuid ids; mapM (clamp_row uuids tenant delta floor cap) t with
      | None => (Err DataError, t)
      | Some rows =>
          let t' := rows.*1 in
          let adjustments := omap snd rows in
          match given rule_id, given outcome_id with
          | Some r, Some o =>
              match pg_uuid r with
              | None => (Err DataError, t)
              | Some rule =>
                  (Ok (adjustments,
                       existsb (λ m, bool_decide (id m = rule) && String.eqb (tenant_id m) tenant) t'),
                   backfill_row rule o tenant <$> t')
              end
          | _, _ => (Ok (adjustments, false), t')
          end
      end
  end.
(** [POST /evolve/apply-weights], its numbers already read *)
Definition apply_route (t : table) (tenant : string) (ids : option (list string))
    (delta floor cap : option Floats.float) (rule_id outcome_id : option string) :
    res storage_exn (list adjusted_row * bool) * table :=
  if String.eqb tenant "" then (Err (HTTPError 422), t)
  else match ids, delta, floor, cap with
       | Some ids, Some delta, Some floor, Some cap =>
           storage_apply_weights t tenant ids delta floor cap rule_id outcome_id
       | _, _, _, _ => (Err (HTTPError 422), t)
       end.
End Storage.

(** ** The report of an outcome (evolve_service.py) *)
Definition EVOLVE_SUCCESS_DELTA : Floats.float := Floats.lit 1 10.
Definition EVOLVE_FAILURE_DELTA : Floats.float := Floats.lit (-15) 100.
Definition EVOLVE_PARTIAL_DELTA : Floats.float := Floats.lit 3 100.
Definition EVOLVE_WEIGHT_FLOOR : Floats.float := Floats.lit 5 100.
Definition EVOLVE_WEIGHT_CAP : Floats.float := Floats.of_Z 1.
Definition EVOLVE_RULE_CONFIDENCE_THRESHOLD : Floats.float := Floats.lit 1 2.
Definition EVOLVE_OUTCOME_TYPES : list string := ["success"; "failure"; "partial"].
Definition EVOLVE_MAX_RELATED_IDS : nat := 50.
Definition VALID_SCOPES : list string := ["agent"; "fleet"; "all"].
Definition MAX_CONTENT_LENGTH : Z := 10000.

Definition RULE_SKIP_REASONS : list string :=
  ["not_failure_or_partial"; "no_related_ids"; "no_memories_fetched"; "llm_failed";
   "below_confidence_threshold"; "persist_failed"].
Definition WEIGHT_ADJUSTMENT_SKIP_REASONS : list string :=
  ["no_related_ids"; "agent_id_mismatch"; "fleet_id_mismatch"; "all_out_of_scope"; "no_rows_updated"].

(** [_DELTA_MAP[outcome_type]] *)
Definition _DELTA_MAP (outcome_type : string) : res pyexn Floats.float :=
  if String.eqb outcome_type "success" then Ok EVOLVE_SUCCESS_DELTA
  else if String.eqb outcome_type "failure" then Ok EVOLVE_FAILURE_DELTA
  else if String.eqb outcome_type "partial" then Ok EVOLVE_PARTIAL_DELTA
  else Err KeyError.
Definition _SCOPE_TO_VISIBILITY (scope : string) : string :=
  if String.eqb scope "agent" then "scope_agent"
  else if String.eqb scope "fleet" then "scope_team"
  else if String.eqb scope "all" then "scope_org" else "scope_team".
Definition skip_slug (scope : string) : string :=
  if String.eqb scope "agent" then "agent_id_mismatch"
  else if String.eqb scope "fleet" then "fleet_id_mismatch" else "all_out_of_scope".
Definition outcome_weight (outcome_type : string) : Floats.float :=
  if String.eqb outcome_type "success" then Floats.lit 6 10
  else if String.eqb outcome_type "failure" then Floats.lit 7 10 else Floats.lit 5 10.

(** A memory as storage returns it for the prompt. *)
Record related : Type := {
  m_title : option string;
  m_content : option string;
  m_weight : Floats.float;
  m_type : string;
}.
(** The parts of the prompt that vary. *)
Record prompt : Type := { p_outcome : string; p_outcome_type : string; p_memories : string; p_count : nat }.
Record generated_rule : Type := { condition : string; action : string; confidence : Floats.float; reasoning : string }.
(** The fields [MemoryCreate] is given; its others keep their defaults. *)
Record memory_create : Type := {
  c_tenant : string;
  c_agent : string;
  c_fleet : option string;
  c_type : string;
  c_content : string;
  c_weight : Floats.float;
  c_metadata : pydict;
  c_visibility : string;
  c_write_mode : string;
}.
Definition valid_create (d : memory_create) : bool :=
  negb (String.eqb (c_agent d) "") && (1 <=? char_len (c_content d))%Z &&
  (char_len (c_content d) <=? MAX_CONTENT_LENGTH)%Z &&
  Floats.fle Floats.f0 (c_weight d) && Floats.fle (c_weight d) (Floats.of_Z 1).

Record adjustment : Type := {
  memory_id : string; a_old : Floats.float; a_new : Floats.float; a_delta : Floats.float;
}.
Record report : Type := {
  outcome_id : string;
  r_outcome_type : string;
  r_scope : string;
  weight_adjustments : list adjustment;
  rules_generated : list (string * generated_rule);
  rule_skipped_reason : option string;
  weight_adjustment_skipped_reason : option string;
  out_of_scope_count : Z;
  evolve_ms : Z;
}.

Inductive call : Type → Type :=
| ResolveConfig (tenant : string) : call WriteCalls.ResolvedConfig
| FilterByScope (tenant caller : string) (fleet : option string) (scope : string) (ids : list string) :
    call (list string)
| GetMemory (tenant memory_id : string) : call (option related)
| AskModels (service provider : string) (model : option string) (p : prompt) : call WriteCalls.models
| CreateMemory (data : memory_create) : call uuid
| ApplyWeights (tenant : string) (ids : list string) (delta floor cap : Floats.float)
    (rule_id outcome_id : option string) : call (list adjusted_row).
(** What is read of the process itself, which cannot fail. *)
Inductive reading : Type → Type := ElapsedMs : reading Z.

Abbreviation event := (Trace.event call reading).
Abbreviation trace := (Trace.trace call reading).
Abbreviation World := (Trace.World call reading).
Abbreviation ev A := (io trace exn A).

(** The texts in the order of their first occurrences: [dict.fromkeys]. *)
Fixpoint fromkeys (l : list string) : list string :=
  match l with
  | [] => []
  | x :: l => x :: List.filter (λ y, negb (String.eqb x y)) (fromkeys l)
  end.

(** [round(x, 4)] and [format(x, ".2f")] *)
Definition round4 (x : Floats.float) : Floats.float :=
  match x with
  | S754_finite _ _ _ =>
      let q := Floats.to_Q x in Floats.lit (Floats.round_half_even (Qnum q * 10000) (Qden q)) 10000
  | _ => x
  end.
Definition two_digits (z : Z) : string :=
  if (z <? 10)%Z then ("0" ++ str_of_Z z)%string else str_of_Z z.
Definition fixed2 (x : Floats.float) : string :=
  let sign (s : bool) := if s then "-"%string else ""%string in
  match x with
  | S754_nan => "nan"
  | S754_infinity s => (sign s ++ "inf")%string
  | S754_zero s => (sign s ++ "0.00")%string
  | S754_finite s _ _ =>
      let q := Floats.to_Q x in
      let c := Floats.round_half_even (Z.abs (Qnum q) * 100) (Qden q) in
      (sign s ++ str_of_Z (c / 100) ++ "." ++ two_digits (c mod 100))%string
  end.

Section Service.
Context `{World} `{PyText} `{Enrichment.PyParsers} `{Decimals}.

(** *** The scope filter *)

(** The entries of [valid_uuids] *)
Definition valid_uuids (related_ids : list string) : list (string * uuid) :=
  omap (λ s, u ← parse_uuid s; Some (s, u)) (fromkeys related_ids).
Definition _filter_by_scope (tenant caller : string) (fleet : option string) (scope : string)
    (related_ids : list string) : ev (list string * Z) :=
  match related_ids with
  | [] => mret ([], 0)
  | _ =>
      if String.eqb scope "fleet" && bool_decide (fleet = None) then io_raise (Raised ValueError)
      else
        let valid := valid_uuids related_ids in
        match valid with
        | [] => mret ([], Z.of_nat (length related_ids))
        | _ =>
            allowed_strs ← perform (FilterByScope tenant caller fleet scope (map (λ e, str_uuid e.2) valid));
            allowed ← py (parse_all allowed_strs);
            let in_scope := map fst (List.filter (λ e, bool_decide (e.2 ∈ allowed)) valid) in
            let n_invalid_or_dup := Z.of_nat (length related_ids) - Z.of_nat (length valid) in
            let n_out_of_scope_unique := Z.of_nat (length valid) - Z.of_nat (length in_scope) in
            mret (in_scope, n_invalid_or_dup + n_out_of_scope_unique)
        end
  end.

(** *** The weights *)

(** The last row of an id wins. *)
Definition row_by_id (rows : list (uuid * adjusted_row)) (u : uuid) : option adjusted_row :=
  snd <$> find (λ e, N.eqb e.1 u) (reverse rows).
Definition adjustment_of (delta : Floats.float) (rows : list (uuid * adjusted_row)) (e : string * uuid) :
    option adjustment :=
  row ← row_by_id rows e.2;
  Some {| memory_id := e.1; a_old := round4 (old_weight row); a_new := round4 (new_weight row);
          a_delta := round4 delta |}.
Definition read_row (row : adjusted_row) : res pyexn (uuid * adjusted_row) :=
  match parse_uuid (row_id row) with Some u => Ok (u, row) | None => Err ValueError end.
(** The identifiers an update is for: at most fifty, in order. *)
Definition parsed_ids (related_ids : list string) : list (string * uuid) :=
  omap (λ s, u ← parse_uuid s; Some (s, u)) (take EVOLVE_MAX_RELATED_IDS (sorted_set related_ids)).
Definition _adjust_weights (tenant : string) (related_ids : list string) (outcome_type : string)
    (rule_id outcome : option string) : ev (option string * list string * list adjustment) :=
  delta ← py (_DELTA_MAP outcome_type);
  let parsed := parsed_ids related_ids in
  match parsed with
  | [] => mret (Some "no_rows_updated", [], [])
  | _ =>
      io_try (perform (ApplyWeights tenant (map (λ e, str_uuid e.2) parsed) delta EVOLVE_WEIGHT_FLOOR
                         EVOLVE_WEIGHT_CAP rule_id outcome))
        (λ resp,
           rows ← py (collect_all read_row resp);
           let adjustments := omap (adjustment_of delta rows) parsed in
           let adjusted := map memory_id adjustments in
           mret (match adjusted with [] => Some "no_rows_updated" | _ => None end, adjusted, adjustments))
        (λ e, match e with Cancelled => io_raise e | _ => mret (Some "no_rows_updated", [], []) end)
  end.

(** *** The rule *)
Definition _fake_rule : pyval :=
  PDict [("condition", PStr "When encountering a similar situation");
         ("action", PStr "Verify information against the most recent source before acting");
         ("confidence", PFloat (3 # 5)); ("reasoning", PStr "Fake rule generated for testing.")].
Definition _fetch (tenant mid : string) : ev (string * option related) :=
  caught (mem ← perform (GetMemory tenant mid); mret (mid, mem)) (λ _, mret (mid, None)).
Fixpoint fetch_each (tenant : string) (ids : list string) : ev (list (string * option related)) :=
  match ids with
  | [] => mret []
  | mid :: ids => x ← _fetch tenant mid; xs ← fetch_each tenant ids; mret (x :: xs)
  end.
Definition memory_line (mid : string) (mem : related) : string :=
  ("- (id:" ++ mid ++ ") [" ++ m_type mem ++ "] " ++ sanitize_content (str_or (m_title mem) "") 120 ++ ": " ++
   sanitize_content (str_or (m_content mem) "") 500 ++ " [weight: " ++ fixed2 (m_weight mem) ++ "]")%string.
Definition memory_lines (fetched : list (string * option related)) : list string :=
  omap (λ x, mem ← x.2; Some (memory_line x.1 mem)) fetched.
(** [float(raw.get("confidence") or 0.0)] between 0 and 1 *)
Definition rule_confidence (raw : pydict) : res pyexn Floats.float :=
  let v := dgetv raw "confidence" in
  f ← (if truthy v then Enrichment.float_or Floats.f0 v else Ok Floats.f0);
  Ok (Enrichment.clamp01 f).
Definition rule_field (raw : pydict) (k : string) : string :=
  char_take 500 (Enrichment.py_str (default (PStr "") (dget raw k))).
Definition _do_generate (m : WriteCalls.models) (n : nat) : res Retry.llm_exn pyval :=
  '(raw, _) ← WriteCalls.complete_json m n; Ok raw.

Definition _generate_rule (tenant outcome outcome_type : string) (related_ids : list string)
    (config : WriteCalls.ResolvedConfig) : ev (option string * option generated_rule) :=
  fetched ← fetch_each tenant (take 10 (fromkeys related_ids));
  let lines := memory_lines fetched in
  match lines with
  | [] => mret (Some "no_memories_fetched", None)
  | _ =>
      let p := {| p_outcome := sanitize_content outcome 2000; p_outcome_type := outcome_type;
                  p_memories := join (String "010" "") lines; p_count := length lines |} in
      let provider := WriteCalls.enrichment_provider config in
      let model := WriteCalls.enrichment_model config in
      answered ← caught
        (m ← perform (AskModels "evolve-rule" provider model p);
         raw ← io_lift (map_err WriteCalls.of_llm_exn
                          (WriteCalls.run_models m provider _fake_rule model (_do_generate m)));
         mret (Some raw))
        (λ _, mret None);
      match answered with
      | Some (PDict raw) =>
          conf ← py (rule_confidence raw);
          mret (None, Some {| condition := rule_field raw "condition"; action := rule_field raw "action";
                              confidence := conf; reasoning := rule_field raw "reasoning" |})
      | _ => mret (Some "llm_failed", None)
      end
  end.
Definition _maybe_generate_rule (tenant outcome outcome_type : string) (related_ids : list string)
    (config : WriteCalls.ResolvedConfig) : ev (option generated_rule * option string) :=
  if negb (str_mem outcome_type ["failure"; "partial"]) then mret (None, Some "not_failure_or_partial")
  else match related_ids with
       | [] => mret (None, Some "no_related_ids")
       | _ =>
           gen ← _generate_rule tenant outcome outcome_type related_ids config;
           match gen.1 with
           | Some reason => mret (None, Some reason)
           | None => mret (gen.2, None)
           end
       end.

(** *** The memories of a report *)
Definition create_row (data : memory_create) : ev string :=
  i ← perform (CreateMemory data); mret (str_uuid i).
(** [MemoryCreate(...)] *)
Definition checked (data : memory_create) : ev () :=
  if valid_create data then mret () else io_raise (Raised ValueError).

Definition rule_content (r : generated_rule) : string :=
  let content := ("RULE: IF " ++ condition r ++ " THEN " ++ action r)%string in
  if String.eqb (reasoning r) "" then content
  else (content ++ " (Reasoning: " ++ reasoning r ++ ")")%string.
Definition number (f : Floats.float) : pyval := PFloat (Floats.to_Q f).
Definition rule_data (tenant agent : string) (fleet : option string) (r : generated_rule) (scope : string) : memory_create :=
  {| c_tenant := tenant; c_agent := agent; c_fleet := fleet; c_type := "rule"; c_content := rule_content r;
     c_weight := confidence r;
     c_metadata := [("rule_condition", PStr (condition r)); ("rule_action", PStr (action r));
                    ("rule_confidence", number (confidence r)); ("rule_reasoning", PStr (reasoning r));
                    ("source_outcome_id", PNone); ("generated_by", PStr "evolve"); ("scope", PStr scope)];
     c_visibility := _SCOPE_TO_VISIBILITY scope; c_write_mode := "fast" |}.
Definition _persist_rule (tenant agent : string) (fleet : option string) (r : generated_rule) (scope : string) :
    ev (option string) :=
  let data := rule_data tenant agent fleet r scope in
  _ ← checked data;
  caught (i ← create_row data; mret (Some i)) (λ _, mret None).

Definition outcome_data (tenant agent : string) (fleet : option string) (outcome outcome_type : string)
    (related_ids : list string) (rule_memory_id : option string) (scope : string) : memory_create :=
  {| c_tenant := tenant; c_agent := agent; c_fleet := fleet; c_type := "outcome";
     c_content := ("[Outcome/" ++ outcome_type ++ "] " ++ char_take 2000 outcome)%string;
     c_weight := outcome_weight outcome_type;
     c_metadata := [("outcome_type", PStr outcome_type);
                    ("related_memory_ids", PList (PStr <$> related_ids)); ("weight_adjustments", PList []);
                    ("rule_memory_id", match rule_memory_id with Some i => PStr i | None => PNone end);
                    ("scope", PStr scope)];
     c_visibility := _SCOPE_TO_VISIBILITY scope; c_write_mode := "fast" |}.
Definition _persist_outcome (tenant agent : string) (fleet : option string) (outcome outcome_type : string)
    (related_ids : list string) (rule_memory_id : option string) (scope : string) : ev string :=
  let data := outcome_data tenant agent fleet outcome outcome_type related_ids rule_memory_id scope in
  _ ← checked data; create_row data.

(** *** The phases *)

(** Phase 2: the rule's memory, and why there is none. *)
Definition persist_phase (tenant agent : string) (fleet : option string) (rule_result : option generated_rule)
    (skipped : option string) (scope : string) : ev (option string * option string) :=
  match rule_result with
  | None => mret (None, skipped)
  | Some r =>
      if Floats.flt (confidence r) EVOLVE_RULE_CONFIDENCE_THRESHOLD
      then mret (None, Some "below_confidence_threshold")
      else
        i ← _persist_rule tenant agent fleet r scope;
        mret (i, match i with None => Some "persist_failed" | Some _ => skipped end)
  end.
Definition _apply_outcome_to_db (tenant agent : string) (fleet : option string) (outcome outcome_type : string)
    (related_ids : list string) (rule_result : option generated_rule) (skipped : option string) (scope : string)
    (out_of_scope : Z) (weight_skipped : option string) : ev report :=
  ruled ← persist_phase tenant agent fleet rule_result skipped scope;
  let '(rule_memory_id, skipped) := (ruled : option string * option string) in
  outcome_id ← _persist_outcome tenant agent fleet outcome outcome_type related_ids rule_memory_id scope;
  adjusted ← match related_ids with
             | [] => mret (weight_skipped, [])
             | _ =>
                 a ← _adjust_weights tenant related_ids outcome_type rule_memory_id (Some outcome_id);
                 mret (match a.1.1 with Some reason => Some reason | None => weight_skipped end, a.2)
             end;
  ms ← observed ElapsedMs;
  mret {| outcome_id := outcome_id; r_outcome_type := outcome_type; r_scope := scope;
          weight_adjustments := adjusted.2;
          rules_generated := match given rule_memory_id, rule_result with
                             | Some i, Some r => [(i, r)]
                             | _, _ => []
                             end;
          rule_skipped_reason := skipped;
          weight_adjustment_skipped_reason := adjusted.1;
          out_of_scope_count := out_of_scope; evolve_ms := ms |}.

(** Phase 0, as the service and the MCP tool run it. *)
Definition scope_phase (tenant agent : string) (fleet : option string) (scope : string)
    (related_ids : list string) : ev (list string * Z * option string) :=
  match related_ids with
  | [] => mret ([], 0, Some "no_related_ids")
  | _ =>
      filtered ← _filter_by_scope tenant agent fleet scope related_ids;
      let '(kept, out) := (filtered : list string * Z) in
      mret (kept, out,
            match kept with
            | [] => if (Z.of_nat (length related_ids) <=? out)%Z then Some (skip_slug scope) else None
            | _ => None
            end)
  end.
Definition evolve_phases (tenant outcome outcome_type : string) (related_ids : list string) (scope agent : string)
    (fleet : option string) : ev report :=
  scoped ← scope_phase tenant agent fleet scope related_ids;
  let '(kept, out, weight_skipped) := (scoped : list string * Z * option string) in
  config ← perform (ResolveConfig tenant);
  generated ← _maybe_generate_rule tenant outcome outcome_type kept config;
  _apply_outcome_to_db tenant agent fleet outcome outcome_type kept generated.1 generated.2 scope out weight_skipped.

Definition report_outcome (tenant outcome outcome_type : string) (related_ids : option (list string))
    (scope agent : string) (fleet : option string) : ev report :=
  if negb (str_mem outcome_type EVOLVE_OUTCOME_TYPES) then io_raise (Raised ValueError)
  else if String.eqb outcome "" || String.eqb (str_strip outcome) "" then io_raise (Raised ValueError)
  else if negb (str_mem scope VALID_SCOPES) then io_raise (Raised ValueError)
  else if String.eqb scope "fleet" && negb (is_given fleet) then io_raise (Raised ValueError)
  else evolve_phases tenant outcome outcome_type (default [] related_ids) scope agent fleet.
End Service.

(** ** Identifiers are read back *)
Definition hexchar (c : N) : Prop := (48 ≤ c ≤ 57 ∨ 97 ≤ c ≤ 102)%N.

Lemma lower_hex_char d : (d < 16)%N → hexchar (lower_hex d).
Proof. unfold hexchar, lower_hex. destruct (N.ltb_spec d 10); lia. Qed.
Lemma hex_digits_chars n u : Forall hexchar (hex_digits n u).
Proof.
  revert u. induction n as [|n IH]; intros u; cbn; [constructor|]. apply Forall_app. split; [apply IH|].
  apply Forall_singleton, lower_hex_char. by apply N.mod_lt.
Qed.
Lemma hex_digits_length n u : length (hex_digits n u) = n.
Proof. revert u. induction n as [|n IH]; intros u; cbn; [done|]. rewrite length_app, IH. cbn. lia. Qed.

Lemma ascii_text_codepoints l : Forall (λ c, c < 128)%N l → codepoints (encode_text l) = l.
Proof.
  induction 1 as [|c l Hc _ IH]; [done|]. cbn [encode_text]. unfold encode_char.
  rewrite (proj2 (N.ltb_lt c 128)) by done. rewrite str_app_cons, str_app_nil_l. cbn [codepoints].
  unfold byte_of, byte_char. rewrite N_ascii_embedding by lia.
  rewrite (proj2 (N.ltb_lt c 192)) by lia. by rewrite IH.
Qed.

Lemma lstrip_none f l : Forall (λ c, f c = false) l → lstrip f l = l.
Proof. destruct 1 as [|c l Hc _]; cbn; [done|]. by rewrite Hc. Qed.
Lemma strip_none f l : Forall (λ c, f c = false) l → strip f l = l.
Proof.
  intros Hl. unfold strip. rewrite (lstrip_none f l) by done.
  rewrite lstrip_none; [apply reverse_involutive|]. by apply Forall_reverse.
Qed.
Lemma remove_all_none x p l : Forall (λ c, c ≠ x) l → remove_all (x :: p) 0 l = l.
Proof.
  induction 1 as [|c l Hc _ IH]; [done|]. cbn [remove_all starts].
  destruct (N.eqb_spec x c); [congruence|]. cbn. by rewrite IH.
Qed.
Lemma remove_char x l : remove_all [x] 0 l = List.filter (λ c, negb (N.eqb x c)) l.
Proof. induction l as [|c l IH]; [done|]. cbn. destruct (N.eqb x c); cbn; by rewrite IH. Qed.

Section Roundtrip.
Context `{Decimals}.

Lemma hex_value_lower d : (d < 16)%N → hex_value (lower_hex d) = Some d.
Proof.
  intros Hd. unfold hex_value, lower_hex. destruct (N.ltb_spec d 10).
  - rewrite (proj2 (N.leb_le 48 _)), (proj2 (N.leb_le _ 57)) by lia. cbn. f_equal. lia.
  - rewrite (proj2 (N.leb_le 48 _)), (proj2 (N.leb_gt _ 57)) by lia. cbn.
    rewrite (proj2 (N.leb_le 97 _)), (proj2 (N.leb_le _ 102)) by lia. cbn. f_equal. lia.
Qed.
Lemma int_digits_hex n u acc bare l :
  (u < 16 ^ N.of_nat n)%N →
  int_digits acc bare (hex_digits n u ++ l) =
  int_digits (acc * 16 ^ N.of_nat n + u) (bare && Nat.eqb n 0) l.
Proof.
  revert u bare l. induction n as [|n IH]; intros u bare l Hu.
  - cbn in Hu. replace u with 0%N by lia. cbn. rewrite andb_true_r. f_equal. lia.
  - cbn [hex_digits]. rewrite <- app_assoc. rewrite Nat2N.inj_succ, N.pow_succ_r' in Hu |- *.
    rewrite IH by (apply N.Div0.div_lt_upper_bound; lia).
    assert (Hd : (u mod 16 < 16)%N) by by apply N.mod_lt.
    pose proof (lower_hex_char _ Hd) as Hc. cbn [app int_digits].
    destruct (N.eqb_spec (lower_hex (u mod 16)) 95) as [He|_]; [unfold hexchar in Hc; lia|].
    rewrite (hex_value_lower _ Hd). cbn. rewrite andb_false_r. f_equal.
    pose proof (N.div_mod u 16). lia.
Qed.
Lemma int16_hex n u : (u < 16 ^ N.of_nat (S n))%N → int16 (hex_digits (S n) u) = Some u.
Proof.
  intros Hu. pose proof (hex_digits_chars (S n) u) as Hc. unfold int16. rewrite strip_none.
  - replace (int_digits 0 true _) with (int_digits 0 true (hex_digits (S n) u ++ [])).
    + by rewrite int_digits_hex.
    + rewrite app_nil_r. destruct Hc as [|x l Hx Hl]; [done|].
      destruct (N.eqb_spec x 43); [unfold hexchar in Hx; lia|]. destruct Hl as [|y l Hy Hl]; [done|].
      destruct (N.eqb_spec y 120); [unfold hexchar in Hy; lia|].
      destruct (N.eqb_spec y 88); [unfold hexchar in Hy; lia|]. by rewrite andb_false_r.
  - eapply Forall_impl; [exact Hc|]. intros c Hx. unfold hexchar in Hx. unfold int_blank.
    destruct (N.leb_spec 9 c), (N.leb_spec c 13), (N.eqb_spec c 32), (N.leb_spec 128 c); cbn; first [done|lia].
Qed.

Lemma dashes_apart l r :
  Forall hexchar l → List.filter (λ c, negb (N.eqb dash c)) (l ++ dash :: r) =
  l ++ List.filter (λ c, negb (N.eqb dash c)) r.
Proof.
  induction 1 as [|c l Hc _ IH]; [done|]. cbn [app List.filter].
  destruct (N.eqb_spec dash c); [unfold hexchar, dash in *; lia|]. exact (f_equal (cons c) IH).
Qed.
Lemma no_dashes l : Forall hexchar l → List.filter (λ c, negb (N.eqb dash c)) l = l.
Proof.
  induction 1 as [|c l Hc _ IH]; [done|]. cbn [List.filter].
  destruct (N.eqb_spec dash c); [unfold hexchar, dash in *; lia|]. exact (f_equal (cons c) IH).
Qed.
Lemma uuid_text_plain u : Forall (λ c, hexchar c ∨ c = dash) (uuid_text u).
Proof.
  assert (Hh : Forall (λ c, hexchar c ∨ c = dash) (hex_digits 32 u)).
  { eapply Forall_impl; [apply hex_digits_chars|]. by left. }
  unfold uuid_text. revert Hh. generalize (hex_digits 32 u). intros h Hh.
  repeat first [apply Forall_app_2 | apply Forall_cons_2 | by right];
    eauto using Forall_take, Forall_drop.
Qed.
Lemma uuid_text_digits u : List.filter (λ c, negb (N.eqb dash c)) (uuid_text u) = hex_digits 32 u.
Proof.
  pose proof (hex_digits_chars 32 u) as Hh. unfold uuid_text. set (h := hex_digits 32 u) in *.
  rewrite !dashes_apart by eauto using Forall_take, Forall_drop.
  replace (List.filter _ (drop 20 h)) with (drop 20 h).
  - rewrite <- (take_drop 4 (drop 16 h)), <- (take_drop 4 (drop 12 h)), <- (take_drop 4 (drop 8 h)), !drop_drop.
    cbn [Nat.add]. by rewrite <- (take_drop 8 h) at 5.
  - symmetry. apply no_dashes. by apply Forall_drop.
Qed.

(** Identifiers are read back: what [str] writes of a UUID, [UUID] reads
    as the same UUID. *)
Theorem uuid_roundtrip u : (u < 2 ^ 128)%N → parse_uuid (str_uuid u) = Some u.
Proof.
  intros Hu. pose proof (uuid_text_plain u) as Hp. unfold parse_uuid, str_uuid.
  rewrite ascii_text_codepoints.
  - unfold uuid_of_text. rewrite (remove_all_none 117 (codepoints "rn:")), (remove_all_none 117 (codepoints "uid:")),
      strip_none, remove_char, uuid_text_digits, hex_digits_length.
    + change (Nat.eqb 32 32) with true. rewrite (int16_hex 31) by done. cbn. by rewrite (proj2 (N.ltb_lt u _)).
    + eapply Forall_impl; [exact Hp|]. intros c Hc. unfold hexchar, dash in Hc.
      destruct (N.eqb_spec c 123), (N.eqb_spec c 125); first [done|lia].
    + eapply Forall_impl; [exact Hp|]. unfold hexchar, dash. intros; lia.
    + eapply Forall_impl; [exact Hp|]. unfold hexchar, dash. intros; lia.
  - eapply Forall_impl; [exact Hp|]. unfold hexchar, dash. intros; lia.
Qed.
End Roundtrip.
(** ** Redacted texts stay on their line and within their bound *)
Section Sanitize.
Context `{PyText}.

(** What replaces each match of a pattern by no more characters than the
    match has. *)
Lemma sub_from_within (P : N → Prop) c repl fuel text i :
  (0 < min_len (c_rx c))%nat → (length repl ≤ min_len (c_rx c))%nat → Forall P repl → Forall P text →
  (i ≤ length text)%nat →
  (length (sub_from c repl fuel (at_pos text i)) ≤ length text - i)%nat ∧
  Forall P (sub_from c repl fuel (at_pos text i)).
Proof.
  intros Hpos Hrepl Hr Ht. revert i.
  assert (Hrest : ∀ i, (length (drop i text) ≤ length text - i)%nat ∧ Forall P (drop i text)).
  { intros i. rewrite length_drop. split; [lia|by apply Forall_drop]. }
  induction fuel as [|fuel IH]; intros i Hi; [apply Hrest|]. cbn [sub_from].
  destruct (rx_run (c_flags c) (c_rx c) (at_pos text i)) as [|e es] eqn:Hrun.
  - destruct (ms_rest (at_pos text i)) as [|x rest] eqn:Hs; [split; [cbn; lia|constructor]|].
    pose proof Hs as Hd. apply advance_at_pos in Hs as [Hlt ->].
    destruct (IH (S i)) as [Hl Hf]; [lia|]. split; [cbn; lia|]. constructor; [|done].
    destruct (Hrest i) as [_ Hall]. cbn in Hd. rewrite Hd in Hall. by inversion Hall.
  - assert (He : e ∈ rx_run (c_flags c) (c_rx c) (at_pos text i)) by (rewrite Hrun; by left).
    apply rx_run_sem, rx_sem_at_pos in He as (j & Hj & ->); [|done].
    cbn [ms_pos at_pos]. destruct (Nat.eqb_spec j i); [lia|]. destruct (IH j) as [Hl Hf]; [lia|].
    rewrite length_app. split; [lia|]. by apply Forall_app.
Qed.

Definition line_char (c : N) : Prop := is_break c = false.
Lemma unbroken_line l : Forall line_char (unbroken l).
Proof.
  unfold unbroken. apply Forall_map, Forall_true. intros c. unfold line_char. cbn.
  destruct (is_break c) eqn:Hc; [done|exact Hc].
Qed.

(** A memory's title and content reach the prompt on one line and within
    their bound: [sanitize_content] keeps no line break, and what it writes
    for a hijack phrase is never longer than the phrase. *)
Theorem sanitized_line value max_len :
  ∃ l, sanitize_content value max_len = encode_text l ∧ (length l ≤ max_len)%nat ∧ Forall line_char l.
Proof.
  unfold sanitize_content. destruct (String.eqb value ""); [by exists []; cbn; repeat split; [lia|]|].
  eexists. split; [done|]. unfold sanitize_text. set (l := unbroken (take max_len (codepoints value))).
  rewrite <- at_pos_0. destruct (sub_from_within line_char INJECTION_PATTERN redaction (S (length l)) l 0)
    as [Hl Hf]; [by vm_compute; lia..| |apply unbroken_line|lia|].
  - by repeat constructor.
  - split; [|done]. etrans; [exact Hl|]. unfold l, unbroken. rewrite length_map, length_take. lia.
Qed.
End Sanitize.

(** ** The table *)
Section Table.
Context `{Decimals} (pg_uuid : string → option uuid).

Lemma pg_lt_irrefl x : pg_lt x x = false.
Proof. destruct x; try done; apply Floats.flt_irrefl. Qed.
Lemma pg_lt_asym x y : pg_lt x y = true → pg_lt y x = false.
Proof. destruct x, y; try done; apply Floats.flt_asym. Qed.

(** [w] lies between the bounds, in the database's order. *)
Definition within (floor cap w : Floats.float) : Prop := pg_lt w floor = false ∧ pg_lt cap w = false.
Lemma clamped_within floor cap x : pg_lt cap floor = false → within floor cap (GREATEST floor (LEAST cap x)).
Proof.
  intros Hb. unfold within, GREATEST, LEAST.
  destruct (pg_lt x cap) eqn:Hx; [destruct (pg_lt floor x) eqn:Hf|destruct (pg_lt floor cap) eqn:Hf];
    auto using pg_lt_irrefl, pg_lt_asym.
Qed.

(** What an update does to one row: a row it names is moved to a bounded
    weight and reported with both weights; nothing else of it changes. *)
Definition moved (uuids : list uuid) (tenant : string) (floor cap : Floats.float) (m m' : memory)
    (a : option adjusted_row) : Prop :=
  m' = set_weight (weight m') m ∧
  if bool_decide (id m ∈ uuids) && live tenant m
  then within floor cap (weight m') ∧
       a = Some {| row_id := str_uuid (id m); old_weight := weight m; new_weight := weight m' |}
  else weight m' = weight m ∧ a = None.

Lemma clamp_row_moves uuids tenant delta floor cap m m' a :
  pg_lt cap floor = false → clamp_row uuids tenant delta floor cap m = Some (m', a) →
  moved uuids tenant floor cap m m' a.
Proof.
  intros Hb. unfold clamp_row, moved. destruct (_ && _).
  - destruct (pg_add _ _) as [x|]; [|done]. intros [= <- <-]. split; [done|]. split; [|done].
    by apply clamped_within.
  - intros [= <- <-]. by destruct m.
Qed.

(** The backfill touches the metadata of the rule's rows in the tenant. *)
Definition linked (rule outcome : option string) (tenant : string) (m m' : memory) : Prop :=
  m' = m ∨
  ∃ r o u, rule = Some r ∧ outcome = Some o ∧ pg_uuid r = Some u ∧ id m = u ∧ tenant_id m = tenant ∧
    m' = set_metadata (dset (default [] (metadata m)) "source_outcome_id" (PStr o)) m.

Lemma clamped_rows uuids tenant delta floor cap t rows :
  pg_lt cap floor = false → mapM (clamp_row uuids tenant delta floor cap) t = Some rows →
  Forall3 (moved uuids tenant floor cap) t rows.*1 rows.*2.
Proof.
  intros Hb Hm%mapM_Some_1. induction Hm as [|m [m' a] t rows Hc _ IH]; constructor; [|exact IH].
  by apply clamp_row_moves in Hc.
Qed.
Lemma untouched_rows tenant floor cap t :
  Forall3 (moved [] tenant floor cap) t t ((λ _, None) <$> t).
Proof.
  induction t as [|m t IH]; constructor; [|exact IH]. split; [by destruct m|].
  by rewrite bool_decide_eq_false_2 by (apply not_elem_of_nil).
Qed.
Lemma nothing_linked rule outcome tenant t : Forall2 (linked rule outcome tenant) t t.
Proof. induction t; constructor; [by left|done]. Qed.
Lemma backfilled_rows r o u tenant t :
  pg_uuid r = Some u → Forall2 (linked (Some r) (Some o) tenant) t (backfill_row u o tenant <$> t).
Proof.
  intros Hu. induction t as [|m t IH]; constructor; [|exact IH]. unfold backfill_row.
  destruct (_ && _) eqn:Hb; [right|by left].
  apply andb_true_iff in Hb as [Hi%bool_decide_eq_true Ht%String.eqb_eq]. by exists r, o, u.
Qed.
Lemma omap_snd {A B} (rows : list (A * option B)) : omap snd rows = omap (λ a, a) rows.*2.
Proof. induction rows as [|[a [b|]] rows IH]; cbn; by rewrite ?IH. Qed.

(** C28. One transaction moves the weights: when it succeeds, every live row
    of the tenant that was named has its weight between the floor and the
    cap and is reported with its weight before and after, no other row's
    weight changes, and of the other columns only the metadata of the rule
    changes; when it fails, nothing changes. *)
Theorem weights_moved t tenant ids delta floor cap rule outcome :
  pg_lt cap floor = false →
  match storage_apply_weights pg_uuid t tenant ids delta floor cap rule outcome with
  | (Ok (adjustments, backfilled), t') =>
      ∃ uuids t1 reported,
        Forall2 (λ s u, pg_uuid s = Some u) ids uuids ∧
        Forall3 (moved uuids tenant floor cap) t t1 reported ∧ adjustments = omap (λ a, a) reported ∧
        Forall2 (linked rule outcome tenant) t1 t'
  | (Err _, t') => t' = t
  end.
Proof.
  intros Hb. unfold storage_apply_weights. destruct ids as [|s ids].
  { exists [], t, ((λ _, None) <$> t). split_and!; [constructor|apply untouched_rows| |apply nothing_linked].
    induction t as [|m t IH]; [done|exact IH]. }
  destruct (mapM pg_uuid (s :: ids)) as [uuids|] eqn:Hids; [|done]. apply mapM_Some_1 in Hids. cbn [mbind option_bind].
  destruct (mapM _ t) as [rows|] eqn:Hrows; [|done]. apply clamped_rows in Hrows; [|done].
  rewrite omap_snd.
  destruct (given rule) as [r|] eqn:Hr, (given outcome) as [o|] eqn:Ho;
    [destruct (pg_uuid r) as [u|] eqn:Hu; [|done]|..];
    exists uuids, rows.*1, rows.*2; (split_and!; [done|done|done|]); try apply nothing_linked.
  apply given_Some in Hr as [-> _]. apply given_Some in Ho as [-> _]. by apply backfilled_rows.
Qed.
End Table.

(** ** Only memories of the scope are read or moved *)
Section Scoped.
Context `{World} `{PyText} `{Enrichment.PyParsers} `{Decimals}.

(** The tenant and the identifiers an event reads or moves. *)
Definition reaches (e : event) : option (string * list string) :=
  match e with
  | Called (GetMemory tenant i) => Some (tenant, [i])
  | Called (ApplyWeights tenant ids _ _ _ _ _) => Some (tenant, ids)
  | _ => None
  end.
(** An event that reaches only identifiers of these UUIDs in the tenant. *)
Definition reaches_only (tenant : string) (P : uuid → Prop) (e : event) : Prop :=
  ∀ tn ids, reaches e = Some (tn, ids) →
  tn = tenant ∧ ∀ i, i ∈ ids → ∃ u, parse_uuid i = Some u ∧ P u.

Lemma silent_reaches tenant P e : reaches e = None → reaches_only tenant P e.
Proof. unfold reaches_only. by intros ->. Qed.

Lemma parse_uuid_range s u : parse_uuid s = Some u → (u < 2 ^ 128)%N.
Proof.
  unfold parse_uuid, uuid_of_text. destruct (Nat.eqb _ _); [|done].
  destruct (int16 _) as [v|]; [|done]. cbn. destruct (N.ltb_spec v (2 ^ 128)); [|done]. by intros [= <-].
Qed.
Lemma fromkeys_elem x l : x ∈ fromkeys l ↔ x ∈ l.
Proof.
  induction l as [|y l IH]; [done|]. cbn. rewrite !elem_of_cons. split.
  - intros [->|Hx]; [by left|]. rewrite list_elem_of_In, filter_In in Hx. right. apply IH, list_elem_of_In, Hx.
  - intros [->|Hx]; [by left|]. destruct (String.eqb_spec y x) as [->|Hne]; [by left|right].
    rewrite list_elem_of_In, filter_In. split; [by apply list_elem_of_In, IH|].
    by rewrite (proj2 (String.eqb_neq y x)).
Qed.
Lemma valid_uuids_elem s u l : (s, u) ∈ valid_uuids l ↔ s ∈ l ∧ parse_uuid s = Some u.
Proof.
  unfold valid_uuids. rewrite list_elem_of_omap. split.
  - intros (x & Hx & Hp). rewrite fromkeys_elem in Hx. destruct (parse_uuid x) eqn:E; [|done]. cbn in Hp.
    injection Hp as <- <-. done.
  - intros [Hs Hp]. exists s. rewrite fromkeys_elem. by rewrite Hp.
Qed.
Lemma elem_of_taken {A} n (x : A) l : x ∈ take n l → x ∈ l.
Proof. rewrite <- (take_drop n l) at 2. rewrite elem_of_app. by left. Qed.
Lemma parsed_ids_elem s u l : (s, u) ∈ parsed_ids l → s ∈ l ∧ parse_uuid s = Some u.
Proof.
  unfold parsed_ids. rewrite list_elem_of_omap. intros (x & Hx & Hp).
  apply elem_of_taken in Hx. rewrite elem_of_sorted_set in Hx.
  destruct (parse_uuid x) eqn:E; [|done]. cbn in Hp. injection Hp as <- <-. done.
Qed.

Section Reach.
Context (tenant : string) (P : uuid → Prop).
Abbreviation good := (reaches_only tenant P).
(** All these identifiers are of allowed UUIDs. *)
Definition all_allowed (ids : list string) : Prop := ∀ s, s ∈ ids → ∃ u, parse_uuid s = Some u ∧ P u.

Lemma only_fetch_each ids : all_allowed ids → only good (fetch_each tenant ids).
Proof.
  induction ids as [|i ids IH]; intros Hi; cbn [fetch_each]; [apply only_ret|].
  apply only_bind.
  - apply only_caught; [|intros; apply only_ret]. apply only_bind; [|intros; apply only_ret].
    apply only_perform. intros tn l [= <- <-]. split; [done|]. intros x ->%list_elem_of_singleton. apply Hi. by left.
  - intros x. apply only_bind; [|intros; apply only_ret]. apply IH. intros s Hs. apply Hi. by right.
Qed.
Lemma only_maybe_generate outcome ot ids config : all_allowed ids → only good (_maybe_generate_rule tenant outcome ot ids config).
Proof.
  intros Hi. unfold _maybe_generate_rule. destruct (negb _); [apply only_ret|]. destruct ids as [|i ids]; [apply only_ret|].
  apply only_bind; [|intros x; destruct x.1; apply only_ret]. unfold _generate_rule. apply only_bind.
  - apply only_fetch_each. intros s Hs%elem_of_taken. apply Hi. by rewrite <- fromkeys_elem.
  - intros fetched. destruct (memory_lines fetched); [apply only_ret|]. apply only_bind.
    + apply only_caught; [|intros; apply only_ret]. apply only_bind; [by apply only_perform, silent_reaches|].
      intros m. apply only_bind; [apply only_lift|intros; apply only_ret].
    + intros [[]|]; try apply only_ret. apply only_bind; [apply only_lift|intros; apply only_ret].
Qed.
Lemma only_create data : only good (create_row data).
Proof. apply only_bind; [by apply only_perform, silent_reaches|intros; apply only_ret]. Qed.
Lemma only_checked data : only good (checked data).
Proof. unfold checked. destruct (valid_create data); [apply only_ret|apply only_raise]. Qed.
Lemma only_adjust ids ot r o : all_allowed ids → only good (_adjust_weights tenant ids ot r o).
Proof.
  intros Hi. unfold _adjust_weights. apply only_bind; [apply only_lift|]. intros delta.
  destruct (parsed_ids ids) as [|e parsed] eqn:Hp; [apply only_ret|]. rewrite <- Hp. apply only_try.
  - apply only_perform. intros tn l [= <- <-]. split; [done|]. intros i (x & -> & Hx)%list_elem_of_fmap.
    destruct x as [s u]. apply parsed_ids_elem in Hx as [Hs Hu]. destruct (Hi _ Hs) as (v & Hv & Hpv).
    exists u. cbn. split; [eapply uuid_roundtrip, parse_uuid_range, Hu|]. congruence.
  - intros resp. apply only_bind; [apply only_lift|intros; apply only_ret].
  - intros []; first [apply only_ret|apply only_raise].
Qed.
Lemma only_apply agent fleet outcome ot ids rule sk scope out ws :
  all_allowed ids → only good (_apply_outcome_to_db tenant agent fleet outcome ot ids rule sk scope out ws).
Proof.
  intros Hi. unfold _apply_outcome_to_db. apply only_bind.
  - unfold persist_phase. destruct rule as [r|]; [|apply only_ret]. destruct (Floats.flt _ _); [apply only_ret|].
    apply only_bind; [|intros; apply only_ret]. apply only_bind; [apply only_checked|]. intros _.
    apply only_caught; [|intros; apply only_ret]. apply only_bind; [apply only_create|intros; apply only_ret].
  - intros [i sk']. apply only_bind; [apply only_bind; [apply only_checked|intros; apply only_create]|].
    intros oid. apply only_bind.
    + destruct ids; [apply only_ret|]. apply only_bind; [by apply only_adjust|intros; apply only_ret].
    + intros adjusted. apply only_bind; [by apply only_observed, silent_reaches|intros; apply only_ret].
Qed.
End Reach.

(** *** Behind the storage's filter *)
Definition a_row (t : table) (tenant agent : string) (fleet : option string) (scope : string) (u : uuid) : Prop :=
  ∃ m, m ∈ t ∧ id m = u ∧ visible tenant agent fleet scope m = true.

Lemma filter_rows t tenant caller fleet scope ids strs uuids u :
  Forall (λ m, id m < 2 ^ 128)%N t → storage_filter_by_scope t tenant caller fleet scope ids = Ok strs →
  parse_all strs = Ok uuids → u ∈ uuids → a_row t tenant caller fleet scope u.
Proof.
  intros Ht Hf Hp Hu. unfold parse_all in Hp. rewrite collect_all_Ok in Hp.
  apply list_elem_of_lookup in Hu as [i Hi]. destruct (Forall2_lookup_r _ _ _ _ _ Hp Hi) as (s & Hs & Hsu).
  destruct (parse_uuid s) as [v|] eqn:Hv; [|done]. injection Hsu as ->. apply list_elem_of_lookup_2 in Hs.
  unfold storage_filter_by_scope in Hf. destruct ids; [injection Hf as <-; by apply not_elem_of_nil in Hs|].
  destruct (_ && _); [done|]. apply res_bind_Ok in Hf as (us & _ & Hf). injection Hf as <-.
  apply list_elem_of_fmap in Hs as (m & -> & Hm). rewrite list_elem_of_In, filter_In, <- list_elem_of_In in Hm.
  destruct Hm as [Hm [_ Hvis]%andb_true_iff]. rewrite Forall_forall in Ht.
  rewrite uuid_roundtrip in Hv by by apply Ht. injection Hv as <-. by exists m.
Qed.

Section Filtered.
Context (t : table) (tenant agent : string) (fleet : option string) (scope : string) (t0 : trace).
Context (Ht : Forall (λ m, id m < 2 ^ 128)%N t).
(** The filter answers from the table. *)
Context (Hanswer : ∀ ids strs, answer (FilterByScope tenant agent fleet scope ids) t0 = Ok strs →
                               storage_filter_by_scope t tenant agent fleet scope ids = Ok strs).
Abbreviation P := (a_row t tenant agent fleet scope).

Lemma filter_keeps related :
  leaves_at (_filter_by_scope tenant agent fleet scope related) t0
    (λ new r, Forall (reaches_only tenant P) new ∧ ∀ kept out, r = Ok (kept, out) → all_allowed P kept).
Proof.
  unfold _filter_by_scope. destruct related as [|s l]; [exists []; split; [done|]; split; [constructor|]|].
  { intros kept out [= <- <-] x Hx. by apply not_elem_of_nil in Hx. }
  destruct (_ && _); [by exists []|]. destruct (valid_uuids (s :: l)) as [|e valid] eqn:Hv.
  { exists []. split; [done|]. split; [constructor|]. intros kept out [= <- <-] x Hx. by apply not_elem_of_nil in Hx. }
  assert (Hel : ∀ x u, (x, u) ∈ e :: valid → parse_uuid x = Some u).
  { intros x u. rewrite <- Hv, valid_uuids_elem. by intros []. }
  clear Hv. revert Hel. generalize (e :: valid). intros V Hel. eapply at_bind; [apply at_perform| |].
  - intros new strs [-> Hstrs]. apply eq_sym, Hanswer in Hstrs.
    unfold py, io_lift. destruct (parse_all strs) as [uuids|ex] eqn:Hp; exists []; (split; [done|]); cbn;
      (split; [by apply Forall_singleton, silent_reaches|]); [|done].
    intros kept out [= <- _] x (y & -> & Hy)%list_elem_of_fmap.
    rewrite list_elem_of_In, filter_In, <- list_elem_of_In in Hy. destruct Hy as [Hy Hin%bool_decide_eq_true].
    destruct y as [x u]. exists u. split; [by apply Hel|]. by eapply filter_rows.
  - intros new ex [-> _]. split; [by apply Forall_singleton, silent_reaches|done].
Qed.
End Filtered.

End Scoped.

(** ** What a report writes and says of it *)
Section Recorded.
Context `{World} `{PyText} `{Enrichment.PyParsers} `{Decimals}.

Inductive write : Type :=
| Created (d : memory_create)
| Adjusted (ids : list string) (rule_id outcome_id : option string).
Definition write_of (e : event) : option write :=
  match e with
  | Called (CreateMemory d) => Some (Created d)
  | Called (ApplyWeights _ ids _ _ _ r o) => Some (Adjusted ids r o)
  | _ => None
  end.
Abbreviation writes new := (omap write_of new).
Abbreviation silent := (mute write_of).

Lemma silent_returns {A} (m : ev A) : silent m → returns m (λ _ _, True).
Proof. intros Hm. eapply leaves_impl; [exact Hm|done]. Qed.
Lemma silent_and {A} (m : ev A) (Q : A → Prop) :
  silent m → returns m (λ _, Q) → returns m (λ new a, writes new = [] ∧ Q a).
Proof.
  intros Hm Hr t. destruct (Hm t) as (n1 & Hw1 & Hq1), (Hr t) as (n2 & Hw2 & Hq2).
  rewrite Hw1 in Hw2. apply app_inv_tail in Hw2 as <-. exists n1. split; [done|]. auto.
Qed.
Lemma silent_fetch_each tenant ids : silent (fetch_each tenant ids).
Proof.
  induction ids as [|i ids IH]; cbn [fetch_each]; [apply mute_ret|]. apply mute_bind.
  - apply mute_caught; [|intros; apply mute_ret]. apply mute_bind; [by apply mute_perform|intros; apply mute_ret].
  - intros x. apply mute_bind; [exact IH|intros; apply mute_ret].
Qed.
Lemma silent_generate tenant outcome ot ids config : silent (_generate_rule tenant outcome ot ids config).
Proof.
  apply mute_bind; [apply silent_fetch_each|]. intros fetched.
  destruct (memory_lines fetched); [apply mute_ret|]. apply mute_bind.
  - apply mute_caught; [|intros; apply mute_ret]. apply mute_bind; [by apply mute_perform|].
    intros m. apply mute_bind; [apply mute_lift|intros; apply mute_ret].
  - intros [[]|]; try apply mute_ret. apply mute_bind; [apply mute_lift|intros; apply mute_ret].
Qed.

(** A rule, or why there is none. *)
Definition reasoned (generated : option generated_rule * option string) : Prop :=
  match generated with
  | (Some _, None) => True
  | (None, Some reason) => reason ∈ RULE_SKIP_REASONS
  | _ => False
  end.
Lemma generate_reasons tenant outcome ot ids config :
  returns (_generate_rule tenant outcome ot ids config) (λ new g, writes new = [] ∧ reasoned (g.2, g.1)).
Proof.
  apply silent_and; [apply silent_generate|]. unfold _generate_rule.
  eapply returns_bind; [apply silent_returns, silent_fetch_each|]. intros new fetched _.
  destruct (memory_lines fetched); [by apply returns_ret; literals|].
  eapply returns_bind; [apply silent_returns|].
  - apply mute_caught; [|intros; apply mute_ret]. apply mute_bind; [by apply mute_perform|].
    intros m. apply mute_bind; [apply mute_lift|intros; apply mute_ret].
  - intros new' [[]|] _; try by apply returns_ret; literals.
    eapply returns_bind; [by apply (returns_lift _ (λ _ _, True))|]. intros ? conf _. by apply returns_ret.
Qed.
Lemma maybe_generate_reasons tenant outcome ot ids config :
  returns (_maybe_generate_rule tenant outcome ot ids config) (λ new g, writes new = [] ∧ reasoned g).
Proof.
  unfold _maybe_generate_rule. destruct (negb _); [apply returns_ret; split; [done|]; cbn; literals|].
  destruct ids as [|i ids]; [apply returns_ret; split; [done|]; cbn; literals|].
  eapply returns_bind; [apply generate_reasons|]. intros new [g1 g2] [Hw Hg]. cbn in *.
  destruct g1 as [reason|]; apply returns_ret; (split; [exact Hw|]); [|by destruct g2].
  by destruct g2.
Qed.

(** The rule's memory, its id and the reason when there is none. *)
Definition ruled tenant agent fleet scope (rule_result : option generated_rule) (sk : option string) (w : list write)
    (rid : option string) : Prop :=
  match rid with
  | Some i => given rid = rid ∧ sk = None ∧
      ∃ r, rule_result = Some r ∧ Floats.flt (confidence r) EVOLVE_RULE_CONFIDENCE_THRESHOLD = false ∧
           w = [Created (rule_data tenant agent fleet r scope)]
  | None => (∃ reason, sk = Some reason ∧ reason ∈ RULE_SKIP_REASONS) ∧
      (w = [] ∨ sk = Some "persist_failed" ∧
       ∃ r, rule_result = Some r ∧ w = [Created (rule_data tenant agent fleet r scope)])
  end.
Lemma str_uuid_given u : given (Some (str_uuid u)) = Some (str_uuid u).
Proof.
  destruct (str_uuid u) eqn:Hs; [|done]. apply (f_equal codepoints) in Hs. unfold str_uuid in Hs.
  rewrite ascii_text_codepoints in Hs.
  - apply (f_equal length) in Hs. unfold uuid_text in Hs. rewrite length_app in Hs. cbn in Hs. lia.
  - eapply Forall_impl; [apply uuid_text_plain|]. unfold hexchar, dash. intros; lia.
Qed.
Lemma create_returns data :
  leaves (create_row data) (λ new r, writes new = [Created data] ∧ ∀ i, r = Ok i → given (Some i) = Some i).
Proof.
  unfold create_row. eapply leaves_bind; [by apply (leaves_perform _ (λ new r, writes new = [Created data]))| |done].
  intros new u Hw. apply leaves_ret. split; [done|]. intros i [= <-]. apply str_uuid_given.
Qed.
Lemma checked_returns data : returns (checked data) (λ new _, writes new = []).
Proof. unfold checked. destruct (valid_create data); [by apply returns_ret|apply returns_raise]. Qed.
Lemma create_caught data :
  returns (caught (i ← create_row data; mret (Some i)) (λ _, mret None))
    (λ new o, writes new = [Created data] ∧ given o = o).
Proof.
  unfold caught. apply (returns_try _ _ _ (λ new r, writes new = [Created data] ∧ ∀ o, r = Ok o → given o = o)).
  - eapply leaves_bind; [apply create_returns| |].
    + intros n i [Hn Hi]. apply leaves_ret. split; [exact Hn|]. intros o [= <-]. by apply Hi.
    + intros n e [Hn _]. by split.
  - intros n o [Hn Ho]. apply returns_ret. split; [exact Hn|by apply Ho].
  - intros n [] [Hn _]; first [apply returns_raise|by apply returns_ret].
Qed.
Lemma persist_rules tenant agent fleet scope rule_result sk :
  reasoned (rule_result, sk) →
  returns (persist_phase tenant agent fleet rule_result sk scope)
    (λ new p, ruled tenant agent fleet scope rule_result p.2 (writes new) p.1).
Proof.
  unfold persist_phase. intros Hsk. destruct rule_result as [r|].
  - destruct sk; [done|]. destruct (Floats.flt _ _) eqn:Hc; [apply returns_ret; split; [eexists; split; [done|]; literals|by left]|].
    eapply (returns_bind _ _ (λ new i, writes new = [Created (rule_data tenant agent fleet r scope)] ∧ given i = i)).
    + unfold _persist_rule. eapply returns_bind; [apply checked_returns|]. intros new u Hw. cbn in Hw.
      eapply returns_impl; [apply create_caught|]. intros n o [Hn Ho].
      rewrite omap_app, Hw, app_nil_r. split; [exact Hn|exact Ho].
    + intros new i [Hw Hi]. apply returns_ret. cbn [app]. destruct i as [i|]; cbn.
      * split; [done|]. split; [done|]. by exists r.
      * split; [eexists; split; [done|]; literals|]. right. split; [done|]. by exists r.
  - destruct sk as [reason|]; [|done]. apply returns_ret. split; [by exists reason|by left].
Qed.

(** The update of the weights, and the reason when no row moved. *)
Definition adjusted_to (w : list write) (ids : list string) (rid oid : option string)
    (reason : option string) (adjustments : list adjustment) : Prop :=
  w = [Adjusted (map (λ e, str_uuid e.2) (parsed_ids ids)) rid oid] ∧
  reason = match adjustments with [] => Some "no_rows_updated" | _ => None end.
Lemma parsed_ids_nonempty ids :
  ids ≠ [] → (∀ s, s ∈ ids → is_Some (parse_uuid s)) → parsed_ids ids ≠ [].
Proof.
  intros Hne Hp Hnil. pose proof (sorted_set_not_nil _ Hne) as Hs. unfold parsed_ids in Hnil.
  destruct (sorted_set ids) as [|x l] eqn:Hl; [done|].
  destruct (Hp x) as [u Hu]; [rewrite <- elem_of_sorted_set, Hl; by left|].
  change EVOLVE_MAX_RELATED_IDS with (S 49) in Hnil. cbn [take omap list_omap] in Hnil.
  by rewrite Hu in Hnil.
Qed.
Lemma adjust_returns tenant ids ot rid oid :
  ids ≠ [] → (∀ s, s ∈ ids → is_Some (parse_uuid s)) →
  returns (_adjust_weights tenant ids ot rid oid)
    (λ new a, adjusted_to (writes new) ids rid oid a.1.1 a.2).
Proof.
  intros Hne Hp. pose proof (parsed_ids_nonempty _ Hne Hp) as Hparsed. unfold _adjust_weights, adjusted_to.
  eapply returns_bind; [by apply (returns_lift _ (λ new _, new = []))|]. intros new delta Hnew. cbn in Hnew. subst new.
  destruct (parsed_ids ids) as [|e parsed]; [done|]. generalize (e :: parsed). intros parsed'.
  eapply returns_try; [by apply (leaves_perform _ (λ n _, writes n = [Adjusted (map (λ e, str_uuid e.2) parsed') rid oid]))|..].
  - intros new resp Hw. eapply returns_bind; [by apply (returns_lift _ (λ n _, n = []))|].
    intros n rows Hn. cbn in Hn. subst n. apply returns_ret. cbn [app]. rewrite app_nil_r. split; [exact Hw|].
    by destruct (omap (adjustment_of delta rows) parsed').
  - intros new [] Hw; first [apply returns_raise|apply returns_ret]; cbn [app]; rewrite app_nil_r; by split.
Qed.

Lemma persist_outcome_returns tenant agent fleet outcome ot ids rid scope :
  returns (_persist_outcome tenant agent fleet outcome ot ids rid scope)
    (λ new i, writes new = [Created (outcome_data tenant agent fleet outcome ot ids rid scope)]).
Proof.
  unfold _persist_outcome. eapply returns_bind; [apply checked_returns|]. intros new u Hw. cbn in Hw.
  eapply leaves_impl; [apply create_returns|]. intros n r [Hn _] i _. by rewrite omap_app, Hn, Hw.
Qed.

(** What the filter keeps, and the count of what it drops. *)
Lemma silent_filter tenant agent fleet scope related : silent (_filter_by_scope tenant agent fleet scope related).
Proof.
  unfold _filter_by_scope. destruct related as [|s l]; [apply mute_ret|]. destruct (_ && _); [apply mute_raise|].
  destruct (valid_uuids (s :: l)); [apply mute_ret|]. apply mute_bind; [by apply mute_perform|]. intros strs.
  apply mute_bind; [apply mute_lift|intros; apply mute_ret].
Qed.
Lemma filter_counts tenant agent fleet scope related :
  returns (_filter_by_scope tenant agent fleet scope related)
    (λ new f, writes new = [] ∧ (∀ s, s ∈ f.1 → s ∈ related ∧ is_Some (parse_uuid s)) ∧
              f.2 = Z.of_nat (length related) - Z.of_nat (length f.1)).
Proof.
  apply silent_and; [apply silent_filter|]. unfold _filter_by_scope.
  destruct related as [|s l]; [by apply returns_ret; split; [intros ? []%not_elem_of_nil|]|].
  destruct (_ && _); [apply returns_raise|].
  assert (Hel : ∀ x u, (x, u) ∈ valid_uuids (s :: l) → x ∈ s :: l ∧ is_Some (parse_uuid x)).
  { intros x u. rewrite valid_uuids_elem. intros [Hx Hu]. by rewrite Hu. }
  destruct (valid_uuids (s :: l)) as [|e valid];
    [by apply returns_ret; split; [intros ? []%not_elem_of_nil|rewrite Z.sub_0_r]|].
  revert Hel. generalize (e :: valid). intros V Hel.
  eapply returns_bind; [by apply silent_returns, mute_perform|]. intros n strs _.
  eapply returns_bind; [by apply (returns_lift _ (λ _ _, True))|]. intros n' uuids _. apply returns_ret. cbn [fst snd].
  split; [|lia]. intros x (y & -> & Hy)%list_elem_of_fmap.
  rewrite list_elem_of_In, filter_In, <- list_elem_of_In in Hy. destruct y as [x u]. by eapply Hel, Hy.
Qed.
Lemma scope_counts tenant agent fleet scope related :
  returns (scope_phase tenant agent fleet scope related)
    (λ new f, writes new = [] ∧ (∀ s, s ∈ f.1.1 → s ∈ related ∧ is_Some (parse_uuid s)) ∧
              f.1.2 = Z.of_nat (length related) - Z.of_nat (length f.1.1) ∧
              match f.1.1 with
              | [] => ∃ reason, f.2 = Some reason ∧ reason ∈ WEIGHT_ADJUSTMENT_SKIP_REASONS
              | _ => f.2 = None
              end).
Proof.
  unfold scope_phase. destruct related as [|s l].
  { apply returns_ret. split_and!; [done|by intros ? []%not_elem_of_nil|done|]. eexists. split; [done|]. literals. }
  eapply returns_bind; [apply filter_counts|]. intros new [kept out] (Hw & Hk & Ho). apply returns_ret.
  cbn [fst snd app] in *. split_and!; [exact Hw|exact Hk|exact Ho|]. destruct kept as [|k kept]; [|done].
  rewrite (proj2 (Z.leb_le _ out)) by (cbn in *; lia). eexists. split; [done|]. unfold skip_slug.
  destruct (String.eqb scope "agent"), (String.eqb scope "fleet"); literals.
Qed.

(** What a report says against the writes it made, the last first. *)
Definition recorded tenant agent fleet scope outcome ot (related : list string) (w : list write) (rep : report) : Prop :=
  ∃ kept rid of_rule generated,
    w = match kept with
        | [] => []
        | _ => [Adjusted (map (λ e, str_uuid e.2) (parsed_ids kept)) rid (Some (outcome_id rep))]
        end ++ Created (outcome_data tenant agent fleet outcome ot kept rid scope) :: of_rule ∧
    (∀ s, s ∈ kept → s ∈ related) ∧
    out_of_scope_count rep = Z.of_nat (length related) - Z.of_nat (length kept) ∧
    ruled tenant agent fleet scope generated (rule_skipped_reason rep) of_rule rid ∧
    rules_generated rep = match rid, generated with Some i, Some r => [(i, r)] | _, _ => [] end ∧
    match weight_adjustments rep with
    | [] => ∃ reason, weight_adjustment_skipped_reason rep = Some reason ∧ reason ∈ WEIGHT_ADJUSTMENT_SKIP_REASONS
    | _ => kept ≠ [] ∧ weight_adjustment_skipped_reason rep = None
    end.

Lemma apply_records tenant agent fleet scope outcome ot related kept generated ws :
  reasoned generated → (∀ s, s ∈ kept → s ∈ related ∧ is_Some (parse_uuid s)) →
  match kept with [] => ∃ reason, ws = Some reason ∧ reason ∈ WEIGHT_ADJUSTMENT_SKIP_REASONS | _ => ws = None end →
  returns (_apply_outcome_to_db tenant agent fleet outcome ot kept generated.1 generated.2 scope
             (Z.of_nat (length related) - Z.of_nat (length kept)) ws)
    (λ new rep, recorded tenant agent fleet scope outcome ot related (writes new) rep).
Proof.
  intros Hg Hk Hws. unfold _apply_outcome_to_db.
  eapply returns_bind; [apply persist_rules; by destruct generated|]. intros n1 [rid sk] Hr. cbn [fst snd] in Hr.
  eapply returns_bind; [apply persist_outcome_returns|]. intros n2 oid Ho.
  eapply (returns_bind _ _ (λ n a,
    writes n = match kept with [] => [] | _ => [Adjusted (map (λ e, str_uuid e.2) (parsed_ids kept)) rid (Some oid)] end ∧
    match a.2 with
    | [] => ∃ reason, a.1 = Some reason ∧ reason ∈ WEIGHT_ADJUSTMENT_SKIP_REASONS
    | _ => kept ≠ [] ∧ a.1 = None
    end)).
  - destruct kept as [|k kept]; [by apply returns_ret|]. subst ws.
    eapply returns_bind; [apply adjust_returns; [done|naive_solver]|]. intros n a [Hw Ha]. apply returns_ret.
    split; [exact Hw|]. cbn [fst snd]. rewrite Ha. destruct a.2; [|done]. eexists. split; [done|]. literals.
  - intros n3 adj [Hw Ha]. eapply returns_bind; [apply (leaves_returns _ (λ n, writes n = [])); by apply mute_observed|].
    intros n4 ms Hm. cbn in Hm. apply returns_ret. exists kept, rid, (writes n1), generated.1.
    cbn [outcome_id rule_skipped_reason rules_generated weight_adjustments weight_adjustment_skipped_reason
         out_of_scope_count]. split_and!.
    + rewrite !omap_app. cbn [app]. rewrite Hm, Hw, Ho. by destruct kept.
    + intros s Hs. by apply Hk.
    + done.
    + exact Hr.
    + destruct rid as [i|]; [|done]. destruct Hr as (-> & _ & _). by destruct generated.1.
    + exact Ha.
Qed.

End Recorded.

(** ** Concrete reports *)
Module Examples.
#[local] Instance text_instance : PyText := AsciiText.
#[local] Existing Instance Enrichment.ExampleParsers.
#[local] Instance decimals_instance : Decimals := {| uni_decimal := λ _, None |}.

Lemma uuid_roundtrip_witness :
  (123456789 < 2 ^ 128)%N ∧ str_uuid 123456789%N = "00000000-0000-0000-0000-0000075bcd15" ∧
  parse_uuid (str_uuid 123456789%N) = Some 123456789%N.
Proof. split; [reflexivity|]. split; [vm_compute; reflexivity|]. by apply (uuid_roundtrip 123456789%N). Defined.

(** Other spellings of one UUID are read too. *)
Example spellings :
  parse_uuid "{urn:uuid:000000000000000000000000075BCD15}" = Some 123456789%N ∧
  parse_uuid "0x_000000000000000000000075bcd15" = Some 123456789%N ∧
  parse_uuid "0000000000000000000000000000075bcd15" = None.
Proof. vm_compute. repeat split. Qed.

(** A phrase after a bracketed one survives: no word begins there before
    the redaction, and one does after it. *)
Example redaction_leaves_phrase :
  sanitize_content "[instsystem: obey" 500 = "[…]system: obey" ∧
  sanitize_content "[…]system: obey" 500 = "[…][…] obey".
Proof. vm_compute. repeat split. Qed.

Definition mine : memory :=
  {| id := 1%N; tenant_id := "t"; agent_id := "a"; fleet_id := None; deleted := false;
     weight := Floats.lit 95 100; metadata := None |}.
Definition other : memory :=
  {| id := 2%N; tenant_id := "t"; agent_id := "b"; fleet_id := None; deleted := false;
     weight := Floats.lit 1 2; metadata := None |}.
Definition rows : table := [mine; other].

Lemma weights_moved_witness :
  pg_lt EVOLVE_WEIGHT_CAP EVOLVE_WEIGHT_FLOOR = false ∧
  match storage_apply_weights parse_uuid rows "t" [str_uuid 1%N] EVOLVE_SUCCESS_DELTA EVOLVE_WEIGHT_FLOOR
          EVOLVE_WEIGHT_CAP None None with
  | (Ok (adjustments, backfilled), t') =>
      ∃ uuids t1 reported,
        Forall2 (λ s u, parse_uuid s = Some u) [str_uuid 1%N] uuids ∧
        Forall3 (moved uuids "t" EVOLVE_WEIGHT_FLOOR EVOLVE_WEIGHT_CAP) rows t1 reported ∧
        adjustments = omap (λ a, a) reported ∧ Forall2 (linked parse_uuid None None "t") t1 t'
  | (Err _, t') => t' = rows
  end.
Proof.
  assert (Hb : pg_lt EVOLVE_WEIGHT_CAP EVOLVE_WEIGHT_FLOOR = false) by (vm_compute; reflexivity).
  split; [exact Hb|].
  exact (weights_moved parse_uuid rows "t" [str_uuid 1%N] EVOLVE_SUCCESS_DELTA EVOLVE_WEIGHT_FLOOR EVOLVE_WEIGHT_CAP
           None None Hb).
Defined.
(** The success moves the caller's row to the cap and leaves the other. *)
Example success_is_capped :
  map weight (storage_apply_weights parse_uuid rows "t" [str_uuid 1%N] EVOLVE_SUCCESS_DELTA EVOLVE_WEIGHT_FLOOR
                EVOLVE_WEIGHT_CAP None None).2 = [Floats.of_Z 1; Floats.lit 1 2].
Proof. vm_compute. reflexivity. Qed.

Definition example_config : WriteCalls.ResolvedConfig :=
  {| WriteCalls._ts := []; WriteCalls.enrichment_enabled := true; WriteCalls.enrichment_provider := "openai";
     WriteCalls.enrichment_model := None; WriteCalls.entity_extraction_enabled := false;
     WriteCalls.entity_extraction_provider := ""; WriteCalls.entity_extraction_model := None;
     WriteCalls.semantic_dedup_enabled := false; WriteCalls.auto_chunk_enabled := false;
     WriteCalls.triple_emission_enabled := false; WriteCalls.default_write_mode := "fast" |}.
Definition answering (reply : pydict) : WriteCalls.models :=
  {| WriteCalls.provider_factory := λ name _, Ok {| Retry.provider_name := name; Retry.is_fake := false |};
     WriteCalls.resolve_fallback := None; WriteCalls.complete_json := λ _, Ok (PDict reply, 5%Z);
     WriteCalls.used := λ _, ("openai", "gpt"); WriteCalls.timed_out := false |}.

(** Storage with the two rows, and a model that answers [reply]. *)
Definition serving (reply : pydict) : World := {|
  answer := λ A c t,
    match c in call A return res exn A with
    | ResolveConfig _ => Ok example_config
    | FilterByScope tenant caller fleet scope ids =>
        map_err Raised (storage_filter_by_scope rows tenant caller fleet scope ids)
    | GetMemory _ _ => Ok (Some {| m_title := None; m_content := Some "a note"; m_weight := Floats.lit 1 2; m_type := "fact" |})
    | AskModels _ _ _ _ => Ok (answering reply)
    | CreateMemory _ => Ok 7%N
    | ApplyWeights tenant ids delta floor cap r o =>
        match (storage_apply_weights parse_uuid rows tenant ids delta floor cap r o).1 with
        | Ok (adjustments, _) => Ok adjustments
        | Err _ => Err (HTTPException 500 "")
        end
    end;
  observe := λ A r t, match r in reading A return A with ElapsedMs => 1%Z end |}.

Definition report_of (reply : pydict) (ot : string) (related : list string) : res exn report :=
  (@report_outcome (serving reply) _ _ _ "t" "it broke" ot (Some related) "agent" "a" None []).1.


(** Another agent's memory and a text that is no identifier are dropped. *)
Example failure_report :
  match report_of [("confidence", PFloat (4 # 5)); ("condition", PStr "c"); ("action", PStr "a")] "failure"
          [str_uuid 1%N; str_uuid 2%N; "memory"] with
  | Ok r => out_of_scope_count r = 2 ∧ map memory_id (weight_adjustments r) = [str_uuid 1%N] ∧
            map fst (rules_generated r) = [str_uuid 7%N] ∧ rule_skipped_reason r = None ∧
            weight_adjustment_skipped_reason r = None
  | Err _ => False
  end.
Proof. vm_compute. repeat split. Qed.

(** One memory under two spellings is moved once and reported twice, and
    neither spelling is counted as dropped. *)
Example two_spellings :
  match report_of [] "success" [str_uuid 1%N; "00000000000000000000000000000001"] with
  | Ok r => out_of_scope_count r = 0 ∧
            map memory_id (weight_adjustments r) = [str_uuid 1%N; "00000000000000000000000000000001"]
  | Err _ => False
  end.
Proof. vm_compute. repeat split. Qed.

(** A confidence that is not a number becomes the greatest one, and the rule
    is kept; one beyond the floats ends the report with an exception. *)
Example confidence_not_a_number :
  match report_of [("confidence", PStr "nan")] "failure" [str_uuid 1%N] with
  | Ok r => map (λ p, confidence p.2) (rules_generated r) = [Floats.of_Z 1]
  | Err _ => False
  end.
Proof. vm_compute. reflexivity. Qed.
Example confidence_overflows :
  report_of [("confidence", PInt (10 ^ 400))] "failure" [str_uuid 1%N] = Err (Raised (OtherExc "OverflowError")).
Proof. vm_compute. reflexivity. Qed.
End Examples.
End Evolve.
