(* ===== verification/Settings.v ===== *)
(** * Settings of an organization
    ([src/core-api/src/core_api/services/organization_settings.py],
    [src/common/organization_settings_merge.py] and the settings passes of
    core-storage-api's [postgres_service.py])
    The schema and its defaults, the validation of an update, the merge and
    the difference of settings, the storage transaction with its race of
    first inserts, the update with its eviction and broadcast, and the values
    resolved from what is stored.  Settings are JSON objects without the
    constants beyond JSON; [croniter] is an argument.  The caches' expiry and
    the texts of errors are left out. *)
From S2P Require Import Prelude Floats PiiPatterns Retry Enrichment WriteCalls Trace.
Module Settings.
Import Trace.
#[local] Open Scope string_scope.
#[local] Open Scope list_scope.

(** ** The schema *)
Inductive pytype : Type := TBool | TInt | TFloat | TStr | TList.
Definition MEMORY_RETENTION_MIN_DAYS : Z := 1.
Definition MEMORY_RETENTION_MAX_DAYS : Z := 30.
Definition DEFAULT_SETTINGS : pydict :=
  [("enrichment", PDict [("provider", PNone);
     ("model", PNone);
     ("enabled", PNone)]);
   ("recall", PDict [("provider", PNone);
     ("model", PNone);
     ("enabled", PNone)]);
   ("embedding", PDict [("provider", PNone);
     ("model", PNone)]);
   ("entity_extraction", PDict [("provider", PNone);
     ("model", PNone);
     ("enabled", PNone)]);
   ("fallback_llm", PDict [("provider", PNone);
     ("model", PNone)]);
   ("agent_digest", PDict [("enabled", PBool false);
     ("cadence", PStr "daily");
     ("provider", PStr "openai");
     ("model", PStr "gpt-5.4-mini");
     ("top_n", PInt 25);
     ("max_memories_per_agent", PInt 60);
     ("min_activity_threshold", PInt 3);
     ("max_cost_per_run_usd", PFloat (2 # 1));
     ("retention_days", PInt 90)]);
   ("search", PDict [("recall_boost", PNone);
     ("graph_retrieval", PNone);
     ("default_profile", PDict [])]);
   ("crystallizer", PDict [("auto_crystallize", PNone)]);
   ("dedup", PDict [("semantic_dedup_enabled", PNone)]);
   ("lifecycle", PDict [("lifecycle_automation_enabled", PNone);
     ("memory_retention_days", PNone)]);
   ("entity_linking", PDict [("auto_entity_linking_enabled", PNone)]);
   ("insights", PDict [("auto_insights_enabled", PNone)]);
   ("observability", PDict [("recall_logging_enabled", PNone);
     ("search_recall_logging_enabled", PNone);
     ("search_recall_near_miss_sample_rate", PNone)]);
   ("chunking", PDict [("auto_chunk_enabled", PNone)]);
   ("write", PDict [("default_write_mode", PNone);
     ("triple_emission_enabled", PNone);
     ("retraction_enabled", PNone)]);
   ("agents", PDict [("require_agent_approval", PNone)]);
   ("memclaw", PDict [("auto_upgrade_enabled", PNone)]);
   ("security_audit", PDict [("schedule_enabled", PNone);
     ("schedule_cron", PNone);
     ("alerts_enabled", PNone);
     ("alert_recipients", PNone);
     ("alert_score_below", PNone);
     ("alert_critical_findings_min", PNone);
     ("alert_score_drop_delta", PNone)]);
   ("skills_factory", PDict [("enabled", PBool false);
     ("description_max_bytes", PInt 160);
     ("body_max_bytes", PInt 40000);
     ("inbox_max_pending", PInt 50);
     ("rejection_cooloff_days", PInt 30);
     ("sentinel", PDict [("fail_on_critical", PBool true);
       ("auto_promote_clean", PBool false)]);
     ("forge", PDict [("cron_interval_hours", PInt 6);
       ("min_cluster_size", PInt 3);
       ("min_distinct_agents", PInt 3);
       ("freshness_window_days", PInt 14);
       ("llm_tokens_per_run", PInt 50000);
       ("max_writes_per_run", PInt 20)]);
     ("openclaw_bridge", PDict [("enabled", PBool false)])]);
   ("interviewer", PDict [("enabled", PBool false);
     ("period_hours", PInt 12);
     ("template_id", PStr "default-v1")]);
   ("entity_blocklist", PList (PStr <$> ["team"; "meeting"; "project"; "system"; "process"; "approach"; "update"; "issue"; "change"; "result"; "group"; "company"; "person"; "user"; "client"; "thing"; "stuff"; "idea"; "work"; "code"]));
   ("governance", PDict [("pii", PDict [("enabled", PBool false);
       ("action", PNone);
       ("categories", PDict [("email", PBool false);
         ("phone", PBool false);
         ("credit_card", PBool false);
         ("iban", PBool false);
         ("national_id", PBool false);
         ("api_key", PBool false);
         ("secret", PBool false)])]);
     ("non_business", PDict [("enabled", PBool false);
       ("disposition", PNone);
       ("pregate", PDict [("enabled", PBool false);
         ("provider", PNone);
         ("model", PNone);
         ("min_confidence", PNone);
         ("fail_closed", PBool false)])])]);
   ("api_keys", PDict [])].
Definition _LEAF_TYPES : list (string * list pytype) :=
  [("security_audit.schedule_enabled", [TBool]);
   ("security_audit.schedule_cron", [TStr]);
   ("security_audit.alerts_enabled", [TBool]);
   ("security_audit.alert_recipients", [TList]);
   ("security_audit.alert_score_below", [TInt; TFloat]);
   ("security_audit.alert_critical_findings_min", [TInt]);
   ("security_audit.alert_score_drop_delta", [TInt; TFloat]);
   ("search.recall_boost", [TBool]);
   ("search.graph_retrieval", [TBool]);
   ("crystallizer.auto_crystallize", [TBool]);
   ("dedup.semantic_dedup_enabled", [TBool]);
   ("lifecycle.lifecycle_automation_enabled", [TBool]);
   ("lifecycle.memory_retention_days", [TInt]);
   ("entity_linking.auto_entity_linking_enabled", [TBool]);
   ("insights.auto_insights_enabled", [TBool]);
   ("observability.recall_logging_enabled", [TBool]);
   ("observability.search_recall_logging_enabled", [TBool]);
   ("observability.search_recall_near_miss_sample_rate", [TInt; TFloat]);
   ("chunking.auto_chunk_enabled", [TBool]);
   ("agents.require_agent_approval", [TBool]);
   ("entity_blocklist", [TList]);
   ("memclaw.auto_upgrade_enabled", [TBool]);
   ("write.triple_emission_enabled", [TBool]);
   ("write.retraction_enabled", [TBool]);
   ("skills_factory.enabled", [TBool]);
   ("skills_factory.description_max_bytes", [TInt]);
   ("skills_factory.body_max_bytes", [TInt]);
   ("skills_factory.inbox_max_pending", [TInt]);
   ("skills_factory.rejection_cooloff_days", [TInt]);
   ("skills_factory.sentinel.fail_on_critical", [TBool]);
   ("skills_factory.sentinel.auto_promote_clean", [TBool]);
   ("skills_factory.forge.cron_interval_hours", [TInt]);
   ("skills_factory.forge.min_cluster_size", [TInt]);
   ("skills_factory.forge.min_distinct_agents", [TInt]);
   ("skills_factory.forge.freshness_window_days", [TInt]);
   ("skills_factory.forge.llm_tokens_per_run", [TInt]);
   ("skills_factory.forge.max_writes_per_run", [TInt]);
   ("skills_factory.openclaw_bridge.enabled", [TBool]);
   ("interviewer.enabled", [TBool]);
   ("interviewer.period_hours", [TInt]);
   ("interviewer.template_id", [TStr]);
   ("governance.pii.enabled", [TBool]);
   ("governance.pii.action", [TStr]);
   ("governance.pii.categories.email", [TBool]);
   ("governance.pii.categories.phone", [TBool]);
   ("governance.pii.categories.credit_card", [TBool]);
   ("governance.pii.categories.iban", [TBool]);
   ("governance.pii.categories.national_id", [TBool]);
   ("governance.pii.categories.api_key", [TBool]);
   ("governance.pii.categories.secret", [TBool]);
   ("governance.non_business.enabled", [TBool]);
   ("governance.non_business.disposition", [TStr]);
   ("governance.non_business.pregate.enabled", [TBool]);
   ("governance.non_business.pregate.provider", [TStr]);
   ("governance.non_business.pregate.model", [TStr]);
   ("governance.non_business.pregate.min_confidence", [TInt; TFloat]);
   ("governance.non_business.pregate.fail_closed", [TBool])].
Definition _LEAF_RANGES : list (string * (Z * Z)) :=
  [("lifecycle.memory_retention_days", (MEMORY_RETENTION_MIN_DAYS, MEMORY_RETENTION_MAX_DAYS));
   ("skills_factory.rejection_cooloff_days", (1, 365));
   ("interviewer.period_hours", (1, 168));
   ("skills_factory.body_max_bytes", (1, 10000000));
   ("skills_factory.description_max_bytes", (1, 10000))]%Z.
Definition _SEARCH_PROFILE_RULES : list (string * (pytype * (Q * Q))) :=
  [("top_k", (TInt, (inject_Z 1, inject_Z 20)));
   ("min_similarity", (TFloat, (Floats.to_Q (Floats.lit 1 10), Floats.to_Q (Floats.lit 9 10))));
   ("fts_weight", (TFloat, (Floats.to_Q (Floats.lit 0 1), Floats.to_Q (Floats.lit 1 1))));
   ("freshness_floor", (TFloat, (Floats.to_Q (Floats.lit 0 1), Floats.to_Q (Floats.lit 1 1))));
   ("freshness_decay_days", (TInt, (inject_Z 7, inject_Z 730)));
   ("recall_boost_cap", (TFloat, (Floats.to_Q (Floats.lit 1 1), Floats.to_Q (Floats.lit 3 1))));
   ("recall_decay_window_days", (TInt, (inject_Z 7, inject_Z 365)));
   ("graph_max_hops", (TInt, (inject_Z 0, inject_Z 5)));
   ("similarity_blend", (TFloat, (Floats.to_Q (Floats.lit 0 1), Floats.to_Q (Floats.lit 1 1))));
   ("candidate_pool_size", (TInt, (inject_Z 0, inject_Z 200)))].
Definition _PII_ACTIONS : list string := ["mask"; "drop"; "flag"].
Definition _NON_BUSINESS_DISPOSITIONS : list string := ["drop"; "keep_private"; "store"].
Definition _PREGATE_PROVIDERS : list string :=
  ["openai"; "anthropic"; "openrouter"; "gemini"; "vertex"; "local"; "fake"; "none"].

(** ** Merge and difference (organization_settings_merge.py) *)

(** What an object's entry becomes under a new value. *)
Definition merged_entry (merge : pyval → pyval → pyval) (old : option pyval) (v : pyval) : pyval :=
  match v, old with
  | PDict _, Some (PDict o) => merge (PDict o) v
  | _, _ => v
  end.
Fixpoint deep_merge (old new : pyval) {struct new} : pyval :=
  match old, new with
  | PDict o, PDict n =>
      PDict ((fix go (out n : pydict) : pydict :=
                match n with
                | [] => out
                | (k, v) :: n => go (dset out k (merged_entry deep_merge (dget out k) v)) n
                end) o n)
  | _, _ => new
  end.
Definition deep_merge_dict (old new : pydict) : pydict :=
  match deep_merge (PDict old) (PDict new) with PDict d => d | _ => new end.

(** [out.update(d)] *)
Definition dupdate (out d : pydict) : pydict := foldl (λ out kv, dset out kv.1 kv.2) out d.
Definition old_dict (o : pyval) : pydict := match o with PDict d => d | _ => [] end.
Fixpoint diff_from (old : pydict) (prefix : string) (new : pyval) {struct new} : pydict :=
  match new with
  | PDict n =>
      (fix go (out n : pydict) : pydict :=
         match n with
         | [] => out
         | (k, v) :: n =>
             let path := (prefix ++ k)%string in
             let old_v := dgetv old k in
             go (match v with
                 | PDict _ => dupdate out (diff_from (old_dict old_v) (path ++ ".")%string v)
                 | _ => if py_eqb v old_v then out else dset out path (PList [old_v; v])
                 end) n
         end) [] n
  | _ => []
  end.
Definition diff_settings (old new : pydict) : pydict := diff_from old "" (PDict new).

(** ** Validation of an update *)

(** [isinstance(v, t)] *)
Definition isinstance (v : pyval) (t : pytype) : bool :=
  match t, v with
  | TBool, PBool _ | TInt, PInt _ | TInt, PBool _ | TFloat, PFloat _ | TStr, PStr _ | TList, PList _ => true
  | _, _ => false
  end.
Definition is_bool (v : pyval) : bool := match v with PBool _ => true | _ => false end.
Definition is_dict (v : pyval) : bool := match v with PDict _ => true | _ => false end.
Definition allows_bool (ts : list pytype) : bool := existsb (λ t, match t with TBool => true | _ => false end) ts.

Definition no_keys (d : pydict) : bool := match d with [] => true | _ => false end.

Fixpoint _check_keys (payload schema : pyval) {struct payload} : res pyexn () :=
  match payload, schema with
  | PDict p, PDict s =>
      if forallb (λ kv, dhas s kv.1) p then
        (fix go (p : pydict) : res pyexn () :=
           match p with
           | [] => Ok ()
           | (k, v) :: p =>
               _ ← match dgetv s k with
                   | PDict sub =>
                       if negb (is_dict v) then Err ValueError
                       else if no_keys sub then Ok () else _check_keys v (PDict sub)
                   | _ => Ok ()
                   end;
               go p
           end) p
      else Err ValueError
  | _, _ => Err TypeError
  end.

(** The check of one leaf of a known path. *)
Definition in_range (path : string) (v : pyval) : bool :=
  match dget _LEAF_RANGES path, py_num v with
  | Some (lo, hi), Some q => Qle_bool (inject_Z lo) q && Qle_bool q (inject_Z hi)
  | _, _ => true
  end.
Definition leaf_ok (path : string) (v : pyval) : bool :=
  match v, dget _LEAF_TYPES path with
  | PNone, _ | _, None => true
  | _, Some ts =>
      negb (is_bool v && negb (allows_bool ts)) && existsb (isinstance v) ts && in_range path v
  end.
Fixpoint _validate_leaf_types (prefix : string) (payload : pyval) {struct payload} : res pyexn () :=
  match payload with
  | PDict p =>
      (fix go (p : pydict) : res pyexn () :=
         match p with
         | [] => Ok ()
         | (k, v) :: p =>
             let path := (prefix ++ k)%string in
             _ ← match v with
                 | PDict _ => _validate_leaf_types (path ++ ".")%string v
                 | _ => if leaf_ok path v then Ok () else Err ValueError
                 end;
             go p
         end) p
  | _ => Err AttributeError
  end.

(** [v in S] for a frozen set of texts. *)
Definition in_texts (v : pyval) (l : list string) : res pyexn bool :=
  match v with
  | PStr s => Ok (str_mem s l)
  | PList _ | PDict _ => Err TypeError
  | _ => Ok false
  end.
(** [if v is not None and v not in S: raise] *)
Definition check_enum (v : pyval) (l : list string) : res pyexn () :=
  match v with
  | PNone => Ok ()
  | _ => ok ← in_texts v l; if (ok : bool) then Ok () else Err ValueError
  end.
Definition check_confidence (v : pyval) : res pyexn () :=
  match v with
  | PNone => Ok ()
  | _ =>
      match py_num v with
      | None => Err TypeError
      | Some q => if Qle_bool 0 q && Qle_bool q 1 then Ok () else Err ValueError
      end
  end.
Definition _validate_governance_enums (payload : pydict) : res pyexn () :=
  match dgetv payload "governance" with
  | PDict gov =>
      pii ← WriteCalls.get_dict gov "pii";
      _ ← check_enum (dgetv pii "action") _PII_ACTIONS;
      nb ← WriteCalls.get_dict gov "non_business";
      _ ← check_enum (dgetv nb "disposition") _NON_BUSINESS_DISPOSITIONS;
      pregate ← WriteCalls.get_dict nb "pregate";
      _ ← check_enum (dgetv pregate "provider") _PREGATE_PROVIDERS;
      check_confidence (dgetv pregate "min_confidence")
  | _ => Ok ()
  end.

(** [float(z)] of an integer *)
Definition float_of_int (z : Z) : res pyexn pyval :=
  if Floats.is_finite (Floats.of_Z z) then Ok (PFloat (Floats.to_Q (Floats.of_Z z)))
  else Err (OtherExc "OverflowError").
Definition is_float (t : pytype) : bool := match t with TFloat => true | _ => false end.
Definition check_knob (key : string) (value : pyval) : res pyexn () :=
  match dget _SEARCH_PROFILE_RULES key with
  | None => Err ValueError
  | Some (expected_type, (lo, hi)) =>
      value ← match value with
              | PInt z => if is_float expected_type then float_of_int z else Ok value
              | _ => Ok value
              end;
      if is_bool value || negb (isinstance value expected_type) then Err ValueError
      else match py_num value with
           | Some q => if Qle_bool lo q && Qle_bool q hi then Ok () else Err ValueError
           | None => Err TypeError
           end
  end.
Fixpoint each {A} (f : A → res pyexn ()) (l : list A) : res pyexn () :=
  match l with [] => Ok () | x :: l => _ ← f x; each f l end.
Definition _validate_default_search_profile (payload : pydict) : res pyexn () :=
  search ← WriteCalls.get_dict payload "search";
  match dgetv search "default_profile" with
  | PNone => Ok ()
  | PDict dp => each (λ kv, check_knob kv.1 kv.2) dp
  | _ => Err ValueError
  end.

(** What [croniter(expr)] raises; a bad expression is a [ValueError], which
    [CroniterBadCronError] is an instance of. *)
Class Croniter := {
  croniter : pyval → res pyexn ();
  croniter_object : ∀ d, ∃ e, croniter (PDict d) = Err e;
}.
Definition check_cron `{Croniter} (payload : pydict) : res pyexn () :=
  audit ← WriteCalls.get_dict payload "security_audit";
  match dgetv audit "schedule_cron" with
  | PNone => Ok ()
  | expr => croniter expr
  end.
(** The checks of [update_settings]. *)
Definition validate `{Croniter} (new_settings : pydict) : res pyexn () :=
  _ ← _check_keys (PDict new_settings) (PDict DEFAULT_SETTINGS);
  _ ← _validate_leaf_types "" (PDict new_settings);
  _ ← _validate_governance_enums new_settings;
  _ ← _validate_default_search_profile new_settings;
  check_cron new_settings.

(** ** The storage transaction (postgres_service.py) *)
Record org_state : Type := {
  row : option pydict;
  audit : list (option string * pydict);
}.
(** [organization_settings.settings || EXCLUDED.settings] *)
Definition jsonb_concat (a b : pydict) : pydict := dupdate a b.
(** What follows the read of the current settings. *)
Definition write_back (st : org_state) (current new_settings : pydict) (changed_by : option string) :
    (pydict * bool) * org_state :=
  let diff := diff_settings current new_settings in
  match diff with
  | [] => ((current, false), st)
  | _ =>
      let merged := deep_merge_dict current new_settings in
      ((merged, true),
       {| row := Some match row st with None => merged | Some r => jsonb_concat r merged end;
          audit := audit st ++ [(changed_by, diff)] |})
  end.
(** The transaction when nothing comes between its read and its write: a row
    that exists is locked by the read. *)
Definition organization_settings_update (st : org_state) (new_settings : pydict) (changed_by : option string) :
    (pydict * bool) * org_state :=
  write_back st (default [] (row st)) new_settings changed_by.

(** Transactions that found no row to lock, before their write. *)
Record org_sys : Type := { org : org_state; unlocked : list (pydict * option string) }.
Inductive org_step (ok : pydict → Prop) : org_sys → org_sys → Prop :=
| update_whole st l new by_ : ok new →
    org_step ok {| org := st; unlocked := l |}
                {| org := (organization_settings_update st new by_).2; unlocked := l |}
| first_read st l new by_ : ok new → row st = None →
    org_step ok {| org := st; unlocked := l |} {| org := st; unlocked := (new, by_) :: l |}
| first_write st l1 l2 new by_ :
    org_step ok {| org := st; unlocked := l1 ++ (new, by_) :: l2 |}
                {| org := (write_back st [] new by_).2; unlocked := l1 ++ l2 |}.
Inductive org_reachable (ok : pydict → Prop) : org_sys → Prop :=
| org_start : org_reachable ok {| org := {| row := None; audit := [] |}; unlocked := [] |}
| org_next s s' : org_reachable ok s → org_step ok s s' → org_reachable ok s'.

(** ** The resolved values ([ResolvedConfig]) *)

(** The process-wide defaults ([core_api.config.settings]). *)
Record GlobalSettings : Type := {
  g_entity_extraction_provider : string;
  g_entity_extraction_model : string;
  g_embedding_provider : string;
  g_use_llm_for_memory_creation : bool;
  g_openai_api_key : option string;
  g_anthropic_api_key : option string;
  g_openrouter_api_key : option string;
  g_gemini_api_key : option string;
  g_schedule_enabled : bool;
  g_schedule_cron : string;
  g_alerts_enabled : bool;
  g_alert_recipients : list string;
  g_alert_score_below : pyval;
  g_alert_critical_findings_min : pyval;
  g_alert_score_drop_delta : pyval;
}.
(** [self._ts.get(section, {}).get(key)] *)
Definition setting (ts : pydict) (section key : string) : res pyexn pyval :=
  d ← WriteCalls.get_dict ts section; Ok (dgetv d key).
(** [val if val is not None else dflt] *)
Definition given_or (v dflt : pyval) : pyval := match v with PNone => dflt | _ => v end.
(** The same with [bool(val)] *)
Definition bool_or (v : pyval) (dflt : bool) : pyval := match v with PNone => PBool dflt | _ => PBool (truthy v) end.
Definition _remap_vertex (provider : pyval) : pyval :=
  if py_eqb provider (PStr "vertex") then PStr "openai" else provider.

Section Resolved.
Context (g : GlobalSettings) (ts : pydict).
Definition tenant_provider (section : string) : res pyexn pyval :=
  v ← setting ts section "provider";
  Ok (_remap_vertex (WriteCalls.py_or v (PStr (g_entity_extraction_provider g)))).
Definition tenant_model (section : string) : res pyexn pyval :=
  v ← setting ts section "model"; Ok (WriteCalls.py_or v (PStr (g_entity_extraction_model g))).
Definition enrichment_provider : res pyexn pyval := tenant_provider "enrichment".
Definition enrichment_model : res pyexn pyval := tenant_model "enrichment".
Definition enrichment_enabled : res pyexn pyval :=
  v ← setting ts "enrichment" "enabled"; Ok (given_or v (PBool (g_use_llm_for_memory_creation g))).
Definition recall_provider : res pyexn pyval := tenant_provider "recall".
Definition recall_model : res pyexn pyval := tenant_model "recall".
Definition recall_enabled : res pyexn pyval :=
  v ← setting ts "recall" "enabled"; Ok (given_or v (PBool (g_use_llm_for_memory_creation g))).
Definition embedding_provider : res pyexn pyval :=
  v ← setting ts "embedding" "provider"; Ok (WriteCalls.py_or v (PStr (g_embedding_provider g))).
Definition embedding_model : res pyexn pyval := setting ts "embedding" "model".
Definition entity_extraction_provider : res pyexn pyval := tenant_provider "entity_extraction".
Definition entity_extraction_model : res pyexn pyval := tenant_model "entity_extraction".
Definition entity_extraction_enabled : res pyexn pyval :=
  v ← setting ts "entity_extraction" "enabled";
  Ok (given_or v (PBool (negb (String.eqb (g_entity_extraction_provider g) "none")))).
Definition fallback_llm_provider : res pyexn pyval := setting ts "fallback_llm" "provider".
Definition fallback_llm_model : res pyexn pyval := setting ts "fallback_llm" "model".
(** [self._ts.get("api_keys", {}).get(name) or ...] *)
Definition api_key (name : string) (dflt : option string) : res pyexn pyval :=
  v ← setting ts "api_keys" name; Ok (WriteCalls.py_or v (WriteCalls.opt_str dflt)).
(** The first other provider with a key. *)
Fixpoint first_keyed (primary model : pyval) (candidates : list (string * pyval)) : pyval * pyval :=
  match candidates with
  | [] => (PNone, PNone)
  | (prov, key) :: candidates =>
      if negb (py_eqb (PStr prov) primary) && truthy key then (PStr prov, model)
      else first_keyed primary model candidates
  end.
Definition resolve_fallback : res pyexn (pyval * pyval) :=
  provider ← fallback_llm_provider;
  model ← fallback_llm_model;
  if truthy provider then Ok (provider, model)
  else
    primary ← enrichment_provider;
    openai ← api_key "openai_api_key" (g_openai_api_key g);
    anthropic ← api_key "anthropic_api_key" (g_anthropic_api_key g);
    gemini ← api_key "gemini_api_key" (g_gemini_api_key g);
    openrouter ← api_key "openrouter_api_key" (g_openrouter_api_key g);
    Ok (first_keyed primary model
          [("openai", openai); ("anthropic", anthropic); ("gemini", gemini); ("openrouter", openrouter)]).

Definition switch (section key : string) (dflt : bool) : res pyexn pyval :=
  v ← setting ts section key; Ok (given_or v (PBool dflt)).
Definition recall_boost : res pyexn pyval := switch "search" "recall_boost" true.
Definition graph_expand : res pyexn pyval := switch "search" "graph_retrieval" true.
Definition auto_crystallize_enabled : res pyexn pyval := switch "crystallizer" "auto_crystallize" true.
Definition semantic_dedup_enabled : res pyexn pyval := switch "dedup" "semantic_dedup_enabled" true.
Definition lifecycle_automation_enabled : res pyexn pyval := switch "lifecycle" "lifecycle_automation_enabled" true.
Definition memory_retention_days : res pyexn pyval :=
  v ← setting ts "lifecycle" "memory_retention_days"; Ok (given_or v (PInt 30)).
Definition auto_entity_linking_enabled : res pyexn pyval := switch "entity_linking" "auto_entity_linking_enabled" true.
Definition auto_insights_enabled : res pyexn pyval := switch "insights" "auto_insights_enabled" false.
Definition recall_logging_enabled : res pyexn pyval := switch "observability" "recall_logging_enabled" false.
Definition search_recall_logging_enabled : res pyexn pyval := switch "observability" "search_recall_logging_enabled" false.
(** [float(val)] where a text has been refused before *)
Definition py_float (v : pyval) : res pyexn Floats.float :=
  match v with
  | PFloat q => Ok (Floats.of_Q q)
  | PInt z => if Floats.is_finite (Floats.of_Z z) then Ok (Floats.of_Z z) else Err (OtherExc "OverflowError")
  | PBool b => Ok (Floats.of_Z (Z.b2z b))
  | PStr _ => Err ValueError
  | _ => Err TypeError
  end.
Definition search_recall_near_miss_sample_rate : res pyexn Floats.float :=
  v ← setting ts "observability" "search_recall_near_miss_sample_rate";
  match v with PNone => Ok Floats.f0 | _ => f ← py_float v; Ok (Enrichment.clamp01 f) end.
Definition auto_chunk_enabled : res pyexn pyval := switch "chunking" "auto_chunk_enabled" false.
(** The elements of an iteration, and [entry.lower()] of each. *)
Definition iterated (v : pyval) : res pyexn (list pyval) :=
  match v with
  | PList l => Ok l
  | PDict d => Ok (PStr <$> dkeys d)
  | PStr s => Ok (PStr <$> chars s)
  | _ => Err TypeError
  end.
Definition entity_blocklist `{PyText} : res pyexn (list string) :=
  let custom := dgetv ts "entity_blocklist" in
  match custom with
  | PNone =>
      l ← iterated (dgetv DEFAULT_SETTINGS "entity_blocklist");
      collect_all (λ v, match v with PStr s => Ok s | _ => Err TypeError end) l
  | _ =>
      l ← iterated custom;
      collect_all (λ v, match v with PStr s => Ok (str_lower s) | _ => Err AttributeError end) l
  end.
Definition default_write_mode : res pyexn string :=
  v ← setting ts "write" "default_write_mode";
  Ok (match v with PStr s => if str_mem s ["fast"; "strong"] then s else "fast" | _ => "fast" end).
Definition bool_switch (section key : string) (dflt : bool) : res pyexn pyval :=
  v ← setting ts section key; Ok (bool_or v dflt).
Definition triple_emission_enabled : res pyexn pyval := bool_switch "write" "triple_emission_enabled" true.
Definition retraction_enabled : res pyexn pyval := bool_switch "write" "retraction_enabled" true.
Definition require_agent_approval : res pyexn pyval := bool_switch "agents" "require_agent_approval" false.
Definition security_audit_schedule_enabled : res pyexn pyval :=
  bool_switch "security_audit" "schedule_enabled" (g_schedule_enabled g).
Definition security_audit_schedule_cron : res pyexn pyval :=
  v ← setting ts "security_audit" "schedule_cron"; Ok (given_or v (PStr (g_schedule_cron g))).
Definition security_audit_alerts_enabled : res pyexn pyval :=
  bool_switch "security_audit" "alerts_enabled" (g_alerts_enabled g).
Definition security_audit_alert_recipients : res pyexn (list pyval) :=
  v ← setting ts "security_audit" "alert_recipients";
  match v with
  | PNone => Ok (PStr <$> g_alert_recipients g)
  | PStr s => Ok (if String.eqb s "" then [] else [PStr s])
  | _ => iterated v
  end.
Definition security_audit_alert_score_below : res pyexn pyval :=
  v ← setting ts "security_audit" "alert_score_below"; Ok (given_or v (g_alert_score_below g)).
Definition security_audit_alert_critical_findings_min : res pyexn pyval :=
  v ← setting ts "security_audit" "alert_critical_findings_min"; Ok (given_or v (g_alert_critical_findings_min g)).
Definition security_audit_alert_score_drop_delta : res pyexn pyval :=
  v ← setting ts "security_audit" "alert_score_drop_delta"; Ok (given_or v (g_alert_score_drop_delta g)).
End Resolved.

(** *** Search profiles on the way out *)
Definition bound (t : pytype) (q : Q) : pyval := match t with TInt => PInt (Qnum q) | _ => PFloat q end.
Definition clean_knob (key : string) (value : pyval) : res pyexn (option pyval) :=
  match dget _SEARCH_PROFILE_RULES key with
  | None => Ok (Some value)
  | Some (expected_type, (lo, hi)) =>
      value ← match value with
              | PInt z => if is_float expected_type then float_of_int z else Ok value
              | PBool b => if is_float expected_type then float_of_int (Z.b2z b) else Ok value
              | _ => Ok value
              end;
      if negb (isinstance value expected_type) then Ok None
      else match py_num value with
           | Some q => Ok (Some (if negb (Qle_bool lo q) then bound expected_type lo
                                 else if negb (Qle_bool q hi) then bound expected_type hi else value))
           | None => Err TypeError
           end
  end.
Definition clean_entry (kv : string * pyval) : res pyexn (option (string * pyval)) :=
  o ← clean_knob kv.1 kv.2; Ok (v ← o; Some (kv.1, v)).
Definition validate_search_profile (profile : pydict) : res pyexn pydict := collect clean_entry profile.
Definition default_search_profile (ts : pydict) : res pyexn pydict :=
  v ← setting ts "search" "default_profile";
  if truthy v then match v with PDict d => validate_search_profile d | _ => Err AttributeError end else Ok [].

(** ** The service *)
Inductive call : Type → Type :=
| GetOrgSettings (tenant : string) : call pydict
| UpdateOrgSettings (tenant : string) (settings : pydict) (changed_by : option string) : call (pydict * bool)
| PublishSettingsChanged (tenant : string) : call unit.
(** What the process does to its own cache, which cannot fail. *)
Inductive reading : Type → Type :=
| CacheGet (tenant : string) : reading (option pydict)
| CacheSet (tenant : string) (settings : pydict) : reading unit
| CachePop (tenant : string) : reading unit.
Abbreviation event := (Trace.event call reading).
Abbreviation trace := (Trace.trace call reading).
Abbreviation World := (Trace.World call reading).
Abbreviation svc A := (io trace exn A).

Section Service.
Context `{World} `{Croniter}.
Definition invalidate_cache (tenant : string) : svc () := observed (CachePop tenant).
Definition _load_and_cache (tenant : string) : svc pydict :=
  resolved ← perform (GetOrgSettings tenant); _ ← observed (CacheSet tenant resolved); mret resolved.
Definition get_raw_settings (tenant : string) : svc pydict :=
  cached ← observed (CacheGet tenant);
  match cached with Some d => mret d | None => _load_and_cache tenant end.
Definition get_settings_for_display (tenant : string) : svc pydict :=
  raw ← get_raw_settings tenant; mret (deep_merge_dict DEFAULT_SETTINGS raw).
Definition update_settings (tenant : string) (new_settings : pydict) (changed_by : option string) : svc pydict :=
  _ ← py (validate new_settings);
  result ← perform (UpdateOrgSettings tenant new_settings changed_by);
  let '(merged, changed) := (result : pydict * bool) in
  if negb changed then mret (deep_merge_dict DEFAULT_SETTINGS merged)
  else
    _ ← invalidate_cache tenant;
    _ ← caught (perform (PublishSettingsChanged tenant)) (λ _, mret ());
    mret (deep_merge_dict DEFAULT_SETTINGS merged).
End Service.

(** ** Nodes of a document

    A document is read as a tree: [node v p w] says that [w] stands at the
    path [p] below [v]. *)
Inductive node : pyval → list string → pyval → Prop :=
| node_at d k v : (k, v) ∈ d → node (PDict d) [k] v
| node_below d k v p w : (k, v) ∈ d → node v p w → node (PDict d) (k :: p) w.

(** Objects have one value per key, as decoded JSON has. *)
Inductive wf : pyval → Prop :=
| wf_dict d : NoDup (dkeys d) → Forall (λ kv, wf kv.2) d → wf (PDict d)
| wf_leaf v : is_dict v = false → wf v.

Lemma wf_dict_inv d : wf (PDict d) → NoDup (dkeys d) ∧ Forall (λ kv, wf kv.2) d.
Proof. by inversion 1. Qed.
Lemma wf_item d k v : wf (PDict d) → (k, v) ∈ d → wf v.
Proof. intros [_ Hf]%wf_dict_inv Hin. rewrite Forall_forall in Hf. exact (Hf _ Hin). Qed.
Lemma wf_node v p w : wf v → node v p w → wf w.
Proof. intros Hv Hn. induction Hn as [d k v Hin|d k v p w Hin _ IH]; eauto using wf_item. Qed.

Lemma elem_dset (d : pydict) k x k' v : (k', v) ∈ dset d k x → (k', v) = (k, x) ∨ (k', v) ∈ d.
Proof.
  induction d as [|[k0 v0] d IH]; cbn; [intros ->%list_elem_of_singleton; by left|].
  destruct (String.eqb_spec k k0) as [->|Hne]; rewrite !elem_of_cons; naive_solver.
Qed.

(** *** Merging as a lookup *)
Definition merge_items (out n : pydict) : pydict :=
  foldl (λ out kv, dset out kv.1 (merged_entry deep_merge (dget out kv.1) kv.2)) out n.
Lemma deep_merge_items o n : deep_merge (PDict o) (PDict n) = PDict (merge_items o n).
Proof.
  cbn [deep_merge]. f_equal. revert o. induction n as [|[k v] n IH]; intros o; [done|]. cbn. apply IH.
Qed.
Lemma deep_merge_dict_items o n : deep_merge_dict o n = merge_items o n.
Proof. unfold deep_merge_dict. by rewrite deep_merge_items. Qed.

Lemma merge_items_dget o n k :
  NoDup (dkeys n) →
  dget (merge_items o n) k =
  match dget n k with Some v => Some (merged_entry deep_merge (dget o k) v) | None => dget o k end.
Proof.
  unfold merge_items, dkeys. revert o. induction n as [|[k0 v0] n IH]; intros o Hnd; [done|].
  apply NoDup_cons in Hnd as [Hni Hnd]. cbn [foldl fst snd dget]. rewrite IH by done.
  destruct (String.eqb_spec k k0) as [->|Hne].
  - assert (Hn : dget n k0 = None) by (apply dget_None; exact Hni). by rewrite Hn, dget_dset.
  - by rewrite !dget_dset_ne by done.
Qed.
Lemma merge_items_keys o n : NoDup (dkeys o) → NoDup (dkeys (merge_items o n)).
Proof.
  unfold merge_items. revert o. induction n as [|[k v] n IH]; intros o Ho; [done|]. by apply IH, dkeys_dset_NoDup.
Qed.

Lemma deep_merge_wf o n : wf o → wf n → wf (deep_merge o n).
Proof.
  revert o. induction n as [| | | | | | |n IH] using pyval_ind'; intros o Ho Hn; try (destruct o; exact Hn).
  destruct o as [| | | | | | |o]; try exact Hn. rewrite deep_merge_items.
  apply wf_dict_inv in Hn as [Hnd Hn]. apply wf_dict_inv in Ho as [Hod Ho].
  constructor; [by apply merge_items_keys|]. apply Forall_forall. intros [k v] Hin.
  apply dget_elem in Hin; [|by apply merge_items_keys]. rewrite merge_items_dget in Hin by done.
  rewrite Forall_forall in Hn, Ho, IH. cbn. destruct (dget n k) as [v'|] eqn:Hk.
  - injection Hin as <-. apply dget_Some in Hk as Hk'. unfold merged_entry.
    destruct v'; try exact (Hn _ Hk'). destruct (dget o k) as [[]|] eqn:Hok; try exact (Hn _ Hk').
    apply dget_Some in Hok. apply (IH _ Hk'); [exact (Ho _ Hok)|exact (Hn _ Hk')].
  - apply dget_Some in Hin. exact (Ho _ Hin).
Qed.

(** A node of a merge comes from one side, or is an object both sides have. *)
Lemma deep_merge_node o n p w :
  wf o → wf n → node (deep_merge o n) p w →
  node o p w ∨ node n p w ∨ (is_dict w = true ∧ ∃ d1 d2, node o p (PDict d1) ∧ node n p (PDict d2)).
Proof.
  revert o p w. induction n as [| | | | | | |n IH] using pyval_ind'; intros o p w Ho Hn Hp;
    try (right; left; destruct o; exact Hp).
  destruct o as [| | | | | | |o]; try (right; left; exact Hp). rewrite deep_merge_items in Hp.
  pose proof Ho as [Hod _]%wf_dict_inv. pose proof Hn as [Hnd _]%wf_dict_inv. rewrite Forall_forall in IH.
  assert (Hitem : ∀ k v, (k, v) ∈ merge_items o n →
    (k, v) ∈ o ∨ (k, v) ∈ n ∨ ∃ d1 d2, (k, PDict d1) ∈ o ∧ (k, PDict d2) ∈ n ∧ v = deep_merge (PDict d1) (PDict d2)).
  { intros k v Hin%dget_elem; [|by apply merge_items_keys]. rewrite merge_items_dget in Hin by done.
    destruct (dget n k) as [v'|] eqn:Hk; [|left; by apply dget_Some].
    injection Hin as <-. apply dget_Some in Hk. right. unfold merged_entry.
    destruct v'; try (by left). destruct (dget o k) as [[]|] eqn:Hok; try (by left).
    apply dget_Some in Hok. right. eauto. }
  inversion Hp as [d k v Hin|d k v p' w' Hin Hbelow]; subst;
    destruct (Hitem _ _ Hin) as [Hi|[Hi|(d1 & d2 & Hi1 & Hi2 & ->)]];
    [left; by constructor|right; left; by constructor| |left; by eapply node_below|right; left; by eapply node_below|].
  - right. right. rewrite deep_merge_items. split; [done|]. exists d1, d2. split; by constructor.
  - destruct (IH _ Hi2 (PDict d1) _ _ (wf_item _ _ _ Ho Hi1) (wf_item _ _ _ Hn Hi2) Hbelow)
      as [Hb|[Hb|(Hd & e1 & e2 & Hb1 & Hb2)]].
    + left. by eapply node_below.
    + right. left. by eapply node_below.
    + right. right. split; [done|]. exists e1, e2. split; by eapply node_below.
Qed.

(** ** What the validation accepts *)

(** The schema's verdict on a node: its parents know its key, and it is an
    object where the schema has one. *)
Fixpoint known (schema : pyval) (p : list string) (v : pyval) : bool :=
  match p, schema with
  | k :: p, PDict s =>
      no_keys s ||
      dhas s k && match dgetv s k with
                  | PDict sub => match p with [] => is_dict v | _ => known (PDict sub) p v end
                  | _ => true
                  end
  | _, _ => true
  end.

Record valid_node `{Croniter} (p : list string) (v : pyval) : Prop := {
  node_known : known (PDict DEFAULT_SETTINGS) p v = true;
  node_typed : is_dict v || leaf_ok (join "." p) v = true;
  node_action : p = ["governance"; "pii"; "action"] → check_enum v _PII_ACTIONS = Ok ();
  node_disposition :
    p = ["governance"; "non_business"; "disposition"] → check_enum v _NON_BUSINESS_DISPOSITIONS = Ok ();
  node_provider :
    p = ["governance"; "non_business"; "pregate"; "provider"] → check_enum v _PREGATE_PROVIDERS = Ok ();
  node_confidence : p = ["governance"; "non_business"; "pregate"; "min_confidence"] → check_confidence v = Ok ();
  node_knob k : p = ["search"; "default_profile"; k] → check_knob k v = Ok ();
  node_cron : p = ["security_audit"; "schedule_cron"] → v = PNone ∨ croniter v = Ok ();
}.
Definition valid `{Croniter} (d : pydict) : Prop := ∀ p v, node (PDict d) p v → valid_node p v.

Lemma each_ok {A} (f : A → res pyexn ()) l : each f l = Ok () ↔ ∀ x, x ∈ l → f x = Ok ().
Proof.
  induction l as [|x l IH]; cbn; [split; [by intros _ y Hy%not_elem_of_nil|done]|].
  rewrite res_bind_Ok. setoid_rewrite elem_of_cons. split.
  - intros ([] & Hx & Hl). rewrite IH in Hl. intros y [->|Hy]; auto.
  - intros Hall. exists (). split; [by apply Hall; left|]. apply IH. intros y Hy. by apply Hall; right.
Qed.

Lemma node_cons d k q v : NoDup (dkeys d) →
  node (PDict d) (k :: q) v ↔
  ∃ w, dget d k = Some w ∧ match q with [] => v = w | _ => node w q v end.
Proof.
  intros Hd. split.
  - inversion 1 as [d' k' w Hin|d' k' w q' v' Hin Hb]; subst; (exists v + exists w); (split; [by apply dget_elem|]); [done|].
    destruct q; [by inversion Hb|done].
  - intros (w & Hk%dget_Some & Hq). destruct q; [subst; by constructor|by eapply node_below].
Qed.
Lemma node_is_below v q w : node v q w → ∃ k q', q = k :: q'.
Proof. destruct 1; eauto. Qed.

Definition key_ok (s : pydict) (kv : string * pyval) : res pyexn () :=
  match dgetv s kv.1 with
  | PDict sub => if negb (is_dict kv.2) then Err ValueError else if no_keys sub then Ok () else _check_keys kv.2 (PDict sub)
  | _ => Ok ()
  end.
Lemma check_keys_each p s :
  _check_keys (PDict p) (PDict s) = if forallb (λ kv, dhas s kv.1) p then each (key_ok s) p else Err ValueError.
Proof.
  cbn [_check_keys]. destruct (forallb _ p); [|done]. induction p as [|[k v] p IH]; [done|]. cbn [each].
  by rewrite IH.
Qed.
Lemma check_keys_nodes p s :
  s ≠ [] → _check_keys (PDict p) (PDict s) = Ok () ↔ ∀ q v, node (PDict p) q v → known (PDict s) q v = true.
Proof.
  intros Hs. remember (PDict p) as P eqn:HP. revert s p HP Hs.
  induction P as [| | | | | | |p' IH] using pyval_ind'; intros sch p HP Hs; try done. injection HP as ->. rename sch into s.
  rewrite check_keys_each. rewrite Forall_forall in IH.
  assert (Hn : no_keys s = false) by by destruct s.
  transitivity (∀ k v, (k, v) ∈ p → dhas s k = true ∧ key_ok s (k, v) = Ok ()).
  { destruct (forallb _ p) eqn:Hf.
    - rewrite each_ok. split; [|intros Hall [k v] Hin; by apply Hall]. intros Hall k v Hin. split; [|by apply Hall].
      rewrite forallb_forall in Hf. apply (Hf (k, v)). by apply list_elem_of_In.
    - split; [done|]. intros Hall. apply not_true_iff_false in Hf. destruct Hf. apply forallb_forall.
      intros [k v] Hin%list_elem_of_In. by apply (Hall k v). }
  split.
  - intros Hall q v Hq. inversion Hq as [d k w Hin|d k w q' v' Hin Hb]; subst; cbn [known]; rewrite Hn; cbn [orb];
      destruct (Hall _ _ Hin) as [-> Hk]; cbn [andb]; unfold key_ok in Hk; cbn [fst snd] in Hk;
      destruct (dgetv s k) as [| | | | | | |sub]; try done; destruct (is_dict _) eqn:Hd; try done.
    cbn [negb] in Hk. destruct (node_is_below _ _ _ Hb) as (k' & q & ->).
    destruct (no_keys sub) eqn:Hsub; [by destruct sub|]. destruct w as [| | | | | | |d]; try done.
    refine (proj1 (IH _ Hin sub d eq_refl _) Hk _ _ Hb). by destruct sub.
  - intros Hall k v Hin. pose proof (Hall [k] v (node_at _ _ _ Hin)) as Hk. cbn [known] in Hk. rewrite Hn in Hk.
    cbn [orb] in Hk. apply andb_true_iff in Hk as [Hhas Hk]. split; [done|]. unfold key_ok. cbn [fst snd].
    destruct (dgetv s k) as [| | | | | | |sub] eqn:Hget; try done. destruct v as [| | | | | | |d]; try done. cbn [is_dict negb].
    destruct (no_keys sub) eqn:Hsub; [done|]. refine (proj2 (IH _ Hin sub d eq_refl _) _); [by destruct sub|].
    intros q v Hq. pose proof (Hall (k :: q) v (node_below _ _ _ _ _ Hin Hq)) as Hkq. cbn [known] in Hkq.
    rewrite Hn, Hhas, Hget in Hkq. cbn [orb andb] in Hkq. by destruct (node_is_below _ _ _ Hq) as (k' & q' & ->).
Qed.

Definition leaf_check (prefix : string) (kv : string * pyval) : res pyexn () :=
  let path := (prefix ++ kv.1)%string in
  match kv.2 with
  | PDict _ => _validate_leaf_types (path ++ ".")%string kv.2
  | v => if leaf_ok path v then Ok () else Err ValueError
  end.
Lemma leaf_types_each prefix p : _validate_leaf_types prefix (PDict p) = each (leaf_check prefix) p.
Proof.
  cbn [_validate_leaf_types]. induction p as [|[k v] p IH]; [done|]. cbn [each].
  rewrite IH. by destruct v.
Qed.
Lemma leaf_types_nodes prefix p :
  _validate_leaf_types prefix (PDict p) = Ok () ↔
  ∀ q v, node (PDict p) q v → is_dict v || leaf_ok (prefix ++ join "." q)%string v = true.
Proof.
  remember (PDict p) as P eqn:HP. revert prefix p HP.
  induction P as [| | | | | | |p' IH] using pyval_ind'; intros prefix p HP; try done. injection HP as ->.
  rewrite leaf_types_each, each_ok. rewrite Forall_forall in IH.
  assert (Hjoin : ∀ k q, node (PDict p) (k :: q) PNone ∨ True → q ≠ [] →
                         (prefix ++ join "." (k :: q) = ((prefix ++ k) ++ ".") ++ join "." q)%string).
  { intros k q _ Hq. destruct q as [|k' q]; [done|]. cbn [join]. by rewrite <- !str_app_assoc. }
  split.
  - intros Hall q v Hq. inversion Hq as [d k w Hin|d k w q' v' Hin Hb]; subst; specialize (Hall _ Hin);
      unfold leaf_check in Hall; cbn [fst snd] in Hall.
    + cbn [join]. destruct v; try done; cbn [is_dict orb]; by destruct (leaf_ok _ _).
    + destruct (node_is_below _ _ _ Hb) as (k' & q & ->). rewrite Hjoin by auto.
      destruct w as [| | | | | | |d]; try by inversion Hb. exact (proj1 (IH _ Hin _ d eq_refl) Hall _ _ Hb).
  - intros Hall [k v] Hin. unfold leaf_check. cbn [fst snd]. pose proof (Hall [k] v (node_at _ _ _ Hin)) as Hk. cbn [join] in Hk.
    destruct v as [| | | | | | |d]; try (cbn [is_dict orb] in Hk; by rewrite Hk).
    refine (proj2 (IH _ Hin _ d eq_refl) _). intros q v Hq. pose proof (Hall (k :: q) v (node_below _ _ _ _ _ Hin Hq)) as Hkq.
    destruct (node_is_below _ _ _ Hq) as (k' & q' & ->). by rewrite Hjoin in Hkq by auto.
Qed.

(** *** Values at a path *)
Definition sub (d : pydict) (k : string) : pydict := old_dict (dgetv d k).
Fixpoint at_path (d : pydict) (p : list string) : pyval :=
  match p with [] => PDict d | [k] => dgetv d k | k :: p => at_path (sub d k) p end.

Lemma wf_sub d k : wf (PDict d) → wf (PDict (sub d k)).
Proof.
  intros Hd. unfold sub, dgetv. destruct (dget d k) as [v|] eqn:Hk; cbn; [|by constructor; [constructor|]].
  apply dget_Some in Hk. pose proof (wf_item _ _ _ Hd Hk) as Hv. by destruct v; try (constructor; constructor).
Qed.
Lemma node_at_path d p v : wf (PDict d) → p ≠ [] → node (PDict d) p v → at_path d p = v.
Proof.
  revert d. induction p as [|k p IH]; intros d Hd Hne Hn; [done|]. pose proof Hd as [Hnd _]%wf_dict_inv.
  apply node_cons in Hn as (w & Hk & Hw); [|done]. destruct p as [|k' p]; [subst; cbn; unfold dgetv; by rewrite Hk|].
  change (at_path (sub d k) (k' :: p) = v). apply IH; [by apply wf_sub|done|]. unfold sub, dgetv. rewrite Hk.
  destruct w; try by inversion Hw. exact Hw.
Qed.
Lemma at_path_node d p : p ≠ [] → at_path d p = PNone ∨ node (PDict d) p (at_path d p).
Proof.
  revert d. induction p as [|k p IH]; intros d Hne; [done|]. destruct p as [|k' p].
  - cbn. unfold dgetv. destruct (dget d k) as [v|] eqn:Hk; [|by left]. right. constructor. by apply dget_Some.
  - change (at_path d (k :: k' :: p)) with (at_path (sub d k) (k' :: p)).
    destruct (IH (sub d k)) as [->|Hn]; [done|by left|]. right. unfold sub, dgetv in Hn |- *.
    destruct (dget d k) as [w|] eqn:Hk; cbn [default] in *; [|by inversion Hn as [d0 k0 v0 Hi|d0 k0 v0 p0 w0 Hi];
      apply not_elem_of_nil in Hi].
    destruct w as [| | | | | | |d']; try by inversion Hn as [d0 k0 v0 Hi|d0 k0 v0 p0 w0 Hi]; apply not_elem_of_nil in Hi.
    eapply node_below; [by apply dget_Some|exact Hn].
Qed.
Lemma every_at_path d p (P : pyval → Prop) :
  wf (PDict d) → p ≠ [] → P PNone → (∀ v, node (PDict d) p v → P v) ↔ P (at_path d p).
Proof.
  intros Hd Hp Hnone. split.
  - intros Hall. destruct (at_path_node d p Hp) as [->|Hn]; auto.
  - intros Ha v Hn. by rewrite <- (node_at_path d p v) by done.
Qed.

(** Where the schema has objects, a known document has objects. *)
Definition all_known (d : pydict) : Prop := ∀ p v, node (PDict d) p v → known (PDict DEFAULT_SETTINGS) p v = true.
Lemma get_dict_sub d k : (∀ v, (k, v) ∈ d → is_dict v = true) → WriteCalls.get_dict d k = Ok (sub d k).
Proof.
  intros Hd. unfold WriteCalls.get_dict, sub, dgetv. destruct (dget d k) as [v|] eqn:Hk; [|done].
  apply dget_Some, Hd in Hk. by destruct v.
Qed.
Lemma no_node p v : ¬ node (PDict []) p v.
Proof. intros Hn. inversion Hn; subst; by eapply not_elem_of_nil. Qed.
Lemma sub_node d k p v : node (PDict (sub d k)) p v → node (PDict d) (k :: p) v.
Proof.
  unfold sub, dgetv. destruct (dget d k) as [w|] eqn:Hk; [|by intros []%no_node].
  apply dget_Some in Hk. destruct w; cbn; try by intros []%no_node. intros Hn. by eapply node_below.
Qed.
Lemma unit_bind (m : res pyexn ()) (k : () → res pyexn ()) : m ≫= k = Ok () ↔ m = Ok () ∧ k () = Ok ().
Proof. rewrite res_bind_Ok. split; [by intros ([] & ? & ?)|]. intros [? ?]. by exists (). Qed.

Section Accepted.
Context `{Croniter} (d : pydict) (Hwf : wf (PDict d)).

Lemma section_known k v : all_known d → is_dict (dgetv DEFAULT_SETTINGS k) = true → (k, v) ∈ d → is_dict v = true.
Proof.
  intros Hk Hs Hin. pose proof (Hk _ _ (node_at _ _ _ Hin)) as Hv. cbn [known] in Hv.
  change (no_keys DEFAULT_SETTINGS) with false in Hv. cbn [orb] in Hv. apply andb_true_iff in Hv as [_ Hv].
  destruct (dgetv DEFAULT_SETTINGS k); done.
Qed.
Lemma section_sub k : all_known d → is_dict (dgetv DEFAULT_SETTINGS k) = true → WriteCalls.get_dict d k = Ok (sub d k).
Proof. intros Hk Hs. apply get_dict_sub. intros v. by apply section_known. Qed.

Lemma enums_at_paths :
  all_known d →
  _validate_governance_enums d = Ok () ↔
  check_enum (at_path d ["governance"; "pii"; "action"]) _PII_ACTIONS = Ok () ∧
  check_enum (at_path d ["governance"; "non_business"; "disposition"]) _NON_BUSINESS_DISPOSITIONS = Ok () ∧
  check_enum (at_path d ["governance"; "non_business"; "pregate"; "provider"]) _PREGATE_PROVIDERS = Ok () ∧
  check_confidence (at_path d ["governance"; "non_business"; "pregate"; "min_confidence"]) = Ok ().
Proof.
  intros Hk. cbn [at_path].
  unfold _validate_governance_enums.
  assert (Hgov : WriteCalls.get_dict d "governance" = Ok (sub d "governance")) by by apply section_sub.
  assert (Hpii : WriteCalls.get_dict (sub d "governance") "pii" = Ok (sub (sub d "governance") "pii")).
  { apply get_dict_sub. intros v Hi. exact (Hk _ _ (sub_node _ _ _ _ (node_at _ _ _ Hi))). }
  assert (Hnb : WriteCalls.get_dict (sub d "governance") "non_business" = Ok (sub (sub d "governance") "non_business")).
  { apply get_dict_sub. intros v Hi. exact (Hk _ _ (sub_node _ _ _ _ (node_at _ _ _ Hi))). }
  assert (Hpre : WriteCalls.get_dict (sub (sub d "governance") "non_business") "pregate" =
                 Ok (sub (sub (sub d "governance") "non_business") "pregate")).
  { apply get_dict_sub. intros v Hi. exact (Hk _ _ (sub_node _ _ _ _ (sub_node _ _ _ _ (node_at _ _ _ Hi)))). }
  destruct (dgetv d "governance") as [| | | | | | |gov] eqn:Hg;
    try (unfold sub; rewrite Hg; cbn; by repeat split);
  assert (sub d "governance" = gov) as Hs by (unfold sub; by rewrite Hg); rewrite Hs in *.
  rewrite Hpii. cbn [mbind res_bind]. rewrite unit_bind, Hnb. cbn [mbind res_bind]. rewrite unit_bind, Hpre.
  cbn [mbind res_bind]. rewrite unit_bind. tauto.
Qed.

Lemma profile_at_path :
  all_known d →
  _validate_default_search_profile d = Ok () ↔
  ∀ k v, node (PDict d) ["search"; "default_profile"; k] v → check_knob k v = Ok ().
Proof.
  intros Hk. unfold _validate_default_search_profile. rewrite section_sub by done. cbn [mbind res_bind].
  pose proof (wf_sub _ "search" Hwf) as Hs. pose proof (wf_sub _ "default_profile" Hs) as [Hdp _]%wf_dict_inv.
  assert (Hnode : ∀ k v, node (PDict d) ["search"; "default_profile"; k] v ↔
                         (k, v) ∈ sub (sub d "search") "default_profile").
  { intros k v. split; [|intros Hi; by apply sub_node, sub_node, node_at]. intros Hn.
    apply node_at_path in Hn as Hv; [|done..]. cbn [at_path] in Hv. apply wf_dict_inv in Hwf as [Hd _].
    apply wf_dict_inv in Hs as [Hsd _]. apply node_cons in Hn as (w & Hw & Hn); [|done].
    assert (w = PDict (sub d "search")) as ->.
    { unfold sub, dgetv. rewrite Hw. by destruct w; try by inversion Hn. }
    apply node_cons in Hn as (w2 & Hw2 & Hn); [|done].
    assert (w2 = PDict (sub (sub d "search") "default_profile")) as ->.
    { unfold sub at 1, dgetv. rewrite Hw2. by destruct w2; try by inversion Hn. }
    apply node_cons in Hn as (w3 & Hw3 & ->); [|done]. by apply dget_Some. }
  setoid_rewrite Hnode. unfold sub at 2. destruct (dget (sub d "search") "default_profile") as [dp|] eqn:Hget.
  - assert (Hdict : is_dict dp = true).
    { apply dget_Some in Hget. exact (Hk _ _ (sub_node _ _ _ _ (node_at _ _ _ Hget))). }
    unfold dgetv. rewrite Hget. cbn [default]. destruct dp as [| | | | | | |dp]; try done. cbn [old_dict].
    transitivity (∀ kv, kv ∈ dp → check_knob kv.1 kv.2 = Ok ()); [apply each_ok|].
    split; [intros Ha k v Hi; exact (Ha _ Hi)|intros Ha [k v] Hi; by apply Ha].
  - unfold dgetv. rewrite Hget. cbn. split; [by intros _ k v Hi%not_elem_of_nil|done].
Qed.
Lemma cron_at_path :
  all_known d →
  check_cron d = Ok () ↔
  at_path d ["security_audit"; "schedule_cron"] = PNone ∨ croniter (at_path d ["security_audit"; "schedule_cron"]) = Ok ().
Proof.
  intros Hk. unfold check_cron. rewrite section_sub by done. cbn [mbind res_bind at_path].
  destruct (dgetv (sub d "security_audit") "schedule_cron"); naive_solver.
Qed.

(** An update is accepted exactly when each of its nodes is: known to the
    schema and an object where the schema has one; if it is a leaf of a
    typed path, null or of that type and range; the governance values of
    their sets; every knob of the search profile of its type and range; the
    schedule a cron expression. *)
Theorem validate_accepts : validate d = Ok () ↔ valid d.
Proof.
  assert (Hkeys : _check_keys (PDict d) (PDict DEFAULT_SETTINGS) = Ok () ↔ all_known d).
  { apply check_keys_nodes. discriminate. }
  unfold validate. rewrite !unit_bind, Hkeys, leaf_types_nodes. cbn [String.append].
  split.
  - intros (Hk & Ht & He & Hp & Hc). apply enums_at_paths in He as (Ha & Hd' & Hpr & Hco); [|done].
    rewrite profile_at_path in Hp by done. apply cron_at_path in Hc; [|done].
    intros p v Hn. split; [by apply Hk|by apply Ht|..]; intros; subst p;
      try (apply node_at_path in Hn; [|done..]; by subst v). by apply Hp.
  - intros Hv. assert (Hk : all_known d) by (intros p v Hn; apply Hv, Hn). split_and!; [done|intros p v Hn; apply Hv, Hn|..].
    + apply enums_at_paths; [done|].
      split_and!; match goal with |- _ (at_path d ?p) _ = _ => pattern (at_path d p)
                  | |- _ (at_path d ?p) = _ => pattern (at_path d p) end;
        apply every_at_path; try done; intros v Hn; by apply (Hv _ _ Hn).
    + apply profile_at_path; [done|]. intros k v Hn. by apply (Hv _ _ Hn).
    + apply cron_at_path; [done|]. match goal with |- context [at_path d ?p] => pattern (at_path d p) end.
      apply every_at_path; [done|done|by left|]. intros v Hn. by apply (Hv _ _ Hn).
Qed.
End Accepted.

(** ** Stored settings stay valid *)
Section Closed.
Context `{Croniter}.

Lemma known_dict s p d1 d2 : known s p (PDict d1) = known s p (PDict d2).
Proof.
  revert s. induction p as [|k p IH]; intros s; [by destruct s|]. destruct s as [| | | | | | |s]; try done. cbn [known].
  destruct (dgetv s k); try done. destruct p; [done|]. by rewrite (IH (PDict d)).
Qed.
(** An object stands at a valid path exactly as any other would. *)
Lemma valid_node_dict p d1 w : is_dict w = true → valid_node p (PDict d1) → valid_node p w.
Proof.
  destruct w as [| | | | | | |d2]; try done. intros _ Hv. destruct Hv as [Hk Ht Ha Hd Hpr Hc Hkn Hcr]. split; try done.
  - by rewrite (known_dict _ _ _ d1).
  - intros Hp. destruct (Hcr Hp) as [?|Hok]; [done|]. destruct (croniter_object d1) as [e He]. congruence.
Qed.

Lemma valid_merge o n : wf (PDict o) → wf (PDict n) → valid o → valid n → valid (merge_items o n).
Proof.
  intros Ho Hn Hvo Hvn p w Hp. rewrite <- deep_merge_items in Hp.
  destruct (deep_merge_node _ _ _ _ Ho Hn Hp) as [Hw|[Hw|(Hw & d1 & d2 & Hw1 & _)]]; [by apply Hvo|by apply Hvn|].
  eapply valid_node_dict; [done|]. by apply Hvo, Hw1.
Qed.

Lemma dupdate_dget (a b : pydict) k :
  NoDup (dkeys b) → dget (dupdate a b) k = match dget b k with Some v => Some v | None => dget a k end.
Proof.
  unfold dupdate, dkeys. revert a. induction b as [|[k0 v0] b IH]; intros a Hnd; [done|].
  apply NoDup_cons in Hnd as [Hni Hnd]. cbn [foldl fst snd dget]. rewrite IH by done.
  destruct (String.eqb_spec k k0) as [->|Hne].
  - assert (Hn : dget b k0 = None) by (apply dget_None; exact Hni). by rewrite Hn, dget_dset.
  - by rewrite dget_dset_ne by done.
Qed.
Lemma dupdate_elem (a b : pydict) k v : (k, v) ∈ dupdate a b → (k, v) ∈ a ∨ (k, v) ∈ b.
Proof.
  unfold dupdate. revert a. induction b as [|[k0 v0] b IH]; intros a Hin; [by left|].
  destruct (IH _ Hin) as [Hd|Hb]; [|right; by right]. cbn in Hd.
  destruct (elem_dset _ _ _ _ _ Hd) as [[= -> ->]|Ha]; [right; by left|by left].
Qed.
Lemma dupdate_keys (a b : pydict) : NoDup (dkeys a) → NoDup (dkeys (dupdate a b)).
Proof.
  unfold dupdate. revert a. induction b as [|[k v] b IH]; intros a Ha; [done|]. by apply IH, dkeys_dset_NoDup.
Qed.
Lemma concat_wf a b : wf (PDict a) → wf (PDict b) → wf (PDict (jsonb_concat a b)).
Proof.
  intros Ha Hb. constructor; [apply dupdate_keys; by apply wf_dict_inv in Ha as []|]. apply Forall_forall.
  intros [k v] [Hi|Hi]%dupdate_elem; eauto using wf_item.
Qed.
Lemma concat_valid a b : valid a → valid b → valid (jsonb_concat a b).
Proof.
  intros Ha Hb p v Hn. inversion Hn as [d k w Hi|d k w p' w' Hi Hbel]; subst;
    destruct (dupdate_elem _ _ _ _ Hi) as [Hi'|Hi'];
    [apply Ha|apply Hb|apply Ha|apply Hb]; first [by constructor|by eapply node_below].
Qed.

Definition sound (d : pydict) : Prop := wf (PDict d) ∧ valid d.
Lemma empty_sound : sound [].
Proof. split; [by repeat constructor|]. intros p v []%no_node. Qed.
Lemma merge_sound o n : sound o → sound n → sound (deep_merge_dict o n).
Proof.
  intros [Ho Hvo] [Hn Hvn]. rewrite deep_merge_dict_items. split; [|by apply valid_merge].
  rewrite <- deep_merge_items. by apply deep_merge_wf.
Qed.
Lemma write_back_sound st current new by_ :
  (∀ r, row st = Some r → sound r) → sound current → sound new →
  ∀ r, row (write_back st current new by_).2 = Some r → sound r.
Proof.
  intros Hst Hc Hn r. unfold write_back. destruct (diff_settings current new); cbn; [apply Hst|].
  pose proof (merge_sound _ _ Hc Hn) as [Hm Hv].
  destruct (row st) as [r0|]; intros [= <-]; [|done]. destruct (Hst _ eq_refl) as [Hr Hvr].
  split; [by apply concat_wf|by apply concat_valid].
Qed.

(** C23. Whatever updates were accepted, one after the other or racing to
    create the row, the stored settings are what an update may be: every
    node of them is known and valid. *)
Theorem settings_stay_valid s :
  org_reachable (λ new, wf (PDict new) ∧ validate new = Ok ()) s →
  ∀ r, row (org s) = Some r → wf (PDict r) ∧ validate r = Ok ().
Proof.
  intros Hs. assert (Hinv : (∀ r, row (org s) = Some r → sound r) ∧ Forall (λ t, sound t.1) (unlocked s)).
  { induction Hs as [|s s' _ [Hr Hl] Hstep]; [by split|].
    assert (Hok : ∀ n, wf (PDict n) ∧ validate n = Ok () → sound n).
    { intros n [Hw Hv]. split; [done|]. by apply validate_accepts. }
    destruct Hstep as [st l new by_ Hnew|st l new by_ Hnew Hnone|st l1 l2 new by_]; cbn in *.
    - split; [|done]. apply write_back_sound; [done| |by apply Hok].
      destruct (row st) as [r|]; [by apply Hr|apply empty_sound].
    - split; [done|]. constructor; [by apply Hok|done].
    - apply Forall_app in Hl as [Hl1 Hl2]. inversion Hl2; subst. split; [|by apply Forall_app].
      apply write_back_sound; [done|apply empty_sound|done]. }
  intros r Hr. destruct Hinv as [Hinv _]. destruct (Hinv _ Hr) as [Hw Hv]. split; [done|]. by apply validate_accepts.
Qed.
End Closed.

(** ** An update, path by path *)
Fixpoint get (v : pyval) (p : list string) : option pyval :=
  match p with
  | [] => Some v
  | k :: p => match v with PDict d => w ← dget d k; get w p | _ => None end
  end.
(** The path runs through a value that is no object. *)
Fixpoint blocked (v : pyval) (p : list string) : bool :=
  match p with
  | [] => false
  | k :: p => match v with PDict d => match dget d k with Some w => blocked w p | None => false end | _ => true end
  end.

(** The value at a path after a merge: that of the new settings if they have
    a leaf there, the merge if they have an object, nothing below a new leaf,
    and else what was there. *)
Definition merged_at (o n : pyval) (p : list string) : option pyval :=
  match get n p with
  | Some (PDict d) => Some match get o p with Some (PDict d') => deep_merge (PDict d') (PDict d) | _ => PDict d end
  | Some v => Some v
  | None => if blocked n p then None else get o p
  end.
Lemma deep_merge_get o n p : wf n → get (deep_merge o n) p = merged_at o n p.
Proof.
  unfold merged_at. revert o n. induction p as [|k p IH]; intros o n Hn.
  - cbn [get]. destruct n; by destruct o.
  - destruct n as [| | | | | | |n]; try (by destruct o). destruct o as [| | | | | | |o].
    8: { rewrite deep_merge_items. cbn [get blocked]. rewrite merge_items_dget by by apply wf_dict_inv in Hn as [].
         destruct (dget n k) as [v|] eqn:Hk; cbn [mbind option_bind]; [|done].
         apply dget_Some in Hk. pose proof (wf_item _ _ _ Hn Hk) as Hv. unfold merged_entry.
         destruct v as [| | | | | | |d]; try (by destruct p). destruct (dget o k) as [w|] eqn:Hok; cbn [mbind option_bind].
         - destruct w; try (rewrite <- IH by done; cbn [deep_merge]; done).
         - destruct (get (PDict d) p) as [[]|]; try done. by destruct (blocked _ p). }
    all: cbn [deep_merge get blocked mbind option_bind]; destruct (dget n k) as [v|]; cbn; [|done];
      destruct (get v p) as [[]|]; try done; by destruct (blocked v p).
Qed.

(** *** The audit row *)
Definition leaf_of (n : pydict) (p : list string) (v : pyval) : Prop := node (PDict n) p v ∧ is_dict v = false.
Definition leaf_changes (old n : pydict) (p : list string) (v : pyval) : Prop :=
  leaf_of n p v ∧ py_eqb v (at_path old p) = false.

(** What one entry adds to the difference. *)
Definition diff_item (old : pydict) (prefix : string) (out : pydict) (kv : string * pyval) : pydict :=
  let path := (prefix ++ kv.1)%string in
  let old_v := dgetv old kv.1 in
  match kv.2 with
  | PDict _ => dupdate out (diff_from (old_dict old_v) (path ++ ".")%string kv.2)
  | v => if py_eqb v old_v then out else dset out path (PList [old_v; v])
  end.
Lemma diff_items old prefix n : diff_from old prefix (PDict n) = foldl (diff_item old prefix) [] n.
Proof.
  cbn [diff_from]. generalize (@nil (string * pyval)). induction n as [|[k v] n IH]; intros out; [done|].
  cbn [foldl]. rewrite <- IH. unfold diff_item. cbn [fst snd]. by destruct v.
Qed.
Lemma dkeys_elem (d : pydict) k : k ∈ dkeys d ↔ ∃ v, (k, v) ∈ d.
Proof. unfold dkeys. rewrite list_elem_of_fmap. split; [intros ([k' v] & -> & Hi); by exists v|intros [v Hi]; by exists (k, v)]. Qed.
Lemma dset_keeps (d : pydict) k x k' : k' ∈ dkeys d → k' ∈ dkeys (dset d k x).
Proof.
  unfold dkeys. induction d as [|[k0 v0] d IH]; cbn; [by intros []%not_elem_of_nil|].
  destruct (String.eqb k k0); cbn; rewrite !elem_of_cons; naive_solver.
Qed.
Lemma dset_has (d : pydict) k x : k ∈ dkeys (dset d k x).
Proof. apply dkeys_elem. exists x. apply dget_Some, dget_dset. Qed.
Lemma dupdate_keeps (a b : pydict) k : k ∈ dkeys a ∨ k ∈ dkeys b → k ∈ dkeys (dupdate a b).
Proof.
  unfold dupdate. revert a. induction b as [|[k0 v0] b IH]; intros a; [by intros [?|[]%not_elem_of_nil]|].
  intros Hk. apply IH. cbn in *. rewrite elem_of_cons in Hk.
  destruct Hk as [Hk|[->|Hk]]; [left; by apply dset_keeps|left; apply dset_has|by right].
Qed.
Lemma prefix_join prefix k q :
  q ≠ [] → (prefix ++ join "." (k :: q) = ((prefix ++ k) ++ ".") ++ join "." q)%string.
Proof. destruct q as [|k' q]; [done|]. intros _. cbn [join]. by rewrite <- !str_app_assoc. Qed.

Lemma diff_item_keeps old prefix n out k : k ∈ dkeys out → k ∈ dkeys (foldl (diff_item old prefix) out n).
Proof.
  revert out. induction n as [|[k0 v] n IH]; intros out Hk; [done|]. apply IH. unfold diff_item. cbn [fst snd].
  destruct v; try (destruct (py_eqb _ _); [done|by apply dset_keeps]). apply dupdate_keeps. by left.
Qed.
(** Every entry of the difference is of a changed leaf, with both values. *)
Lemma diff_sound old prefix n path x :
  (path, x) ∈ diff_from old prefix (PDict n) →
  ∃ p v, leaf_changes old n p v ∧ path = (prefix ++ join "." p)%string ∧ x = PList [at_path old p; v].
Proof.
  remember (PDict n) as N eqn:HN. revert old prefix n path x HN.
  induction N as [| | | | | | |n' IH] using pyval_ind'; intros old prefix n path x HN; try done. injection HN as ->.
  rewrite diff_items. rewrite Forall_forall in IH.
  assert (Hgen : ∀ l out, (∀ kv, kv ∈ l → kv ∈ n) → (path, x) ∈ foldl (diff_item old prefix) out l →
    (path, x) ∈ out ∨ ∃ p v, leaf_changes old n p v ∧ path = (prefix ++ join "." p)%string ∧ x = PList [at_path old p; v]).
  { induction l as [|[k v] l IHl]; intros out Hl Hin; [by left|].
    destruct (IHl _ ltac:(intros; apply Hl; by right) Hin) as [Hd|?]; [|by right].
    assert (Hk : (k, v) ∈ n) by (apply Hl; by left). unfold diff_item in Hd. cbn [fst snd] in Hd.
    destruct v as [| | | | | | |d] eqn:Hv; rewrite <- Hv in *;
      try (destruct (py_eqb v (dgetv old k)) eqn:He; [by left|]; apply elem_dset in Hd as [[= -> ->]|Hd]; [|by left];
           right; exists [k], v; split_and!; [split; [split; [by constructor|by subst v]|exact He]|done|done]).
    rewrite Hv in Hd. apply dupdate_elem in Hd as [Hd|Hd]; [by left|]. right. rewrite Hv in Hk.
    destruct (IH _ Hk _ _ _ _ _ eq_refl Hd) as (p & w & [[Hn Hw] He] & -> & ->).
    apply node_is_below in Hn as Hp. destruct Hp as (k' & q & ->). exists (k :: k' :: q), w.
    rewrite (prefix_join prefix k (k' :: q)) by done. split_and!; [|done|done]. split; [split; [by eapply node_below|done]|exact He]. }
  intros Hin. destruct (Hgen n [] ltac:(done) Hin) as [Hnil|?]; [by apply not_elem_of_nil in Hnil|done].
Qed.
(** Every changed leaf has an entry. *)
Lemma diff_complete old prefix n p v :
  leaf_changes old n p v → (prefix ++ join "." p)%string ∈ dkeys (diff_from old prefix (PDict n)).
Proof.
  remember (PDict n) as N eqn:HN. revert old prefix n p HN.
  induction N as [| | | | | | |n' IH] using pyval_ind'; intros old prefix n p HN; try done. injection HN as ->.
  rewrite Forall_forall in IH. intros [[Hn Hv] He]. rewrite diff_items.
  assert (Hgen : ∀ k w l out, (k, w) ∈ l →
    (∀ o, (prefix ++ join "." p)%string ∈ dkeys (diff_item old prefix o (k, w))) →
    (prefix ++ join "." p)%string ∈ dkeys (foldl (diff_item old prefix) out l)).
  { intros k w l. induction l as [|kv l IHl]; intros out Hin Hadd; [by apply not_elem_of_nil in Hin|]. cbn [foldl].
    apply elem_of_cons in Hin as [<-|Hin]; [apply diff_item_keeps, Hadd|by apply IHl]. }
  inversion Hn as [d k w Hin|d k w q v' Hin Hb]; subst; apply (Hgen _ _ _ _ Hin); intros o; unfold diff_item; cbn [fst snd].
  - cbn [at_path] in He. destruct v; try done; rewrite He; apply dset_has.
  - destruct (node_is_below _ _ _ Hb) as (k' & q' & ->). rewrite (prefix_join prefix k (k' :: q')) by done.
    destruct w as [| | | | | | |d]; try by inversion Hb. apply dupdate_keeps. right.
    apply (IH _ Hin _ _ d); [done|]. by split.
Qed.
Lemma diff_empty old n : diff_settings old n = [] ↔ ∀ p v, leaf_of n p v → py_eqb v (at_path old p) = true.
Proof.
  unfold diff_settings. split.
  - intros Hd p v Hl. apply not_false_iff_true. intros He.
    assert (Hc : leaf_changes old n p v) by done. apply (diff_complete old "") in Hc. rewrite Hd in Hc.
    by apply not_elem_of_nil in Hc.
  - intros Hall. destruct (diff_from old "" (PDict n)) as [|[path x] l] eqn:Hd; [done|].
    destruct (diff_sound old "" n path x) as (p & v & [Hl He] & _); [rewrite Hd; by left|]. by rewrite Hall in He.
Qed.

Lemma concat_merge_get r n p :
  NoDup (dkeys r) → NoDup (dkeys n) → p ≠ [] →
  get (PDict (jsonb_concat r (merge_items r n))) p = get (PDict (merge_items r n)) p.
Proof.
  intros Hr Hn Hp. destruct p as [|k p]; [done|]. cbn [get]. unfold jsonb_concat.
  rewrite dupdate_dget by by apply merge_items_keys. rewrite merge_items_dget by done.
  destruct (dget n k); [done|]. by destruct (dget r k).
Qed.


(** ** What is resolved from stored settings *)
Section Resolves.
Context `{Croniter} (ts : pydict) (Hts : sound ts).

Lemma sound_known : all_known ts.
Proof. intros p v Hn. by apply Hts, Hn. Qed.
Lemma setting_at section key :
  is_dict (dgetv DEFAULT_SETTINGS section) = true → setting ts section key = Ok (at_path ts [section; key]).
Proof.
  intros Hs. unfold setting. by rewrite (section_sub ts _ sound_known Hs).
Qed.
Lemma at_valid p : p ≠ [] → at_path ts p = PNone ∨ valid_node p (at_path ts p).
Proof. intros Hp. destruct (at_path_node ts p Hp) as [?|Hn]; [by left|]. right. by apply Hts. Qed.
Lemma leaf_typed section key v types :
  is_dict (dgetv DEFAULT_SETTINGS section) = true → dget _LEAF_TYPES (join "." [section; key]) = Some types →
  setting ts section key = Ok v →
  v = PNone ∨ is_dict v = true ∨
  negb (is_bool v && negb (allows_bool types)) && existsb (isinstance v) types && in_range (join "." [section; key]) v = true.
Proof.
  intros Hs Ht Hv. rewrite setting_at in Hv by done. assert (v = at_path ts [section; key]) as -> by congruence. clear Hv.
  destruct (at_valid [section; key] ltac:(done)) as [?|Hn]; [by left|]. apply node_typed in Hn. revert Hn.
  generalize (at_path ts [section; key]). intros w. unfold leaf_ok. rewrite Ht.
  intros [?|Hl]%orb_true_iff; [by auto|]. destruct w; auto.
Qed.

(** A switch is a boolean, or an object where the check of leaves lets one
    pass. *)
Definition switched (r : res pyexn pyval) : Prop := ∃ v, r = Ok v ∧ is_bool v || is_dict v = true.
Lemma switch_typed section key dflt :
  is_dict (dgetv DEFAULT_SETTINGS section) = true → dget _LEAF_TYPES (join "." [section; key]) = Some [TBool] →
  switched (switch ts section key dflt).
Proof.
  intros Hs Ht. unfold switch. destruct (setting ts section key) as [v|] eqn:Hv; [|by rewrite setting_at in Hv].
  cbn [mbind res_bind]. eexists. split; [done|].
  destruct (leaf_typed _ _ _ _ Hs Ht Hv) as [->|[Hd|Hb]]; [done|by destruct v|]. by destruct v.
Qed.

Lemma enum_text v l : check_enum v l = Ok () → v = PNone ∨ ∃ s, v = PStr s ∧ s ∈ l.
Proof.
  destruct v as [| | | |s| | |]; try done; [by left|]. cbn. destruct (str_mem s l) eqn:Hs; [|done].
  intros _. right. exists s. by rewrite str_mem_spec in Hs.
Qed.
Lemma confidence_unit v : check_confidence v = Ok () → v = PNone ∨ ∃ q, py_num v = Some q ∧ (0 <= q)%Q ∧ (q <= 1)%Q.
Proof.
  unfold check_confidence. intros Hc. assert (Hv : v = PNone ∨ ∃ r, py_num v = Some r ∧ Qle_bool 0 r && Qle_bool r 1 = true).
  { destruct (py_num v) as [r|] eqn:Hr; [|destruct v; try done; by left]. right. exists r. split; [done|].
    destruct v; try done; by destruct (Qle_bool 0 r && Qle_bool r 1). }
  destruct Hv as [?|(r & Hr & [H0 H1]%andb_true_iff)]; [by left|]. right. exists r.
  split_and!; [done|by apply Qle_bool_iff..].
Qed.
Lemma or_text v l dflt :
  check_enum v l = Ok () → dflt ∈ l → "" ∉ l → ∃ s, WriteCalls.py_or v (PStr dflt) = PStr s ∧ s ∈ l.
Proof.
  intros Hv Hd Hne. apply enum_text in Hv as [->|(s & -> & Hs)]; [by exists dflt|]. exists s. split; [|done].
  unfold WriteCalls.py_or. cbn. by destruct s.
Qed.

Lemma knob_kept k v : check_knob k v = Ok () → ∃ v', clean_knob k v = Ok (Some v') ∧ check_knob k v' = Ok ().
Proof.
  unfold check_knob, clean_knob. destruct (dget _SEARCH_PROFILE_RULES k) as [[t [lo hi]]|] eqn:Hk; [|done].
  intros (w & Hw & Hc)%res_bind_Ok.
  destruct (is_bool w || negb (isinstance w t)) eqn:Ht; [done|]. apply orb_false_iff in Ht as [Hb Ht].
  destruct (py_num w) as [q|] eqn:Hq; [|done].
  destruct (Qle_bool lo q && Qle_bool q hi) eqn:Hr; [|done]. pose proof Hr as [Hlo Hhi]%andb_true_iff.
  exists w. split.
  - assert (Hv : match v with
                 | PInt z => if is_float t then float_of_int z else Ok v
                 | PBool b => if is_float t then float_of_int (Z.b2z b) else Ok v
                 | _ => Ok v
                 end = Ok w) by (destruct v; try exact Hw; injection Hw as <-; done).
    rewrite Hv. cbn [mbind res_bind]. by rewrite Ht, Hq, Hlo, Hhi.
  - assert (Hv : match w with PInt z => if is_float t then float_of_int z else Ok w | _ => Ok w end = Ok w).
    { destruct w; try done. destruct t; done. }
    rewrite Hv. cbn [mbind res_bind]. by rewrite Hb, Ht, Hq, Hr.
Qed.

(** The sections of the governance settings. *)
Lemma governance_sections :
  WriteCalls.get_dict ts "governance" = Ok (sub ts "governance") ∧
  WriteCalls.get_dict (sub ts "governance") "pii" = Ok (sub (sub ts "governance") "pii") ∧
  WriteCalls.get_dict (sub (sub ts "governance") "pii") "categories" =
    Ok (sub (sub (sub ts "governance") "pii") "categories") ∧
  WriteCalls.get_dict (sub ts "governance") "non_business" = Ok (sub (sub ts "governance") "non_business") ∧
  WriteCalls.get_dict (sub (sub ts "governance") "non_business") "pregate" =
    Ok (sub (sub (sub ts "governance") "non_business") "pregate").
Proof.
  pose proof sound_known as Hk. split_and!; [by apply (section_sub ts)| | | |]; apply get_dict_sub; intros v Hi;
    exact (Hk _ _ ltac:(first [apply sub_node, sub_node, node_at, Hi | apply sub_node, node_at, Hi])).
Qed.
Lemma governance_values :
  check_enum (at_path ts ["governance"; "pii"; "action"]) _PII_ACTIONS = Ok () ∧
  check_enum (at_path ts ["governance"; "non_business"; "disposition"]) _NON_BUSINESS_DISPOSITIONS = Ok () ∧
  check_enum (at_path ts ["governance"; "non_business"; "pregate"; "provider"]) _PREGATE_PROVIDERS = Ok () ∧
  check_confidence (at_path ts ["governance"; "non_business"; "pregate"; "min_confidence"]) = Ok ().
Proof.
  apply enums_at_paths; [apply sound_known|]. destruct Hts as [Hw Hv]. apply validate_accepts in Hv; [|done].
  unfold validate in Hv. by repeat setoid_rewrite unit_bind in Hv; destruct Hv as (_ & _ & He & _).
Qed.
Lemma pii_resolves cfg : WriteCalls._ts cfg = ts →
  ∃ pii a, WriteCalls.governance_pii cfg = Ok pii ∧ WriteCalls.action pii = PStr a ∧ a ∈ _PII_ACTIONS.
Proof.
  intros Hcfg. destruct governance_sections as (Hg & Hp & Hc & _). destruct governance_values as (Ha & _).
  apply (or_text _ _ "flag") in Ha as (a & Ha & Hin); [|literals..].
  unfold WriteCalls.governance_pii. rewrite Hcfg, Hg. cbn [mbind res_bind]. rewrite Hp. cbn [mbind res_bind].
  rewrite Hc. cbn [mbind res_bind]. eexists _, a. by split_and!.
Qed.
Lemma non_business_resolves cfg : WriteCalls._ts cfg = ts →
  ∃ nb d, WriteCalls.governance_non_business cfg = Ok nb ∧ WriteCalls.disposition nb = PStr d ∧
          d ∈ _NON_BUSINESS_DISPOSITIONS.
Proof.
  intros Hcfg. destruct governance_sections as (Hg & _ & _ & Hn & _). destruct governance_values as (_ & Hd & _).
  apply (or_text _ _ "store") in Hd as (d & Hd & Hin); [|literals..].
  unfold WriteCalls.governance_non_business. rewrite Hcfg, Hg. cbn [mbind res_bind]. rewrite Hn. cbn [mbind res_bind].
  eexists _, d. by split_and!.
Qed.
Lemma pregate_resolves cfg : WriteCalls._ts cfg = ts →
  ∃ pre, WriteCalls.governance_non_business_pregate cfg = Ok pre ∧
         (∀ p, WriteCalls.pregate_provider pre = Some p → p ∈ _PREGATE_PROVIDERS) ∧
         (WriteCalls.min_confidence pre = PNone ∨
          ∃ q, py_num (WriteCalls.min_confidence pre) = Some q ∧ (0 <= q)%Q ∧ (q <= 1)%Q).
Proof.
  intros Hcfg. destruct governance_sections as (Hg & _ & _ & Hn & Hpre). destruct governance_values as (_ & _ & Hp & Hc).
  unfold WriteCalls.governance_non_business_pregate. rewrite Hcfg, Hg. cbn [mbind res_bind]. rewrite Hn.
  cbn [mbind res_bind]. rewrite Hpre. cbn [mbind res_bind]. eexists. split_and!; [done| |].
  - cbn [WriteCalls.pregate_provider]. cbn [at_path] in Hp. intros p Hsome.
    apply enum_text in Hp as [Hnone|(s & Hs & Hin)]; [by rewrite Hnone in Hsome|]. rewrite Hs in Hsome. cbn in Hsome.
    destruct (String.eqb s ""); [done|]. by injection Hsome as <-.
  - cbn [WriteCalls.min_confidence]. by apply confidence_unit.
Qed.
Lemma retention_resolves :
  ∃ v, memory_retention_days ts = Ok v ∧ (is_dict v = true ∨ ∃ z, v = PInt z ∧ (1 <= z <= 30)%Z).
Proof.
  unfold memory_retention_days. destruct (setting ts "lifecycle" "memory_retention_days") as [v|] eqn:Hv;
    [|by rewrite setting_at in Hv]. cbn [mbind res_bind]. eexists. split; [done|].
  destruct (leaf_typed "lifecycle" "memory_retention_days" v [TInt] eq_refl eq_refl Hv) as [->|[Hd|Hb]];
    [right; exists 30%Z; split; [done|lia]|left; by destruct v|].
  right. destruct v as [|b|z|q|s|t|l|d]; try done. exists z. split; [done|].
  apply andb_true_iff in Hb as [_ Hr]. unfold in_range in Hr. cbn [py_num] in Hr.
  change (dget _LEAF_RANGES _) with (Some (1, 30)%Z) in Hr. apply andb_true_iff in Hr as [H1 H2].
  apply Qle_bool_iff in H1, H2. unfold Qle, inject_Z in H1, H2. cbn in H1, H2. lia.
Qed.
Lemma profile_resolves : ∃ prof, default_search_profile ts = Ok prof ∧ ∀ k v, (k, v) ∈ prof → check_knob k v = Ok ().
Proof.
  assert (Hnil : ∃ prof : pydict, (Ok [] : res pyexn pydict) = Ok prof ∧ ∀ k v, (k, v) ∈ prof → check_knob k v = Ok ()).
  { exists []. split; [done|]. by intros k v []%not_elem_of_nil. }
  unfold default_search_profile. rewrite setting_at by done. cbn [mbind res_bind].
  destruct (at_path_node ts ["search"; "default_profile"]) as [->|Hn]; [done|done|].
  assert (Hd : is_dict (at_path ts ["search"; "default_profile"]) = true) by exact (node_known _ _ (proj2 Hts _ _ Hn)). revert Hn Hd. generalize (at_path ts ["search"; "default_profile"]).
  intros w Hn Hd. destruct w as [| | | | | | |d]; try done. destruct (truthy (PDict d)); [|done].
  assert (Hd' : ∀ k v, (k, v) ∈ d → check_knob k v = Ok ()).
  { intros k v Hi. apply (node_knob ["search"; "default_profile"; k]); [|done]. apply (proj2 Hts).
    inversion Hn as [|d0 k0 w0 p0 v0 Hin Hb]; subst. eapply node_below; [exact Hin|].
    inversion Hb as [d1 k1 w1 Hin1|d1 k1 w1 p1 v1 Hin1 Hb1]; subst; [|by inversion Hb1].
    eapply node_below; [exact Hin1|]. by constructor. }
  clear Hn Hd. unfold validate_search_profile. induction d as [|[k v] d IH]; [done|].
  destruct IH as (prof & Hprof & Hall); [intros; apply Hd'; by right|].
  destruct (knob_kept k v) as (v' & Hc & Hok); [apply Hd'; by left|]. exists ((k, v') :: prof). split.
  - assert (He : clean_entry (k, v) = Ok (Some (k, v'))) by (unfold clean_entry; cbn [fst snd]; by rewrite Hc).
    cbn [collect]. rewrite He. cbn [mbind res_bind]. by rewrite Hprof.
  - intros k0 v0 [[= -> ->]|Hi]%elem_of_cons; [done|by apply Hall].
Qed.

End Resolves.

(** ** The order of an update *)
Section Update.
Context `{World} `{Croniter}.

(** An update reaches storage only when it is valid; a change evicts this
    process's cached settings before it is broadcast, and a broadcast that
    fails does not fail the update. *)
Theorem update_settings_order tenant new by_ :
  leaves (update_settings tenant new by_) (λ ev r,
    (∃ e, validate new = Err e ∧ ev = [] ∧ r = Err (Raised e)) ∨
    validate new = Ok () ∧
    (ev = [Called (UpdateOrgSettings tenant new by_)] ∨
     ev = [Called (PublishSettingsChanged tenant); Read (CachePop tenant); Called (UpdateOrgSettings tenant new by_)] ∧
     (is_ok r = true ∨ r = Err Cancelled))).
Proof.
  unfold update_settings. destruct (validate new) as [[]|e] eqn:Hv.
  2: { eapply leaves_bind; [by apply (leaves_lift _ (λ n r, n = [] ∧ r = Err (Raised e)))| |].
       - by intros n a [_ ?].
       - intros n e' [-> [= ->]]. left. by exists e. }
  eapply leaves_bind; [by apply (leaves_lift _ (λ n r, n = [] ∧ r = Ok ()))| |by intros n e [_ ?]].
  intros n a [-> _].
  eapply leaves_bind; [by apply (leaves_perform _ (λ n _, n = [Called (UpdateOrgSettings tenant new by_)]))| |].
  2: { intros n e ->. right. split; [done|by left]. }
  intros n [merged changed] ->. destruct (negb changed); [apply leaves_ret; right; split; [done|by left]|].
  eapply leaves_bind; [by apply (leaves_observed _ (λ n r, n = [Read (CachePop tenant)] ∧ is_ok r = true))| |by intros n e [_ ?]].
  intros n u [-> _].
  apply (leaves_bind _ _ (λ n r, n = [Called (PublishSettingsChanged tenant)] ∧ (is_ok r = true ∨ r = Err Cancelled))).
  - apply (leaves_try _ _ _ (λ n _, n = [Called (PublishSettingsChanged tenant)])); [by apply leaves_perform| |].
    + intros n x ->. apply leaves_ret. by auto.
    + intros n [] ->; first [apply leaves_raise|apply leaves_ret]; (split; [done|]); by auto.
  - intros n x [-> _]. apply leaves_ret. right. split; [done|]. right. split; [done|by left].
  - intros n e [-> He]. right. split; [done|]. right. split; [done|]. destruct He as [?|[= ->]]; [done|by right].
Qed.
End Update.

(** ** Concrete settings *)
Module Examples.
#[local] Instance text_instance : PyText := AsciiText.
#[local] Instance cron_instance : Croniter.
Proof.
  refine {| croniter := λ v, match v with
                             | PStr s => if String.eqb s "0 3 * * *" then Ok () else Err ValueError
                             | _ => Err AttributeError
                             end |}.
  intros d. by eexists.
Defined.

Definition masking : pydict :=
  [("governance", PDict [("pii", PDict [("enabled", PBool true); ("action", PStr "mask")])]);
   ("search", PDict [("default_profile", PDict [("min_similarity", PInt 0)]); ("recall_boost", PBool false)])].
Definition retention (days : Z) : pydict :=
  [("lifecycle", PDict [("memory_retention_days", PInt days)]); ("governance", PDict [("pii", PDict [("action", PStr "drop")])])].

(** Objects whose keys can be seen to differ. *)
Fixpoint wfb (v : pyval) : bool :=
  match v with
  | PDict d =>
      bool_decide (NoDup (dkeys d)) &&
      (fix go (d : pydict) : bool := match d with [] => true | (_, v) :: d => wfb v && go d end) d
  | _ => true
  end.
Lemma wfb_wf v : wfb v = true → wf v.
Proof.
  induction v as [| | | | | | |d IH] using pyval_ind'; try (intros _; by apply wf_leaf).
  cbn [wfb]. intros [Hd%bool_decide_eq_true Hgo]%andb_true_iff. constructor; [done|]. clear Hd.
  induction IH as [|[k v] d Hv _ IHd]; constructor; apply andb_true_iff in Hgo as [H1 H2]; auto.
Qed.
Ltac wf_by_eval := apply wfb_wf; vm_compute; reflexivity.

Lemma validate_accepts_witness :
  wf (PDict (retention 7)) ∧ validate (retention 7) = Ok () ∧ valid (retention 7).
Proof.
  assert (Hw : wf (PDict (retention 7))) by wf_by_eval.
  assert (Hv : validate (retention 7) = Ok ()) by (vm_compute; reflexivity).
  split; [exact Hw|]. split; [exact Hv|]. exact (proj1 (validate_accepts (retention 7) Hw) Hv).
Defined.
Example refusals :
  validate (retention 31) = Err ValueError ∧ validate [("retention", PInt 7)] = Err ValueError ∧
  validate [("lifecycle", PNone)] = Err ValueError ∧
  validate [("security_audit", PDict [("schedule_cron", PStr "daily")])] = Err ValueError ∧
  validate masking = Err ValueError.
Proof. vm_compute. repeat split. Qed.

Definition accepted (new : pydict) : Prop := wf (PDict new) ∧ validate new = Ok ().
Lemma settings_stay_valid_witness :
  ∃ r, org_reachable accepted {| org := {| row := Some r; audit := [(None, diff_settings [] (retention 7))] |}; unlocked := [] |} ∧
       wf (PDict r) ∧ validate r = Ok ().
Proof.
  assert (Ha : accepted (retention 7)) by (split; [wf_by_eval|vm_compute; reflexivity]).
  assert (Hr : org_reachable accepted
    {| org := {| row := Some (retention 7); audit := [(None, diff_settings [] (retention 7))] |}; unlocked := [] |}).
  { exact (org_next _ _ _ (org_start _) (update_whole _ {| row := None; audit := [] |} [] (retention 7) None Ha)). }
  exists (retention 7). split; [exact Hr|]. exact (settings_stay_valid _ Hr (retention 7) eq_refl).
Defined.


Definition example_config (ts : pydict) : WriteCalls.ResolvedConfig :=
  {| WriteCalls._ts := ts; WriteCalls.enrichment_enabled := true; WriteCalls.enrichment_provider := "openai";
     WriteCalls.enrichment_model := None; WriteCalls.entity_extraction_enabled := false;
     WriteCalls.entity_extraction_provider := ""; WriteCalls.entity_extraction_model := None;
     WriteCalls.semantic_dedup_enabled := false; WriteCalls.auto_chunk_enabled := false;
     WriteCalls.triple_emission_enabled := false; WriteCalls.default_write_mode := "fast" |}.

(** An object passes the check of a typed leaf, and reads as the switch. *)
Example object_for_a_switch :
  let new := [("search", PDict [("recall_boost", PDict [])])] in
  validate new = Ok () ∧ recall_boost new = Ok (PDict []).
Proof. vm_compute. repeat split. Qed.
(** As an action it ends the request with an exception that is no refusal. *)
Example object_for_an_action :
  validate [("governance", PDict [("pii", PDict [("action", PDict [])])])] = Err TypeError.
Proof. vm_compute. reflexivity. Qed.
(** The elements of lists are not checked: a number in the blocklist fails
    every read of it. *)
Example number_in_blocklist :
  let new := [("entity_blocklist", PList [PInt 1])] in
  validate new = Ok () ∧ entity_blocklist new = Err AttributeError.
Proof. vm_compute. repeat split. Qed.
(** The switches of the models have no type: a text turns one on. *)
Example text_for_a_switch :
  validate [("enrichment", PDict [("enabled", PStr "no")])] = Ok ().
Proof. vm_compute. reflexivity. Qed.

(** Two first updates of one section: both are audited as applied, and what
    the first set is gone. *)
Definition set_provider : pydict := [("enrichment", PDict [("provider", PStr "gemini")])].
Definition set_model : pydict := [("enrichment", PDict [("model", PStr "small")])].
Example first_updates_race :
  ∃ s, org_reachable accepted s ∧ unlocked s = [] ∧
       row (org s) = Some [("enrichment", PDict [("model", PStr "small")])] ∧
       map snd (audit (org s)) =
         [[("enrichment.provider", PList [PNone; PStr "gemini"])]; [("enrichment.model", PList [PNone; PStr "small"])]].
Proof.
  assert (Hp : accepted set_provider) by (split; [wf_by_eval|vm_compute; reflexivity]).
  assert (Hm : accepted set_model) by (split; [wf_by_eval|vm_compute; reflexivity]).
  pose (st0 := {| row := None; audit := [] |}).
  pose proof (org_next _ _ _ (org_start accepted) (first_read _ st0 [] set_provider None Hp eq_refl)) as H1.
  pose proof (org_next _ _ _ H1 (first_read _ st0 [(set_provider, None)] set_model None Hm eq_refl)) as H2.
  pose proof (org_next _ _ _ H2 (first_write _ st0 [(set_model, None)] [] set_provider None)) as H3.
  pose proof (org_next _ _ _ H3 (first_write _ (write_back st0 [] set_provider None).2 [] [] set_model None)) as H4.
  eexists. split; [exact H4|]. vm_compute. repeat split.
Qed.
End Examples.
End Settings.
